(* ===== verification/_CoqProject ===== *)
-Q . S2P
Prelude.v
StdMap.v
FrameHeader.v
Metadata.v
Varint.v
FrameCodec.v
NetBuffer.v
EventLoop.v
EventLoopFacts.v
EventLoopIo.v
TcpConnection.v
TcpConnectionFacts.v
TcpConnectionLife.v
Chars.v
Socket.v
SocketFacts.v
Acceptor.v
AcceptorFacts.v
TcpServer.v
TcpServerFacts.v
Reactor.v
RpcMessage.v
RpcServer.v
RpcServerFacts.v
WorkQueue.v
WorkQueueFacts.v
RpcIo.v
RpcIoFacts.v
RpcCrash.v
RpcLedger.v
RpcTcp.v
RpcTcpFacts.v
RpcTcpLive.v
RpcTcpServes.v
RpcReactor.v
RpcReactorSteps.v
RpcReactorFacts.v
RpcReactorServer.v
RpcReactorCalls.v
RpcReactorRuns.v
RpcReactorLive.v
RpcReactorTurns.v
RpcReactorTheorems.v
RpcClient.v
RpcClientFacts.v
RpcClientAsync.v
RpcEndToEnd.v
ServiceMain.v
EchoService.v
ServiceMainFacts.v
JsonNumber.v
Json.v
JsonParser.v
JsonFacts.v
JsonTypes.v
ToolRegistry.v
ToolRegistryFacts.v
McpServer.v
McpServerFacts.v
WeatherService.v
McpGateway.v
WeatherEndToEnd.v
