(* ===== verification/Prelude.v ===== *)
(** * A verification of NexusRPC

    NexusRPC is a C++ library with three layers: a reactor for non-blocking TCP
    (src/net), an RPC protocol with a server and a client (src/rpc), and a
    gateway that offers the RPC methods as tools over the Model Context Protocol
    (src/mcp).  This development translates their logic into executable
    definitions, one file per component, and proves what the components promise.
    Octets are [Byte.byte], strings and buffers lists of octets, sizes and fixed
    width integers [Z] with their wrap-around written out ([u8] ... [u64] below).
    A function that reads through a pointer or loops returns an [outcome]: a
    value, [OutOfBounds] (undefined behaviour in C++) or [OutOfFuel].

    ** Files

    - Prelude: octets, outcomes, list and arithmetic lemmas, tactics.
    - StdMap: [std::map<std::string, V>] as a sorted association list, so that
      iteration has the order of the keys.
    - FrameHeader, Metadata, FrameCodec: src/rpc/frame_codec.cpp with
      frame_codec.h and frame_constants.h.  The fixed header, the metadata (a
      Protobuf map written by hand), the frame and [FrameParser].
      [FrameParser.receive] is the loop a caller of [feed] and [reset] runs.
    - Varint: the varint encoder into raw memory, against that into a vector.
    - NetBuffer: src/net/buffer.cpp.  The vector and its two indices; [readv]'s
      answer is an input.  The abstract specification is a queue of octets.
    - EventLoop, EventLoopFacts: src/net/channel.cpp and event_loop.cpp.  Module
      [Poller] has the table of channels and epoll's interest list, module
      [EventLoop] the queue of functors, as a step function for the loop's
      thread and the others.
    - EventLoopIo: the system calls of event_loop.cpp: the constructor, and the
      turns of [loop] with interrupted and failing waits, exceptions of handlers
      (the class [Handlers]) and the growth of the event vector.
    - TcpConnection, TcpConnectionFacts: src/net/tcp_connection.cpp.  The state
      machine over two [Buffer]s and a [Channel]; callbacks are parameters.
      TcpConnectionLife has what every entry point does to the state and the
      number of close notifications, which the server needs.
    - Socket, SocketFacts: src/net/socket.cpp.  Addresses in network order (the
      class [Inet] has [inet_pton] and [inet_ntop]), the checked system calls of
      an abstract [Kernel], and the descriptors sockets own.
    - Acceptor, AcceptorFacts: src/net/acceptor.cpp.  The accept loop with its
      reserve descriptor, for every kernel with the laws [KernelLaws].
    - TcpServer, TcpServerFacts: src/net/tcp_server.cpp.  The map of connections,
      the choice of a loop and the functors each loop has queued; [step]
      interleaves the main loop, the sub loops, the users of connections and
      [start] and [stop].
    - Reactor: the acceptor with the server as its owner.
    - Chars: [std::to_chars], [std::from_chars] and [std::to_string].
    - RpcMessage: status.h, rpc_message.h and the encoding of a status in a
      response's metadata, which rpc_server.cpp writes and rpc_client.cpp reads.
    - RpcServer, RpcServerFacts: src/rpc/rpc_server.cpp.  The handlers, what
      [onMessage] admits, the queue and the workers; [step] interleaves the I/O
      thread, the workers and the threads that start and stop the server.
    - WorkQueue, WorkQueueFacts: the same queue with its mutex and condition
      variable: checks, sleeps, notifications and spurious wakeups.
    - RpcIo, RpcIoFacts: the I/O thread that [start] makes and [stop] ends, with
      its [EventLoop] and the life of its [TcpServer].  RpcCrash adds the
      exceptions that leave its loop.
    - RpcLedger: which requests were taken and which frames sent, in a run of the
      server; what is open is in the queue or with a worker.
    - RpcTcp, RpcTcpFacts, RpcTcpLive, RpcTcpServes: the server as the callbacks
      of its TCP server, on [TcpConnection]s, octet by octet: the I/O thread
      between events, in [handleRead] or in [onMessage]'s loop, the workers whose
      [send] queues a functor, and the kernel's answers to each write.
    - RpcReactor: the RPC server as [start] puts it together: RpcIo's I/O thread
      with its loop, the TcpServer with its table and RpcTcp's callbacks are one
      state, and a functor of the loop is that of [stop], the next one of a
      connection or the next one of the TCP server.  RpcReactorSteps has what a
      step does to the connection it is about, RpcReactorFacts the invariant and
      the steps of messages and answers, RpcReactorServer those of the TCP
      server, RpcReactorCalls the functors, RpcReactorRuns all steps and runs,
      RpcReactorLive and RpcReactorTurns the turns of the loop, stopped and
      serving, and RpcReactorTheorems what follows.
    - RpcClient, RpcClientFacts: src/rpc/rpc_client.cpp.  [call] over a script of
      the kernel's answers, with a log of the octets sent and received and the
      descriptors closed.
    - RpcClientAsync: [callFuture] and [callAsync], threads that take the
      client's mutex in any order.
    - RpcEndToEnd: the client's [call] against the server's reading and answer,
      on a buffer and over TCP.  [exchange] says that the network carries both.
    - ServiceMain, ServiceMainFacts: the [main] of the two example services: the
      main thread, the signal and the server's threads as one process.
      EchoService and WeatherService have their handlers and messages, and
      weather.proto as the descriptors of the registry ([WeatherProto]).
    - JsonNumber, Json, JsonParser, JsonFacts: src/mcp/json_rpc.cpp.  Numbers are
      read by [strtoll] and [strtod] and doubles are binary64 ([SpecFloat]).
      JsonTypes says which values of the document model are well formed.
    - ToolRegistry, ToolRegistryFacts: src/mcp/tool_registry.cpp.  The accessors
      of Protobuf descriptors are the class [Descriptors].
    - McpServer, McpServerFacts: src/mcp/mcp_server.cpp.  The stdio loop and the
      handlers, against the interface [RpcBackend], of which the RPC client is
      an instance, and the class [Messages] of dynamic Protobuf messages.
    - McpGateway: the [main] of the gateway example.  WeatherEndToEnd: a tool call
      through the gateway, the client, TCP, the service and back.

    ** What the theorems show

    - Wire format: headers, metadata and frames decode to what was encoded;
      however the network cuts a stream, the parser delivers its messages in
      order; on any octets it terminates, loses none and keeps its invariant,
      and a rejected header stays rejected; the limits are those of the protocol.
    - Reactor: the buffer is a queue; epoll knows exactly the events the channels
      want; no wakeup of the loop is lost unless functors queue functors, and no
      event either, in a vector whose size fits its [int]; a connection's octets
      arrive in order and once, and a half close truncates nothing.
    - Accepting: one readiness of the listening socket serves or discards the
      whole backlog in order, each connection taken becomes one of the server, is
      announced up and down once and leaves the map when it has closed; loops are
      chosen in turn; every descriptor has one owner and is closed once.
    - Server: the counters are the requests in progress and respect their limits
      in every interleaving, stopping drops nothing, the workers can always
      finish, and a stream of requests has one response each, in order.  The
      queue with its condition variable refines the atomic one, leaves no request
      to a sleeping worker, and its workers return when it is stopped; so does the
      I/O thread, whose loop and callbacks are a run of the server's model.
      Every request taken is answered by one frame or still open.
    - Server over TCP: what a connection accepts are whole response frames, each
      the answer to a request read off that connection, and the wire is a prefix
      of them; every step refines one of the server; and from any point the
      workers and the loop can bring every request to its answer on the wire.
    - Server on its reactor: a run of the whole is a run of each part, under every
      interleaving; no step uses a loop, connection or functor that is gone; the
      server's table and the TCP server's agree; from any point the loop sends
      every answer queued for it, and after [stop] it ends with every connection
      closed, unless an output buffer outgrows its size type.
    - Client: a connection that is kept is in step with the server, identifiers
      do not repeat, descriptors do not leak, and on a working network [call]
      returns what the server sent; together, a remote call returns the
      handler's response, also over TCP, from octets to octets.  Concurrent calls share the connection as whole
      exchanges, and each caller gets the answer to its own request.
    - JSON: the parser returns on every text, its values are well formed, and it
      reads back what the serializer writes; requests and responses are well
      formed.
    - Gateway: one reply line per request, in order and with its id; nothing is
      called before initialize; tool calls relay the response or say why not;
      the tool list carries complete JSON Schemas.
    - Examples: what a service process has printed says where it is, a signal
      ends it, and no thread outlives [main]; the gateway registers the tool of
      weather.proto; and a tools/call line becomes, through every layer, the one
      line with the reading of the city or the service's error.
    - Faults of the code, as theorems about it: the metadata decoder reads past
      its input; a recursive message type never gets a schema; a functor queued
      by a functor waits for an unrelated event, so that a connection whose answer
      could not be written stays in both tables; octets sent before [shutdown]
      from another thread are lost; without descriptors an acceptor with an empty
      backlog spins; one that fails to construct leaks its reserve descriptor;
      [stop] abandons the connections of sub loops; an RPC server that failed to
      listen is left with a TCP server on a loop that is gone; one whose loop
      throws says that it runs and serves nobody; and [stop] computes the late
      answers of its workers but never writes them.

    ** Bounds and fuel

    The fuel of every definition is a bound its theorems show to be enough: the
    JSON parser has two units a character and two more, the receive loop one a
    frame that fits its octets, [drain] one an octet, the gateway's loop one a
    line.  [buildSchema] alone recurses without a bound in the code; its fuel is
    a parameter, enough exactly for message types that do not contain
    themselves.  The loops over system calls (the client's, the event loop's)
    end with their script of the kernel's answers; the accept loop has a unit for
    each connection in the backlog and one more.

    ** Assumptions

    The text given to [strtoll] and [strtod] is followed by a NUL, as a string
    is.  Durations do not overflow.  [start] and [stop] of a server are not
    called at the same time.  A handler is a function of its request, whose
    result (also an exception) is an input of the worker's step.  A read of a
    socket gives at most 65536 octets, the smallest room [readFd] offers.  The
    machine is little-endian ([htons]).  What the proofs need of the kernel's
    descriptors and backlog is [KernelLaws], which [table_kernel] satisfies, and of
    [inet_pton] and [inet_ntop] [InetLaws], which [dotted_quad] does.  User
    callbacks act on a connection through its entry points only
    ([callbacks_evolve]).  Of Protobuf the end to end theorem uses [protobuf]: the
    two programs read each other's octets, and ASCII text and numbers have their
    JSON; a format that satisfies it is given.  Runs of the server over TCP, on
    its reactor and of the processes are those in which no step throws; RpcCrash
    has what follows when one does.  Less than 2^32 connections are accepted.

    ** Not modelled, and what comes next

    In [RpcReactor] a [start] finds no connection of an earlier one, which the
    server may still hold: a restart after connections were served is in the
    models of the parts only, of which [RpcIo] has it.  There the accept is one
    step with a new descriptor, the acceptor's loop being that of [Reactor]; and
    the poller's table is that of [EventLoop] alone.  Next would come a reactor
    with several loops, which the RPC server does not use.

    What is left of the sources are forwarding members, accessors of private
    fields and declarations.  Calls on a loop from the wrong thread
    ([assertInLoopThread]) are excluded by construction: each function says on
    which thread it runs.  Protobuf, its compiler's output and the kernel are
    parameters. *)
From Stdlib Require Import ZArith Lia.
From Stdlib Require Import Strings.Byte.
From stdpp Require Import base list strings gmap.

#[export] Set Default Goal Selector "!".
Open Scope Z_scope.

(** * Octets, characters and byte strings *)

(** [std::uint8_t] and [char] are both octets here; [std::string],
    [std::string_view] and [std::vector<std::uint8_t>] are lists of octets. *)
Abbreviation byte := Byte.byte.
Abbreviation bytes := (list Byte.byte).

(** A string literal of the program as the octets of its characters. *)
Definition str (s : string) : bytes := String.list_byte_of_string s.

(** The value of an octet, and the octet an integer is cast to. *)
Definition b2z (b : byte) : Z := Z.of_N (Byte.to_N b).

Definition z2b (z : Z) : byte :=
  match Byte.of_N (Z.to_N (z mod 256)) with
  | Some b => b
  | None => x00
  end.

(** Sizes ([std::size_t]) are kept in [Z], so that the limits of the protocol
    (16 MiB bodies) are numbers the kernel computes with. *)
Definition lenZ {A} (l : list A) : Z := Z.of_nat (length l).

(** Unsigned integers wrap around at their width. *)
Definition u8 (z : Z) : Z := z mod 2 ^ 8.
Definition u16 (z : Z) : Z := z mod 2 ^ 16.
Definition u32 (z : Z) : Z := z mod 2 ^ 32.
Definition u64 (z : Z) : Z := z mod 2 ^ 64.

(** A conversion to [int], two's complement. *)
Definition s32 (z : Z) : Z := let z := u32 z in if z <? 2 ^ 31 then z else z - 2 ^ 32.

(** * Outcomes of code that reads memory and loops *)

(** [Ret] is a normal return, [OutOfBounds] a read outside the object the
    pointer points into (undefined behaviour in C++), and [OutOfFuel] a loop
    that did not finish within the fuel a definition was given. *)
Inductive outcome (A : Type) : Type :=
  | Ret (a : A)
  | OutOfBounds
  | OutOfFuel.
Arguments Ret {A} a.
Arguments OutOfBounds {A}.
Arguments OutOfFuel {A}.

#[export] Instance outcome_ret : MRet outcome := fun A a => Ret a.
#[export] Instance outcome_bind : MBind outcome := fun A B f m =>
  match m with
  | Ret a => f a
  | OutOfBounds => OutOfBounds
  | OutOfFuel => OutOfFuel
  end.

Declare Scope nexus_scope.
Delimit Scope nexus_scope with nexus.
Notation "'let*' x := m 'in' k" := (mbind (M := outcome) (fun x => k) m)
  (at level 10, x name, m at level 100, k at level 200) : nexus_scope.
Notation "'let*' ' p := m 'in' k" := (mbind (M := outcome) (fun x => match x with p => k end) m)
  (at level 10, p pattern, m at level 100, k at level 200) : nexus_scope.
Open Scope nexus_scope.

(** [*(data + i)]: a read of one octet through a pointer. *)
Definition read_byte (mem : bytes) (i : nat) : outcome byte :=
  match mem !! i with
  | Some b => Ret b
  | None => OutOfBounds
  end.

(** A read of [len] octets at [pos]; reading no octet touches no memory. *)
Definition read_slice (mem : bytes) (pos len : nat) : outcome bytes :=
  if (len =? 0)%nat then Ret []
  else if (pos + len <=? length mem)%nat then Ret (take len (drop pos mem))
  else OutOfBounds.

(** * Octet lemmas *)

Lemma b2z_range b : 0 <= b2z b < 256.
Proof. unfold b2z. pose proof (Byte.to_N_bounded b). lia. Qed.

Lemma b2z_z2b z : b2z (z2b z) = z mod 256.
Proof.
  unfold b2z, z2b.
  pose proof (Z.mod_pos_bound z 256 eq_refl) as Hr.
  destruct (Byte.of_N (Z.to_N (z mod 256))) as [b|] eqn:E.
  - apply Byte.to_of_N in E. rewrite E. lia.
  - apply Byte.of_N_None_iff in E. lia.
Qed.

Lemma z2b_b2z b : z2b (b2z b) = b.
Proof.
  unfold z2b, b2z. pose proof (Byte.to_N_bounded b) as Hb.
  rewrite Z.mod_small by lia. rewrite N2Z.id, Byte.of_to_N. done.
Qed.

Lemma b2z_inj a b : b2z a = b2z b -> a = b.
Proof. intros H. rewrite <- (z2b_b2z a), <- (z2b_b2z b). by rewrite H. Qed.

Lemma z2b_u8 z : b2z (z2b z) = u8 z.
Proof. apply b2z_z2b. Qed.

Lemma z2b_mod z : z2b (z mod 256) = z2b z.
Proof. apply b2z_inj. rewrite !b2z_z2b. apply Z.mod_mod. lia. Qed.

#[export] Instance byte_eq_dec : EqDecision byte := Byte.byte_eq_dec.
#[export] Program Instance byte_countable : Countable byte :=
  inj_countable Byte.to_N Byte.of_N _.
Next Obligation. intros x. apply Byte.of_to_N. Qed.

(** * Arithmetic lemmas on shifted and masked integers *)

(** An [or] of integers without common bits is their sum. *)
Lemma lor_add_disjoint n x y :
  0 <= n -> x mod 2 ^ n = 0 -> 0 <= y < 2 ^ n -> Z.lor x y = x + y.
Proof.
  intros Hn Hx Hy. symmetry.
  assert (Hand : Z.land x y = 0).
  { apply Z.bits_inj'. intros i Hi. rewrite Z.land_spec, Z.bits_0.
    destruct (Z.lt_ge_cases i n) as [Hlt|Hge].
    - assert (Z.testbit x i = false) as ->; [|done].
      rewrite <- (Z.mod_pow2_bits_low x n i) by lia. by rewrite Hx, Z.bits_0.
    - assert (Z.testbit y i = false) as ->; [|apply andb_false_r].
      rewrite <- (Z.mod_small y (2 ^ n)) by lia. by apply Z.mod_pow2_bits_high. }
  rewrite <- Z.lxor_lor by done. by apply Z.add_nocarry_lxor.
Qed.

Lemma land_low_bits x n : 0 <= n -> Z.land x (2 ^ n - 1) = x mod 2 ^ n.
Proof. intros Hn. rewrite <- Z.land_ones by done. by rewrite Z.ones_equiv, Z.sub_1_r. Qed.

(** * List lemmas *)

Lemma lenZ_nil {A} : lenZ (@nil A) = 0.
Proof. done. Qed.

Lemma lenZ_cons {A} (x : A) l : lenZ (x :: l) = 1 + lenZ l.
Proof. unfold lenZ. simpl length. lia. Qed.

Lemma lenZ_app {A} (l k : list A) : lenZ (l ++ k) = lenZ l + lenZ k.
Proof. unfold lenZ. rewrite length_app. lia. Qed.

Lemma lenZ_nonneg {A} (l : list A) : 0 <= lenZ l.
Proof. unfold lenZ. lia. Qed.

Lemma read_slice_app l k r :
  read_slice (l ++ k ++ r) (length l) (length k) = Ret k.
Proof.
  unfold read_slice. destruct k as [|b k]; [done|].
  rewrite (proj2 (Nat.eqb_neq _ _)) by done.
  rewrite (proj2 (Nat.leb_le _ _)) by (rewrite !length_app; lia).
  by rewrite drop_app_length, take_app_length.
Qed.

Lemma read_slice_safe mem pos len :
  (pos + len <= length mem)%nat -> exists s, read_slice mem pos len = Ret s.
Proof.
  intros H. unfold read_slice. destruct (_ =? _)%nat; [by eexists|].
  rewrite (proj2 (Nat.leb_le _ _)) by done. by eexists.
Qed.

Lemma read_byte_safe mem i :
  (i < length mem)%nat -> exists b, read_byte mem i = Ret b /\ mem !! i = Some b.
Proof.
  intros H. unfold read_byte. destruct (lookup_lt_is_Some_2 mem i H) as [b ->].
  by eexists.
Qed.

Lemma read_byte_app mem b rest : read_byte (mem ++ b :: rest) (length mem) = Ret b.
Proof. unfold read_byte. by rewrite list_lookup_middle. Qed.

(** [mapM] runs a computation on every element, in order. *)
Lemma mapM_ret {A B} (f : A -> outcome B) (P : A -> B -> Prop) l :
  (forall x, x ∈ l -> exists y, f x = Ret y /\ P x y) ->
  exists ys, mapM f l = Ret ys /\ Forall2 P l ys.
Proof.
  induction l as [|x l IH]; intros H.
  { exists []. by split. }
  destruct (H x) as (y & Hy & HP); [by left|].
  destruct IH as (ys & Hys & HPs). { intros z Hz. apply H. by right. }
  exists (y :: ys). split; [|by constructor]. cbn. rewrite Hy. cbn. by rewrite Hys.
Qed.

Lemma mapM_no_fuel {A B} (f : A -> outcome B) l x :
  (forall y, f y <> OutOfBounds) -> x ∈ l -> f x = OutOfFuel -> mapM f l = OutOfFuel.
Proof.
  intros Hf Hin Hx. induction Hin as [x l|x y l Hin IH]; cbn; [by rewrite Hx|].
  destruct (f y) eqn:Ey; [|by apply Hf in Ey|done]. cbn. by rewrite IH.
Qed.

Lemma mapM_in_bounds {A B} (f : A -> outcome B) l :
  (forall y, f y <> OutOfBounds) -> mapM f l <> OutOfBounds.
Proof.
  intros Hf. induction l as [|y l IH]; cbn; [done|].
  destruct (f y) eqn:Ey; [|by apply Hf in Ey|done]. cbn. by destruct (mapM f l).
Qed.

(** * Tactics *)

(** Splits the booleans of the code's conditions into the propositions they
    decide. *)
Ltac breflect :=
  repeat match goal with
  | H : (_ && _)%bool = true |- _ => apply andb_true_iff in H as [? ?]
  | H : (_ || _)%bool = false |- _ => apply orb_false_iff in H as [? ?]
  | H : negb _ = true |- _ => apply negb_true_iff in H
  | H : negb _ = false |- _ => apply negb_false_iff in H
  | H : (_ =? _) = true |- _ => apply Z.eqb_eq in H
  | H : (_ =? _) = false |- _ => apply Z.eqb_neq in H
  | H : (_ <? _) = true |- _ => apply Z.ltb_lt in H
  | H : (_ <? _) = false |- _ => apply Z.ltb_ge in H
  | H : (_ <=? _) = true |- _ => apply Z.leb_le in H
  | H : (_ <=? _) = false |- _ => apply Z.leb_gt in H
  | H : (_ =? _)%nat = true |- _ => apply Nat.eqb_eq in H
  | H : (_ =? _)%nat = false |- _ => apply Nat.eqb_neq in H
  | H : (_ <? _)%nat = true |- _ => apply Nat.ltb_lt in H
  | H : (_ <? _)%nat = false |- _ => apply Nat.ltb_ge in H
  | H : (_ <=? _)%nat = true |- _ => apply Nat.leb_le in H
  | H : (_ <=? _)%nat = false |- _ => apply Nat.leb_gt in H
  end.

(** Case analysis on the condition of the [if] that is stuck in the goal, with
    the condition reflected. *)
Ltac case_if :=
  match goal with
  | |- context [if ?b then _ else _] =>
      match type of b with bool => let E := fresh "E" in destruct b eqn:E; breflect end
  end.

Ltac case_if_in H :=
  match type of H with
  | context [if ?b then _ else _] =>
      match type of b with bool => let E := fresh "E" in destruct b eqn:E; breflect end
  end.

(** Rewrites a boolean condition that arithmetic decides. *)
Ltac btrue t := replace t with true by (symmetry; repeat rewrite ?andb_true_iff, ?Z.eqb_eq, ?Z.ltb_lt, ?Z.leb_le, ?Nat.eqb_eq, ?Nat.ltb_lt, ?Nat.leb_le; lia).
Ltac bfalse t := replace t with false by (symmetry; rewrite ?Z.eqb_neq, ?Z.ltb_ge, ?Z.leb_gt, ?Nat.eqb_neq, ?Nat.ltb_ge, ?Nat.leb_gt; lia).

(** Brings the size facts of the lists in sight into the context for [lia]. *)
Ltac len_lia := unfold lenZ in *; rewrite ?length_app, ?length_cons, ?length_nil in *; lia.

(** Normalises concatenations (to the right) and closes the equation. *)
Ltac app_norm := repeat (progress (rewrite <- ?app_assoc; cbn [app])).
