(* ===== verification/StdMap.v ===== *)
(** [std::map<std::string, V>]: an association list in ascending key order.

    The iteration order of the map is part of the wire format (metadata is
    encoded in key order) and of [tools/list], so the model keeps the list and
    not a finite map.  [compare_bytes] is [std::string::operator<] (octets as
    unsigned char, then length), [insert] is [operator[] =], [lookup] is
    [find].  [map_wf] is the representation invariant, and the lemmas below are
    what the components use: maps with the same lookups are equal, and
    inserting the entries of a map into an empty one in any traversal order
    gives the map back. *)
From Stdlib Require Import ZArith Lia.
From Stdlib Require Import Strings.Byte.
From stdpp Require Import base list strings gmap.
From S2P Require Import Prelude.

Module StdMap.

(** ** Keys *)

Fixpoint compare_bytes (a b : bytes) : comparison :=
  match a, b with
  | [], [] => Eq
  | [], _ :: _ => Lt
  | _ :: _, [] => Gt
  | x :: a', y :: b' =>
      match b2z x ?= b2z y with
      | Eq => compare_bytes a' b'
      | c => c
      end
  end.

Definition key_lt (a b : bytes) : Prop := compare_bytes a b = Lt.

Lemma compare_bytes_refl a : compare_bytes a a = Eq.
Proof. induction a as [|x a IH]; simpl; [done|]. by rewrite Z.compare_refl. Qed.

Lemma compare_bytes_eq a b : compare_bytes a b = Eq -> a = b.
Proof.
  revert b. induction a as [|x a IH]; intros [|y b]; simpl; try done.
  destruct (Z.compare_spec (b2z x) (b2z y)) as [Hxy| |]; try done.
  intros H. apply b2z_inj in Hxy as ->. by rewrite (IH b).
Qed.

Lemma compare_bytes_antisym a b : compare_bytes b a = CompOpp (compare_bytes a b).
Proof.
  revert b. induction a as [|x a IH]; intros [|y b]; simpl; try done.
  rewrite (Z.compare_antisym (b2z x) (b2z y)).
  destruct (b2z x ?= b2z y); simpl; [apply IH|done|done].
Qed.

Lemma key_lt_irrefl a : ~ key_lt a a.
Proof. unfold key_lt. rewrite compare_bytes_refl. done. Qed.

Lemma key_lt_trans a b c : key_lt a b -> key_lt b c -> key_lt a c.
Proof.
  unfold key_lt. revert b c.
  induction a as [|x a IH]; intros [|y b] [|z c]; simpl; try done.
  destruct (Z.compare_spec (b2z x) (b2z y)) as [->| |];
    destruct (Z.compare_spec (b2z y) (b2z z)) as [Hyz| |]; intros H1 H2; try done.
  - by eapply IH.
  - rewrite <- Hyz. by rewrite (proj2 (Z.compare_lt_iff _ _)).
  - rewrite (proj2 (Z.compare_lt_iff _ _)); [done|lia].
Qed.

Lemma key_lt_ne a b : key_lt a b -> a <> b.
Proof. intros H ->. by apply key_lt_irrefl in H. Qed.

(** ** Maps *)

Section map.
Context {V : Type}.
Implicit Types (m : list (bytes * V)) (k : bytes) (v : V).

Fixpoint lookup (k : bytes) (m : list (bytes * V)) : option V :=
  match m with
  | [] => None
  | (k', v) :: m' => if decide (k = k') then Some v else lookup k m'
  end.

Fixpoint insert (k : bytes) (v : V) (m : list (bytes * V)) : list (bytes * V) :=
  match m with
  | [] => [(k, v)]
  | (k', v') :: m' =>
      match compare_bytes k k' with
      | Eq => (k, v) :: m'
      | Lt => (k, v) :: m
      | Gt => (k', v') :: insert k v m'
      end
  end.

(** Every key below a given list of entries. *)
Definition below (k : bytes) m : Prop := Forall (fun e => key_lt k e.1) m.

Fixpoint map_wf (m : list (bytes * V)) : Prop :=
  match m with
  | [] => True
  | (k, _) :: m' => below k m' /\ map_wf m'
  end.

#[global] Instance map_wf_dec m : Decision (map_wf m).
Proof.
  induction m as [|[k v] m IH]; simpl; [apply _|].
  apply and_dec; [|exact IH]. unfold below. apply Forall_dec.
  intros e. unfold key_lt. apply _.
Defined.

(** A map built by inserting entries one after the other. *)
Definition of_entries (l : list (bytes * V)) (m : list (bytes * V)) : list (bytes * V) :=
  fold_left (fun acc e => insert e.1 e.2 acc) l m.

Lemma below_lookup k m : below k m -> lookup k m = None.
Proof.
  induction 1 as [|[k' v'] m Hk _ IH]; simpl; [done|].
  destruct (decide (k = k')) as [->|]; [by apply key_lt_irrefl in Hk|done].
Qed.

Lemma below_weaken k k' m : key_lt k k' -> below k' m -> below k m.
Proof. intros Hk H. eapply Forall_impl; [exact H|]. intros e He. by eapply key_lt_trans. Qed.

Lemma below_insert k k' v m : key_lt k k' -> below k m -> below k (insert k' v m).
Proof.
  intros Hk. induction 1 as [|[k2 v2] m H2 Hm IH]; simpl.
  - by repeat constructor.
  - destruct (compare_bytes k' k2) eqn:E; constructor; simpl; try done.
    by constructor.
Qed.

Lemma insert_wf k v m : map_wf m -> map_wf (insert k v m).
Proof.
  induction m as [|[k' v'] m IH]; simpl; [by repeat constructor|]. intros [Hb Hm].
  destruct (compare_bytes k k') eqn:E; simpl.
  - apply compare_bytes_eq in E as ->. by split.
  - split; [|done]. constructor; [done|]. by eapply below_weaken.
  - split; [|by apply IH]. apply below_insert; [|done].
    unfold key_lt. by rewrite compare_bytes_antisym, E.
Qed.

Lemma lookup_insert_eq k v m : lookup k (insert k v m) = Some v.
Proof.
  induction m as [|[k' v'] m IH]; simpl; [by rewrite decide_True|].
  destruct (compare_bytes k k') eqn:E; simpl; try by rewrite decide_True.
  rewrite decide_False; [done|]. intros ->. by rewrite compare_bytes_refl in E.
Qed.

Lemma lookup_insert_ne k k' v m : k <> k' -> lookup k (insert k' v m) = lookup k m.
Proof.
  intros Hne. induction m as [|[k2 v2] m IH]; simpl; [by rewrite decide_False|].
  destruct (compare_bytes k' k2) eqn:E; simpl.
  - apply compare_bytes_eq in E as ->. by rewrite !decide_False.
  - by rewrite decide_False.
  - destruct (decide (k = k2)); done.
Qed.

(** [operator[] =] on a map whose keys are all below the new one appends. *)
Lemma insert_last k v m : Forall (fun e => key_lt e.1 k) m -> insert k v m = m ++ [(k, v)].
Proof.
  induction 1 as [|[k' v'] m H _ IH]; simpl; [done|].
  unfold key_lt in H; simpl in H.
  rewrite compare_bytes_antisym, H. simpl. by rewrite IH.
Qed.

Lemma map_wf_app m1 m2 :
  map_wf (m1 ++ m2) ->
  map_wf m1 /\ map_wf m2 /\ Forall (fun e => below e.1 m2) m1.
Proof.
  induction m1 as [|[k v] m1 IH]; simpl; [done|].
  intros [Hb Hw]. apply Forall_app in Hb as [Hb1 Hb2].
  destruct (IH Hw) as (H1 & H2 & H3). repeat split; try done.
  by constructor.
Qed.

(** Inserting the entries of a well-formed map in order rebuilds it. *)
Lemma of_entries_wf l m : map_wf (m ++ l) -> of_entries l m = m ++ l.
Proof.
  unfold of_entries. revert m. induction l as [|[k v] l IH]; intros m Hwf; simpl.
  - by rewrite app_nil_r.
  - destruct (map_wf_app _ _ Hwf) as (_ & _ & Hb).
    rewrite insert_last.
    + rewrite IH; rewrite <- app_assoc; done.
    + eapply Forall_impl; [exact Hb|]. intros e He. by inversion He.
Qed.

Lemma of_entries_nil m : map_wf m -> of_entries m [] = m.
Proof. intros H. by apply (of_entries_wf m []). Qed.

Lemma of_entries_preserves_wf l m : map_wf m -> map_wf (of_entries l m).
Proof.
  unfold of_entries. revert m. induction l as [|e l IH]; intros m H; simpl; [done|].
  apply IH. by apply insert_wf.
Qed.

Lemma lookup_Some_In k v m : lookup k m = Some v -> (k, v) ∈ m.
Proof.
  induction m as [|[k' v'] m IH]; simpl; [done|].
  destruct (decide (k = k')) as [->|]; intros H; [|right; by apply IH].
  injection H as ->. left.
Qed.

Lemma In_lookup k v m : map_wf m -> (k, v) ∈ m -> lookup k m = Some v.
Proof.
  induction m as [|[k' v'] m IH]; simpl; [by intros _ ?%elem_of_nil|].
  intros [Hb Hw] [E|Hin]%elem_of_cons.
  - injection E as -> ->. by rewrite decide_True.
  - rewrite decide_False; [by apply IH|]. intros ->.
    unfold below in Hb. rewrite Forall_forall in Hb.
    specialize (Hb _ Hin). by apply key_lt_irrefl in Hb.
Qed.

(** Maps are equal when they have the same lookups. *)
Lemma map_ext m1 m2 :
  map_wf m1 -> map_wf m2 -> (forall k, lookup k m1 = lookup k m2) -> m1 = m2.
Proof.
  revert m2. induction m1 as [|[k1 v1] m1 IH]; intros [|[k2 v2] m2]; simpl.
  - done.
  - intros _ _ H. specialize (H k2). by rewrite decide_True in H.
  - intros _ _ H. specialize (H k1). by rewrite decide_True in H.
  - intros [Hb1 Hw1] [Hb2 Hw2] H.
    assert (k1 = k2) as ->.
    { destruct (compare_bytes k1 k2) eqn:E; [by apply compare_bytes_eq| |]; exfalso.
      - pose proof (H k1) as Hk. rewrite decide_True in Hk by done.
        rewrite decide_False in Hk by (intros ->; by rewrite compare_bytes_refl in E).
        rewrite (below_lookup k1 m2) in Hk; [done|]. by eapply below_weaken.
      - pose proof (H k2) as Hk. rewrite (decide_True (P := k2 = k2)) in Hk by done.
        rewrite decide_False in Hk by (intros ->; by rewrite compare_bytes_refl in E).
        rewrite (below_lookup k2 m1) in Hk; [done|]. eapply below_weaken; [|done].
        unfold key_lt. by rewrite compare_bytes_antisym, E. }
    assert (v1 = v2) as ->.
    { specialize (H k2). rewrite !decide_True in H by done. by injection H. }
    f_equal. apply IH; [done..|]. intros k.
    destruct (decide (k = k2)) as [->|Hne].
    + by rewrite !below_lookup.
    + specialize (H k). by rewrite !decide_False in H.
Qed.

(** An insertion over an existing key keeps the number of entries, a new key
    adds one. *)
Lemma insert_length k v m :
  map_wf m ->
  length (insert k v m) =
  match lookup k m with Some _ => length m | None => S (length m) end.
Proof.
  induction m as [|[k' v'] m IH]; simpl; intros Hwf; [done|].
  destruct Hwf as [Hb Hw]. destruct (compare_bytes k k') eqn:E; simpl.
  - apply compare_bytes_eq in E as ->. by rewrite decide_True.
  - rewrite decide_False by (intros ->; by rewrite compare_bytes_refl in E).
    by rewrite below_lookup by (by eapply below_weaken).
  - rewrite decide_False by (intros ->; by rewrite compare_bytes_refl in E).
    rewrite IH by done. by destruct (lookup k m).
Qed.

End map.

Create HintDb stdmap.
Create Rewrite HintDb stdmap.
#[export] Hint Resolve insert_wf of_entries_preserves_wf : stdmap.
#[export] Hint Rewrite @lookup_insert_eq : stdmap.

End StdMap.
