(* ===== verification/FrameHeader.v ===== *)
(** The fixed 32-octet frame header: constants, enumerations, big-endian
    integers, [encodeHeader], [decodeHeader] and their validation
    (include/nexus/rpc/frame_constants.h and the first half of
    src/rpc/frame_codec.cpp). *)
From Stdlib Require Import ZArith Lia.
From Stdlib Require Import Strings.Byte.
From stdpp Require Import base list strings gmap.
From S2P Require Import Prelude.

(** * Constants *)

Definition kFixedHeaderSize : Z := 32.
Definition kMagic : Z := 0x4E525043.
Definition kVersion1 : Z := 1.
Definition kMaxMetadataLength : Z := 64 * 1024.
Definition kMaxBodyLength : Z := 16 * 1024 * 1024.
Definition kMaxTotalLength : Z := kFixedHeaderSize + kMaxMetadataLength + kMaxBodyLength.

(** * Enumerations *)

Inductive MessageType :=
  | kRequest | kResponse | kStreamData | kStreamEnd | kPing | kPong.

(** [static_cast<std::uint8_t>(msg_type)]. *)
Definition MessageType_value (t : MessageType) : Z :=
  match t with
  | kRequest => 0 | kResponse => 1 | kStreamData => 2
  | kStreamEnd => 3 | kPing => 4 | kPong => 5
  end.

Inductive ParseResult :=
  | kOk | kNeedMoreData | kInvalidMagic | kInvalidVersion | kInvalidMessageType
  | kUnsupportedCompression | kInvalidSerializeType | kTotalLengthOverflow
  | kTotalLengthMismatch | kMetadataLengthOverflow | kBodyLengthOverflow
  | kReservedFieldNonZero | kMetadataParseError | kInternalError.

Inductive ParseState := kNeedHeader | kNeedPayload | kComplete.

#[export] Instance MessageType_eq_dec : EqDecision MessageType.
Proof. solve_decision. Defined.
#[export] Instance ParseResult_eq_dec : EqDecision ParseResult.
Proof. solve_decision. Defined.
#[export] Instance ParseState_eq_dec : EqDecision ParseState.
Proof. solve_decision. Defined.

(** * The header *)

Record RpcFrameHeader := mkHeader {
  magic : Z;           (* uint32 *)
  version : Z;         (* uint8 *)
  msg_type : Z;        (* uint8 *)
  compress_type : Z;   (* uint8 *)
  serialize_type : Z;  (* uint8 *)
  total_length : Z;    (* uint32 *)
  request_id : Z;      (* uint64 *)
  meta_length : Z;     (* uint32 *)
  body_length : Z;     (* uint32 *)
  reserved : Z;        (* uint32 *)
}.

#[export] Instance RpcFrameHeader_eq_dec : EqDecision RpcFrameHeader.
Proof. solve_decision. Defined.

(** [RpcFrameHeader{}]: the default member initialisers. *)
Definition default_header : RpcFrameHeader :=
  mkHeader kMagic kVersion1 0 0 0 0 0 0 0 0.

(** Every field fits the width it is declared with. *)
Definition header_in_range (h : RpcFrameHeader) : Prop :=
  0 <= magic h < 2 ^ 32 /\ 0 <= version h < 2 ^ 8 /\ 0 <= msg_type h < 2 ^ 8 /\
  0 <= compress_type h < 2 ^ 8 /\ 0 <= serialize_type h < 2 ^ 8 /\
  0 <= total_length h < 2 ^ 32 /\ 0 <= request_id h < 2 ^ 64 /\
  0 <= meta_length h < 2 ^ 32 /\ 0 <= body_length h < 2 ^ 32 /\
  0 <= reserved h < 2 ^ 32.

(** * Big-endian integers *)

Definition writeU32BE (val : Z) : bytes :=
  [z2b (Z.shiftr val 24); z2b (Z.shiftr val 16); z2b (Z.shiftr val 8); z2b val].

Definition readU32BE (src : bytes) (off : nat) : outcome Z :=
  let* b0 := read_byte src off in
  let* b1 := read_byte src (off + 1) in
  let* b2 := read_byte src (off + 2) in
  let* b3 := read_byte src (off + 3) in
  Ret (Z.lor (Z.lor (Z.lor (Z.shiftl (b2z b0) 24) (Z.shiftl (b2z b1) 16))
                    (Z.shiftl (b2z b2) 8))
             (b2z b3)).

Definition writeU64BE (val : Z) : bytes :=
  [z2b (Z.shiftr val 56); z2b (Z.shiftr val 48); z2b (Z.shiftr val 40);
   z2b (Z.shiftr val 32); z2b (Z.shiftr val 24); z2b (Z.shiftr val 16);
   z2b (Z.shiftr val 8); z2b val].

Definition readU64BE (src : bytes) (off : nat) : outcome Z :=
  let* b0 := read_byte src off in
  let* b1 := read_byte src (off + 1) in
  let* b2 := read_byte src (off + 2) in
  let* b3 := read_byte src (off + 3) in
  let* b4 := read_byte src (off + 4) in
  let* b5 := read_byte src (off + 5) in
  let* b6 := read_byte src (off + 6) in
  let* b7 := read_byte src (off + 7) in
  Ret (Z.lor (Z.lor (Z.lor (Z.lor (Z.lor (Z.lor (Z.lor
        (Z.shiftl (b2z b0) 56) (Z.shiftl (b2z b1) 48)) (Z.shiftl (b2z b2) 40))
        (Z.shiftl (b2z b3) 32)) (Z.shiftl (b2z b4) 24)) (Z.shiftl (b2z b5) 16))
        (Z.shiftl (b2z b6) 8)) (b2z b7)).

(** * Validation *)

Definition validateCommon (hdr : RpcFrameHeader) : ParseResult :=
  if negb (magic hdr =? kMagic) then kInvalidMagic
  else if negb (version hdr =? kVersion1) then kInvalidVersion
  else if negb (compress_type hdr =? 0) then kUnsupportedCompression
  else if negb (serialize_type hdr =? 0) then kInvalidSerializeType
  else if negb (reserved hdr =? 0) then kReservedFieldNonZero
  else kOk.

(** The [case] labels of the message type switch. *)
Definition known_msg_type (t : Z) : bool :=
  (t =? MessageType_value kRequest) || (t =? MessageType_value kResponse) ||
  (t =? MessageType_value kStreamData) || (t =? MessageType_value kStreamEnd) ||
  (t =? MessageType_value kPing) || (t =? MessageType_value kPong).

Definition validateHeader (hdr : RpcFrameHeader) : ParseResult :=
  let common := validateCommon hdr in
  if negb (bool_decide (common = kOk)) then common
  else if negb (known_msg_type (msg_type hdr)) then kInvalidMessageType
  else if kMaxTotalLength <? total_length hdr then kTotalLengthOverflow
  else if kMaxMetadataLength <? meta_length hdr then kMetadataLengthOverflow
  else if kMaxBodyLength <? body_length hdr then kBodyLengthOverflow
  else
    let expected := u64 (kFixedHeaderSize + meta_length hdr + body_length hdr) in
    if negb (total_length hdr =? expected) then kTotalLengthMismatch
    else kOk.

(** * encodeHeader and decodeHeader *)

Definition encodeHeader (header : RpcFrameHeader) : bytes :=
  writeU32BE (magic header) ++
  [z2b (version header); z2b (msg_type header);
   z2b (compress_type header); z2b (serialize_type header)] ++
  writeU32BE (total_length header) ++
  writeU64BE (request_id header) ++
  writeU32BE (meta_length header) ++
  writeU32BE (body_length header) ++
  writeU32BE (reserved header).

Definition decodeHeader (input : bytes) : outcome (ParseResult * RpcFrameHeader) :=
  let* magic := readU32BE input 0 in
  let* version := read_byte input 4 in
  let* msg_type := read_byte input 5 in
  let* compress_type := read_byte input 6 in
  let* serialize_type := read_byte input 7 in
  let* total_length := readU32BE input 8 in
  let* request_id := readU64BE input 12 in
  let* meta_length := readU32BE input 20 in
  let* body_length := readU32BE input 24 in
  let* reserved := readU32BE input 28 in
  let header := mkHeader magic (b2z version) (b2z msg_type) (b2z compress_type)
                  (b2z serialize_type) total_length request_id meta_length
                  body_length reserved in
  Ret (validateHeader header, header).

(** * Lemmas on the integers *)

(** One step of a big-endian read: the next octet is or-ed below the ones
    already read. *)
Lemma lor_octet_step x b n m :
  0 <= n -> m = n + 8 ->
  Z.lor (x * 2 ^ m) (Z.shiftl (b2z b) n) = (x * 256 + b2z b) * 2 ^ n.
Proof.
  intros Hn ->. pose proof (b2z_range b). rewrite Z.shiftl_mul_pow2 by done.
  rewrite Z.pow_add_r by lia. change (2 ^ 8) with 256.
  rewrite (lor_add_disjoint (n + 8)).
  - lia.
  - lia.
  - rewrite Z.pow_add_r by lia. pose proof (Z.pow_pos_nonneg 2 n).
    apply Z.mod_mul. lia.
  - rewrite Z.pow_add_r by lia. pose proof (Z.pow_pos_nonneg 2 n). nia.
Qed.

Lemma lor_last_octet x b : Z.lor (x * 2 ^ 8) (b2z b) = x * 256 + b2z b.
Proof.
  pose proof (lor_octet_step x b 0 8 ltac:(lia) ltac:(lia)) as H.
  rewrite Z.shiftl_0_r in H. rewrite H. lia.
Qed.

(** Turns the [or] of shifted octets into a positional number. *)
Ltac be_value :=
  match goal with |- context [Z.shiftl (b2z ?b) ?n] => rewrite (Z.shiftl_mul_pow2 (b2z b) n) by done end;
  rewrite ?lor_octet_step by done; rewrite lor_last_octet.

(** Solves the octet equations of the integer round trips. *)
Ltac octet_lia :=
  rewrite ?b2z_z2b, ?Z.shiftr_div_pow2 by done; unfold u8, u16, u32, u64 in *;
  Z.to_euclidean_division_equations; lia.

Definition be32 (b0 b1 b2 b3 : byte) : Z :=
  ((b2z b0 * 256 + b2z b1) * 256 + b2z b2) * 256 + b2z b3.

Definition be64 (b0 b1 b2 b3 b4 b5 b6 b7 : byte) : Z :=
  be32 b0 b1 b2 b3 * 2 ^ 32 + be32 b4 b5 b6 b7.

Lemma readU32BE_value src off b0 b1 b2 b3 :
  src !! off = Some b0 -> src !! (off + 1)%nat = Some b1 ->
  src !! (off + 2)%nat = Some b2 -> src !! (off + 3)%nat = Some b3 ->
  readU32BE src off = Ret (be32 b0 b1 b2 b3).
Proof.
  intros H0 H1 H2 H3. unfold readU32BE, read_byte. rewrite H0, H1, H2, H3. simpl.
  f_equal. unfold be32. by be_value.
Qed.

Lemma readU64BE_value src off b0 b1 b2 b3 b4 b5 b6 b7 :
  src !! off = Some b0 -> src !! (off + 1)%nat = Some b1 ->
  src !! (off + 2)%nat = Some b2 -> src !! (off + 3)%nat = Some b3 ->
  src !! (off + 4)%nat = Some b4 -> src !! (off + 5)%nat = Some b5 ->
  src !! (off + 6)%nat = Some b6 -> src !! (off + 7)%nat = Some b7 ->
  readU64BE src off = Ret (be64 b0 b1 b2 b3 b4 b5 b6 b7).
Proof.
  intros H0 H1 H2 H3 H4 H5 H6 H7. unfold readU64BE, read_byte.
  rewrite H0, H1, H2, H3, H4, H5, H6, H7. simpl.
  f_equal. unfold be64, be32. be_value. lia.
Qed.

Lemma be32_range b0 b1 b2 b3 : 0 <= be32 b0 b1 b2 b3 < 2 ^ 32.
Proof.
  unfold be32. pose proof (b2z_range b0). pose proof (b2z_range b1).
  pose proof (b2z_range b2). pose proof (b2z_range b3). lia.
Qed.

Lemma be64_range b0 b1 b2 b3 b4 b5 b6 b7 :
  0 <= be64 b0 b1 b2 b3 b4 b5 b6 b7 < 2 ^ 64.
Proof.
  unfold be64. pose proof (be32_range b0 b1 b2 b3).
  pose proof (be32_range b4 b5 b6 b7). lia.
Qed.

Lemma be32_write v :
  0 <= v < 2 ^ 32 ->
  be32 (z2b (Z.shiftr v 24)) (z2b (Z.shiftr v 16)) (z2b (Z.shiftr v 8)) (z2b v) = v.
Proof. intros Hv. unfold be32. octet_lia. Qed.

Lemma be64_write v :
  0 <= v < 2 ^ 64 ->
  be64 (z2b (Z.shiftr v 56)) (z2b (Z.shiftr v 48)) (z2b (Z.shiftr v 40))
       (z2b (Z.shiftr v 32)) (z2b (Z.shiftr v 24)) (z2b (Z.shiftr v 16))
       (z2b (Z.shiftr v 8)) (z2b v) = v.
Proof. intros Hv. unfold be64, be32. octet_lia. Qed.

(** * The header codec *)

Lemma length_encodeHeader h : length (encodeHeader h) = 32%nat.
Proof. done. Qed.

Lemma lenZ_encodeHeader h : lenZ (encodeHeader h) = kFixedHeaderSize.
Proof. done. Qed.

(** Reads a big-endian field whose octets are in sight. *)
Ltac read_field :=
  first [ erewrite readU32BE_value by reflexivity
        | erewrite readU64BE_value by reflexivity ].

(** The decoder reads back every field of an encoded header, and its verdict
    is the validation of that header, whatever follows the header in memory. *)
Lemma decodeHeader_encodeHeader_app h rest :
  header_in_range h ->
  decodeHeader (encodeHeader h ++ rest) = Ret (validateHeader h, h).
Proof.
  destruct h as [ma ve mt ct st tl ri ml bl re].
  unfold header_in_range; simpl. intros (? & ? & ? & ? & ? & ? & ? & ? & ? & ?).
  unfold decodeHeader. repeat read_field. simpl.
  rewrite !be32_write, be64_write, !b2z_z2b by done.
  by rewrite !Z.mod_small by lia.
Qed.

Lemma encodeHeader_inj h1 h2 :
  header_in_range h1 -> header_in_range h2 -> encodeHeader h1 = encodeHeader h2 -> h1 = h2.
Proof.
  intros H1 H2 E. pose proof (decodeHeader_encodeHeader_app h1 [] H1) as D1.
  pose proof (decodeHeader_encodeHeader_app h2 [] H2) as D2.
  rewrite E, D2 in D1. by injection D1 as _ ->.
Qed.

Lemma z2b_be32 b0 b1 b2 b3 : writeU32BE (be32 b0 b1 b2 b3) = [b0; b1; b2; b3].
Proof.
  pose proof (b2z_range b0). pose proof (b2z_range b1).
  pose proof (b2z_range b2). pose proof (b2z_range b3).
  unfold writeU32BE, be32. repeat f_equal; apply b2z_inj; octet_lia.
Qed.

Lemma z2b_be64 b0 b1 b2 b3 b4 b5 b6 b7 :
  writeU64BE (be64 b0 b1 b2 b3 b4 b5 b6 b7) = [b0; b1; b2; b3; b4; b5; b6; b7].
Proof.
  pose proof (b2z_range b0). pose proof (b2z_range b1).
  pose proof (b2z_range b2). pose proof (b2z_range b3).
  pose proof (b2z_range b4). pose proof (b2z_range b5).
  pose proof (b2z_range b6). pose proof (b2z_range b7).
  unfold writeU64BE, be64, be32. repeat f_equal; apply b2z_inj; octet_lia.
Qed.

Lemma split_header (input : bytes) :
  (32 <= length input)%nat -> exists l rest, length l = 32%nat /\ input = l ++ rest.
Proof.
  intros H. exists (take 32 input), (drop 32 input).
  by rewrite length_take, take_drop, Nat.min_l.
Qed.

(** With 32 readable octets the decoder returns, and the header it stores
    encodes back to the octets it read. *)
Lemma decodeHeader_total (input : bytes) :
  (32 <= length input)%nat ->
  exists h, decodeHeader input = Ret (validateHeader h, h) /\
            header_in_range h /\ encodeHeader h = take 32 input.
Proof.
  intros (l & rest & Hl & ->)%split_header.
  do 32 (destruct l as [|? l]; [done|]). destruct l; [|done].
  eexists. split; [unfold decodeHeader; repeat read_field; reflexivity|].
  unfold header_in_range, encodeHeader. split; cbn -[writeU32BE writeU64BE be32 be64 Z.pow].
  - repeat split; first [apply be32_range | apply be64_range | apply b2z_range].
  - by rewrite !z2b_be32, z2b_be64, !z2b_b2z.
Qed.

(** Only the first 32 octets matter. *)
Lemma decodeHeader_app input rest :
  (32 <= length input)%nat -> decodeHeader (input ++ rest) = decodeHeader input.
Proof.
  intros Hl. destruct (decodeHeader_total input Hl) as (h & -> & Hr & He).
  destruct (decodeHeader_total (input ++ rest)) as (h' & -> & Hr' & He');
    [rewrite length_app; lia|].
  rewrite take_app_le in He' by done. rewrite <- He in He'.
  by apply encodeHeader_inj in He' as ->.
Qed.

Lemma decodeHeader_inv input r h :
  (32 <= length input)%nat -> decodeHeader input = Ret (r, h) ->
  r = validateHeader h /\ header_in_range h /\ encodeHeader h = take 32 input.
Proof.
  intros Hl Hd. destruct (decodeHeader_total _ Hl) as (h' & E & Hr & He).
  rewrite E in Hd. by injection Hd as <- <-.
Qed.

(** * What a valid header is *)

(** The rules of the fixed header table of docs/protocol.md. *)
Definition header_valid (h : RpcFrameHeader) : Prop :=
  magic h = kMagic /\ version h = kVersion1 /\ compress_type h = 0 /\
  serialize_type h = 0 /\ reserved h = 0 /\ 0 <= msg_type h <= 5 /\
  meta_length h <= kMaxMetadataLength /\ body_length h <= kMaxBodyLength /\
  total_length h = kFixedHeaderSize + meta_length h + body_length h.

Lemma known_msg_type_spec t : known_msg_type t = true <-> 0 <= t <= 5.
Proof. unfold known_msg_type; simpl. rewrite !orb_true_iff, !Z.eqb_eq. lia. Qed.

Lemma validateCommon_ok h :
  validateCommon h = kOk <->
  magic h = kMagic /\ version h = kVersion1 /\ compress_type h = 0 /\
  serialize_type h = 0 /\ reserved h = 0.
Proof.
  unfold validateCommon. repeat case_if; split; intros; try done; intuition congruence.
Qed.

Lemma expected_length_no_wrap h :
  header_in_range h ->
  u64 (kFixedHeaderSize + meta_length h + body_length h) =
  kFixedHeaderSize + meta_length h + body_length h.
Proof.
  unfold header_in_range, u64, kFixedHeaderSize. intros (? & ? & ? & ? & ? & ? & ? & ? & ? & ?).
  apply Z.mod_small. lia.
Qed.

Lemma validateHeader_ok h :
  header_in_range h -> validateHeader h = kOk <-> header_valid h.
Proof.
  intros Hr. unfold validateHeader, header_valid.
  rewrite expected_length_no_wrap by done.
  pose proof (validateCommon_ok h) as Hc. pose proof (known_msg_type_spec (msg_type h)) as Hm.
  unfold kMaxTotalLength. case_bool_decide as Hok; simpl; [|tauto].
  apply Hc in Hok. destruct (known_msg_type _); simpl.
  - unfold kMaxMetadataLength, kMaxBodyLength, kFixedHeaderSize in *.
    repeat case_if; split; intros; try done; intuition lia.
  - split; [done|]. intros. assert (false = true) by (apply Hm; lia). done.
Qed.

Lemma header_valid_in_range h :
  header_valid h -> 0 <= request_id h < 2 ^ 64 -> 0 <= meta_length h -> 0 <= body_length h ->
  header_in_range h.
Proof.
  unfold header_valid, header_in_range, kMagic, kVersion1, kMaxMetadataLength, kMaxBodyLength, kFixedHeaderSize.
  lia.
Qed.

#[global] Arguments encodeHeader : simpl never.
#[global] Arguments decodeHeader : simpl never.

Create HintDb frame.
#[export] Hint Resolve header_valid_in_range : frame.
#[export] Hint Resolve length_encodeHeader lenZ_encodeHeader : frame.

(** * Properties *)

(** Encoding a header and decoding it gives every field back, with the
    verdict of its validation; the verdict is [kOk] exactly for the headers
    that follow the rules of the protocol table.  (The shift amounts, the
    offsets and the order of the fields agree on both sides.) *)
Theorem header_roundtrip h rest :
  header_in_range h ->
  decodeHeader (encodeHeader h ++ rest) = Ret (validateHeader h, h) /\
  (validateHeader h = kOk <-> header_valid h).
Proof.
  intros Hr. split; [by apply decodeHeader_encodeHeader_app|by apply validateHeader_ok].
Qed.

Definition example_header : RpcFrameHeader :=
  mkHeader kMagic kVersion1 1 0 0 45 0x0123456789abcdef 5 8 0.

Lemma header_roundtrip_witness :
  header_in_range example_header /\
  decodeHeader (encodeHeader example_header ++ [x00]) = Ret (validateHeader example_header, example_header).
Proof.
  split; [vm_compute; repeat split; done|].
  apply (header_roundtrip example_header [x00]). vm_compute; repeat split; done.
Defined.

(** With 32 readable octets the decoder always returns; the fields it
    stores are in range and encode back to the octets read, so no two inputs
    decode to the same header. *)
Theorem header_decode_injective input :
  (32 <= length input)%nat ->
  exists r h, decodeHeader input = Ret (r, h) /\ (r = kOk <-> header_valid h) /\
              header_in_range h /\ encodeHeader h = take 32 input.
Proof.
  intros Hl. destruct (decodeHeader_total input Hl) as (h & Hd & Hr & He).
  exists (validateHeader h), h. by rewrite validateHeader_ok.
Qed.

Lemma header_decode_injective_witness :
  (32 <= length (repeat xff 33))%nat /\
  exists r h, decodeHeader (repeat xff 33) = Ret (r, h) /\ (r = kOk <-> header_valid h) /\
              header_in_range h /\ encodeHeader h = take 32 (repeat xff 33).
Proof. split; [vm_compute; lia|]. apply header_decode_injective. vm_compute; lia. Defined.
