(* ===== verification/Metadata.v ===== *)
(** Metadata: Protobuf varints and the wire format of [map<string, string>]
    ([varintByteSize], [appendVarint32], [decodeVarint], [encodeMetadata] and
    [decodeMetadata] of src/rpc/frame_codec.cpp).

    Pointers are offsets into the octets of the object they point into, so a
    read past that object is an [OutOfBounds] outcome.  Loops carry fuel; the
    fuel each caller passes is enough ([decodeMetadata_total]). *)
From Stdlib Require Import ZArith Lia.
From Stdlib Require Import Strings.Byte.
From stdpp Require Import base list strings gmap.
From S2P Require Import Prelude StdMap FrameHeader.

Abbreviation metadata_map := (list (bytes * bytes)).

(** * Varints *)

Definition varintByteSize (value : Z) : Z :=
  if value <? 0x80 then 1
  else if value <? 0x4000 then 2
  else if value <? 0x200000 then 3
  else if value <? 0x10000000 then 4
  else 5.

(** The octets the [while] loop pushes; five iterations exhaust 32 bits
    ([varint_bytes_fuel]). *)
Fixpoint varint_bytes (fuel : nat) (value : Z) : bytes :=
  match fuel with
  | O => []
  | S f =>
      if 0x80 <=? value
      then z2b (Z.lor value 0x80) :: varint_bytes f (Z.shiftr value 7)
      else [z2b value]
  end.

Definition appendVarint32 (buf : bytes) (value : Z) : bytes :=
  buf ++ varint_bytes 5 value.

(** [nbytes] octets were read, [shift] and [result] are the loop's variables.
    The result is the number of octets consumed (0 on error) and the value. *)
Fixpoint decodeVarint_loop (fuel : nat) (mem : bytes) (data end_ nbytes : nat)
    (shift result : Z) : outcome (nat * Z) :=
  match fuel with
  | O => OutOfFuel
  | S f =>
      if (data + nbytes <? end_)%nat then
        let* byte := read_byte mem (data + nbytes) in
        let result :=
          Z.lor result (u64 (Z.shiftl (Z.land (b2z byte) 0x7F) shift)) in
        if Z.land (b2z byte) 0x80 =? 0 then Ret (S nbytes, result)
        else if 64 <=? shift + 7 then Ret (O, 0)
        else decodeVarint_loop f mem data end_ (S nbytes) (shift + 7) result
      else Ret (O, 0)
  end.

Definition decodeVarint (mem : bytes) (data end_ : nat) : outcome (nat * Z) :=
  decodeVarint_loop 10 mem data end_ 0 0 0.

(** * Wire-format tags *)

Definition kProtoWireTypeLenDelim : Z := 2.
Definition kProtoTagMetadataEntry : Z := Z.lor (Z.shiftl 1 3) kProtoWireTypeLenDelim.
Definition kProtoTagEntryKey : Z := Z.lor (Z.shiftl 1 3) kProtoWireTypeLenDelim.
Definition kProtoTagEntryValue : Z := Z.lor (Z.shiftl 2 3) kProtoWireTypeLenDelim.

(** * encodeMetadata *)

(** One iteration of the [for] loop, for the entry [key], [value]. *)
Definition encodeEntry (buf key value : bytes) : bytes :=
  let key_len := u32 (lenZ key) in
  let val_len := u32 (lenZ value) in
  let inner_size :=
    u32 (2 + varintByteSize key_len + key_len + varintByteSize val_len + val_len) in
  let buf := buf ++ [z2b kProtoTagMetadataEntry] in
  let buf := appendVarint32 buf inner_size in
  let buf := buf ++ [z2b kProtoTagEntryKey] in
  let buf := appendVarint32 buf key_len in
  let buf := buf ++ key in
  let buf := buf ++ [z2b kProtoTagEntryValue] in
  let buf := appendVarint32 buf val_len in
  buf ++ value.

Definition encodeMetadata (meta : metadata_map) : bytes :=
  fold_left (fun buf e => encodeEntry buf e.1 e.2) meta [].

(** * decodeMetadata *)

(** The fields inside one entry: [None] is [kMetadataParseError], otherwise the
    position after the fields and the entry's key, value and [has_key]. *)
Fixpoint parseEntryFields (fuel : nat) (mem : bytes) (pos entry_end : nat)
    (key value : bytes) (has_key : bool) :
    outcome (option (nat * bytes * bytes * bool)) :=
  match fuel with
  | O => OutOfFuel
  | S f =>
      if (pos <? entry_end)%nat then
        let* tag := read_byte mem pos in
        let wire_type := Z.land (b2z tag) 0x07 in
        let field_num := Z.shiftr (b2z tag) 3 in
        let pos := S pos in
        if negb (wire_type =? kProtoWireTypeLenDelim) then Ret None
        else
          let* '(consumed, field_len) := decodeVarint mem pos entry_end in
          if (consumed =? 0)%nat || (Z.of_nat (entry_end - pos) <? field_len)
          then Ret None
          else
            let pos := (pos + consumed)%nat in
            let next := (pos + Z.to_nat field_len)%nat in
            if field_num =? 1 then
              let* key := read_slice mem pos (Z.to_nat field_len) in
              parseEntryFields f mem next entry_end key value true
            else if field_num =? 2 then
              let* value := read_slice mem pos (Z.to_nat field_len) in
              parseEntryFields f mem next entry_end key value has_key
            else parseEntryFields f mem next entry_end key value has_key
      else Ret (Some (pos, key, value, has_key))
  end.

Fixpoint decodeMetadata_loop (fuel : nat) (mem : bytes) (pos end_ : nat)
    (meta : metadata_map) : outcome (ParseResult * metadata_map) :=
  match fuel with
  | O => OutOfFuel
  | S f =>
      if (pos <? end_)%nat then
        let* tag := read_byte mem pos in
        if negb (b2z tag =? kProtoTagMetadataEntry) then Ret (kMetadataParseError, meta)
        else
          let pos := S pos in
          let* '(consumed, entry_len) := decodeVarint mem pos end_ in
          if (consumed =? 0)%nat || (Z.of_nat (end_ - pos) <? entry_len)
          then Ret (kMetadataParseError, meta)
          else
            let pos := (pos + consumed)%nat in
            let entry_end := (pos + Z.to_nat entry_len)%nat in
            let* fields :=
              parseEntryFields (S (entry_end - pos)) mem pos entry_end [] [] false in
            match fields with
            | None => Ret (kMetadataParseError, meta)
            | Some (pos, key, value, has_key) =>
                if negb has_key then Ret (kMetadataParseError, meta)
                else decodeMetadata_loop f mem pos end_ (StdMap.insert key value meta)
            end
      else Ret (kOk, meta)
  end.

(** [decodeMetadata(data, length, &meta)]: [mem] is the object [data] points to
    the start of. *)
Definition decodeMetadata (mem : bytes) (length : nat) (meta : metadata_map) :
    outcome (ParseResult * metadata_map) :=
  decodeMetadata_loop (S length) mem 0 length meta.

Example encodeMetadata_ex :
  encodeMetadata [(str "k", str "vv")] =
  [x0a; x07; x0a; x01; x6b; x12; x02; x76; x76].
Proof. reflexivity. Qed.

Example decodeMetadata_ex :
  decodeMetadata [x0a; x07; x0a; x01; x6b; x12; x02; x76; x76] 9 [] =
  Ret (kOk, [(str "k", str "vv")]).
Proof. reflexivity. Qed.

Example decodeMetadata_overread_ex :
  decodeMetadata [x0a; x02; x0a] 3 [] = OutOfBounds.
Proof. reflexivity. Qed.

(** * Varint lemmas *)

Lemma land_127 v : Z.land v 127 = v mod 128.
Proof. apply (land_low_bits v 7). lia. Qed.

Lemma cont_octet v :
  Z.land (b2z (z2b (Z.lor v 128))) 127 = v mod 128 /\
  Z.land (b2z (z2b (Z.lor v 128))) 128 = 128.
Proof.
  rewrite b2z_z2b. change 256 with (2 ^ 8). rewrite <- land_low_bits by lia.
  change (2 ^ 8 - 1) with 255. rewrite <- !Z.land_assoc.
  change (Z.land 255 127) with 127. change (Z.land 255 128) with 128.
  rewrite !Z.land_lor_distr_l, land_127. change (Z.land 128 127) with 0.
  change (Z.land 128 128) with 128. split; [apply Z.lor_0_r|].
  apply Z.bits_inj'. intros i _. rewrite Z.lor_spec, Z.land_spec.
  by destruct (Z.testbit v i), (Z.testbit 128 i).
Qed.

Lemma last_octet v :
  0 <= v < 128 ->
  Z.land (b2z (z2b v)) 127 = v /\ Z.land (b2z (z2b v)) 128 = 0.
Proof.
  intros Hv. rewrite b2z_z2b, Z.mod_small by lia. split.
  - rewrite land_127. by apply Z.mod_small.
  - apply Z.bits_inj'. intros i Hi. rewrite Z.land_spec, Z.bits_0.
    change 128 with (2 ^ 7). rewrite Z.pow2_bits_eqb by lia.
    destruct (Z.eqb_spec 7 i) as [<-|]; [|apply andb_false_r].
    rewrite andb_true_r. rewrite <- (Z.mod_small v (2 ^ 7)) by lia.
    by apply Z.mod_pow2_bits_high.
Qed.

Lemma shiftr_7 v : Z.shiftr v 7 = v / 128.
Proof. by rewrite Z.shiftr_div_pow2. Qed.

(** Fuel: [7 * fuel] bits of fuel write every value of that width. *)
Lemma varint_bytes_fuel n m v :
  0 <= v < 2 ^ (7 * Z.of_nat n) -> (n <= m)%nat -> (0 < n)%nat ->
  varint_bytes m v = varint_bytes n v.
Proof.
  revert m v. induction n as [|n IH]; intros m v Hv Hm Hn; [lia|].
  destruct m as [|m]; [lia|]. cbn [varint_bytes]. case_if; [|done]. f_equal.
  destruct n as [|n]; [simpl in Hv; lia|].
  apply IH; [|lia..]. rewrite shiftr_7.
  replace (7 * Z.of_nat (S (S n))) with (7 + 7 * Z.of_nat (S n)) in Hv by lia.
  rewrite Z.pow_add_r in Hv by lia. change (2 ^ 7) with 128 in Hv.
  split; [apply Z.div_pos; lia|]. apply Z.div_lt_upper_bound; lia.
Qed.

Lemma leb_div a v c : 0 < c -> (a <=? v / c) = (a * c <=? v).
Proof.
  intros Hc. apply eq_true_iff_eq. rewrite !Z.leb_le.
  pose proof (Z.div_mod v c). pose proof (Z.mod_pos_bound v c). nia.
Qed.

Lemma varint_bytes_size v :
  0 <= v < 2 ^ 32 -> lenZ (varint_bytes 5 v) = varintByteSize v.
Proof.
  intros Hv. unfold varintByteSize. cbn [varint_bytes]. rewrite !shiftr_7.
  rewrite !Z.div_div, !leb_div by lia.
  repeat case_if; try done; exfalso; lia.
Qed.

Lemma varint_bytes_nonempty v fuel : (0 < fuel)%nat -> varint_bytes fuel v <> [].
Proof. destruct fuel; simpl; [lia|]. by destruct (_ <=? _). Qed.

Lemma lor_add_low n x y :
  0 <= n -> 0 <= x < 2 ^ n -> y mod 2 ^ n = 0 -> Z.lor x y = x + y.
Proof. intros. rewrite Z.lor_comm, (lor_add_disjoint n); lia. Qed.

(** The [or] of the next seven bits is an addition as long as they fit. *)
Lemma or_next_bits k result w :
  0 <= k -> 7 * k + 7 <= 63 -> 0 <= result < 2 ^ (7 * k) -> 0 <= w < 128 ->
  Z.lor result (u64 (Z.shiftl w (7 * k))) = result + w * 2 ^ (7 * k).
Proof.
  intros Hk Hbits Hres Hw. rewrite Z.shiftl_mul_pow2 by lia.
  assert (Hp : 2 ^ (7 * k) * 128 <= 2 ^ 63).
  { change 128 with (2 ^ 7). rewrite <- Z.pow_add_r by lia.
    apply Z.pow_le_mono_r; lia. }
  assert (Hw2 : w * 2 ^ (7 * k) < 128 * 2 ^ (7 * k)) by (apply Z.mul_lt_mono_pos_r; lia).
  unfold u64. rewrite Z.mod_small by lia.
  apply (lor_add_low (7 * k)); [lia|done|]. apply Z.mod_mul. lia.
Qed.

(** One iteration over an octet with the continuation bit, and one over the
    last octet of a value; [k] octets were read before. *)
Lemma decodeVarint_loop_cont f mem data end_ k v result :
  mem !! (data + k)%nat = Some (z2b (Z.lor v 128)) ->
  (data + k < end_)%nat -> 7 * Z.of_nat k + 14 <= 63 ->
  0 <= result < 2 ^ (7 * Z.of_nat k) ->
  decodeVarint_loop (S f) mem data end_ k (7 * Z.of_nat k) result =
  decodeVarint_loop f mem data end_ (S k) (7 * Z.of_nat (S k))
    (result + (v mod 128) * 2 ^ (7 * Z.of_nat k)).
Proof.
  intros Hmem Hend Hbits Hres. cbn [decodeVarint_loop].
  rewrite (proj2 (Nat.ltb_lt _ _)) by done.
  unfold read_byte. rewrite Hmem. cbn [mbind outcome_bind].
  destruct (cont_octet v) as [-> ->]. change (128 =? 0) with false. cbn iota.
  rewrite (proj2 (Z.leb_gt _ _)) by lia.
  rewrite or_next_bits by (try apply Z.mod_pos_bound; lia).
  f_equal. lia.
Qed.

Lemma decodeVarint_loop_last f mem data end_ k v result :
  mem !! (data + k)%nat = Some (z2b v) -> 0 <= v < 128 ->
  (data + k < end_)%nat -> 7 * Z.of_nat k + 7 <= 63 ->
  0 <= result < 2 ^ (7 * Z.of_nat k) ->
  decodeVarint_loop (S f) mem data end_ k (7 * Z.of_nat k) result =
  Ret (S k, result + v * 2 ^ (7 * Z.of_nat k)).
Proof.
  intros Hmem Hv Hend Hbits Hres. cbn [decodeVarint_loop].
  rewrite (proj2 (Nat.ltb_lt _ _)) by done.
  unfold read_byte. rewrite Hmem. cbn [mbind outcome_bind].
  destruct (last_octet v Hv) as [-> ->]. rewrite Z.eqb_refl.
  by rewrite or_next_bits by lia.
Qed.

Lemma lookup_shift (mem pre : bytes) vb post k :
  mem = pre ++ vb ++ post -> forall i, (i < length vb)%nat ->
  length pre = k -> mem !! (k + i)%nat = vb !! i.
Proof. intros -> i Hi <-. by rewrite lookup_app_r, Nat.add_sub', lookup_app_l by lia. Qed.

Lemma pow_step k : 2 ^ (7 * Z.of_nat (S k)) = 128 * 2 ^ (7 * Z.of_nat k).
Proof.
  replace (7 * Z.of_nat (S k)) with (7 + 7 * Z.of_nat k) by lia.
  by rewrite Z.pow_add_r by lia.
Qed.

(** Decoding the octets of a value continues the value read so far. *)
Lemma decodeVarint_loop_bytes n fuel v k mem data end_ result :
  (forall i, (i < length (varint_bytes n v))%nat ->
             mem !! (data + k + i)%nat = varint_bytes n v !! i) ->
  0 <= v < 2 ^ (7 * Z.of_nat n) -> (0 < n <= fuel)%nat ->
  7 * Z.of_nat (k + n) <= 63 -> 0 <= result < 2 ^ (7 * Z.of_nat k) ->
  (data + k + length (varint_bytes n v) <= end_)%nat ->
  decodeVarint_loop fuel mem data end_ k (7 * Z.of_nat k) result =
  Ret ((k + length (varint_bytes n v))%nat, result + v * 2 ^ (7 * Z.of_nat k)).
Proof.
  revert fuel v k result.
  induction n as [|n IH]; intros [|fuel] v k result Hmem Hv Hn Hbits Hres Hend; try lia.
  cbn [varint_bytes] in *. rewrite shiftr_7 in *.
  destruct (0x80 <=? v) eqn:Ev; breflect; cbn [length] in *.
  - assert (Hv128 : v / 128 < 2 ^ (7 * Z.of_nat n)).
    { rewrite pow_step in Hv. apply Z.div_lt_upper_bound; lia. }
    assert (0 <= v / 128) by (apply Z.div_pos; lia).
    destruct n as [|n]; [simpl in Hv; lia|].
    rewrite (decodeVarint_loop_cont _ _ _ _ _ v).
    + rewrite (IH fuel (v / 128) (S k)); try lia.
      * f_equal. f_equal; [lia|]. rewrite pow_step. pose proof (Z.div_mod v 128). nia.
      * intros i Hi. specialize (Hmem (S i) ltac:(lia)).
        by replace (data + S k + i)%nat with (data + k + S i)%nat by lia.
      * rewrite pow_step. pose proof (Z.mod_pos_bound v 128 eq_refl). nia.
    + specialize (Hmem 0%nat ltac:(lia)). by rewrite Nat.add_0_r in Hmem.
    + lia.
    + lia.
    + done.
  - rewrite (decodeVarint_loop_last _ _ _ _ _ v); try lia.
    + do 2 f_equal. lia.
    + specialize (Hmem 0%nat ltac:(lia)). by rewrite Nat.add_0_r in Hmem.
Qed.

(** Decoding undoes encoding, wherever the octets stand. *)
Lemma decodeVarint_bytes v pre post end_ :
  0 <= v < 2 ^ 32 ->
  (length pre + length (varint_bytes 5 v) <= end_)%nat ->
  decodeVarint (pre ++ varint_bytes 5 v ++ post) (length pre) end_ =
  Ret (length (varint_bytes 5 v), v).
Proof.
  intros Hv Hend. unfold decodeVarint.
  pose proof (decodeVarint_loop_bytes 5 10 v 0 (pre ++ varint_bytes 5 v ++ post)
                (length pre) end_ 0) as H.
  change (7 * Z.of_nat 0) with 0 in H. rewrite H; try lia.
  - do 2 f_equal. lia.
  - intros i Hi. by eapply lookup_shift; [reflexivity|done|lia].
Qed.

#[global] Arguments varint_bytes : simpl never.
#[global] Arguments decodeVarint : simpl never.

(** * The octets of an entry *)

(** A length-delimited field: tag, length, contents. *)
Definition field_bytes (tag : Z) (data : bytes) : bytes :=
  z2b tag :: varint_bytes 5 (u32 (lenZ data)) ++ data.

Definition entry_inner (key value : bytes) : bytes :=
  field_bytes kProtoTagEntryKey key ++ field_bytes kProtoTagEntryValue value.

Definition entry_size (key value : bytes) : Z :=
  let key_len := u32 (lenZ key) in
  let val_len := u32 (lenZ value) in
  u32 (2 + varintByteSize key_len + key_len + varintByteSize val_len + val_len).

Definition entry_bytes (key value : bytes) : bytes :=
  z2b kProtoTagMetadataEntry :: varint_bytes 5 (entry_size key value) ++ entry_inner key value.

Lemma encodeEntry_app buf key value : encodeEntry buf key value = buf ++ entry_bytes key value.
Proof.
  unfold encodeEntry, entry_bytes, entry_inner, field_bytes, appendVarint32, entry_size.
  rewrite <- !app_assoc. simpl. by rewrite <- !app_assoc.
Qed.

Lemma encodeMetadata_from buf meta :
  fold_left (fun buf e => encodeEntry buf e.1 e.2) meta buf =
  buf ++ concat (map (fun e => entry_bytes e.1 e.2) meta).
Proof.
  revert buf. induction meta as [|[k v] meta IH]; intros buf; simpl.
  - by rewrite app_nil_r.
  - by rewrite IH, encodeEntry_app, <- app_assoc.
Qed.

Lemma encodeMetadata_concat meta :
  encodeMetadata meta = concat (map (fun e => entry_bytes e.1 e.2) meta).
Proof. apply encodeMetadata_from. Qed.

Lemma encodeMetadata_cons k v meta :
  encodeMetadata ((k, v) :: meta) = entry_bytes k v ++ encodeMetadata meta.
Proof. by rewrite !encodeMetadata_concat. Qed.

Lemma u32_small z : 0 <= z < 2 ^ 32 -> u32 z = z.
Proof. apply Z.mod_small. Qed.

Lemma u32_range z : 0 <= u32 z < 2 ^ 32.
Proof. by apply Z.mod_pos_bound. Qed.

Lemma lenZ_varint v : lenZ (varint_bytes 5 (u32 v)) = varintByteSize (u32 v).
Proof. apply varint_bytes_size, u32_range. Qed.

Lemma varintByteSize_range v : 1 <= varintByteSize v <= 5.
Proof. unfold varintByteSize. repeat case_if; lia. Qed.

Lemma lenZ_field_bytes tag data :
  lenZ (field_bytes tag data) = 1 + varintByteSize (u32 (lenZ data)) + lenZ data.
Proof. unfold field_bytes. rewrite lenZ_cons, lenZ_app, lenZ_varint. lia. Qed.

Lemma lenZ_entry_bytes key value :
  lenZ (entry_bytes key value) =
  1 + varintByteSize (entry_size key value) + lenZ (entry_inner key value).
Proof.
  unfold entry_bytes. rewrite lenZ_cons, lenZ_app. unfold entry_size at 1.
  rewrite lenZ_varint. fold (entry_size key value). lia.
Qed.

(** When the encoding of an entry fits 32 bits, no length field wraps. *)
Lemma entry_fits key value :
  lenZ (entry_bytes key value) < 2 ^ 32 ->
  u32 (lenZ key) = lenZ key /\ u32 (lenZ value) = lenZ value /\
  entry_size key value = lenZ (entry_inner key value) /\
  4 <= lenZ (entry_inner key value) < 2 ^ 32.
Proof.
  rewrite lenZ_entry_bytes. unfold entry_inner, entry_size.
  rewrite lenZ_app, !lenZ_field_bytes.
  pose proof (varintByteSize_range (u32 (lenZ key))).
  pose proof (varintByteSize_range (u32 (lenZ value))).
  pose proof (lenZ_nonneg key). pose proof (lenZ_nonneg value).
  match goal with |- context [varintByteSize (u32 (?a + ?b))] =>
    pose proof (varintByteSize_range (u32 (a + b))) end.
  intros Hfit.
  assert (Ek : u32 (lenZ key) = lenZ key) by (apply u32_small; lia).
  assert (Ev : u32 (lenZ value) = lenZ value) by (apply u32_small; lia).
  rewrite ?Ek, ?Ev in *.
  repeat split; try lia. rewrite u32_small; lia.
Qed.

(** * Decoding an entry *)

Lemma read_byte_at mem pre b rest :
  mem = pre ++ b :: rest -> read_byte mem (length pre) = Ret b.
Proof. intros ->. apply read_byte_app. Qed.

(** The header of a field: its tag and length. *)
Lemma decodeVarint_field pre b data post end_ :
  lenZ data < 2 ^ 32 ->
  (length pre + length (b :: varint_bytes 5 (lenZ data)) + length data <= end_)%nat ->
  decodeVarint (pre ++ (b :: varint_bytes 5 (lenZ data) ++ data) ++ post)
    (S (length pre)) end_ =
  Ret (length (varint_bytes 5 (lenZ data)), lenZ data).
Proof.
  intros Hd Hend. pose proof (lenZ_nonneg data).
  pose proof (decodeVarint_bytes (lenZ data) (pre ++ [b]) (data ++ post) end_) as H1.
  rewrite length_app in H1. simpl length in *. rewrite Nat.add_1_r in H1.
  rewrite <- H1 by lia. f_equal. by app_norm.
Qed.

Lemma slice_field pre b data post :
  read_slice (pre ++ (b :: varint_bytes 5 (lenZ data) ++ data) ++ post)
    (S (length pre) + length (varint_bytes 5 (lenZ data))) (length data) = Ret data.
Proof.
  pose proof (read_slice_app (pre ++ b :: varint_bytes 5 (lenZ data)) data post) as H.
  rewrite <- H. f_equal; [by app_norm|].
  rewrite length_app. simpl. lia.
Qed.

Lemma to_nat_lenZ {A} (l : list A) : Z.to_nat (lenZ l) = length l.
Proof. unfold lenZ. lia. Qed.

Lemma length_field_bytes tag data :
  lenZ data < 2 ^ 32 ->
  field_bytes tag data = z2b tag :: varint_bytes 5 (lenZ data) ++ data.
Proof. intros H. unfold field_bytes. pose proof (lenZ_nonneg data). by rewrite u32_small. Qed.

(** One iteration of the field loop over an encoded field. *)
Lemma parseEntryFields_field f tag data pre post entry_end key value has_key :
  tag = kProtoTagEntryKey \/ tag = kProtoTagEntryValue ->
  lenZ data < 2 ^ 32 ->
  (length pre + length (field_bytes tag data) <= entry_end)%nat ->
  parseEntryFields (S f) (pre ++ field_bytes tag data ++ post) (length pre) entry_end
    key value has_key =
  (if tag =? kProtoTagEntryKey
   then parseEntryFields f (pre ++ field_bytes tag data ++ post)
          (length pre + length (field_bytes tag data)) entry_end data value true
   else parseEntryFields f (pre ++ field_bytes tag data ++ post)
          (length pre + length (field_bytes tag data)) entry_end key data has_key).
Proof.
  intros Htag Hd Hend. rewrite length_field_bytes in * by done.
  cbn [parseEntryFields]. rewrite (proj2 (Nat.ltb_lt _ _)) by (simpl in Hend; lia).
  cbn [app]. rewrite read_byte_app. cbn [mbind outcome_bind].
  rewrite b2z_z2b.
  change (pre ++ z2b tag :: (varint_bytes 5 (lenZ data) ++ data) ++ post)
    with (pre ++ (z2b tag :: varint_bytes 5 (lenZ data) ++ data) ++ post).
  rewrite decodeVarint_field by (cbn [length] in *; rewrite ?length_app in *; lia).
  cbn [mbind outcome_bind]. cbn [length] in *. rewrite length_app in *.
  pose proof (varint_bytes_nonempty (lenZ data) 5 ltac:(lia)) as Hne.
  rewrite (proj2 (Nat.eqb_neq _ _)) by (by intros ?%nil_length_inv). cbn [orb].
  rewrite (proj2 (Z.ltb_ge _ _)) by (unfold lenZ in *; lia).
  rewrite to_nat_lenZ, slice_field.
  replace (length pre + S (length (varint_bytes 5 (lenZ data)) + length data))%nat
    with (S (length pre) + length (varint_bytes 5 (lenZ data)) + length data)%nat by lia.
  by destruct Htag as [-> | ->].
Qed.

Lemma parseEntryFields_done f mem pos entry_end key value has_key :
  (entry_end <= pos)%nat ->
  parseEntryFields (S f) mem pos entry_end key value has_key =
  Ret (Some (pos, key, value, has_key)).
Proof. intros H. cbn [parseEntryFields]. by rewrite (proj2 (Nat.ltb_ge _ _)). Qed.

Lemma parseEntryFields_entry fuel key value pre post :
  lenZ (entry_bytes key value) < 2 ^ 32 -> (3 <= fuel)%nat ->
  parseEntryFields fuel (pre ++ entry_inner key value ++ post) (length pre)
    (length pre + length (entry_inner key value)) [] [] false =
  Ret (Some ((length pre + length (entry_inner key value))%nat, key, value, true)).
Proof.
  intros (Hk & Hv & _ & _)%entry_fits Hf.
  destruct fuel as [|[|[|f]]]; [lia..|].
  pose proof (u32_range (lenZ key)). pose proof (u32_range (lenZ value)).
  unfold entry_inner. rewrite <- app_assoc.
  rewrite parseEntryFields_field; [|by left|lia|rewrite length_app; lia].
  rewrite Z.eqb_refl.
  set (k := field_bytes kProtoTagEntryKey key).
  rewrite (app_assoc pre k).
  replace (length pre + length k)%nat with (length (pre ++ k)) by apply length_app.
  rewrite parseEntryFields_field; [|by right|lia|rewrite !length_app; lia].
  change (kProtoTagEntryValue =? kProtoTagEntryKey) with false. cbn iota.
  rewrite parseEntryFields_done by (rewrite !length_app; lia).
  rewrite !length_app. do 5 f_equal. lia.
Qed.

(** * Decoding a whole map *)

Lemma decodeMetadata_loop_entry f key value pre post end_ meta :
  lenZ (entry_bytes key value) < 2 ^ 32 ->
  (length pre + length (entry_bytes key value) <= end_)%nat ->
  decodeMetadata_loop (S f) (pre ++ entry_bytes key value ++ post) (length pre) end_ meta =
  decodeMetadata_loop f (pre ++ entry_bytes key value ++ post)
    (length pre + length (entry_bytes key value)) end_ (StdMap.insert key value meta).
Proof.
  intros Hfit Hend. destruct (entry_fits _ _ Hfit) as (_ & _ & Hsz & Hin).
  cbn [decodeMetadata_loop].
  set (inner := entry_inner key value) in *.
  set (vb := varint_bytes 5 (lenZ inner)).
  assert (He : entry_bytes key value = z2b kProtoTagMetadataEntry :: vb ++ inner)
    by (unfold entry_bytes; by rewrite Hsz).
  rewrite He in *. cbn [length] in Hend. rewrite length_app in Hend.
  rewrite (proj2 (Nat.ltb_lt _ _)) by lia.
  cbn [app]. rewrite read_byte_app. cbn [mbind outcome_bind].
  rewrite b2z_z2b. cbn [negb Z.eqb].
  change (kProtoTagMetadataEntry mod 256 =? kProtoTagMetadataEntry) with true. cbn [negb].
  change (pre ++ z2b kProtoTagMetadataEntry :: (vb ++ inner) ++ post)
    with (pre ++ (z2b kProtoTagMetadataEntry :: vb ++ inner) ++ post).
  pose proof (decodeVarint_field pre (z2b kProtoTagMetadataEntry) inner post end_) as Hd.
  fold vb in Hd. rewrite Hd by (cbn [length]; lia). cbn [mbind outcome_bind].
  pose proof (varint_bytes_nonempty (lenZ inner) 5 ltac:(lia)) as Hne. fold vb in Hne.
  rewrite (proj2 (Nat.eqb_neq _ _)) by (by intros ?%nil_length_inv). cbn [orb].
  rewrite (proj2 (Z.ltb_ge _ _)) by (unfold lenZ; lia).
  rewrite to_nat_lenZ.
  replace (pre ++ (z2b kProtoTagMetadataEntry :: vb ++ inner) ++ post)
    with ((pre ++ z2b kProtoTagMetadataEntry :: vb) ++ inner ++ post) by (by app_norm).
  replace (S (length pre) + length vb)%nat
    with (length (pre ++ z2b kProtoTagMetadataEntry :: vb)) by (rewrite length_app; simpl; lia).
  rewrite <- He in Hfit. unfold inner at 2 3.
  rewrite parseEntryFields_entry by (unfold lenZ in Hin; fold inner; lia).
  cbn [mbind outcome_bind negb]. fold inner. f_equal.
  rewrite !length_app. cbn [length]. rewrite length_app. lia.
Qed.

Lemma decodeMetadata_loop_entries l fuel pre post meta :
  lenZ (encodeMetadata l) < 2 ^ 32 -> (length l < fuel)%nat ->
  decodeMetadata_loop fuel (pre ++ encodeMetadata l ++ post) (length pre)
    (length pre + length (encodeMetadata l)) meta =
  Ret (kOk, StdMap.of_entries l meta).
Proof.
  revert fuel pre meta. induction l as [|[k v] l IH]; intros [|fuel] pre meta Hfit Hf; try lia.
  - cbn [decodeMetadata_loop encodeMetadata fold_left length].
    by rewrite (proj2 (Nat.ltb_ge _ _)) by lia.
  - rewrite encodeMetadata_cons in *. rewrite lenZ_app in Hfit.
    pose proof (lenZ_nonneg (encodeMetadata l)). pose proof (lenZ_nonneg (entry_bytes k v)).
    rewrite <- app_assoc, decodeMetadata_loop_entry by (rewrite ?length_app; lia).
    rewrite <- length_app, (app_assoc pre).
    replace (length pre + length (entry_bytes k v ++ encodeMetadata l))%nat
      with (length (pre ++ entry_bytes k v) + length (encodeMetadata l))%nat
      by (rewrite !length_app; lia).
    apply IH; simpl in Hf; lia.
Qed.

Lemma length_encodeMetadata l : (length l <= length (encodeMetadata l))%nat.
Proof.
  induction l as [|[k v] l IH]; [simpl; lia|].
  rewrite encodeMetadata_cons, length_app. unfold entry_bytes. simpl. lia.
Qed.

(** Decoding undoes encoding, also when further octets (the body) follow. *)
Lemma decodeMetadata_encodeMetadata_app meta post :
  StdMap.map_wf meta -> lenZ (encodeMetadata meta) < 2 ^ 32 ->
  decodeMetadata (encodeMetadata meta ++ post) (length (encodeMetadata meta)) [] =
  Ret (kOk, meta).
Proof.
  intros Hwf Hfit. unfold decodeMetadata.
  pose proof (decodeMetadata_loop_entries meta (S (length (encodeMetadata meta))) [] post [] Hfit) as H.
  cbn [app length Nat.add] in H. rewrite H by (pose proof (length_encodeMetadata meta); lia).
  by rewrite StdMap.of_entries_nil.
Qed.

(** * Memory safety and termination of the decoder *)

Lemma decodeVarint_loop_spec fuel mem data end_ nbytes result :
  (0 < fuel)%nat -> (fuel + nbytes = 10)%nat -> 0 <= result < 2 ^ 64 ->
  match decodeVarint_loop fuel mem data end_ nbytes (7 * Z.of_nat nbytes) result with
  | Ret (c, v) => (c <= 10)%nat /\ (c <> 0 -> data + c <= end_)%nat /\ 0 <= v < 2 ^ 64
  | OutOfBounds => (length mem < end_)%nat
  | OutOfFuel => False
  end.
Proof.
  revert nbytes result. induction fuel as [|f IH]; intros nb result Hf Hs Hr; [lia|].
  cbn [decodeVarint_loop]. destruct (data + nb <? end_)%nat eqn:E; breflect; [|lia].
  unfold read_byte. destruct (mem !! (data + nb)%nat) as [b|] eqn:Eb; cbn [mbind outcome_bind];
    [|apply lookup_ge_None_1 in Eb; lia].
  set (r' := Z.lor _ _).
  assert (Hr' : 0 <= r' < 2 ^ 64).
  { unfold r', u64. set (w := Z.shiftl _ _). pose proof (Z.mod_pos_bound w (2 ^ 64) eq_refl).
    split; [apply Z.lor_nonneg; lia|].
    destruct (Z.eq_dec (Z.lor result (w mod 2 ^ 64)) 0) as [->|Hnz]; [done|].
    apply Z.log2_lt_pow2; [pose proof (proj2 (Z.lor_nonneg result (w mod 2 ^ 64))); lia|].
    rewrite Z.log2_lor by lia. apply Z.max_lub_lt.
    - destruct (Z.eq_dec result 0) as [->|]; [done|]. apply Z.log2_lt_pow2; lia.
    - destruct (Z.eq_dec (w mod 2 ^ 64) 0) as [->|]; [done|]. apply Z.log2_lt_pow2; lia. }
  case_if; [lia|]. case_if; [lia|].
  replace (7 * Z.of_nat nb + 7) with (7 * Z.of_nat (S nb)) by lia.
  apply IH; lia.
Qed.

Lemma decodeVarint_spec mem data end_ :
  match decodeVarint mem data end_ with
  | Ret (c, v) => (c <= 10)%nat /\ (c <> 0 -> data + c <= end_)%nat /\ 0 <= v < 2 ^ 64
  | OutOfBounds => (length mem < end_)%nat
  | OutOfFuel => False
  end.
Proof. apply (decodeVarint_loop_spec 10 mem data end_ 0 0); lia. Qed.

Lemma read_slice_spec mem pos len :
  match read_slice mem pos len with
  | Ret s => length s = len
  | OutOfBounds => (length mem < pos + len)%nat
  | OutOfFuel => False
  end.
Proof.
  unfold read_slice. case_if; [by subst|]. case_if; [|lia].
  rewrite length_take, length_drop. lia.
Qed.

(** Each field read moves forward, stays within ten octets of the end of the
    entry, and the fuel of the caller is enough. *)
Lemma parseEntryFields_spec fuel mem pos entry_end key value has_key :
  (entry_end - pos < fuel)%nat ->
  match parseEntryFields fuel mem pos entry_end key value has_key with
  | Ret (Some (p, _, _, _)) => (pos <= p)%nat
  | Ret None => True
  | OutOfBounds => (length mem < entry_end + 10)%nat
  | OutOfFuel => False
  end.
Proof.
  revert pos key value has_key. induction fuel as [|f IH]; intros pos key value hk Hf; [lia|].
  cbn [parseEntryFields]. case_if; [|lia].
  unfold read_byte. destruct (mem !! pos) as [b|] eqn:Eb; cbn [mbind outcome_bind];
    [|apply lookup_ge_None_1 in Eb; lia].
  case_if; [done|].
  pose proof (decodeVarint_spec mem (S pos) entry_end) as Hv.
  destruct (decodeVarint mem (S pos) entry_end) as [[c v]| |]; cbn [mbind outcome_bind]; [|lia|done].
  case_if; [done|].
  assert (Hnext : forall k2 v2 h2,
    match parseEntryFields f mem (S pos + c + Z.to_nat v) entry_end k2 v2 h2 with
    | Ret (Some (p, _, _, _)) => (pos <= p)%nat
    | Ret None => True
    | OutOfBounds => (length mem < entry_end + 10)%nat
    | OutOfFuel => False
    end).
  { intros k2 v2 h2. specialize (IH (S pos + c + Z.to_nat v)%nat k2 v2 h2 ltac:(lia)).
    destruct (parseEntryFields f _ _ _ _ _ _) as [[[[[p ?] ?] ?]|]| |]; try done. lia. }
  pose proof (read_slice_spec mem (S pos + c) (Z.to_nat v)) as Hs.
  case_if; [|case_if]; try apply Hnext;
    (destruct (read_slice mem (S pos + c) (Z.to_nat v)); cbn [mbind outcome_bind];
     [apply Hnext|lia|done]).
Qed.

Lemma decodeMetadata_loop_spec fuel mem pos end_ meta :
  (end_ - pos < fuel)%nat -> StdMap.map_wf meta ->
  match decodeMetadata_loop fuel mem pos end_ meta with
  | Ret (r, meta') => (r = kOk \/ r = kMetadataParseError) /\ StdMap.map_wf meta'
  | OutOfBounds => (length mem < end_ + 20)%nat
  | OutOfFuel => False
  end.
Proof.
  revert pos meta. induction fuel as [|f IH]; intros pos meta Hf Hwf; [lia|].
  cbn [decodeMetadata_loop]. case_if; [|by auto].
  unfold read_byte. destruct (mem !! pos) as [b|] eqn:Eb; cbn [mbind outcome_bind];
    [|apply lookup_ge_None_1 in Eb; lia].
  case_if; [by auto|].
  pose proof (decodeVarint_spec mem (S pos) end_) as Hv.
  destruct (decodeVarint mem (S pos) end_) as [[c v]| |]; cbn [mbind outcome_bind]; [|lia|done].
  case_if; [by auto|].
  set (ee := (S pos + c + Z.to_nat v)%nat).
  pose proof (parseEntryFields_spec (S (ee - (S pos + c))) mem (S pos + c) ee [] [] false ltac:(lia)) as Hp.
  destruct (parseEntryFields _ _ _ _ _ _ _) as [[[[[p k] v'] hk]|]| |];
    cbn [mbind outcome_bind]; [|by auto|unfold ee in *; lia|done].
  destruct hk; cbn [negb]; [|by auto].
  apply IH; [lia|]. by apply StdMap.insert_wf.
Qed.

Lemma decodeMetadata_spec mem len meta :
  StdMap.map_wf meta ->
  match decodeMetadata mem len meta with
  | Ret (r, meta') => (r = kOk \/ r = kMetadataParseError) /\ StdMap.map_wf meta'
  | OutOfBounds => (length mem < len + 20)%nat
  | OutOfFuel => False
  end.
Proof. intros H. apply decodeMetadata_loop_spec; [lia|done]. Qed.

(** * Properties *)

(** Decoding the encoding of a metadata map gives the map back, also when
    the body follows in memory; a size that fits the header's 32-bit length
    field is enough, no entry's length wraps. *)
Theorem metadata_roundtrip meta body :
  StdMap.map_wf meta -> lenZ (encodeMetadata meta) < 2 ^ 32 ->
  decodeMetadata (encodeMetadata meta ++ body) (length (encodeMetadata meta)) [] =
  Ret (kOk, meta).
Proof. apply decodeMetadata_encodeMetadata_app. Qed.

Definition example_metadata : metadata_map :=
  [(str "a", str ""); (str "nexus.method", str "Get"); (str "nexus.service", str "weather")].

Lemma metadata_roundtrip_witness :
  StdMap.map_wf example_metadata /\ lenZ (encodeMetadata example_metadata) < 2 ^ 32 /\
  decodeMetadata (encodeMetadata example_metadata ++ [x00])
    (length (encodeMetadata example_metadata)) [] = Ret (kOk, example_metadata).
Proof.
  split; [by apply (bool_decide_unpack _); vm_compute|]. split; [by vm_compute|].
  apply (metadata_roundtrip example_metadata [x00]); [|by vm_compute].
  by apply (bool_decide_unpack _); vm_compute.
Defined.

(** The decoder terminates on every input, returns only [kOk] or
    [kMetadataParseError] with a well-formed map, and reads at most twenty
    octets past the end of the metadata it was given. *)
Theorem metadata_decode_bounded mem len meta :
  StdMap.map_wf meta ->
  decodeMetadata mem len meta <> OutOfFuel /\
  ((len + 20 <= length mem)%nat ->
   exists r meta', decodeMetadata mem len meta = Ret (r, meta') /\
                   (r = kOk \/ r = kMetadataParseError) /\ StdMap.map_wf meta').
Proof.
  intros Hwf. pose proof (decodeMetadata_spec mem len meta Hwf) as H.
  destruct (decodeMetadata mem len meta) as [[r m]| |]; split; try done.
  - intros _. by exists r, m.
  - intros Hl. lia.
Qed.

Lemma metadata_decode_bounded_witness :
  StdMap.map_wf (@nil (bytes * bytes)) /\
  decodeMetadata (repeat x0a 40) 20 [] <> OutOfFuel /\
  ((20 + 20 <= length (repeat x0a 40))%nat ->
   exists r meta', decodeMetadata (repeat x0a 40) 20 [] = Ret (r, meta') /\
                   (r = kOk \/ r = kMetadataParseError) /\ StdMap.map_wf meta').
Proof. split; [done|]. by apply (metadata_decode_bounded (repeat x0a 40) 20 []). Defined.

(** The length checks compare with the octets left before the varint and
    not after it, so an entry may end past the metadata.  Three octets of
    metadata at the end of their buffer are read out of bounds; followed by a
    body, the octets of the body are accepted as part of the metadata. *)
Theorem metadata_decode_overread body :
  decodeMetadata [x0a; x02; x0a] 3 [] = OutOfBounds /\
  decodeMetadata ([x0a; x02; x0a] ++ x00 :: body) 3 [] = Ret (kOk, [([], [])]).
Proof. split; reflexivity. Qed.
