(* ===== verification/Varint.v ===== *)
(** [encodeVarint32] of src/rpc/frame_codec.cpp, the encoder into raw memory,
    against [appendVarint32], the one the metadata encoder uses. *)
From Stdlib Require Import ZArith Lia.
From Stdlib Require Import Strings.Byte.
From stdpp Require Import base list strings.
From S2P Require Import Prelude FrameHeader Metadata.

(** [dst[i] = value]: a write of one octet through a pointer. *)
Definition write_byte (mem : bytes) (i : nat) (b : byte) : outcome bytes :=
  if (i <? length mem)%nat then Ret (<[i := b]> mem) else OutOfBounds.

(** The loop's variables are [value] and [i]; [dst] is an offset into [mem]. *)
Fixpoint encodeVarint32_loop (fuel : nat) (value : Z) (mem : bytes) (dst i : nat) : outcome (nat * bytes) :=
  match fuel with
  | O => OutOfFuel
  | S f =>
      if 0x80 <=? value then
        let* mem := write_byte mem (dst + i) (z2b (Z.lor value 0x80)) in
        encodeVarint32_loop f (Z.shiftr value 7) mem dst (S i)
      else
        let* mem := write_byte mem (dst + i) (z2b value) in
        Ret (S i, mem)
  end.

(** Five turns exhaust 32 bits. *)
Definition encodeVarint32 (value : Z) (mem : bytes) (dst : nat) : outcome (nat * bytes) :=
  encodeVarint32_loop 5 value mem dst 0.

(** * Lemmas *)

Lemma write_byte_app l b x r : write_byte (l ++ x :: r) (length l) b = Ret (l ++ b :: r).
Proof.
  unfold write_byte. rewrite (proj2 (Nat.ltb_lt _ _)) by (rewrite length_app; cbn; lia).
  by rewrite insert_app_r_alt, Nat.sub_diag by lia.
Qed.

Lemma write_byte_out mem i b : (length mem <= i)%nat -> write_byte mem i b = OutOfBounds.
Proof. intros H. unfold write_byte. by rewrite (proj2 (Nat.ltb_ge _ _)). Qed.

Lemma varint_bytes_S f v :
  varint_bytes (S f) v =
  if 0x80 <=? v then z2b (Z.lor v 0x80) :: varint_bytes f (Z.shiftr v 7) else [z2b v].
Proof. done. Qed.

Lemma shiftr_7_bound v f :
  0 <= v < 2 ^ (7 * Z.of_nat (S f)) -> 0 <= Z.shiftr v 7 < 2 ^ (7 * Z.of_nat f).
Proof.
  replace (7 * Z.of_nat (S f)) with (7 + 7 * Z.of_nat f) by lia.
  rewrite Z.pow_add_r, shiftr_7 by lia. change (2 ^ 7) with 128. intros Hv.
  split; [apply Z.div_pos; lia|]. apply Z.div_lt_upper_bound; lia.
Qed.

(** With room, the octets are written after what was there. *)
Lemma encodeVarint32_loop_fits fuel value l old r dst i :
  0 <= value < 2 ^ (7 * Z.of_nat fuel) -> (0 < fuel)%nat -> length l = (dst + i)%nat ->
  length old = length (varint_bytes fuel value) ->
  encodeVarint32_loop fuel value (l ++ old ++ r) dst i =
    Ret ((i + length old)%nat, l ++ varint_bytes fuel value ++ r).
Proof.
  revert value l old i. induction fuel as [|f IH]; intros value l old i Hv Hf Hl Ho; [lia|].
  rewrite varint_bytes_S in *. cbn [encodeVarint32_loop].
  destruct (0x80 <=? value) eqn:Hc; destruct old as [|x old]; try discriminate;
    cbn [app length] in *; rewrite <- Hl, write_byte_app; cbn [mbind outcome_bind].
  - destruct f as [|f]; [change (2 ^ (7 * Z.of_nat 1)) with 128 in Hv; lia|].
    rewrite (cons_middle _ l (old ++ r)), app_assoc, IH;
      [|by apply shiftr_7_bound|lia|rewrite length_app; cbn; lia|lia].
    rewrite <- app_assoc. f_equal. f_equal. lia.
  - destruct old; [|discriminate]. cbn. do 2 f_equal. lia.
Qed.

(** Without room, the first octet that has no place is a write out of bounds. *)
Lemma encodeVarint32_loop_overruns fuel value l old dst i :
  length l = (dst + i)%nat -> (length old < length (varint_bytes fuel value))%nat ->
  encodeVarint32_loop fuel value (l ++ old) dst i = OutOfBounds.
Proof.
  revert value l old i. induction fuel as [|f IH]; intros value l old i Hl Ho; [by apply Nat.nlt_0_r in Ho|].
  rewrite varint_bytes_S in Ho. cbn [encodeVarint32_loop].
  destruct old as [|x old].
  { rewrite app_nil_r, !write_byte_out by lia. by case_if. }
  rewrite <- Hl, write_byte_app.
  destruct (0x80 <=? value); cbn [length mbind outcome_bind] in *; [|lia].
  rewrite (cons_middle _ l old), app_assoc. apply IH; [rewrite length_app; cbn; lia|lia].
Qed.

(** * The two encoders agree *)

(** C40: [encodeVarint32] into memory writes exactly the octets
    [appendVarint32] appends to a vector, in the places from [dst] on, and
    returns their number, which is [varintByteSize]; every other octet is left
    alone. With less room than that it writes out of bounds. *)
Theorem varint_encoders_agree value before room after :
  0 <= value < 2 ^ 32 ->
  (lenZ room = varintByteSize value ->
   encodeVarint32 value (before ++ room ++ after) (length before) =
     Ret (length room, appendVarint32 before value ++ after)) /\
  (lenZ room < varintByteSize value ->
   encodeVarint32 value (before ++ room) (length before) = OutOfBounds).
Proof.
  intros Hv. rewrite <- varint_bytes_size by done. unfold encodeVarint32, appendVarint32, lenZ.
  split; intros Hr.
  - rewrite encodeVarint32_loop_fits; [by rewrite <- app_assoc| |lia..].
    change (2 ^ (7 * Z.of_nat 5)) with (2 ^ 35). lia.
  - apply encodeVarint32_loop_overruns; lia.
Qed.

Lemma varint_encoders_agree_witness :
  encodeVarint32 300 [x01; x00; x00; x02] 1 = Ret (2%nat, [x01; xac; x02; x02]) /\
  encodeVarint32 300 [x01; x00] 1 = OutOfBounds.
Proof.
  split.
  - apply (varint_encoders_agree 300 [x01] [x00; x00] [x02]); [lia|reflexivity].
  - apply (varint_encoders_agree 300 [x01] [x00] []); [lia|reflexivity].
Defined.
