(* ===== verification/FrameCodec.v ===== *)
(** Frames and the incremental parser: [encodeFrame], [FrameParser::feed] and
    [FrameParser::reset] of src/rpc/frame_codec.cpp, and the loop that every
    user of the parser runs over a chunk of the stream. *)
From Stdlib Require Import ZArith Lia.
From Stdlib Require Import Strings.Byte.
From stdpp Require Import base list strings gmap.
From S2P Require Import Prelude StdMap FrameHeader Metadata.

(** * encodeFrame *)

Definition frame_header (rid : Z) (mt : MessageType) (meta_bytes body : bytes) :
    RpcFrameHeader :=
  let meta_len := u32 (lenZ meta_bytes) in
  let body_len := u32 (lenZ body) in
  let total_len := u32 (u32 (kFixedHeaderSize + meta_len) + body_len) in
  mkHeader kMagic kVersion1 (MessageType_value mt) 0 0 total_len rid meta_len body_len 0.

(** The [assert]s of [encodeFrame] and [encodeHeader]: a debug build aborts
    when they are false. *)
Definition encodeFrame_asserts (rid : Z) (mt : MessageType) (metadata : metadata_map)
    (body : bytes) : bool :=
  let header := frame_header rid mt (encodeMetadata metadata) body in
  (meta_length header <=? kMaxMetadataLength) &&
  (body_length header <=? kMaxBodyLength) &&
  (total_length header <=? kMaxTotalLength) &&
  bool_decide (validateHeader header = kOk).

Definition encodeFrame (rid : Z) (mt : MessageType) (metadata : metadata_map)
    (body : bytes) : bytes :=
  let meta_bytes := encodeMetadata metadata in
  encodeHeader (frame_header rid mt meta_bytes body) ++ meta_bytes ++ body.

(** * FrameParser *)

Module FrameParser.

Record t := mk {
  state_ : ParseState;
  header_ : RpcFrameHeader;
  buffer_ : bytes;
  metadata_ : metadata_map;
  body_ : bytes;
  complete_ : bool;
}.

(** [FrameParser parser;] *)
Definition init : t := mk kNeedHeader default_header [] [] [] false.

(** The arguments of [feed]: a null pointer with a length, or the octets the
    pointer and the length delimit. *)
Inductive data :=
  | Null (length : Z)
  | Data (l : bytes).

(** The part of [feed] for [ParseState::kNeedPayload]. *)
Definition feed_payload (p : t) : outcome (ParseResult * t) :=
  let payload_len := u32 (total_length (header_ p) - kFixedHeaderSize) in
  if lenZ (buffer_ p) <? payload_len then Ret (kNeedMoreData, p)
  else
    let meta_len := meta_length (header_ p) in
    let body_len := body_length (header_ p) in
    let* '(meta_result, metadata) :=
      if 0 <? meta_len then decodeMetadata (buffer_ p) (Z.to_nat meta_len) (metadata_ p)
      else Ret (kOk, metadata_ p) in
    if negb (bool_decide (meta_result = kOk)) then
      Ret (meta_result,
           mk (state_ p) (header_ p) (buffer_ p) metadata (body_ p) (complete_ p))
    else
      let* body :=
        if 0 <? body_len then read_slice (buffer_ p) (Z.to_nat meta_len) (Z.to_nat body_len)
        else Ret (body_ p) in
      Ret (kOk, mk kComplete (header_ p) (drop (Z.to_nat payload_len) (buffer_ p))
                   metadata body true).

(** The two state tests of [feed], once the octets are appended. *)
Definition feed_states (p : t) : outcome (ParseResult * t) :=
  match state_ p with
  | kNeedHeader =>
      if lenZ (buffer_ p) <? kFixedHeaderSize then Ret (kNeedMoreData, p)
      else
        let* '(result, header) := decodeHeader (buffer_ p) in
        if negb (bool_decide (result = kOk)) then
          Ret (result,
               mk (state_ p) header (buffer_ p) (metadata_ p) (body_ p) (complete_ p))
        else
          let buffer := drop (Z.to_nat kFixedHeaderSize) (buffer_ p) in
          if total_length header =? kFixedHeaderSize then
            Ret (kOk, mk kComplete header buffer (metadata_ p) (body_ p) true)
          else
            feed_payload
              (mk kNeedPayload header buffer (metadata_ p) (body_ p) (complete_ p))
  | kNeedPayload => feed_payload p
  | kComplete => Ret (kInternalError, p)
  end.

Definition feed (p : t) (d : data) : outcome (ParseResult * t) :=
  if complete_ p then Ret (kInternalError, p)
  else
    match d with
    | Null length =>
        if negb (length =? 0) then Ret (kInternalError, p) else feed_states p
    | Data l =>
        feed_states (mk (state_ p) (header_ p) (buffer_ p ++ l) (metadata_ p) (body_ p)
                        (complete_ p))
    end.

Definition reset (p : t) : t :=
  mk kNeedHeader default_header (buffer_ p) [] [] false.

(** [isComplete], [state], [bufferSize], [header], [metadata], [body]. *)
Definition isComplete (p : t) : bool := complete_ p.
Definition state (p : t) : ParseState := state_ p.
Definition bufferSize (p : t) : Z := lenZ (buffer_ p).
Definition header (p : t) : RpcFrameHeader := header_ p.
Definition metadata (p : t) : metadata_map := metadata_ p.
Definition body (p : t) : bytes := body_ p.

(** * The receive loop *)

(** What a user of the parser reads from a complete frame. *)
Record Frame := mkFrame {
  f_header : RpcFrameHeader;
  f_metadata : metadata_map;
  f_body : bytes;
}.

Definition frame_of (p : t) : Frame := mkFrame (header p) (metadata p) (body p).

(** Neither of the two results that keep a connection open. *)
Definition is_error (r : ParseResult) : bool :=
  negb (bool_decide (r = kOk)) && negb (bool_decide (r = kNeedMoreData)).

(** [while (parser.isComplete()) { ...; parser.reset(); parser.feed(nullptr, 0); }]:
    the loop of [RpcServer::Impl::onMessage] with the handling of a frame
    reduced to collecting it.  A result other than [kOk] is the protocol error
    on which the caller closes the connection. *)
Fixpoint drain (fuel : nat) (p : t) (out : list Frame) :
    outcome (ParseResult * list Frame * t) :=
  match fuel with
  | O => OutOfFuel
  | S f =>
      if isComplete p then
        let out := out ++ [frame_of p] in
        let p := reset p in
        let* '(next_result, p) := feed p (Null 0) in
        if is_error next_result then Ret (next_result, out, p)
        else drain f p out
      else Ret (kOk, out, p)
  end.

(** One readable event: the chunk is fed and the complete frames are drained. *)
Definition receive (p : t) (chunk : bytes) : outcome (ParseResult * list Frame * t) :=
  let* '(feed_result, p) := feed p (Data chunk) in
  if is_error feed_result then Ret (feed_result, [], p)
  else drain (S (S (length (buffer_ p)))) p [].

(** A connection's life: the chunks of the stream in order, until an error. *)
Fixpoint receive_all (p : t) (chunks : list bytes) : outcome (ParseResult * list Frame * t) :=
  match chunks with
  | [] => Ret (kOk, [], p)
  | c :: cs =>
      let* '(r, out, p) := receive p c in
      if is_error r then Ret (r, out, p)
      else
        let* '(r, out', p) := receive_all p cs in
        Ret (r, out ++ out', p)
  end.

End FrameParser.

(** * Messages that fit the limits of the protocol *)

Record Message := mkMessage {
  m_request_id : Z;
  m_type : MessageType;
  m_metadata : metadata_map;
  m_body : bytes;
}.

(** The sizes are within the limits of the protocol. *)
Definition fits (m : Message) : Prop :=
  0 <= m_request_id m < 2 ^ 64 /\
  lenZ (encodeMetadata (m_metadata m)) <= kMaxMetadataLength /\
  lenZ (m_body m) <= kMaxBodyLength.

Definition encodable (m : Message) : Prop := fits m /\ StdMap.map_wf (m_metadata m).

#[export] Instance encodable_dec m : Decision (encodable m).
Proof. unfold encodable, fits. apply _. Defined.

Definition encode (m : Message) : bytes :=
  encodeFrame (m_request_id m) (m_type m) (m_metadata m) (m_body m).

Definition message_header (m : Message) : RpcFrameHeader :=
  frame_header (m_request_id m) (m_type m) (encodeMetadata (m_metadata m)) (m_body m).

Definition message_frame (m : Message) : FrameParser.Frame :=
  FrameParser.mkFrame (message_header m) (m_metadata m) (m_body m).

Lemma message_header_lengths m :
  fits m ->
  meta_length (message_header m) = lenZ (encodeMetadata (m_metadata m)) /\
  body_length (message_header m) = lenZ (m_body m) /\
  total_length (message_header m) =
    kFixedHeaderSize + lenZ (encodeMetadata (m_metadata m)) + lenZ (m_body m).
Proof.
  unfold fits, kMaxMetadataLength, kMaxBodyLength. intros (_ & Hm & Hb).
  pose proof (lenZ_nonneg (encodeMetadata (m_metadata m))). pose proof (lenZ_nonneg (m_body m)).
  unfold message_header, frame_header; cbn [meta_length body_length total_length].
  unfold kFixedHeaderSize.
  rewrite (u32_small (lenZ (encodeMetadata _))), (u32_small (lenZ (m_body m))) by lia.
  rewrite (u32_small (32 + _)) by lia. rewrite u32_small by lia. done.
Qed.

Lemma message_header_valid m :
  fits m -> header_valid (message_header m) /\ header_in_range (message_header m).
Proof.
  intros He. destruct (message_header_lengths m He) as (Hm & Hb & Ht).
  destruct He as (Hr & Hml & Hbl).
  assert (Hv : header_valid (message_header m)).
  { unfold header_valid. rewrite Hm, Hb, Ht. simpl.
    destruct (m_type m); simpl; repeat split; lia. }
  split; [done|]. apply header_valid_in_range; [done|simpl; done|..].
  - rewrite Hm. apply lenZ_nonneg.
  - rewrite Hb. apply lenZ_nonneg.
Qed.

Lemma message_header_ok m : fits m -> validateHeader (message_header m) = kOk.
Proof. intros He. destruct (message_header_valid m He). by apply validateHeader_ok. Qed.

(** The assertions of [encodeFrame] hold for what fits. *)
Lemma encodeFrame_asserts_fits m :
  fits m -> encodeFrame_asserts (m_request_id m) (m_type m) (m_metadata m) (m_body m) = true.
Proof.
  intros Hf. destruct (message_header_lengths m Hf) as (E1 & E2 & E3).
  pose proof (message_header_ok m Hf) as Hok. unfold message_header in *.
  unfold encodeFrame_asserts; cbv zeta. rewrite E1, E2, E3, Hok, bool_decide_true by reflexivity.
  destruct Hf as (_ & H1 & H2). rewrite !andb_true_iff, !Z.leb_le.
  unfold kMaxTotalLength. repeat split; try done. lia.
Qed.

#[global] Arguments encode : simpl never.

Lemma encode_eq m :
  encode m = encodeHeader (message_header m) ++ encodeMetadata (m_metadata m) ++ m_body m.
Proof. done. Qed.

(** * The parser on a well-formed stream *)

Module FrameParserFacts.
Import FrameParser.

(** The parser after a frame was completed, with [rest] still buffered. *)
Definition completed (m : Message) (rest : bytes) : t :=
  mk kComplete (message_header m) rest (m_metadata m) (m_body m) true.

(** The parser is between frames or inside one, and [seen] are the octets of
    the current frame it has taken in. *)
Inductive waiting : t -> bytes -> Prop :=
  | waiting_header buf :
      waiting (mk kNeedHeader default_header buf [] [] false) buf
  | waiting_payload h buf :
      header_in_range h -> validateHeader h = kOk -> total_length h <> kFixedHeaderSize ->
      waiting (mk kNeedPayload h buf [] [] false) (encodeHeader h ++ buf).

Lemma encodeMetadata_nil_inv meta : lenZ (encodeMetadata meta) = 0 -> meta = [].
Proof.
  intros H. pose proof (length_encodeMetadata meta). unfold lenZ in H.
  destruct meta; simpl in *; [done|lia].
Qed.

Lemma lenZ_0_inv {A} (l : list A) : lenZ l = 0 -> l = [].
Proof. destruct l; unfold lenZ; simpl; [done|lia]. Qed.

Lemma drop_lenZ {A} (l k : list A) n : n = lenZ l -> drop (Z.to_nat n) (l ++ k) = k.
Proof. intros ->. rewrite to_nat_lenZ. apply drop_app_length. Qed.

Lemma payload_length m :
  fits m ->
  u32 (total_length (message_header m) - kFixedHeaderSize) =
  lenZ (encodeMetadata (m_metadata m) ++ m_body m).
Proof.
  intros He. destruct (message_header_lengths m He) as (_ & _ & Ht).
  destruct (message_header_valid m He) as [_ Hr]. unfold header_in_range in Hr.
  rewrite lenZ_app. rewrite u32_small; rewrite Ht in *; unfold kFixedHeaderSize in *; [lia|].
  pose proof (lenZ_nonneg (encodeMetadata (m_metadata m))). pose proof (lenZ_nonneg (m_body m)). lia.
Qed.

Lemma feed_payload_complete m rest st c :
  encodable m ->
  feed_payload (mk st (message_header m)
                   (encodeMetadata (m_metadata m) ++ m_body m ++ rest) [] [] c) =
  Ret (kOk, completed m rest).
Proof.
  intros [He Hwf]. pose proof (payload_length m He) as Hp.
  destruct (message_header_lengths m He) as (Hm & Hb & _).
  destruct He as (_ & Hml & Hbl). unfold kMaxMetadataLength in Hml.
  unfold feed_payload; cbn [header_ buffer_ metadata_ body_ state_].
  rewrite Hp, Hm, Hb, to_nat_lenZ.
  rewrite (proj2 (Z.ltb_ge _ _)) by (rewrite !lenZ_app; pose proof (lenZ_nonneg rest); lia).
  assert (Hmeta : (if 0 <? lenZ (encodeMetadata (m_metadata m))
    then decodeMetadata (encodeMetadata (m_metadata m) ++ m_body m ++ rest)
           (length (encodeMetadata (m_metadata m))) []
    else Ret (kOk, [])) = Ret (kOk, m_metadata m)).
  { case_if; [apply decodeMetadata_encodeMetadata_app; [done|lia]|].
    pose proof (lenZ_nonneg (encodeMetadata (m_metadata m))).
    by rewrite (encodeMetadata_nil_inv (m_metadata m)) by lia. }
  rewrite to_nat_lenZ, Hmeta. cbn [mbind outcome_bind bool_decide negb].
  rewrite bool_decide_true by done. cbn [negb].
  assert (Hbody : (if 0 <? lenZ (m_body m)
    then read_slice (encodeMetadata (m_metadata m) ++ m_body m ++ rest)
           (length (encodeMetadata (m_metadata m))) (length (m_body m))
    else Ret []) = Ret (m_body m)).
  { case_if; [apply read_slice_app|].
    pose proof (lenZ_nonneg (m_body m)). by rewrite (lenZ_0_inv (m_body m)) by lia. }
  rewrite to_nat_lenZ, Hbody. cbn [mbind outcome_bind].
  unfold completed. do 3 f_equal. by rewrite app_assoc, drop_app_length.
Qed.

Lemma feed_payload_partial h buf st :
  lenZ buf < u32 (total_length h - kFixedHeaderSize) ->
  feed_payload (mk st h buf [] [] false) = Ret (kNeedMoreData, mk st h buf [] [] false).
Proof. intros H. unfold feed_payload; simpl. by rewrite (proj2 (Z.ltb_lt _ _)). Qed.

(** A header that announces no payload belongs to a message of no payload. *)
Lemma no_payload m :
  fits m -> total_length (message_header m) = kFixedHeaderSize ->
  encodeMetadata (m_metadata m) = [] /\ m_metadata m = [] /\ m_body m = [].
Proof.
  intros He Ht. destruct (message_header_lengths m He) as (_ & _ & Ht2).
  pose proof (lenZ_nonneg (encodeMetadata (m_metadata m))). pose proof (lenZ_nonneg (m_body m)).
  assert (lenZ (encodeMetadata (m_metadata m)) = 0) by lia.
  repeat split; [by apply lenZ_0_inv|by apply encodeMetadata_nil_inv|apply lenZ_0_inv; lia].
Qed.

(** A parser that has seen part of a frame and gets the rest completes it and
    keeps what follows. *)
Lemma feed_complete p seen chunk m rest :
  waiting p seen -> encodable m -> seen ++ chunk = encode m ++ rest ->
  feed p (Data chunk) = Ret (kOk, completed m rest).
Proof.
  intros Hw Henc Heq. pose proof (proj1 Henc) as He. rewrite encode_eq, <- !app_assoc in Heq.
  destruct (message_header_valid m He) as [_ Hr]. pose proof (message_header_ok m He) as Hok.
  destruct Hw as [buf|h buf Hr' Hok' Ht'];
    unfold feed, feed_states; cbn [complete_ state_ buffer_ header_ metadata_ body_].
  - rewrite Heq.
    rewrite (proj2 (Z.ltb_ge _ _)) by
      (rewrite lenZ_app, lenZ_encodeHeader; match goal with |- _ <= _ + ?x =>
         pose proof (lenZ_nonneg (encodeMetadata (m_metadata m) ++ m_body m ++ rest)) end; lia).
    rewrite decodeHeader_encodeHeader_app by done. cbn [mbind outcome_bind].
    rewrite Hok, bool_decide_true by done. cbn [negb].
    rewrite drop_lenZ by done. case_if.
    + destruct (no_payload m He E) as (E1 & E2 & E3).
      unfold completed. by rewrite E1, E2, E3.
    + by apply feed_payload_complete.
  - rewrite <- app_assoc in Heq.
    apply app_inj_1 in Heq as [Hh Hbuf]; [|done].
    apply encodeHeader_inj in Hh as ->; [|done..].
    rewrite Hbuf. by apply feed_payload_complete.
Qed.

(** A parser that gets a proper prefix of a frame asks for more. *)
Lemma feed_partial p seen chunk m tail :
  waiting p seen -> encodable m -> seen ++ chunk ++ tail = encode m -> tail <> [] ->
  exists p', feed p (Data chunk) = Ret (kNeedMoreData, p') /\ waiting p' (seen ++ chunk).
Proof.
  intros Hw [He _] Heq Htail. pose proof (payload_length m He) as Hp.
  destruct (message_header_valid m He) as [_ Hr]. pose proof (message_header_ok m He) as Hok.
  assert (Hlt : 0 < lenZ tail) by (destruct tail; [done|]; rewrite lenZ_cons; pose proof (lenZ_nonneg tail); lia).
  rewrite encode_eq in Heq.
  destruct Hw as [buf|h buf Hr' Hok' Ht'];
    unfold feed, feed_states; cbn [complete_ state_ buffer_ header_ metadata_ body_].
  - destruct (lenZ (buf ++ chunk) <? kFixedHeaderSize) eqn:Elen; breflect.
    { eexists. split; [done|constructor]. }
    rewrite app_assoc in Heq.
    assert (exists rest, buf ++ chunk = encodeHeader (message_header m) ++ rest /\
                         rest ++ tail = encodeMetadata (m_metadata m) ++ m_body m) as (rest & E1 & E2).
    { exists (drop 32 (buf ++ chunk)).
      assert (Hl : (32 <= length (buf ++ chunk))%nat) by (unfold lenZ, kFixedHeaderSize in *; lia).
      rewrite <- (take_drop 32 (buf ++ chunk)) in Heq at 1. rewrite <- app_assoc in Heq.
      apply app_inj_1 in Heq as [E1 E2]; [|by rewrite length_take, length_encodeHeader, Nat.min_l].
      split; [|done]. by rewrite <- E1, take_drop. }
    rewrite E1, decodeHeader_encodeHeader_app by done. cbn [mbind outcome_bind].
    rewrite Hok, bool_decide_true by done. cbn [negb].
    rewrite drop_lenZ by done. case_if.
    + destruct (no_payload m He E) as (F1 & F2 & F3). rewrite F1, F3 in E2.
      by apply app_nil in E2 as [_ ->].
    + eexists. split.
      * apply feed_payload_partial. rewrite Hp, <- E2, lenZ_app. lia.
      * by constructor.
  - rewrite <- !app_assoc in Heq.
    apply app_inj_1 in Heq as [Hh Hbuf]; [|done].
    apply encodeHeader_inj in Hh as ->; [|done..].
    eexists. split.
    + apply feed_payload_partial. rewrite Hp, <- Hbuf, app_assoc, (lenZ_app _ tail). lia.
    + rewrite <- app_assoc. by constructor.
Qed.

(** The buffered octets do not reach the end of the next message. *)
Definition incomplete (seen : bytes) (ms : list Message) : Prop :=
  match ms with
  | [] => seen = []
  | m :: _ => lenZ seen < lenZ (encode m)
  end.

Definition stream (ms : list Message) : bytes := concat (map encode ms).

Lemma stream_cons m ms : stream (m :: ms) = encode m ++ stream ms.
Proof. done. Qed.

#[global] Arguments stream : simpl never.

Lemma app_eq_split (a b c d : bytes) :
  a ++ b = c ++ d ->
  (exists r, a = c ++ r /\ r ++ b = d) \/ (exists t, t <> [] /\ a ++ t = c).
Proof.
  revert c. induction a as [|x a IH]; intros [|y c] E; simpl in E.
  - left. by exists [].
  - right. by exists (y :: c).
  - left. exists (x :: a). by rewrite <- E.
  - injection E as -> E. destruct (IH c E) as [(r & -> & Er)|(t & Ht & Et)].
    + left. by exists r.
    + right. exists t. by rewrite <- Et.
Qed.

Lemma waiting_nil p : waiting p [] -> p = init.
Proof. by inversion 1. Qed.

(** Feeding a chunk of a well-formed stream completes the next frame or asks
    for more, never anything else. *)
Lemma feed_stream p seen chunk tail ms :
  waiting p seen -> Forall encodable ms -> seen ++ chunk ++ tail = stream ms ->
  (exists m ms' rest, ms = m :: ms' /\ feed p (Data chunk) = Ret (kOk, completed m rest) /\
     rest ++ tail = stream ms' /\ (length rest < length (seen ++ chunk))%nat) \/
  (exists p', feed p (Data chunk) = Ret (kNeedMoreData, p') /\
     waiting p' (seen ++ chunk) /\ incomplete (seen ++ chunk) ms).
Proof.
  intros Hw Hms Heq. rewrite app_assoc in Heq. destruct ms as [|m ms].
  - apply app_nil in Heq as [[-> ->]%app_nil ->]. right.
    apply waiting_nil in Hw as ->. eexists. repeat split; constructor.
  - inversion_clear Hms as [|? ? He Hms']. rewrite stream_cons in Heq.
    destruct (app_eq_split _ _ _ _ Heq) as [(r & Er & Et)|(u & Hu & Et)].
    + left. exists m, ms, r. repeat split; [by eapply feed_complete|done|].
      rewrite Er, length_app, encode_eq, length_app, length_encodeHeader. lia.
    + right. rewrite <- app_assoc in Et.
      destruct (feed_partial _ _ _ _ _ Hw He Et Hu) as (p' & Ef & Hw').
      exists p'. repeat split; [done..|]. unfold incomplete. rewrite <- Et, app_assoc, (lenZ_app _ u).
      destruct u as [|b u]; [done|]. rewrite lenZ_cons. pose proof (lenZ_nonneg u). lia.
Qed.

Lemma feed_null p : feed p (Null 0) = feed p (Data []).
Proof. unfold feed. destruct p; simpl. by rewrite app_nil_r. Qed.

Lemma drain_waiting f p seen out : waiting p seen -> drain (S f) p out = Ret (kOk, out, p).
Proof. by inversion 1. Qed.

(** The receive loop after a chunk, as a statement about the messages it takes
    off the stream. *)
Definition consumes (p' : t) (tail : bytes) (ms ms1 ms2 : list Message) : Prop :=
  ms = ms1 ++ ms2 /\
  exists seen', waiting p' seen' /\ seen' ++ tail = stream ms2 /\ incomplete seen' ms2.

Lemma drain_completed ms fuel m rest tail out :
  Forall encodable ms -> rest ++ tail = stream ms -> (length rest + 1 < fuel)%nat ->
  exists ms1 ms2 p', drain fuel (completed m rest) out =
    Ret (kOk, out ++ map message_frame (m :: ms1), p') /\ consumes p' tail ms ms1 ms2.
Proof.
  revert fuel m rest out. induction ms as [|m2 ms IH]; intros fuel m rest out Hms Heq Hf;
    (destruct fuel as [|fuel]; [lia|]); cbn [drain];
    change (isComplete (completed m rest)) with true; cbn iota zeta;
    change (reset (completed m rest)) with (mk kNeedHeader default_header rest [] [] false);
    rewrite feed_null;
    pose proof (waiting_header rest) as Hw;
    destruct (feed_stream _ _ [] tail _ Hw Hms Heq)
      as [(m3 & ms3 & r3 & E & Ef & Et & Hl)|(p' & Ef & Hw' & Hi)]; try done.
  - rewrite Ef. cbn [mbind outcome_bind is_error].
    destruct fuel as [|fuel]; [lia|]. rewrite app_nil_r in *.
    exists [], [], p'. split; [by erewrite drain_waiting|]. split; [done|]. by exists rest.
  - injection E as <- <-. rewrite Ef. cbn [mbind outcome_bind].
    change (is_error kOk) with false. cbn iota. rewrite app_nil_r in Hl.
    inversion_clear Hms as [|? ? _ Hms'].
    destruct (IH fuel m2 r3 (out ++ [frame_of (completed m rest)]) Hms' Et ltac:(lia))
      as (ms1 & ms2 & p' & Ed & Hms12 & Hc).
    exists (m2 :: ms1), ms2, p'. rewrite Ed, <- app_assoc. split; [done|].
    split; [by rewrite Hms12|done].
  - rewrite Ef. cbn [mbind outcome_bind is_error].
    destruct fuel as [|fuel]; [lia|]. rewrite app_nil_r in *.
    exists [], (m2 :: ms), p'. split; [by erewrite drain_waiting|]. split; [done|]. by exists rest.
Qed.

Lemma receive_stream p seen chunk tail ms :
  waiting p seen -> Forall encodable ms -> seen ++ chunk ++ tail = stream ms ->
  exists ms1 ms2 p', receive p chunk = Ret (kOk, map message_frame ms1, p') /\
    consumes p' tail ms ms1 ms2.
Proof.
  intros Hw Hms Heq. unfold receive.
  destruct (feed_stream _ _ _ _ _ Hw Hms Heq)
    as [(m & ms' & r & -> & -> & Et & Hl)|(p' & -> & Hw' & Hi)]; cbn [mbind outcome_bind].
  - change (is_error kOk) with false. cbn iota. inversion_clear Hms as [|? ? _ Hms'].
    destruct (drain_completed ms' (S (S (length r))) m r tail [] Hms' Et ltac:(lia))
      as (ms1 & ms2 & p' & Ed & E12 & Hc).
    exists (m :: ms1), ms2, p'. split; [done|]. split; [by rewrite E12|done].
  - exists [], ms, p'. cbn [is_error]. erewrite drain_waiting by done. split; [done|].
    split; [done|]. exists (seen ++ chunk). by rewrite <- app_assoc.
Qed.

(** Whatever the chunks, a well-formed stream yields its messages and leaves an
    idle parser. *)
Lemma receive_all_stream chunks p seen ms :
  waiting p seen -> Forall encodable ms -> seen ++ concat chunks = stream ms -> incomplete seen ms ->
  receive_all p chunks = Ret (kOk, map message_frame ms, init).
Proof.
  revert p seen ms. induction chunks as [|c cs IH]; intros p seen ms Hw Hms Heq Hi.
  - rewrite app_nil_r in Heq. destruct ms as [|m ms].
    + simpl in Hi. subst. by apply waiting_nil in Hw as ->.
    + cbn [incomplete] in Hi. rewrite Heq, stream_cons, lenZ_app in Hi.
      pose proof (lenZ_nonneg (stream ms)). lia.
  - destruct (receive_stream p seen c (concat cs) ms Hw Hms Heq)
      as (ms1 & ms2 & p' & Er & -> & seen' & Hw' & Heq' & Hi').
    apply Forall_app in Hms as [_ Hms2].
    pose proof (IH _ _ _ Hw' Hms2 Heq' Hi') as E.
    cbn [receive_all]. rewrite Er. cbn [mbind outcome_bind].
    change (is_error kOk) with false. cbn iota. rewrite E. cbn [mbind outcome_bind].
    by rewrite map_app.
Qed.

(** * The parser on any stream *)

(** The representation invariant of the parser. *)
Definition parser_wf (p : t) : Prop :=
  (complete_ p = true <-> state_ p = kComplete) /\
  (state_ p = kNeedPayload ->
     header_in_range (header_ p) /\ validateHeader (header_ p) = kOk /\
     total_length (header_ p) <> kFixedHeaderSize) /\
  (complete_ p = false -> body_ p = []) /\
  StdMap.map_wf (metadata_ p).

(** The octets taken in that no completed frame accounts for. *)
Definition pending (p : t) : bytes :=
  match state_ p with
  | kNeedPayload => encodeHeader (header_ p) ++ buffer_ p
  | _ => buffer_ p
  end.

(** What a call of [feed] with octets [l] does to a parser that is not
    complete. *)
Definition feed_post (p : t) (l : bytes) (r : ParseResult) (p' : t) : Prop :=
  parser_wf p' /\
  (r = kOk -> complete_ p' = true /\ header_valid (header_ p') /\
     exists payload,
       pending p ++ l = encodeHeader (header_ p') ++ payload ++ buffer_ p' /\
       kFixedHeaderSize + lenZ payload = total_length (header_ p') /\
       body_ p' = drop (Z.to_nat (meta_length (header_ p'))) payload) /\
  (r <> kOk -> complete_ p' = false /\ pending p' = pending p ++ l).

Lemma feed_post_keep p l r p' :
  r <> kOk -> parser_wf p' -> complete_ p' = false -> pending p' = pending p ++ l ->
  feed_post p l r p'.
Proof. unfold feed_post. tauto. Qed.

Lemma parser_wf_header h buf meta :
  StdMap.map_wf meta -> parser_wf (mk kNeedHeader h buf meta [] false).
Proof. by unfold parser_wf. Qed.

(** Arithmetic facts of a valid header. *)
Lemma valid_lengths h :
  header_in_range h -> validateHeader h = kOk ->
  header_valid h /\ 0 <= meta_length h /\ 0 <= body_length h /\
  u32 (total_length h - kFixedHeaderSize) = meta_length h + body_length h /\
  total_length h = kFixedHeaderSize + (meta_length h + body_length h).
Proof.
  intros Hr Hv. apply validateHeader_ok in Hv; [|done].
  pose proof Hr as Hr2. unfold header_in_range in Hr2.
  pose proof Hv as Hv2. unfold header_valid in Hv2.
  unfold kMaxMetadataLength, kMaxBodyLength, kFixedHeaderSize in *.
  split; [done|]. rewrite u32_small by lia. lia.
Qed.

Lemma body_slice mem meta_len body_len :
  0 <= meta_len -> 0 <= body_len -> meta_len + body_len <= lenZ mem ->
  (if 0 <? body_len then read_slice mem (Z.to_nat meta_len) (Z.to_nat body_len) else Ret []) =
  Ret (drop (Z.to_nat meta_len) (take (Z.to_nat (meta_len + body_len)) mem)).
Proof.
  intros Hm Hb Hl. unfold lenZ in Hl.
  rewrite Z2Nat.inj_add by done. rewrite <- take_drop_commute. case_if.
  - unfold read_slice. by rewrite (proj2 (Nat.eqb_neq _ _)), (proj2 (Nat.leb_le _ _)) by lia.
  - by replace body_len with 0 by lia.
Qed.

Lemma feed_payload_spec h buf meta p0 l :
  header_in_range h -> validateHeader h = kOk -> total_length h <> kFixedHeaderSize ->
  StdMap.map_wf meta -> pending p0 ++ l = encodeHeader h ++ buf ->
  match feed_payload (mk kNeedPayload h buf meta [] false) with
  | Ret (r, p') => feed_post p0 l r p'
  | OutOfBounds => lenZ buf < meta_length h + 20
  | OutOfFuel => False
  end.
Proof.
  intros Hr Hok Ht Hm Hpend. destruct (valid_lengths h Hr Hok) as (Hv & Hml & Hbl & Hpl & Htl).
  assert (Hkeep : forall meta', StdMap.map_wf meta' -> forall r, r <> kOk ->
            feed_post p0 l r (mk kNeedPayload h buf meta' [] false)).
  { intros meta' Hm' r Hne. by apply feed_post_keep. }
  unfold feed_payload; cbn [header_ buffer_ metadata_ body_ state_ complete_]. rewrite Hpl.
  case_if; [by apply Hkeep|].
  assert (Hmeta : match (if 0 <? meta_length h
                         then decodeMetadata buf (Z.to_nat (meta_length h)) meta
                         else Ret (kOk, meta)) with
                  | Ret (_, meta') => StdMap.map_wf meta'
                  | OutOfBounds => lenZ buf < meta_length h + 20
                  | OutOfFuel => False
                  end).
  { case_if; [|done]. pose proof (decodeMetadata_spec buf (Z.to_nat (meta_length h)) meta Hm) as H.
    destruct (decodeMetadata _ _ _) as [[? ?]| |]; [tauto|unfold lenZ; lia|done]. }
  destruct (if 0 <? meta_length h then _ else _) as [[r meta']| |]; try done.
  cbn [mbind outcome_bind]. case_bool_decide as Hrk; cbn [negb]; [|by apply Hkeep].
  rewrite body_slice by lia. cbn [mbind outcome_bind].
  split; [by unfold parser_wf|]. split; [|done]. intros _.
  split; [done|]. split; [done|]. cbn.
  exists (take (Z.to_nat (meta_length h + body_length h)) buf).
  rewrite take_drop. repeat split; [done|].
  unfold lenZ in *. rewrite length_take. lia.
Qed.

Lemma feed_spec p l :
  parser_wf p -> complete_ p = false ->
  match feed p (Data l) with
  | Ret (r, p') => feed_post p l r p'
  | OutOfBounds => lenZ (pending p ++ l) < kFixedHeaderSize + kMaxMetadataLength + 20
  | OutOfFuel => False
  end.
Proof.
  destruct p as [st h buf meta bod c]; unfold parser_wf; cbn. intros (Hst & Hp & Hb & Hm) ->.
  rewrite Hb by done. unfold feed, feed_states; cbn [complete_ state_ buffer_ header_ metadata_ body_].
  assert (Hmax : forall h', header_in_range h' -> validateHeader h' = kOk ->
                   meta_length h' <= kMaxMetadataLength).
  { intros h' H1 H2. destruct (valid_lengths h' H1 H2) as (Hv & _). apply Hv. }
  destruct st; [| |discriminate (proj2 Hst eq_refl)]; unfold pending at 1; cbn [state_ buffer_ header_].
  - case_if; [by (apply feed_post_keep; [|apply parser_wf_header|..])|].
    destruct (decodeHeader_total (buf ++ l)) as (h' & Ed & Hr & Ee);
      [unfold lenZ, kFixedHeaderSize in *; lia|].
    rewrite Ed. cbn [mbind outcome_bind].
    case_bool_decide as Hok; cbn [negb];
      [|by (apply feed_post_keep; [|apply parser_wf_header|..])].
    assert (Hsplit : buf ++ l = encodeHeader h' ++ drop (Z.to_nat kFixedHeaderSize) (buf ++ l))
      by (by rewrite Ee, take_drop).
    destruct (valid_lengths h' Hr Hok) as (Hv & Hml & Hbl & Hpl & Htl).
    case_if.
    + split; [by unfold parser_wf|]. split; [|done]. intros _.
      split; [done|]. split; [done|]. unfold pending; cbn.
      exists []. simpl app. repeat split; [done|rewrite E0; done|by rewrite drop_nil].
    + pose proof (feed_payload_spec h' (drop (Z.to_nat kFixedHeaderSize) (buf ++ l)) meta
        (mk kNeedHeader h buf meta [] false) l Hr Hok E0 Hm Hsplit) as H.
      destruct (feed_payload _) as [[r p']| |]; try done.
      specialize (Hmax h' Hr Hok). rewrite Hsplit, lenZ_app, lenZ_encodeHeader. lia.
  - destruct (Hp eq_refl) as (Hr & Hok & Ht).
    pose proof (feed_payload_spec h (buf ++ l) meta (mk kNeedPayload h buf meta [] false) l Hr Hok Ht Hm
      ltac:(by unfold pending; cbn; rewrite <- app_assoc)) as H.
    destruct (feed_payload _) as [[r p']| |]; try done.
    specialize (Hmax h Hr Hok). rewrite <- app_assoc, lenZ_app, lenZ_encodeHeader. lia.
Qed.

(** A parser that rejected a header. *)
Definition header_rejected (r : ParseResult) (p : t) : Prop :=
  complete_ p = false /\ state_ p = kNeedHeader /\ kFixedHeaderSize <= lenZ (buffer_ p) /\
  exists h, decodeHeader (buffer_ p) = Ret (r, h) /\ r <> kOk.

Lemma feed_rejected r p l :
  header_rejected r p -> exists p', feed p (Data l) = Ret (r, p') /\ header_rejected r p'.
Proof.
  destruct p as [st h buf meta bod c]. unfold header_rejected; cbn.
  intros (-> & -> & Hl & h' & Hd & Hr). unfold kFixedHeaderSize, lenZ in *.
  rewrite <- (decodeHeader_app buf l) in Hd by lia.
  unfold feed, feed_states; cbn [complete_ state_ buffer_ header_ metadata_ body_].
  rewrite (proj2 (Z.ltb_ge _ _)) by (unfold kFixedHeaderSize; rewrite lenZ_app; unfold lenZ; lia).
  rewrite Hd. cbn [mbind outcome_bind]. rewrite bool_decide_false by done. cbn [negb].
  eexists. split; [done|]. cbn. rewrite length_app. repeat split; [lia|]. by exists h'.
Qed.

Lemma feed_rejects p l r p' :
  complete_ p = false -> state_ p = kNeedHeader -> feed p (Data l) = Ret (r, p') ->
  r <> kNeedMoreData -> state_ p' = kNeedHeader -> header_rejected r p'.
Proof.
  destruct p as [st h buf meta bod c]; cbn. intros -> ->.
  unfold feed, feed_states; cbn [complete_ state_ buffer_ header_ metadata_ body_].
  case_if; [intros [= <- <-]; done|]. intros Hf Hr Hst.
  destruct (decodeHeader_total (buf ++ l)) as (h' & Ed & _);
    [unfold lenZ, kFixedHeaderSize in *; lia|].
  rewrite Ed in Hf. cbn [mbind outcome_bind] in Hf. case_bool_decide as Hok; cbn [negb] in Hf.
  - case_if_in Hf; [injection Hf as <- <-; done|]. unfold feed_payload in Hf. exfalso.
    cbn [header_ buffer_ metadata_ body_ state_ complete_] in Hf.
    case_if_in Hf; [by injection Hf as <- <-|].
    destruct (if 0 <? meta_length h' then _ else _) as [[r2 m2]| |]; try done.
    cbn [mbind outcome_bind] in Hf. case_if_in Hf; [by injection Hf as <- <-|].
    destruct (if 0 <? body_length h' then _ else _); [|done..].
    by injection Hf as <- <-.
  - injection Hf as <- <-. unfold header_rejected; cbn. repeat split; [done|]. by exists h'.
Qed.

(** * Properties *)

(** C18: whatever way the network cuts the encodings of any sequence of
    messages into chunks, the receive loop delivers exactly those messages, in
    order, without an error, and ends with the parser in its initial state. *)
Theorem stream_roundtrip ms chunks :
  Forall encodable ms -> concat chunks = stream ms ->
  receive_all init chunks = Ret (kOk, map message_frame ms, init).
Proof.
  intros Hms Hc. apply (receive_all_stream chunks init [] ms); try done.
  - constructor.
  - destruct ms as [|m ms]; cbn [incomplete]; [done|].
    rewrite encode_eq, lenZ_app, lenZ_encodeHeader, lenZ_nil. unfold kFixedHeaderSize.
    pose proof (lenZ_nonneg (encodeMetadata (m_metadata m) ++ m_body m)). lia.
Qed.

Definition example_messages : list Message :=
  [mkMessage 7 kRequest example_metadata (str "hello"); mkMessage 8 kPing [] [];
   mkMessage 9 kResponse [(str "k", str "v")] []].

Lemma stream_roundtrip_witness :
  Forall encodable example_messages /\
  receive_all init [take 40 (stream example_messages); []; drop 40 (stream example_messages)] =
  Ret (kOk, map message_frame example_messages, init).
Proof.
  assert (H : Forall encodable example_messages).
  { apply (bool_decide_unpack _). by vm_compute. }
  split; [exact H|]. apply (stream_roundtrip example_messages); [exact H|vm_compute; reflexivity].
Defined.

(** On any octets, from any well-formed parser, [feed] terminates, keeps
    the representation invariant and loses no octet: a completed frame has a
    valid header, and header, payload and what stays buffered are the octets
    taken in; without a completed frame all octets stay pending.  A read
    outside the buffer needs a buffer shorter than the largest metadata plus
    its 20 octets of slack.  A complete parser refuses octets and does not
    change. *)
Theorem feed_conserves p l :
  parser_wf p ->
  (complete_ p = true -> feed p (Data l) = Ret (kInternalError, p)) /\
  (complete_ p = false ->
     match feed p (Data l) with
     | Ret (r, p') => feed_post p l r p'
     | OutOfBounds => lenZ (pending p ++ l) < kFixedHeaderSize + kMaxMetadataLength + 20
     | OutOfFuel => False
     end).
Proof.
  intros Hwf. split; [intros Hc; unfold feed; by rewrite Hc|]. by apply feed_spec.
Qed.

Lemma feed_conserves_witness :
  parser_wf init /\
  (complete_ init = true -> feed init (Data [x00]) = Ret (kInternalError, init)) /\
  (complete_ init = false ->
     match feed init (Data [x00]) with
     | Ret (r, p') => feed_post init [x00] r p'
     | OutOfBounds => lenZ (pending init ++ [x00]) < kFixedHeaderSize + kMaxMetadataLength + 20
     | OutOfFuel => False
     end).
Proof.
  assert (H : parser_wf init) by (by apply parser_wf_header).
  split; [exact H|]. exact (feed_conserves init [x00] H).
Defined.

(** A stream whose header was rejected stays rejected with the same
    result, however many octets follow, until the parser is replaced. *)
Theorem feed_header_error_sticky p l r p' ls :
  complete_ p = false -> state_ p = kNeedHeader ->
  feed p (Data l) = Ret (r, p') -> r <> kNeedMoreData -> state_ p' = kNeedHeader ->
  r <> kOk /\
  exists p'', fold_left (fun acc l' => let* '(_, q) := acc in feed q (Data l')) ls (Ret (r, p')) =
              Ret (r, p'') /\ header_rejected r p''.
Proof.
  intros Hc Hs Hf Hr Hs'. pose proof (feed_rejects _ _ _ _ Hc Hs Hf Hr Hs') as Hrej.
  split; [by destruct Hrej as (_ & _ & _ & ? & _ & ?)|].
  clear Hf Hs'. revert p' Hrej. induction ls as [|l' ls IH]; intros p' Hrej; cbn; [by exists p'|].
  destruct (feed_rejected _ _ l' Hrej) as (p2 & -> & Hrej2). by apply IH.
Qed.

Definition rejected_parser : t :=
  mk kNeedHeader (mkHeader 0 0 0 0 0 0 0 0 0 0) (repeat x00 32) [] [] false.

Lemma feed_header_error_sticky_witness :
  feed init (Data (repeat x00 32)) = Ret (kInvalidMagic, rejected_parser) /\
  kInvalidMagic <> kOk /\
  exists p'', fold_left (fun acc l' => let* '(_, q) := acc in feed q (Data l')) [[x01]; []]
                (Ret (kInvalidMagic, rejected_parser)) =
              Ret (kInvalidMagic, p'') /\ header_rejected kInvalidMagic p''.
Proof.
  split; [vm_compute; reflexivity|].
  apply (feed_header_error_sticky init (repeat x00 32)); done.
Defined.

End FrameParserFacts.

(** The assertions of [encodeFrame] hold exactly for metadata and bodies
    within the limits (as long as the sizes fit 32 bits), and then the frame
    has the announced length, at most [kMaxTotalLength]. *)
Theorem encodeFrame_limits m :
  0 <= m_request_id m < 2 ^ 64 ->
  lenZ (encodeMetadata (m_metadata m)) < 2 ^ 32 -> lenZ (m_body m) < 2 ^ 32 ->
  (encodeFrame_asserts (m_request_id m) (m_type m) (m_metadata m) (m_body m) = true <-> fits m) /\
  (fits m ->
   lenZ (encode m) = total_length (message_header m) /\ lenZ (encode m) <= kMaxTotalLength).
Proof.
  intros Hr Hm Hb. split; [split|].
  - unfold encodeFrame_asserts, frame_header; cbn [meta_length body_length total_length].
    rewrite !andb_true_iff, !Z.leb_le. intros (((H1 & H2) & _) & _).
    pose proof (lenZ_nonneg (encodeMetadata (m_metadata m))). pose proof (lenZ_nonneg (m_body m)).
    rewrite u32_small in H1, H2 by lia. done.
  - apply encodeFrame_asserts_fits.
  - intros Hf. destruct (message_header_lengths m Hf) as (E1 & E2 & E3).
    rewrite encode_eq, !lenZ_app, lenZ_encodeHeader, E3.
    destruct Hf as (_ & H1 & H2). unfold kMaxTotalLength. lia.
Qed.

Lemma encodeFrame_limits_witness :
  let m := mkMessage 7 kRequest example_metadata (str "hello") in
  (encodeFrame_asserts (m_request_id m) (m_type m) (m_metadata m) (m_body m) = true <-> fits m) /\
  (fits m ->
   lenZ (encode m) = total_length (message_header m) /\ lenZ (encode m) <= kMaxTotalLength).
Proof.
  intros m. apply (encodeFrame_limits m); [by vm_compute|by vm_compute|by vm_compute].
Defined.
