(* ===== verification/NetBuffer.v ===== *)
(** The connection buffer: [Buffer] of src/net/buffer.cpp.  The storage vector
    and the two indexes are kept as the code has them, memory copies are
    checked against the storage, and the class is shown to refine a plain byte
    queue. *)
From Stdlib Require Import ZArith Lia.
From Stdlib Require Import Strings.Byte.
From stdpp Require Import base list strings.
From S2P Require Import Prelude.

(** Writes [l] into [mem] at [pos] ([std::memcpy], [std::memmove], the kernel
    in [readv]). *)
Definition write_slice (mem : bytes) (pos : nat) (l : bytes) : outcome bytes :=
  if (length l =? 0)%nat then Ret mem
  else if (pos + length l <=? length mem)%nat
  then Ret (take pos mem ++ l ++ drop (pos + length l) mem)
  else OutOfBounds.

Module Buffer.

Definition kCheapPrepend : Z := 8.

(** [std::numeric_limits<std::size_t>::max()] and the largest size of a
    [std::vector<char>] ([PTRDIFF_MAX]). *)
Definition size_max : Z := 2 ^ 64 - 1.
Definition vector_max_size : Z := 2 ^ 63 - 1.

Record t := mk {
  buffer_ : bytes;
  reader_index_ : Z;
  writer_index_ : Z;
}.

(** The exception a member function can leave with. *)
Inductive exn := length_error.

(** [Buffer(initial_size)]; [None] when the vector's constructor throws. *)
Definition construct (initial_size : Z) : option t :=
  let size := Z.max initial_size (kCheapPrepend + 1) in
  if vector_max_size <? size then None
  else Some (mk (repeat x00 (Z.to_nat size)) kCheapPrepend kCheapPrepend).

Definition readableBytes (b : t) : Z := u64 (writer_index_ b - reader_index_ b).
Definition writableBytes (b : t) : Z := u64 (lenZ (buffer_ b) - writer_index_ b).
Definition prependableBytes (b : t) : Z := reader_index_ b.

(** The octets at [peek()] that a caller may read. *)
Definition readable (b : t) : bytes :=
  take (Z.to_nat (writer_index_ b - reader_index_ b))
    (drop (Z.to_nat (reader_index_ b)) (buffer_ b)).

Definition retrieveAll (b : t) : t := mk (buffer_ b) kCheapPrepend kCheapPrepend.

Definition retrieve (b : t) (length : Z) : t :=
  if length <? readableBytes b
  then mk (buffer_ b) (u64 (reader_index_ b + length)) (writer_index_ b)
  else retrieveAll b.

Definition retrieveAsString (b : t) (length : Z) : outcome (bytes * t) :=
  let actual_length := Z.min length (readableBytes b) in
  let* result := read_slice (buffer_ b) (Z.to_nat (reader_index_ b)) (Z.to_nat actual_length) in
  Ret (result, retrieve b actual_length).

Definition retrieveAllAsString (b : t) : outcome (bytes * t) :=
  retrieveAsString b (readableBytes b).

(** [makeSpace]: an exception leaves the object as it was. *)
Definition makeSpace (b : t) (length : Z) : outcome (option exn * t) :=
  if u64 (size_max - writer_index_ b) <? length then Ret (Some length_error, b)
  else if length <=? u64 (u64 (writableBytes b + prependableBytes b) - kCheapPrepend) then
    let readable := readableBytes b in
    let* moved := read_slice (buffer_ b) (Z.to_nat (reader_index_ b)) (Z.to_nat readable) in
    let* buffer := write_slice (buffer_ b) (Z.to_nat kCheapPrepend) moved in
    Ret (None, mk buffer kCheapPrepend (u64 (kCheapPrepend + readable)))
  else
    let size := u64 (writer_index_ b + length) in
    if vector_max_size <? size then Ret (Some length_error, b)
    else
      Ret (None, mk (take (Z.to_nat size) (buffer_ b) ++
                     repeat x00 (Z.to_nat (size - lenZ (buffer_ b))))
                    (reader_index_ b) (writer_index_ b)).

Definition ensureWritableBytes (b : t) (length : Z) : outcome (option exn * t) :=
  if writableBytes b <? length then makeSpace b length else Ret (None, b).

(** [hasWritten] as a release build runs it: its assertion is its guard. *)
Definition hasWritten (b : t) (length : Z) : t :=
  if writableBytes b <? length then b
  else mk (buffer_ b) (reader_index_ b) (u64 (writer_index_ b + length)).

(** The arguments of [append]: a null pointer and a length, or octets outside
    the buffer. *)
Inductive source :=
  | NullPtr (length : Z)
  | Octets (l : bytes).

Definition append (b : t) (data : source) : outcome (option exn * t) :=
  match data with
  | NullPtr _ => Ret (None, b)
  | Octets l =>
      if lenZ l =? 0 then Ret (None, b)
      else
        let* '(thrown, b) := ensureWritableBytes b (lenZ l) in
        match thrown with
        | Some e => Ret (Some e, b)
        | None =>
            let* buffer := write_slice (buffer_ b) (Z.to_nat (writer_index_ b)) l in
            Ret (None, hasWritten (mk buffer (reader_index_ b) (writer_index_ b)) (lenZ l))
        end
  end.

(** The assertion of [append]. *)
Definition append_asserts (data : source) : bool :=
  match data with
  | NullPtr length => length =? 0
  | Octets _ => true
  end.

(** What [readv] reports: an [errno], or the octets it stored, first in the
    writable part and then in the 65536 octets of the stack buffer. *)
Inductive readv_result :=
  | ReadvError (errno : Z)
  | ReadvOctets (l : bytes).

Definition extra_size : Z := 65536.

Definition readv_capacity (b : t) : Z :=
  if writableBytes b <? extra_size then writableBytes b + extra_size else writableBytes b.

(** [readFd]: the value returned, the [errno] saved, the exception, the buffer. *)
Definition readFd (b : t) (r : readv_result) : outcome (Z * Z * option exn * t) :=
  match r with
  | ReadvError errno => Ret (-1, errno, None, b)
  | ReadvOctets l =>
      let writable := writableBytes b in
      if readv_capacity b <? lenZ l then OutOfBounds
      else
        let first := take (Z.to_nat writable) l in
        let* buffer := write_slice (buffer_ b) (Z.to_nat (writer_index_ b)) first in
        if lenZ l <=? writable then
          Ret (lenZ l, 0, None, mk buffer (reader_index_ b) (u64 (writer_index_ b + lenZ l)))
        else
          let* '(thrown, b) :=
            append (mk buffer (reader_index_ b) (lenZ buffer))
                   (Octets (drop (Z.to_nat writable) l)) in
          Ret (lenZ l, 0, thrown, b)
  end.

(** * The abstract byte queue and the operations a connection performs *)

Inductive op :=
  | Append (l : bytes)
  | Retrieve (n : Z)
  | RetrieveAll
  | RetrieveAsString (n : Z)
  | RetrieveAllAsString
  | EnsureWritable (n : Z)
  | ReadFd (r : readv_result).

(** What an operation lets its caller see. *)
Inductive seen :=
  | Nothing
  | Text (l : bytes)
  | Count (n errno : Z)
  | Threw (e : exn).

Definition seen_exn (thrown : option exn) : seen :=
  match thrown with None => Nothing | Some e => Threw e end.

Definition step (b : t) (o : op) : outcome (seen * t) :=
  match o with
  | Append l => let* '(e, b) := append b (Octets l) in Ret (seen_exn e, b)
  | Retrieve n => Ret (Nothing, retrieve b n)
  | RetrieveAll => Ret (Nothing, retrieveAll b)
  | RetrieveAsString n => let* '(s, b) := retrieveAsString b n in Ret (Text s, b)
  | RetrieveAllAsString => let* '(s, b) := retrieveAllAsString b in Ret (Text s, b)
  | EnsureWritable n => let* '(e, b) := ensureWritableBytes b n in Ret (seen_exn e, b)
  | ReadFd r =>
      let* '(n, errno, e, b) := readFd b r in
      Ret (match e with None => Count n errno | Some e => Threw e end, b)
  end.

Fixpoint run (b : t) (ops : list op) : outcome (list seen * t) :=
  match ops with
  | [] => Ret ([], b)
  | o :: ops =>
      let* '(s, b) := step b o in
      let* '(ss, b) := run b ops in
      Ret (s :: ss, b)
  end.

(** The specification: a buffer is the queue of the octets in it. *)
Definition spec_step (q : bytes) (o : op) : seen * bytes :=
  match o with
  | Append l => (Nothing, q ++ l)
  | Retrieve n => (Nothing, drop (Z.to_nat n) q)
  | RetrieveAll => (Nothing, [])
  | RetrieveAsString n => (Text (take (Z.to_nat n) q), drop (Z.to_nat n) q)
  | RetrieveAllAsString => (Text q, [])
  | EnsureWritable n => (Nothing, q)
  | ReadFd (ReadvError errno) => (Count (-1) errno, q)
  | ReadFd (ReadvOctets l) => (Count (lenZ l) 0, q ++ l)
  end.

Fixpoint spec_run (q : bytes) (ops : list op) : list seen * bytes :=
  match ops with
  | [] => ([], q)
  | o :: ops =>
      let '(s, q) := spec_step q o in
      let '(ss, q) := spec_run q ops in
      (s :: ss, q)
  end.

(** The arguments the environment passes: unsigned sizes, and [readv] reports
    no more octets than the vectors have room for. *)
Definition op_ok (b : t) (o : op) : bool :=
  match o with
  | Retrieve n | RetrieveAsString n | EnsureWritable n => (0 <=? n) && (n <? 2 ^ 64)
  | ReadFd (ReadvOctets l) => lenZ l <=? readv_capacity b
  | _ => true
  end.

Fixpoint run_ok (b : t) (ops : list op) : bool :=
  match ops with
  | [] => true
  | o :: ops =>
      op_ok b o && match step b o with Ret (_, b') => run_ok b' ops | _ => true end
  end.

(** The growth an operation can cause. *)
Definition op_size (o : op) : Z :=
  match o with
  | Append l | ReadFd (ReadvOctets l) => lenZ l
  | EnsureWritable n => Z.max 0 n
  | _ => 0
  end.

Definition ops_size (ops : list op) : Z := fold_right (fun o n => op_size o + n) 0 ops.

(** * Representation *)

Definition buffer_wf (b : t) : Prop :=
  kCheapPrepend <= reader_index_ b <= writer_index_ b /\
  writer_index_ b <= lenZ (buffer_ b) <= vector_max_size.

#[export] Instance buffer_wf_dec b : Decision (buffer_wf b).
Proof. unfold buffer_wf. apply _. Defined.

Lemma u64_small n : 0 <= n < 2 ^ 64 -> u64 n = n.
Proof. apply Z.mod_small. Qed.

Lemma wf_sizes b :
  buffer_wf b ->
  readableBytes b = writer_index_ b - reader_index_ b /\
  writableBytes b = lenZ (buffer_ b) - writer_index_ b /\
  lenZ (readable b) = readableBytes b.
Proof.
  unfold buffer_wf, readableBytes, writableBytes, readable, kCheapPrepend, vector_max_size.
  intros H. rewrite !u64_small by lia. repeat split.
  unfold lenZ in *. rewrite length_take, length_drop. lia.
Qed.

Lemma write_slice_ok mem pos l :
  (pos + length l <= length mem)%nat ->
  write_slice mem pos l = Ret (take pos mem ++ l ++ drop (pos + length l) mem).
Proof.
  intros H. unfold write_slice. case_if.
  - destruct l; [|done]. simpl. by rewrite Nat.add_0_r, take_drop.
  - by rewrite (proj2 (Nat.leb_le _ _)).
Qed.

Lemma write_slice_spec mem pos l :
  (pos + length l <= length mem)%nat ->
  exists mem', write_slice mem pos l = Ret mem' /\ length mem' = length mem /\
    take pos mem' = take pos mem /\ take (length l) (drop pos mem') = l.
Proof.
  intros H. rewrite write_slice_ok by done. eexists. split; [done|].
  assert (Hp : length (take pos mem) = pos) by (rewrite length_take; lia).
  repeat split.
  - rewrite !length_app, Hp, length_drop. lia.
  - by rewrite take_app_length'.
  - by rewrite drop_app_length', take_app_length.
Qed.

Lemma read_readable b :
  buffer_wf b ->
  forall n, 0 <= n <= readableBytes b ->
  read_slice (buffer_ b) (Z.to_nat (reader_index_ b)) (Z.to_nat n) =
  Ret (take (Z.to_nat n) (readable b)).
Proof.
  intros Hwf n Hn. destruct (wf_sizes b Hwf) as (Hr & _ & _). unfold buffer_wf, kCheapPrepend in Hwf.
  unfold read_slice, readable. case_if.
  - by rewrite E.
  - unfold lenZ in *. rewrite (proj2 (Nat.leb_le _ _)) by lia.
    rewrite take_take. by rewrite Nat.min_l by lia.
Qed.

(** The octets read depend on the storage up to the write index only. *)
Lemma readable_take b : 
  reader_index_ b <= writer_index_ b -> 0 <= reader_index_ b ->
  readable b =
  drop (Z.to_nat (reader_index_ b)) (take (Z.to_nat (writer_index_ b)) (buffer_ b)).
Proof.
  intros H1 H2. unfold readable. rewrite take_drop_commute. do 2 f_equal. lia.
Qed.

(** * The operations *)

Lemma retrieveAll_spec b :
  buffer_wf b -> buffer_wf (retrieveAll b) /\ readable (retrieveAll b) = [].
Proof.
  unfold buffer_wf, readable; cbn. unfold kCheapPrepend. intros H. by split; [lia|].
Qed.

Lemma retrieve_spec b n :
  buffer_wf b -> 0 <= n ->
  buffer_wf (retrieve b n) /\ readable (retrieve b n) = drop (Z.to_nat n) (readable b) /\
  buffer_ (retrieve b n) = buffer_ b.
Proof.
  intros Hwf Hn. destruct (wf_sizes b Hwf) as (Hr & _ & Hl). unfold retrieve. rewrite Hr. case_if.
  - unfold buffer_wf, readable, kCheapPrepend, vector_max_size in *; cbn.
    rewrite u64_small by lia. split; [lia|]. split; [|done].
    rewrite skipn_firstn_comm, drop_drop.
    f_equal; [|f_equal]; lia.
  - destruct (retrieveAll_spec b Hwf) as [H1 H2]. rewrite H2. split; [done|].
    split; [|done]. rewrite drop_ge; [done|]. unfold lenZ in Hl. lia.
Qed.

Lemma retrieveAsString_spec b n :
  buffer_wf b -> 0 <= n ->
  exists b', retrieveAsString b n = Ret (take (Z.to_nat n) (readable b), b') /\
    buffer_wf b' /\ readable b' = drop (Z.to_nat n) (readable b) /\ buffer_ b' = buffer_ b.
Proof.
  intros Hwf Hn. destruct (wf_sizes b Hwf) as (Hr & _ & Hl).
  pose proof (lenZ_nonneg (readable b)) as Hl0.
  unfold retrieveAsString. rewrite read_readable by (done || lia).
  cbn [mbind outcome_bind].
  destruct (retrieve_spec b (Z.min n (readableBytes b)) Hwf ltac:(lia)) as (H1 & H2 & H3).
  eexists. split; [|split; [exact H1|split; [|exact H3]]].
  - do 2 f_equal. unfold lenZ in Hl. destruct (Z.le_gt_cases n (readableBytes b)).
    + by rewrite Z.min_l.
    + rewrite Z.min_r by lia. rewrite !take_ge by lia. done.
  - rewrite H2. unfold lenZ in Hl. destruct (Z.le_gt_cases n (readableBytes b)).
    + by rewrite Z.min_l.
    + rewrite Z.min_r by lia. rewrite !drop_ge by lia. done.
Qed.

(** The two ways [makeSpace] succeeds, and its failure. *)
Definition room_post (b : t) (n : Z) (r : outcome (option exn * t)) : Prop :=
  match r with
  | Ret (None, b') =>
      buffer_wf b' /\ readable b' = readable b /\ n <= writableBytes b' /\
      (kCheapPrepend + readableBytes b + n <= lenZ (buffer_ b) ->
         lenZ (buffer_ b') = lenZ (buffer_ b)) /\
      lenZ (buffer_ b') <= lenZ (buffer_ b) + n
  | Ret (Some _, b') => b' = b /\ vector_max_size < writer_index_ b + n
  | _ => False
  end.

Lemma makeSpace_reclaim b n :
  buffer_wf b -> 0 <= n -> kCheapPrepend + readableBytes b + n <= lenZ (buffer_ b) ->
  exists buffer, makeSpace b n = Ret (None, mk buffer kCheapPrepend (kCheapPrepend + readableBytes b)) /\
    length buffer = length (buffer_ b) /\
    take (length (readable b)) (drop (Z.to_nat kCheapPrepend) buffer) = readable b.
Proof.
  intros Hwf Hn Hfit. pose proof Hwf as Hwf2.
  destruct (wf_sizes b Hwf) as (Hr & Hw & Hl). unfold lenZ in Hl.
  unfold buffer_wf, kCheapPrepend, vector_max_size in Hwf2. unfold kCheapPrepend, lenZ in *.
  unfold makeSpace, prependableBytes, size_max, kCheapPrepend. rewrite Hw, (u64_small (2 ^ 64 - 1 - writer_index_ b)), (u64_small (_ + reader_index_ b)), (u64_small (_ - 8)) by lia.
  rewrite (proj2 (Z.ltb_ge _ _)) by lia. rewrite (proj2 (Z.leb_le _ _)) by lia.
  rewrite read_readable by (done || lia). cbn [mbind outcome_bind].
  rewrite take_ge by lia.
  destruct (write_slice_spec (buffer_ b) (Z.to_nat 8) (readable b)) as (mem & -> & H1 & _ & H2);
    [lia|].
  cbn [mbind outcome_bind]. rewrite u64_small by lia. by exists mem.
Qed.

Lemma makeSpace_grow b n :
  buffer_wf b -> 0 <= n < 2 ^ 64 -> lenZ (buffer_ b) < kCheapPrepend + readableBytes b + n ->
  (vector_max_size < writer_index_ b + n -> makeSpace b n = Ret (Some length_error, b)) /\
  (writer_index_ b + n <= vector_max_size -> lenZ (buffer_ b) <= writer_index_ b + n ->
     makeSpace b n =
     Ret (None, mk (buffer_ b ++ repeat x00 (Z.to_nat (writer_index_ b + n - lenZ (buffer_ b))))
                   (reader_index_ b) (writer_index_ b))).
Proof.
  intros Hwf Hn Hfit. pose proof Hwf as Hwf2.
  destruct (wf_sizes b Hwf) as (Hr & Hw & Hl).
  unfold buffer_wf, kCheapPrepend, vector_max_size in Hwf2. unfold kCheapPrepend in *.
  unfold makeSpace, prependableBytes, size_max, kCheapPrepend, vector_max_size.
  rewrite Hw, (u64_small (2 ^ 64 - 1 - writer_index_ b)), (u64_small (_ + _)), (u64_small (_ - 8)) by lia.
  split; intros Hs.
  - case_if; [done|]. rewrite (proj2 (Z.leb_gt _ _)) by lia. rewrite u64_small by lia.
    by rewrite (proj2 (Z.ltb_lt _ _)).
  - intros Hg. rewrite (proj2 (Z.ltb_ge _ _)) by lia. rewrite (proj2 (Z.leb_gt _ _)) by lia.
    rewrite u64_small by lia. rewrite (proj2 (Z.ltb_ge _ _)) by lia.
    rewrite take_ge; [done|]. unfold lenZ in *. lia.
Qed.

Lemma ensureWritableBytes_post b n :
  buffer_wf b -> 0 <= n < 2 ^ 64 -> room_post b n (ensureWritableBytes b n).
Proof.
  intros Hwf Hn. pose proof Hwf as Hwf2. destruct (wf_sizes b Hwf) as (Hr & Hw & Hl).
  unfold ensureWritableBytes. case_if; [|by (split; [done|]; split; [done|]; lia)].
  unfold buffer_wf, kCheapPrepend, vector_max_size in Hwf2.
  destruct (Z.le_gt_cases (kCheapPrepend + readableBytes b + n) (lenZ (buffer_ b))) as [Hfit|Hfit].
  - destruct (makeSpace_reclaim b n Hwf ltac:(lia) Hfit) as (mem & -> & Hm & Hrd).
    unfold lenZ, kCheapPrepend in *. unfold room_post.
    assert (Hwf' : buffer_wf (mk mem 8 (8 + readableBytes b))).
    { unfold buffer_wf, kCheapPrepend, vector_max_size, lenZ; cbn. lia. }
    destruct (wf_sizes _ Hwf') as (_ & Hw' & _). cbn in Hw'. split; [done|].
    split; [|rewrite Hw'; unfold lenZ; cbn; lia].
    unfold readable at 1; cbn. rewrite <- Hrd. f_equal. lia.
  - destruct (makeSpace_grow b n Hwf Hn Hfit) as [Hthrow Hgrow].
    destruct (Z.le_gt_cases (writer_index_ b + n) vector_max_size) as [Hs|Hs].
    + rewrite Hgrow by lia. unfold room_post. unfold vector_max_size, kCheapPrepend in *.
      assert (Hlen : lenZ (buffer_ b ++ repeat x00 (Z.to_nat (writer_index_ b + n - lenZ (buffer_ b)))) =
                     writer_index_ b + n).
      { rewrite lenZ_app. unfold lenZ at 2. rewrite repeat_length. lia. }
      assert (Hwf' : buffer_wf (mk (buffer_ b ++ repeat x00 (Z.to_nat (writer_index_ b + n - lenZ (buffer_ b))))
                                   (reader_index_ b) (writer_index_ b))).
      { unfold buffer_wf, kCheapPrepend, vector_max_size; cbn. rewrite Hlen. lia. }
      destruct (wf_sizes _ Hwf') as (_ & Hw' & _). split; [done|]. rewrite Hw'; cbn [buffer_ writer_index_].
      rewrite Hlen. split; [|lia].
      rewrite !readable_take by (cbn; lia). cbn [reader_index_ writer_index_ buffer_].
      f_equal. apply take_app_le. unfold lenZ in *. lia.
    + rewrite Hthrow by lia. by split.
Qed.

(** Octets stored at the write index become the last readable ones. *)
Lemma write_at_end b l :
  buffer_wf b -> lenZ l <= writableBytes b ->
  exists mem, write_slice (buffer_ b) (Z.to_nat (writer_index_ b)) l = Ret mem /\
    lenZ mem = lenZ (buffer_ b) /\ u64 (writer_index_ b + lenZ l) = writer_index_ b + lenZ l /\
    let b' := mk mem (reader_index_ b) (writer_index_ b + lenZ l) in
    buffer_wf b' /\ readable b' = readable b ++ l.
Proof.
  intros Hwf Hl. pose proof Hwf as Hwf2. destruct (wf_sizes b Hwf) as (Hr & Hw & _).
  unfold buffer_wf, kCheapPrepend, vector_max_size, lenZ in Hwf2. unfold lenZ in *.
  destruct (write_slice_spec (buffer_ b) (Z.to_nat (writer_index_ b)) l) as (mem & -> & H1 & H2 & H3);
    [lia|].
  exists mem. rewrite H1, u64_small by lia. repeat split; try (cbn; unfold lenZ, kCheapPrepend, vector_max_size; lia).
  rewrite !readable_take by (cbn; lia). cbn [reader_index_ writer_index_ buffer_].
  rewrite <- H2. replace (Z.to_nat (writer_index_ b + _)) with (Z.to_nat (writer_index_ b) + length l)%nat by lia.
  rewrite <- take_take_drop, H3. apply drop_app_le. rewrite length_take. lia.
Qed.

Definition append_post (b : t) (l : bytes) (r : outcome (option exn * t)) : Prop :=
  match r with
  | Ret (None, b') =>
      buffer_wf b' /\ readable b' = readable b ++ l /\
      lenZ (buffer_ b') <= lenZ (buffer_ b) + lenZ l
  | Ret (Some _, b') => b' = b /\ vector_max_size < writer_index_ b + lenZ l
  | _ => False
  end.

Lemma append_spec b l :
  buffer_wf b -> lenZ l < 2 ^ 64 -> append_post b l (append b (Octets l)).
Proof.
  intros Hwf Hl. pose proof (lenZ_nonneg l) as Hl0. unfold append. case_if.
  - unfold append_post. destruct l; [|by rewrite lenZ_cons in E; pose proof (lenZ_nonneg l); lia].
    rewrite app_nil_r. split; [done|]. split; [done|lia].
  - pose proof (ensureWritableBytes_post b (lenZ l) Hwf ltac:(lia)) as H. unfold room_post in H.
    destruct (ensureWritableBytes b (lenZ l)) as [[[e|] b1]| |]; try done.
    destruct H as (Hwf1 & Hrd & Hroom & _ & Hsz). cbn [mbind outcome_bind].
    destruct (write_at_end b1 l Hwf1 Hroom) as (mem & -> & Hm & Hu & Hwf' & Hrd'). cbn [mbind outcome_bind].
    assert (Hh : hasWritten (mk mem (reader_index_ b1) (writer_index_ b1)) (lenZ l) =
                 mk mem (reader_index_ b1) (writer_index_ b1 + lenZ l)).
    { unfold hasWritten, writableBytes in *; cbn. by rewrite Hm, (proj2 (Z.ltb_ge _ _)), Hu. }
    rewrite Hh. unfold append_post; cbn [buffer_]. rewrite Hrd', Hrd. split; [done|]. split; [done|lia].
Qed.

(** [readFd] within the capacity of its two vectors. *)
Lemma readFd_spec b l :
  buffer_wf b -> lenZ l <= readv_capacity b ->
  lenZ (buffer_ b) + lenZ l <= vector_max_size ->
  exists b', readFd b (ReadvOctets l) = Ret (lenZ l, 0, None, b') /\
    buffer_wf b' /\ readable b' = readable b ++ l /\
    lenZ (buffer_ b') <= lenZ (buffer_ b) + lenZ l.
Proof.
  intros Hwf Hcap Hmax. pose proof Hwf as Hwf2. destruct (wf_sizes b Hwf) as (Hr & Hw & _).
  unfold buffer_wf, kCheapPrepend, vector_max_size in Hwf2, Hmax.
  pose proof (lenZ_nonneg l) as Hl0.
  assert (Hfst : lenZ (take (Z.to_nat (writableBytes b)) l) = Z.min (writableBytes b) (lenZ l)).
  { unfold lenZ in *. rewrite length_take. lia. }
  destruct (write_at_end b (take (Z.to_nat (writableBytes b)) l) Hwf ltac:(lia))
    as (mem & Hwr & Hm & Hu & Hwf' & Hrd').
  unfold readFd. rewrite (proj2 (Z.ltb_ge _ _)) by done. rewrite Hwr. cbn [mbind outcome_bind].
  rewrite Hfst in *. case_if.
  - rewrite Z.min_r in * by done. rewrite Hu. eexists. split; [done|]. split; [done|].
    rewrite Hrd'. split; [|cbn; lia]. f_equal. apply take_ge. unfold lenZ in *. lia.
  - rewrite Z.min_l in * by lia.
    replace (writer_index_ b + writableBytes b) with (lenZ mem) in * by lia.
    pose proof (append_spec _ (drop (Z.to_nat (writableBytes b)) l) Hwf') as Ha.
    assert (Hrest : lenZ (drop (Z.to_nat (writableBytes b)) l) = lenZ l - writableBytes b).
    { unfold lenZ in *. rewrite length_drop. lia. }
    specialize (Ha ltac:(lia)). unfold append_post in Ha.
    destruct (append _ _) as [[[e|] b1]| |]; try done.
    + exfalso. cbn in Ha. unfold vector_max_size in Ha. lia.
    + cbn [mbind outcome_bind]. destruct Ha as (H1 & H2 & H3). cbn [buffer_] in H3.
      exists b1. split; [done|]. split; [done|]. split; [|lia].
      rewrite H2, Hrd', <- app_assoc. by rewrite take_drop.
Qed.

(** * Properties *)

Lemma step_refines b o :
  buffer_wf b -> op_ok b o = true -> lenZ (buffer_ b) + op_size o <= vector_max_size ->
  exists b', step b o = Ret (fst (spec_step (readable b) o), b') /\ buffer_wf b' /\
    readable b' = snd (spec_step (readable b) o) /\
    lenZ (buffer_ b') <= lenZ (buffer_ b) + op_size o.
Proof.
  intros Hwf Hok Hsz. pose proof Hwf as Hwf2. destruct (wf_sizes b Hwf) as (Hr & Hw & Hl).
  unfold buffer_wf, kCheapPrepend in Hwf2.
  destruct o as [l|n| |n| |n|[errno|l]]; cbn [op_ok op_size] in *; breflect; unfold step;
    cbn [spec_step fst snd].
  - pose proof (append_spec b l Hwf) as H. unfold vector_max_size in *.
    specialize (H ltac:(lia)). unfold append_post in H.
    destruct (append b (Octets l)) as [[[e|] b1]| |]; try done.
    + exfalso. unfold vector_max_size in H. lia.
    + cbn [mbind outcome_bind]. exists b1. split; [done|]. tauto.
  - destruct (retrieve_spec b n Hwf ltac:(lia)) as (H1 & H2 & H3). eexists. split; [done|].
    rewrite H3. split; [done|]. split; [done|lia].
  - destruct (retrieveAll_spec b Hwf) as (H1 & H2). eexists. split; [done|]. cbn [buffer_ retrieveAll].
    split; [done|]. split; [done|lia].
  - destruct (retrieveAsString_spec b n Hwf ltac:(lia)) as (b' & -> & H1 & H2 & H3).
    eexists. split; [done|]. rewrite H3. split; [done|]. split; [done|lia].
  - unfold retrieveAllAsString.
    destruct (retrieveAsString_spec b (readableBytes b) Hwf ltac:(lia)) as (b' & -> & H1 & H2 & H3).
    eexists. rewrite H3, H2. unfold lenZ in Hl. rewrite take_ge, drop_ge by lia.
    split; [done|]. split; [done|]. split; [done|lia].
  - pose proof (ensureWritableBytes_post b n Hwf ltac:(lia)) as Hens. unfold room_post in Hens.
    destruct (ensureWritableBytes b n) as [[[e|] b1]| |]; try done.
    + exfalso. lia.
    + cbn [mbind outcome_bind]. exists b1. split; [done|]. destruct Hens as (H1 & H2 & _ & _ & H3).
      split; [done|]. split; [done|lia].
  - eexists. split; [done|]. split; [done|]. split; [done|lia].
  - destruct (readFd_spec b l Hwf ltac:(lia) Hsz) as (b' & -> & Hb'). eexists. by split.
Qed.

Lemma ops_size_nonneg ops : 0 <= ops_size ops.
Proof.
  induction ops as [|o ops IH]; [done|]. cbn. fold (ops_size ops).
  destruct o as [l|n| |n| |n|[errno|l]]; cbn; try pose proof (lenZ_nonneg l); lia.
Qed.

Lemma run_refines ops b :
  buffer_wf b -> run_ok b ops = true -> lenZ (buffer_ b) + ops_size ops <= vector_max_size ->
  exists b', run b ops = Ret (fst (spec_run (readable b) ops), b') /\ buffer_wf b' /\
    readable b' = snd (spec_run (readable b) ops).
Proof.
  revert b. induction ops as [|o ops IH]; intros b Hwf Hok Hsz; [by exists b|].
  cbn [run_ok ops_size fold_right] in *. apply andb_true_iff in Hok as [Hok Hoks].
  fold (ops_size ops) in *. pose proof (ops_size_nonneg ops) as Hn.
  destruct (step_refines b o Hwf Hok ltac:(lia)) as (b1 & E & Hwf1 & Hrd1 & Hsz1).
  rewrite E in Hoks. destruct (IH b1 Hwf1 Hoks ltac:(lia)) as (b2 & E2 & Hwf2 & Hrd2).
  exists b2. cbn [run spec_run]. rewrite E. cbn [mbind outcome_bind]. rewrite E2. cbn [mbind outcome_bind].
  destruct (spec_step (readable b) o) as [s q]; cbn [fst snd] in *; subst q.
  by destruct (spec_run (readable b1) ops).
Qed.

Lemma construct_spec n :
  n <= vector_max_size -> exists b, construct n = Some b /\ buffer_wf b /\ readable b = [] /\
    lenZ (buffer_ b) = Z.max n (kCheapPrepend + 1).
Proof.
  unfold construct, kCheapPrepend, vector_max_size. intros H.
  rewrite (proj2 (Z.ltb_ge _ _)) by lia. eexists. split; [done|].
  assert (Hl : lenZ (repeat x00 (Z.to_nat (Z.max n (8 + 1)))) = Z.max n (8 + 1)).
  { unfold lenZ. rewrite repeat_length. lia. }
  unfold buffer_wf; cbn [buffer_ reader_index_ writer_index_]. rewrite Hl.
  unfold kCheapPrepend, vector_max_size. repeat split; lia.
Qed.

(** C29: a buffer behaves as a plain queue of octets.  From the constructor,
    any sequence of appends, reads from the socket and retrievals shows its
    caller what the queue would show, never touches memory outside the
    storage, and throws nothing as long as the octets fit a vector. *)
Theorem buffer_refines_queue n b ops :
  construct n = Some b -> run_ok b ops = true ->
  Z.max n (kCheapPrepend + 1) + ops_size ops <= vector_max_size ->
  exists b', run b ops = Ret (fst (spec_run [] ops), b') /\ buffer_wf b' /\
    readable b' = snd (spec_run [] ops).
Proof.
  intros Hc Hok Hsz. pose proof (ops_size_nonneg ops) as Hn.
  destruct (construct_spec n ltac:(lia)) as (b0 & E & Hwf & Hrd & Hl). simplify_eq.
  rewrite <- Hrd. apply run_refines; [done|done|lia].
Qed.

Definition example_ops : list op :=
  [Append (str "GET"); Retrieve 1; ReadFd (ReadvOctets (str "/path")); EnsureWritable 20;
   RetrieveAsString 3; ReadFd (ReadvError 11); RetrieveAllAsString].

Lemma buffer_refines_queue_witness :
  exists b b', construct 0 = Some b /\ run b example_ops = Ret (fst (spec_run [] example_ops), b') /\
    buffer_wf b' /\ readable b' = snd (spec_run [] example_ops).
Proof.
  eexists. 
  refine (match buffer_refines_queue 0 _ example_ops eq_refl _ _ with
          | ex_intro _ b' H => ex_intro _ b' (conj eq_refl H)
          end); [vm_compute; reflexivity|vm_compute; congruence].
Defined.

(** Asking for room keeps the readable octets.  It moves them to the front
    instead of growing when the consumed octets leave enough room, grows by at
    most the octets asked for otherwise, and throws (leaving the buffer as it
    was) only when the storage would exceed the largest vector. *)
Theorem ensureWritableBytes_reclaims b n :
  buffer_wf b -> 0 <= n < 2 ^ 64 ->
  match ensureWritableBytes b n with
  | Ret (None, b') =>
      buffer_wf b' /\ readable b' = readable b /\ n <= writableBytes b' /\
      (kCheapPrepend + readableBytes b + n <= lenZ (buffer_ b) ->
         lenZ (buffer_ b') = lenZ (buffer_ b)) /\
      lenZ (buffer_ b') <= lenZ (buffer_ b) + n
  | Ret (Some length_error, b') => b' = b /\ vector_max_size < writer_index_ b + n
  | _ => False
  end.
Proof.
  intros Hwf Hn. pose proof (ensureWritableBytes_post b n Hwf Hn) as H. unfold room_post in H.
  by destruct (ensureWritableBytes b n) as [[[[]|] b1]| |].
Qed.

Definition example_buffer : t := mk (repeat x61 30) 20 25.

Lemma ensureWritableBytes_reclaims_witness :
  buffer_wf example_buffer /\
  match ensureWritableBytes example_buffer 17 with
  | Ret (None, b') =>
      buffer_wf b' /\ readable b' = readable example_buffer /\ 17 <= writableBytes b' /\
      (kCheapPrepend + readableBytes example_buffer + 17 <= lenZ (buffer_ example_buffer) ->
         lenZ (buffer_ b') = lenZ (buffer_ example_buffer)) /\
      lenZ (buffer_ b') <= lenZ (buffer_ example_buffer) + 17
  | Ret (Some length_error, b') => b' = example_buffer /\ vector_max_size < writer_index_ example_buffer + 17
  | _ => False
  end.
Proof.
  assert (H : buffer_wf example_buffer) by (apply (bool_decide_unpack _); by vm_compute).
  split; [exact H|]. apply (ensureWritableBytes_reclaims example_buffer 17 H); lia.
Defined.

End Buffer.
