(* ===== verification/EventLoop.v ===== *)
(** Channels and the event loop: src/net/channel.cpp and src/net/event_loop.cpp.
    The loop's two concerns are modelled apart, as they share no state: the
    registration of channels with epoll, and the queue of functors with the
    wakeup descriptor. *)
From Stdlib Require Import ZArith Lia.
From Stdlib Require Import Strings.Byte.
From stdpp Require Import base list gmap.
From S2P Require Import Prelude.

(** * Channel *)

Module Channel.

Definition EPOLLIN : Z := 0x001.
Definition EPOLLPRI : Z := 0x002.
Definition EPOLLOUT : Z := 0x004.
Definition EPOLLERR : Z := 0x008.
Definition EPOLLHUP : Z := 0x010.
Definition EPOLLRDHUP : Z := 0x2000.
Definition EPOLLET : Z := 0x80000000.

Definition kNew : Z := -1.
Definition kAdded : Z := 1.
Definition kDeleted : Z := 2.

Record t := mk {
  fd_ : Z;
  events_ : Z;
  revents_ : Z;
  index_ : Z;
}.

Definition construct (fd : Z) : t := mk fd 0 0 kNew.

Definition set_events (events : Z) (ch : t) : t := mk (fd_ ch) events (revents_ ch) (index_ ch).
Definition set_revents (revents : Z) (ch : t) : t := mk (fd_ ch) (events_ ch) revents (index_ ch).
Definition set_index (index : Z) (ch : t) : t := mk (fd_ ch) (events_ ch) (revents_ ch) index.

(** The four callbacks; [set cb] says whether one was set. *)
Inductive callback := ReadCallback | WriteCallback | CloseCallback | ErrorCallback.

Definition has (mask bits : Z) : bool := negb (Z.land mask bits =? 0).

(** The callbacks [handleEvent] makes, in order. *)
Definition handleEvent (set : callback -> bool) (ch : t) : list callback :=
  let call cb := if set cb then [cb] else [] in
  if has (revents_ ch) EPOLLHUP && negb (has (revents_ ch) EPOLLIN) then call CloseCallback
  else
    (if has (revents_ ch) EPOLLERR then call ErrorCallback else []) ++
    (if has (revents_ ch) (Z.lor (Z.lor EPOLLIN EPOLLPRI) EPOLLRDHUP) then call ReadCallback else []) ++
    (if has (revents_ ch) EPOLLOUT then call WriteCallback else []).

Definition isNoneEvent (ch : t) : bool := events_ ch =? 0.
Definition isWriting (ch : t) : bool := has (events_ ch) EPOLLOUT.

(** [enableReading] ... [disableAll] change [events_] and call [update]. *)
Inductive interest := EnableReading | DisableReading | EnableWriting | DisableWriting | DisableAll.

Definition read_bits : Z := Z.lor (Z.lor EPOLLIN EPOLLPRI) EPOLLRDHUP.

Definition new_events (i : interest) (events : Z) : Z :=
  match i with
  | EnableReading => Z.lor events read_bits
  | DisableReading => Z.land events (Z.lnot read_bits)
  | EnableWriting => Z.lor events EPOLLOUT
  | DisableWriting => Z.land events (Z.lnot EPOLLOUT)
  | DisableAll => 0
  end.

End Channel.

(** * Registration *)

Module Poller.

(** The interest list the kernel keeps for the epoll descriptor, and the
    loop's table of channels, by descriptor; channels are named by their
    addresses. *)
Record t := mk {
  epoll : gmap Z Z;
  channels_ : gmap Z nat;
}.

Inductive epoll_op := EPOLL_CTL_ADD | EPOLL_CTL_DEL | EPOLL_CTL_MOD.

(** [epoll_ctl]: none is an error ([EEXIST] or [ENOENT]). *)
Definition epoll_ctl (op : epoll_op) (fd events : Z) (epoll : gmap Z Z) : option (gmap Z Z) :=
  match op, epoll !! fd with
  | EPOLL_CTL_ADD, None => Some (<[fd := events]> epoll)
  | EPOLL_CTL_ADD, Some _ => None
  | EPOLL_CTL_DEL, Some _ => Some (delete fd epoll)
  | EPOLL_CTL_DEL, None => None
  | EPOLL_CTL_MOD, Some _ => Some (<[fd := events]> epoll)
  | EPOLL_CTL_MOD, None => None
  end.

(** [updateChannel]; none is the [runtime_error] thrown. *)
Definition updateChannel (this : nat) (ch : Channel.t) (s : t) : option (Channel.t * t) :=
  let unregistered := (Channel.index_ ch =? Channel.kNew) || (Channel.index_ ch =? Channel.kDeleted) in
  if Channel.isNoneEvent ch && unregistered then Some (ch, s)
  else
    let operation :=
      if unregistered then EPOLL_CTL_ADD
      else if Channel.isNoneEvent ch then EPOLL_CTL_DEL else EPOLL_CTL_MOD in
    match epoll_ctl operation (Channel.fd_ ch) (Z.lor (Channel.events_ ch) Channel.EPOLLET) (epoll s) with
    | None => None
    | Some epoll =>
        match operation with
        | EPOLL_CTL_ADD | EPOLL_CTL_MOD =>
            Some (Channel.set_index Channel.kAdded ch, mk epoll (<[Channel.fd_ ch := this]> (channels_ s)))
        | EPOLL_CTL_DEL =>
            Some (Channel.set_index Channel.kDeleted ch, mk epoll (delete (Channel.fd_ ch) (channels_ s)))
        end
    end.

(** [removeChannel]: only [ENOENT] can be the error of a deletion, and it is
    ignored. *)
Definition removeChannel (ch : Channel.t) (s : t) : Channel.t * t :=
  let epoll :=
    if Channel.index_ ch =? Channel.kAdded then
      default (epoll s) (epoll_ctl EPOLL_CTL_DEL (Channel.fd_ ch) 0 (epoll s))
    else epoll s in
  (Channel.set_index Channel.kDeleted ch, mk epoll (delete (Channel.fd_ ch) (channels_ s))).

(** A channel's [enableReading] and the like. *)
Definition change (i : Channel.interest) (this : nat) (ch : Channel.t) (s : t) : option (Channel.t * t) :=
  updateChannel this (Channel.set_events (Channel.new_events i (Channel.events_ ch)) ch) s.

(** ** Channels of one loop *)

(** The loop and its channel objects; descriptors of live channels differ, as
    each owns its descriptor. *)
Record world := mkWorld {
  objects : gmap nat Channel.t;
  poller : t;
}.

Inductive event :=
  | New (this : nat) (fd : Z)
  | Change (this : nat) (i : Channel.interest)
  | Remove (this : nat)
  | Destroy (this : nat).

(** A channel is created with a descriptor no live channel has, and destroyed
    after its removal (the documented contract). *)
Inductive step (w : world) : event -> option world -> Prop :=
  | step_new this fd :
      objects w !! this = None -> (forall p ch, objects w !! p = Some ch -> Channel.fd_ ch <> fd) ->
      step w (New this fd) (Some (mkWorld (<[this := Channel.construct fd]> (objects w)) (poller w)))
  | step_change this i ch :
      objects w !! this = Some ch ->
      step w (Change this i)
        (match change i this ch (poller w) with
         | Some (ch, s) => Some (mkWorld (<[this := ch]> (objects w)) s)
         | None => None
         end)
  | step_remove this ch :
      objects w !! this = Some ch ->
      step w (Remove this)
        (let '(ch, s) := removeChannel ch (poller w) in
         Some (mkWorld (<[this := ch]> (objects w)) s))
  | step_destroy this ch :
      objects w !! this = Some ch -> Channel.index_ ch <> Channel.kAdded ->
      step w (Destroy this) (Some (mkWorld (delete this (objects w)) (poller w))).

Inductive reachable : option world -> Prop :=
  | reachable_init : reachable (Some (mkWorld ∅ (mk ∅ ∅)))
  | reachable_step w e w' : reachable (Some w) -> step w e w' -> reachable w'.

(** The events of one [epoll_wait], in order: a descriptor that is no longer in
    the table is skipped; [handle] is [Channel::handleEvent], which may change
    the world; [OutOfBounds] when the table has the address of a channel that
    is gone. *)
Fixpoint dispatch (handle : nat -> world -> world) (events : list (Z * Z)) (w : world) : outcome world :=
  match events with
  | [] => Ret w
  | (fd, revents) :: events =>
      match channels_ (poller w) !! fd with
      | None => dispatch handle events w
      | Some this =>
          match objects w !! this with
          | None => OutOfBounds
          | Some ch =>
              let w := mkWorld (<[this := Channel.set_revents revents ch]> (objects w)) (poller w) in
              dispatch handle events (handle this w)
          end
      end
  end.

End Poller.

(** * The queue of functors *)

Module EventLoop.

(** Functors are numbered in the order in which they are queued. *)
Inductive phase :=
  | Outside       (** before or after [loop] *)
  | Waiting       (** at [epoll_wait] *)
  | Handling      (** between [epoll_wait] and [doPendingFunctors] *)
  | Running.      (** in [doPendingFunctors], after the swap *)
#[export] Instance phase_eq_dec : EqDecision phase.
Proof. solve_decision. Defined.

Record t := mk {
  at_ : phase;
  looping_ : bool;
  quit_ : bool;
  pending_functors_ : list nat;
  callbacks : list nat;       (** what [doPendingFunctors] has left to call *)
  wakeups : Z;                (** the counter of the eventfd *)
  wakers : nat;               (** other threads between their push and their [wakeup] *)
  executed : list nat;        (** the functors called so far, in order *)
}.

Definition init : t := mk Outside false false [] [] 0 0 [].

Definition set_at p s := mk p (looping_ s) (quit_ s) (pending_functors_ s) (callbacks s) (wakeups s) (wakers s) (executed s).
Definition set_looping b s := mk (at_ s) b (quit_ s) (pending_functors_ s) (callbacks s) (wakeups s) (wakers s) (executed s).
Definition set_quit b s := mk (at_ s) (looping_ s) b (pending_functors_ s) (callbacks s) (wakeups s) (wakers s) (executed s).
Definition set_pending l s := mk (at_ s) (looping_ s) (quit_ s) l (callbacks s) (wakeups s) (wakers s) (executed s).
Definition set_callbacks l s := mk (at_ s) (looping_ s) (quit_ s) (pending_functors_ s) l (wakeups s) (wakers s) (executed s).
Definition set_wakeups n s := mk (at_ s) (looping_ s) (quit_ s) (pending_functors_ s) (callbacks s) n (wakers s) (executed s).
Definition set_wakers n s := mk (at_ s) (looping_ s) (quit_ s) (pending_functors_ s) (callbacks s) (wakeups s) n (executed s).
Definition set_executed l s := mk (at_ s) (looping_ s) (quit_ s) (pending_functors_ s) (callbacks s) (wakeups s) (wakers s) l.

(** The eventfd saturates below [2 ^ 64 - 1]; the write that would exceed it is
    refused, and the descriptor is readable all the same. *)
Definition wakeup (s : t) : t := set_wakeups (Z.min (wakeups s + 1) (2 ^ 64 - 2)) s.
Definition handleWakeupRead (s : t) : t := set_wakeups 0 s.

(** The mutex protects the push; the wakeup comes after it. *)
Definition push_functor (f : nat) (s : t) : t := set_pending (pending_functors_ s ++ [f]) s.

(** [queueInLoop] on the loop's thread, and from another thread in two steps. *)
Definition queueInLoop (f : nat) (s : t) : t :=
  let s := push_functor f s in
  if negb (looping_ s) then wakeup s else s.
Definition queue_other (f : nat) (s : t) : t := set_wakers (S (wakers s)) (push_functor f s).
Definition wake_other (s : t) : t := set_wakers (pred (wakers s)) (wakeup s).

(** [quit] on the loop's thread and from another. *)
Definition quit (s : t) : t := set_quit true s.
Definition quit_other (s : t) : t := wakeup (set_quit true s).

(** [while (!quit_)]. *)
Definition loop_condition (s : t) : t :=
  if quit_ s then set_at Outside (set_looping false s) else set_at Waiting s.

(** [loop] up to its first condition. *)
Definition loop_enter (s : t) : t :=
  if looping_ s then s else loop_condition (set_quit false (set_looping true s)).

(** [epoll_wait] returns with events, the wakeup descriptor among them or not. *)
Definition epoll_return (wakeup_ready : bool) (s : t) : t :=
  let s := set_at Handling s in
  if wakeup_ready then handleWakeupRead s else s.

(** [doPendingFunctors]: the swap, each call, and the end. *)
Definition swap_pending (s : t) : t :=
  set_at Running (set_callbacks (pending_functors_ s) (set_pending [] s)).
Definition call_functor (f : nat) (rest : list nat) (s : t) : t :=
  set_callbacks rest (set_executed (executed s ++ [f]) s).

Inductive event :=
  | LoopEnter | EpollReturn (wakeup_ready : bool) | SwapPending | CallFunctor | EndFunctors
  | QueueLoop (f : nat) | QueueOther (f : nat) | WakeOther | Quit | QuitOther.

(** One step of the loop's thread or of another one; none when it is not
    possible. *)
Definition step (s : t) (e : event) : option t :=
  match e, at_ s with
  | LoopEnter, Outside => Some (loop_enter s)
  | EpollReturn ready, Waiting => if ready && (wakeups s <=? 0) then None else Some (epoll_return ready s)
  | SwapPending, Handling => Some (swap_pending s)
  | CallFunctor, Running =>
      match callbacks s with f :: rest => Some (call_functor f rest s) | [] => None end
  | EndFunctors, Running => match callbacks s with [] => Some (loop_condition s) | _ => None end
  | QueueLoop f, (Outside | Handling | Running) => Some (queueInLoop f s)
  | QueueOther f, _ => Some (queue_other f s)
  | WakeOther, _ => match wakers s with O => None | _ => Some (wake_other s) end
  | Quit, (Outside | Handling | Running) => Some (quit s)
  | QuitOther, _ => Some (quit_other s)
  | _, _ => None
  end.

Fixpoint run (s : t) (es : list event) : option t :=
  match es with
  | [] => Some s
  | e :: es => match step s e with Some s => run s es | None => None end
  end.

(** The functors a history queues, in order. *)
Fixpoint queued (es : list event) : list nat :=
  match es with
  | [] => []
  | (QueueLoop f | QueueOther f) :: es => f :: queued es
  | _ :: es => queued es
  end.

End EventLoop.
