(* ===== verification/EventLoopFacts.v ===== *)
(** Theorems about channels and the event loop: the kernel's interest list
    follows the channels, and functors run once, in order and without a lost
    wakeup, except those queued by functors. *)
From Stdlib Require Import ZArith Lia.
From Stdlib Require Import Strings.Byte.
From stdpp Require Import base list gmap.
From S2P Require Import Prelude EventLoop.

(** * Registration *)

Module PollerFacts.
Import Poller.

(** The invariant of a loop and its channels. *)
Record wf (w : world) : Prop := {
  wf_index : forall p ch, objects w !! p = Some ch ->
    Channel.index_ ch = Channel.kNew \/ Channel.index_ ch = Channel.kAdded \/ Channel.index_ ch = Channel.kDeleted;
  wf_distinct : forall p q c d, objects w !! p = Some c -> objects w !! q = Some d ->
    Channel.fd_ c = Channel.fd_ d -> p = q;
  wf_added : forall p ch, objects w !! p = Some ch -> Channel.index_ ch = Channel.kAdded ->
    channels_ (poller w) !! Channel.fd_ ch = Some p /\
    epoll (poller w) !! Channel.fd_ ch = Some (Z.lor (Channel.events_ ch) Channel.EPOLLET) /\
    Channel.events_ ch <> 0;
  wf_table : forall fd p, channels_ (poller w) !! fd = Some p ->
    exists ch, objects w !! p = Some ch /\ Channel.fd_ ch = fd /\ Channel.index_ ch = Channel.kAdded;
  wf_epoll : forall fd, is_Some (epoll (poller w) !! fd) -> is_Some (channels_ (poller w) !! fd);
}.

(** A channel that is not registered is unknown to the loop and the kernel. *)
Lemma wf_unregistered w p ch :
  wf w -> objects w !! p = Some ch -> Channel.index_ ch <> Channel.kAdded ->
  channels_ (poller w) !! Channel.fd_ ch = None /\ epoll (poller w) !! Channel.fd_ ch = None.
Proof.
  intros Hw Hp Hi.
  assert (Hc : channels_ (poller w) !! Channel.fd_ ch = None).
  { destruct (channels_ (poller w) !! Channel.fd_ ch) as [q|] eqn:E; [|done].
    destruct (wf_table w Hw _ _ E) as (ch' & Hq & Hf & Ha).
    assert (p = q) as -> by (eapply wf_distinct; eauto). congruence. }
  split; [done|]. destruct (epoll (poller w) !! Channel.fd_ ch) eqn:E; [|done].
  destruct (wf_epoll w Hw (Channel.fd_ ch)) as [q Hq]; [by eexists|]. congruence.
Qed.

(** A world in which one channel and its own descriptor changed. *)
Lemma wf_replace w p ch ch' s :
  wf w -> objects w !! p = Some ch -> Channel.fd_ ch' = Channel.fd_ ch ->
  (Channel.index_ ch' = Channel.kAdded /\ Channel.events_ ch' <> 0 /\
   s = mk (<[Channel.fd_ ch := Z.lor (Channel.events_ ch') Channel.EPOLLET]> (epoll (poller w)))
          (<[Channel.fd_ ch := p]> (channels_ (poller w))) \/
   (Channel.index_ ch' = Channel.kNew \/ Channel.index_ ch' = Channel.kDeleted) /\
   s = mk (delete (Channel.fd_ ch) (epoll (poller w))) (delete (Channel.fd_ ch) (channels_ (poller w)))) ->
  wf (mkWorld (<[p := ch']> (objects w)) s).
Proof.
  intros Hw Hp Hfd Hs.
  assert (Hother : forall q d, q <> p -> objects w !! q = Some d -> Channel.fd_ d <> Channel.fd_ ch).
  { intros q d Hq Hd E. apply Hq. eapply wf_distinct; eauto. }
  constructor; cbn [objects poller].
  - intros q c. destruct (decide (q = p)) as [->|Hq].
    + rewrite lookup_insert_eq. intros [= <-]. destruct Hs as [(Hi & _)|([Hi|Hi] & _)]; rewrite Hi; tauto.
    + rewrite lookup_insert_ne by done. apply (wf_index w Hw).
  - intros q r c d. destruct (decide (q = p)) as [->|Hq], (decide (r = p)) as [->|Hr];
      rewrite ?lookup_insert_eq, ?(lookup_insert_ne (objects w)) by done; [done| | |apply (wf_distinct w Hw)].
    + intros [= <-] Hd E. exfalso. apply (Hother r d Hr Hd). congruence.
    + intros Hc [= <-] E. exfalso. apply (Hother q c Hq Hc). congruence.
  - intros q c. destruct (decide (q = p)) as [->|Hq].
    + rewrite lookup_insert_eq. intros [= <-] Ha. rewrite Hfd.
      destruct Hs as [(_ & He & ->)|([Hi|Hi] & _)]; [|rewrite Hi in Ha; done..].
      cbn. by rewrite !lookup_insert_eq.
    + rewrite lookup_insert_ne by done. intros Hc Ha. pose proof (Hother q c Hq Hc) as Hne.
      destruct (wf_added w Hw q c Hc Ha) as (H1 & H2 & H3).
      destruct Hs as [(_ & _ & ->)|(_ & ->)]; cbn;
        [rewrite !lookup_insert_ne by done|rewrite !lookup_delete_ne by done]; done.
  - intros fd q Hq. destruct (decide (fd = Channel.fd_ ch)) as [->|Hf].
    + destruct Hs as [(Ha & _ & ->)|(_ & ->)]; cbn in Hq; [|by rewrite lookup_delete_eq in Hq].
      rewrite lookup_insert_eq in Hq. injection Hq as <-. exists ch'. by rewrite lookup_insert_eq.
    + assert (Hq' : channels_ (poller w) !! fd = Some q).
      { destruct Hs as [(_ & _ & ->)|(_ & ->)]; cbn in Hq;
          [by rewrite lookup_insert_ne in Hq|by rewrite lookup_delete_ne in Hq]. }
      destruct (wf_table w Hw _ _ Hq') as (d & Hd & Hdf & Ha). exists d.
      rewrite lookup_insert_ne; [done|]. intros <-. congruence.
  - intros fd. destruct Hs as [(_ & _ & ->)|(_ & ->)]; cbn.
    + destruct (decide (fd = Channel.fd_ ch)) as [->|Hf]; [by rewrite !lookup_insert_eq|].
      rewrite !lookup_insert_ne by done. apply (wf_epoll w Hw).
    + destruct (decide (fd = Channel.fd_ ch)) as [->|Hf]; [rewrite !lookup_delete_eq; by intros [? ?]|].
      rewrite !lookup_delete_ne by done. apply (wf_epoll w Hw).
Qed.

Lemma delete_unregistered w p ch :
  wf w -> objects w !! p = Some ch -> Channel.index_ ch <> Channel.kAdded ->
  poller w = mk (delete (Channel.fd_ ch) (epoll (poller w))) (delete (Channel.fd_ ch) (channels_ (poller w))).
Proof.
  intros Hw Hp Hi. destruct (wf_unregistered w p ch Hw Hp Hi) as [H1 H2].
  rewrite !delete_id by done. by destruct (poller w).
Qed.

(** [updateChannel] never throws, keeps the invariant, and registers exactly the
    channels that want events. *)
Lemma change_wf w p i ch :
  wf w -> objects w !! p = Some ch ->
  exists ch' s, change i p ch (poller w) = Some (ch', s) /\ wf (mkWorld (<[p := ch']> (objects w)) s) /\
    Channel.events_ ch' = Channel.new_events i (Channel.events_ ch) /\
    (Channel.index_ ch' = Channel.kAdded <-> Channel.events_ ch' <> 0).
Proof.
  intros Hw Hp. unfold change. set (ch1 := Channel.set_events _ ch). unfold updateChannel.
  change (Channel.index_ ch1) with (Channel.index_ ch). change (Channel.fd_ ch1) with (Channel.fd_ ch).
  set (ev := Channel.new_events i (Channel.events_ ch)). change (Channel.events_ ch1) with ev.
  unfold Channel.isNoneEvent. change (Channel.events_ ch1) with ev.
  destruct (Z.eq_dec (Channel.index_ ch) Channel.kAdded) as [Ha|Ha].
  - rewrite Ha. cbn [orb Z.eqb Channel.kAdded Channel.kNew Channel.kDeleted]. rewrite andb_false_r.
    change (_ || _) with false. cbn iota.
    destruct (wf_added w Hw p ch Hp Ha) as (H1 & H2 & _). unfold epoll_ctl. rewrite H2.
    destruct (ev =? 0) eqn:Ez; breflect; (eexists _, _; split; [reflexivity|]).
    + split; [|split; [done|]]; [|by split; [|intros E; destruct (E Ez)]]. eapply wf_replace; [done|done|done|].
      right. split; [by right|done].
    + split; [|split; [done|]]; [|cbn; by split]. eapply wf_replace; [done|done|done|]. by left.
  - assert (Hu : (Channel.index_ ch =? Channel.kNew) || (Channel.index_ ch =? Channel.kDeleted) = true).
    { destruct (wf_index w Hw p ch Hp) as [E|[E|E]]; rewrite E; done. }
    rewrite Hu, andb_true_r. destruct (wf_unregistered w p ch Hw Hp Ha) as [H1 H2].
    destruct (ev =? 0) eqn:Ez; breflect; [|unfold epoll_ctl; rewrite H2]; (eexists _, _; split; [reflexivity|]).
    + split; [|split; [done|]]; [|by split; [intros E|intros E; destruct (E Ez)]]. eapply wf_replace; [done|done|done|]. right.
      split; [destruct (wf_index w Hw p ch Hp) as [E|[E|E]]; cbn; tauto|by eapply delete_unregistered].
    + split; [|split; [done|]]; [|cbn; by split]. eapply wf_replace; [done|done|done|]. by left.
Qed.

Lemma remove_wf w p ch :
  wf w -> objects w !! p = Some ch ->
  let '(ch', s) := removeChannel ch (poller w) in
  wf (mkWorld (<[p := ch']> (objects w)) s) /\ channels_ s !! Channel.fd_ ch = None /\ epoll s !! Channel.fd_ ch = None.
Proof.
  intros Hw Hp. unfold removeChannel. destruct (Channel.index_ ch =? Channel.kAdded) eqn:Ea; breflect.
  - destruct (wf_added w Hw p ch Hp Ea) as (_ & H2 & _). unfold epoll_ctl. rewrite H2. cbn [default from_option id].
    split; [|cbn; by rewrite !lookup_delete_eq]. eapply wf_replace; [done|done|done|]. right. split; [by right|done].
  - destruct (wf_unregistered w p ch Hw Hp Ea) as [H1 H2].
    split; [|cbn; by rewrite lookup_delete_eq]. eapply wf_replace; [done|done|done|]. right. split; [by right|].
    by rewrite (delete_id (epoll (poller w))).
Qed.

Lemma step_wf w e w' : wf w -> step w e w' -> exists w1, w' = Some w1 /\ wf w1.
Proof.
  intros Hw Hs. destruct Hs as [p fd Hn Hfd|p i ch Hp|p ch Hp|p ch Hp Hi].
  - eexists. split; [done|]. constructor; cbn [objects poller].
    + intros q c. destruct (decide (q = p)) as [->|]; [rewrite lookup_insert_eq; intros [= <-]; by left|].
      rewrite lookup_insert_ne by done. apply (wf_index w Hw).
    + intros q r c d. destruct (decide (q = p)) as [->|Hq], (decide (r = p)) as [->|Hr];
        rewrite ?lookup_insert_eq, ?(lookup_insert_ne (objects w)) by done; [done| | |apply (wf_distinct w Hw)].
      * intros [= <-] Hd E. by destruct (Hfd r d Hd).
      * intros Hc [= <-] E. by destruct (Hfd q c Hc).
    + intros q c. destruct (decide (q = p)) as [->|]; [rewrite lookup_insert_eq; by intros [= <-]|].
      rewrite lookup_insert_ne by done. apply (wf_added w Hw).
    + intros fd' q Hq. destruct (wf_table w Hw _ _ Hq) as (c & Hc & H1 & H2). exists c.
      rewrite lookup_insert_ne; [done|]. intros <-. congruence.
    + apply (wf_epoll w Hw).
  - destruct (change_wf w p i ch Hw Hp) as (ch' & s & -> & Hw' & _). by eexists.
  - pose proof (remove_wf w p ch Hw Hp) as Hr. destruct (removeChannel _ _) as [ch' s].
    destruct Hr as [Hr _]. by eexists.
  - eexists. split; [done|]. constructor; cbn [objects poller].
    + intros q c [_ Hc]%lookup_delete_Some. by apply (wf_index w Hw q).
    + intros q r c d [_ Hc]%lookup_delete_Some [_ Hd]%lookup_delete_Some. by apply (wf_distinct w Hw).
    + intros q c [_ Hc]%lookup_delete_Some. by apply (wf_added w Hw).
    + intros fd q Hq. destruct (wf_table w Hw _ _ Hq) as (c & Hc & H1 & H2). exists c.
      rewrite lookup_delete_ne; [done|]. intros <-. congruence.
    + apply (wf_epoll w Hw).
Qed.

Lemma reachable_wf w' : reachable w' -> exists w, w' = Some w /\ wf w.
Proof.
  induction 1 as [|w e w' _ (w0 & [= <-] & Hw) Hs].
  - eexists. split; [done|]. constructor; cbn [objects poller channels_ epoll];
      [intros p ch|intros p q c d|intros p ch|intros fd p|intros fd]; rewrite lookup_empty; done.
  - by apply (step_wf w e).
Qed.

(** A handler may change and remove channels as it likes. *)
Definition keeps_wf (handle : nat -> world -> world) : Prop := forall p w, wf w -> wf (handle p w).

Lemma set_revents_wf w p ch revents :
  wf w -> objects w !! p = Some ch -> wf (mkWorld (<[p := Channel.set_revents revents ch]> (objects w)) (poller w)).
Proof.
  intros Hw Hp. destruct (Z.eq_dec (Channel.index_ ch) Channel.kAdded) as [Ha|Ha].
  - destruct (wf_added w Hw p ch Hp Ha) as (H1 & H2 & H3). eapply wf_replace; [done|done|done|]. left.
    split; [done|]. split; [done|]. cbn. rewrite !insert_id by done. by destruct (poller w).
  - eapply wf_replace; [done|done|done|]. right.
    split; [destruct (wf_index w Hw p ch Hp) as [E|[E|E]]; cbn; tauto|by eapply delete_unregistered].
Qed.

Lemma dispatch_wf handle events w :
  wf w -> keeps_wf handle -> exists w', dispatch handle events w = Ret w' /\ wf w'.
Proof.
  intros Hw Hk. revert w Hw. induction events as [|[fd revents] events IH]; intros w Hw; cbn [dispatch]; [by eexists|].
  destruct (channels_ (poller w) !! fd) as [p|] eqn:E; [|by apply IH].
  destruct (wf_table w Hw _ _ E) as (ch & Hp & _). rewrite Hp. apply IH, Hk. by apply set_revents_wf.
Qed.

(** C35: whatever the channels of a loop do (in any order, with descriptors
    reused after a channel is destroyed), [epoll_ctl] never fails and
    [updateChannel] never throws; the loop's table has exactly the registered
    channels, none of them destroyed, and the kernel watches exactly their
    descriptors, each with the events of its channel; and the events of one
    [epoll_wait] are handled without touching a channel that is gone. *)
Theorem registration_follows_channels w' :
  reachable w' ->
  exists w, w' = Some w /\
    (forall p ch, objects w !! p = Some ch ->
       (Channel.index_ ch = Channel.kAdded <-> channels_ (poller w) !! Channel.fd_ ch = Some p)) /\
    (forall fd, epoll (poller w) !! fd =
       match channels_ (poller w) !! fd with
       | Some p => (fun ch => Z.lor (Channel.events_ ch) Channel.EPOLLET) <$> objects w !! p
       | None => None
       end) /\
    (forall p ch i, objects w !! p = Some ch ->
       exists ch' s, change i p ch (poller w) = Some (ch', s) /\
         (Channel.index_ ch' = Channel.kAdded <-> Channel.new_events i (Channel.events_ ch) <> 0)) /\
    (forall handle events, keeps_wf handle -> exists w'', dispatch handle events w = Ret w'').
Proof.
  intros Hr. destruct (reachable_wf w' Hr) as (w & -> & Hw). exists w. split; [done|]. split_and!.
  - intros p ch Hp. split; [intros Ha; by apply (wf_added w Hw p ch)|].
    intros Hc. destruct (wf_table w Hw _ _ Hc) as (d & Hd & _ & Ha). congruence.
  - intros fd. destruct (channels_ (poller w) !! fd) as [p|] eqn:E.
    + destruct (wf_table w Hw _ _ E) as (ch & Hp & <- & Ha). rewrite Hp.
      by destruct (wf_added w Hw p ch Hp Ha) as (_ & -> & _).
    + destruct (epoll (poller w) !! fd) eqn:Ee; [|done].
      destruct (wf_epoll w Hw fd) as [p Hp]; [by eexists|]. congruence.
  - intros p ch i Hp. destruct (change_wf w p i ch Hw Hp) as (ch' & s & Hc & _ & He & Hi).
    exists ch', s. by rewrite <- He.
  - intros handle events Hk. destruct (dispatch_wf handle events w Hw Hk) as (w'' & -> & _). by eexists.
Qed.

(** A channel with descriptor 7 that wants to read. *)
Definition example_world : world :=
  mkWorld {[ 1%nat := Channel.mk 7 Channel.read_bits 0 Channel.kAdded ]}
    (mk {[ 7 := Z.lor Channel.read_bits Channel.EPOLLET ]} {[ 7 := 1%nat ]}).

Lemma example_reachable : reachable (Some example_world).
Proof.
  assert (H0 : reachable (Some (mkWorld {[ 1%nat := Channel.construct 7 ]} (mk ∅ ∅)))).
  { eapply (reachable_step (mkWorld ∅ (mk ∅ ∅)) (New 1 7)); [constructor|].
    apply (step_new (mkWorld ∅ (mk ∅ ∅)) 1 7); [done|]. intros p ch. cbn. by rewrite lookup_empty. }
  eapply (reachable_step _ (Change 1 Channel.EnableReading)); [exact H0|].
  exact (step_change (mkWorld {[ 1%nat := Channel.construct 7 ]} (mk ∅ ∅)) 1 Channel.EnableReading
           (Channel.construct 7) eq_refl).
Qed.

Lemma registration_follows_channels_witness :
  exists w, Some example_world = Some w /\
    (forall p ch, objects w !! p = Some ch ->
       (Channel.index_ ch = Channel.kAdded <-> channels_ (poller w) !! Channel.fd_ ch = Some p)) /\
    (forall fd, epoll (poller w) !! fd =
       match channels_ (poller w) !! fd with
       | Some p => (fun ch => Z.lor (Channel.events_ ch) Channel.EPOLLET) <$> objects w !! p
       | None => None
       end) /\
    (forall p ch i, objects w !! p = Some ch ->
       exists ch' s, change i p ch (poller w) = Some (ch', s) /\
         (Channel.index_ ch' = Channel.kAdded <-> Channel.new_events i (Channel.events_ ch) <> 0)) /\
    (forall handle events, keeps_wf handle -> exists w'', dispatch handle events w = Ret w'').
Proof. apply registration_follows_channels, example_reachable. Defined.

End PollerFacts.

(** * Functors *)

Module LoopFacts.
Import EventLoop.

(** What holds at every point of any history. *)
Record ok (s : t) (history : list nat) : Prop := mkOk {
  ok_order : executed s ++ callbacks s ++ pending_functors_ s = history;
  ok_callbacks : at_ s <> Running -> callbacks s = [];
  ok_looping : looping_ s = negb (bool_decide (at_ s = Outside));
  ok_wakeups : 0 <= wakeups s;
}.

Lemma ok_push_functor f s h : ok s h -> ok (push_functor f s) (h ++ [f]).
Proof. intros [<- Hc Hl Hw]. constructor; [|done..]. cbn. by rewrite <- !app_assoc. Qed.

Lemma ok_wakeup s h : ok s h -> ok (wakeup s) h.
Proof. intros [Ho Hc Hl Hw]. constructor; try done. cbn. lia. Qed.

Lemma ok_same s s' h :
  ok s h -> executed s' = executed s -> callbacks s' = callbacks s -> pending_functors_ s' = pending_functors_ s ->
  at_ s' = at_ s -> looping_ s' = looping_ s -> 0 <= wakeups s' -> ok s' h.
Proof. destruct s, s'. cbn. intros [Ho Hc Hl Hw] -> -> -> -> -> Hw'. by constructor. Qed.

Lemma ok_loop_condition s h :
  executed s ++ callbacks s ++ pending_functors_ s = h -> callbacks s = [] -> looping_ s = true ->
  0 <= wakeups s -> ok (loop_condition s) h.
Proof. intros Ho Hc Hl Hw. unfold loop_condition. destruct (quit_ s); by constructor. Qed.

Lemma ok_step s e s' h : ok s h -> step s e = Some s' -> ok s' (h ++ queued [e]).
Proof.
  intros Hok. pose proof Hok as [Ho Hc Hl Hw].
  assert (Hq : forall f, ok (queueInLoop f s) (h ++ [f])).
  { intros f. unfold queueInLoop. pose proof (ok_push_functor f s h Hok).
    destruct (looping_ (push_functor f s)); [done|by apply ok_wakeup]. }
  destruct e; cbn [step queued]; rewrite ?app_nil_r.
  - destruct (at_ s) eqn:Ea; [|done..]. intros [= <-]. unfold loop_enter. rewrite Hl, bool_decide_true by done. cbn [negb].
    apply ok_loop_condition; try done. by apply Hc.
  - destruct (at_ s) eqn:Ea; [done| |done..]. destruct (_ && _); [done|]. intros [= <-].
    assert (Hcb : callbacks s = []) by (by apply Hc). unfold epoll_return. by destruct wakeup_ready; constructor.
  - destruct (at_ s) eqn:Ea; [done|done| |done]. intros [= <-]. constructor; try done.
    cbn. rewrite Hc in Ho by done. by rewrite app_nil_r.
  - destruct (at_ s) eqn:Ea; [done|done|done|]. destruct (callbacks s) as [|f rest] eqn:Ecb; [done|].
    intros [= <-]. constructor; cbn; rewrite ?Ea; try done. by rewrite <- Ho, <- app_assoc.
  - destruct (at_ s) eqn:Ea; [done|done|done|]. destruct (callbacks s) eqn:Ecb; [|done]. intros [= <-].
    apply ok_loop_condition; try done. by rewrite Ecb.
  - destruct (at_ s); [|done|..]; intros [= <-]; apply Hq.
  - assert (Hqo : ok (queue_other f s) (h ++ [f])).
    { eapply ok_same; [by apply ok_push_functor|done..]. }
    destruct (at_ s); intros [= <-]; exact Hqo.
  - assert (Hwo : ok (wake_other s) h) by (eapply ok_same; [by apply (ok_wakeup s)|try done..]; cbn; lia).
    destruct (at_ s); (destruct (wakers s); [done|]); intros [= <-]; exact Hwo.
  - destruct (at_ s) eqn:Ea; [|done|..]; intros [= <-]; eapply ok_same; done.
  - assert (Hqo : ok (quit_other s) h) by (eapply ok_same; [exact Hok|try done..]; cbn; lia).
    destruct (at_ s); intros [= <-]; exact Hqo.
Qed.

Lemma queued_cons e es : queued (e :: es) = queued [e] ++ queued es.
Proof. by destruct e. Qed.

Lemma ok_run es s s' h : ok s h -> run s es = Some s' -> ok s' (h ++ queued es).
Proof.
  revert s h. induction es as [|e es IH]; intros s h Hok; cbn [run].
  - intros [= <-]. by rewrite app_nil_r.
  - destruct (step s e) as [s1|] eqn:E; [|done]. intros Hr. rewrite queued_cons, app_assoc.
    eapply IH; [|exact Hr]. by eapply ok_step.
Qed.

Lemma ok_init : ok init [].
Proof. by constructor. Qed.

(** A history in which no functor, while [doPendingFunctors] calls it, queues
    another. *)
Fixpoint quiet (s : t) (es : list event) : bool :=
  match es with
  | [] => true
  | e :: es =>
      match e, at_ s with
      | QueueLoop _, Running => false
      | _, _ => match step s e with Some s => quiet s es | None => true end
      end
  end.

(** A thread is about to write to the eventfd, or it is readable. *)
Definition will_wake (s : t) : Prop := 0 < wakeups s \/ (0 < wakers s)%nat.

Definition awake (s : t) : Prop :=
  at_ s <> Handling -> pending_functors_ s <> [] -> will_wake s.

Lemma will_wake_wakeup s : 0 <= wakeups s -> will_wake (wakeup s).
Proof. left. cbn. lia. Qed.

Lemma awake_loop_condition s : at_ s = Running \/ at_ s = Outside -> awake s -> awake (loop_condition s).
Proof.
  intros Ha Hs. unfold loop_condition, awake, will_wake in *.
  destruct (quit_ s); cbn; intros _ Hp; (apply Hs; [|done]); by destruct Ha as [->| ->].
Qed.

Lemma awake_step s e s' h :
  ok s h -> awake s -> quiet s [e] = true -> step s e = Some s' -> awake s'.
Proof.
  intros Hok Hs. pose proof Hok as [_ Hc Hl Hw].
  destruct e; cbn [step quiet].
  - destruct (at_ s) eqn:Ea; [|done..]. intros _ [= <-]. unfold loop_enter. rewrite Hl, bool_decide_true by done. cbn [negb].
    apply awake_loop_condition; [by right|]. exact Hs.
  - destruct (at_ s) eqn:Ea; [done| |done..]. intros _. destruct (_ && _); [done|]. intros [= <-].
    unfold awake, epoll_return. by destruct wakeup_ready.
  - destruct (at_ s) eqn:Ea; [done|done| |done]. intros _ [= <-]. unfold awake, swap_pending. cbn. done.
  - destruct (at_ s) eqn:Ea; [done|done|done|]. destruct (callbacks s); [done|]. intros _ [= <-]. exact Hs.
  - destruct (at_ s) eqn:Ea; [done|done|done|]. destruct (callbacks s); [|done]. intros _ [= <-].
    apply awake_loop_condition; [by left|done].
  - destruct (at_ s) eqn:Ea; intros Hquiet [= <-]; [| |done].
    + unfold queueInLoop. change (looping_ (push_functor f s)) with (looping_ s). rewrite Hl, bool_decide_true by done.
      intros _ _. by apply will_wake_wakeup.
    + intros Hne. destruct Hne. unfold queueInLoop. by destruct (looping_ (push_functor f s)).
  - assert (Hq : awake (queue_other f s)) by (intros _ _; right; cbn; lia).
    intros _. destruct (at_ s); intros [= <-]; exact Hq.
  - assert (Hq : awake (wake_other s)) by (intros _ _; left; cbn; lia).
    intros _. destruct (at_ s); (destruct (wakers s); [done|]); intros [= <-]; exact Hq.
  - destruct (at_ s) eqn:Ea; intros _ [= <-]; exact Hs.
  - assert (Hq : awake (quit_other s)) by (intros _ _; left; cbn; lia).
    intros _. destruct (at_ s); intros [= <-]; exact Hq.
Qed.

Lemma awake_run es s s' h :
  ok s h -> awake s -> quiet s es = true -> run s es = Some s' -> awake s'.
Proof.
  revert s h. induction es as [|e es IH]; intros s h Hok Hs Hq; cbn [run]; [by intros [= <-]|].
  destruct (step s e) as [s1|] eqn:E; [|done]. intros Hr.
  assert (He : quiet s [e] = true /\ quiet s1 es = true).
  { revert Hq. cbn [quiet]. rewrite E. destruct e; try done; by destruct (at_ s). }
  eapply (IH s1); [by eapply ok_step|eapply awake_step; [exact Hok|exact Hs|apply He|exact E]|apply He|done].
Qed.

Lemma awake_init : awake init.
Proof. intros _ Hp. by destruct Hp. Qed.

Lemma run_wakers n s :
  wakers s = n -> 0 <= wakeups s -> at_ s = Waiting -> will_wake s ->
  exists s', run s (repeat WakeOther n) = Some s' /\ at_ s' = Waiting /\ 0 < wakeups s' /\
    pending_functors_ s' = pending_functors_ s /\ callbacks s' = callbacks s /\ executed s' = executed s.
Proof.
  revert s. induction n as [|n IH]; intros s Hn Hw Ha Hwill; cbn [repeat run].
  - exists s. split_and!; try done. destruct Hwill as [?|Hx]; [done|]. rewrite Hn in Hx. lia.
  - cbn [step]. rewrite Hn. destruct (IH (wake_other s)) as (s' & Hr & ?).
    + cbn. by rewrite Hn.
    + cbn. lia.
    + done.
    + left. cbn. lia.
    + by exists s'.
Qed.

Lemma run_callbacks s l :
  at_ s = Running -> callbacks s = l ->
  exists s', run s (repeat CallFunctor (length l)) = Some s' /\ executed s' = executed s ++ l /\
    callbacks s' = [] /\ pending_functors_ s' = pending_functors_ s.
Proof.
  revert s. induction l as [|f l IH]; intros s Ha Hc; cbn [length repeat run].
  - exists s. by rewrite app_nil_r.
  - cbn [step]. rewrite Ha, Hc. destruct (IH (call_functor f l s)) as (s' & Hr & He & ? & ?); [done|done|].
    exists s'. split; [done|]. split; [|done]. rewrite He. cbn. by rewrite <- app_assoc.
Qed.

Lemma run_history_app s es1 es2 s1 : run s es1 = Some s1 -> run s (es1 ++ es2) = run s1 es2.
Proof.
  revert s. induction es1 as [|e es1 IH]; intros s; cbn; [by intros [= ->]|].
  destruct (step s e); [apply IH|done].
Qed.

(** Under every interleaving of the loop with threads that queue functors,
    wake and quit it, each functor that was queued is run, being run or still
    pending, in the order of the queueing and once: none is lost, repeated or
    overtaken. *)
Theorem functors_once_in_order es s :
  run init es = Some s -> executed s ++ callbacks s ++ pending_functors_ s = queued es.
Proof. intros Hr. by apply (ok_run es init s [] ok_init) in Hr as [H _ _ _]. Qed.


(** A functor queued by a functor waits: [queueInLoop] on the loop's thread
    does not wake the loop, which then waits for an unrelated event with the
    functor pending, the wakeup descriptor not readable and no thread about to
    write to it. *)
Theorem functor_queued_by_functor_waits :
  exists es s, run init es = Some s /\ at_ s = Waiting /\ pending_functors_ s = [2%nat] /\
    ~ (0 < wakeups s \/ (0 < wakers s)%nat) /\ step s (EpollReturn true) = None.
Proof.
  exists [LoopEnter; QueueOther 1%nat; WakeOther; EpollReturn true; SwapPending; QueueLoop 2%nat; CallFunctor; EndFunctors].
  exists (mk Waiting true false [2%nat] [] 0 0 [1%nat]).
  split; [vm_compute; reflexivity|]. split; [done|]. split; [done|]. split; [cbn; lia|done].
Qed.

(** A [quit] that comes before [loop] is forgotten. *)
Lemma quit_before_loop_is_lost :
  exists s, run init [QuitOther; LoopEnter; EpollReturn true; SwapPending; EndFunctors] = Some s /\
    at_ s = Waiting /\ quit_ s = false /\ wakeups s = 0.
Proof. eexists (mk Waiting true false [] [] 0 0 []). split; [vm_compute; reflexivity|done]. Qed.

Lemma functors_once_in_order_witness :
  run init [LoopEnter; QueueOther 1%nat; QueueOther 2%nat; WakeOther; EpollReturn true; SwapPending; CallFunctor] <> None /\
  exists s, executed s ++ callbacks s ++ pending_functors_ s = [1%nat; 2%nat].
Proof.
  split; [done|]. eexists.
  apply (functors_once_in_order [LoopEnter; QueueOther 1%nat; QueueOther 2%nat; WakeOther; EpollReturn true; SwapPending; CallFunctor]).
  vm_compute. reflexivity.
Defined.

Definition example_waiting : t := mk Waiting true false [1%nat; 2%nat] [] 1 1 [].


End LoopFacts.
