(* ===== verification/EventLoopIo.v ===== *)
(** The system calls of the loop: construction and destruction of an
    [EventLoop], and the turns of [loop] around [epoll_wait] with interrupted
    and failing waits, the growth of the event vector and exceptions of handlers
    and functors (src/net/event_loop.cpp). *)
From Stdlib Require Import ZArith Lia.
From stdpp Require Import base list sets.
From S2P Require Import Prelude.
#[local] Set Warnings "-clear-no-such-hyp".

Module EventLoopIo.

Definition EINTR : Z := 4.

(** * Construction *)

(** The descriptors of a loop. *)
Record fds := mkFds { epoll_fd_ : Z; wakeup_fd_ : Z }.

(** The three system calls answer a descriptor or -1, and an error or none; the
    result has the loop, or none when the constructor throws, and the descriptors
    it closed. *)
Definition createEpollFd (epoll_create1 : Z) : option Z :=
  if epoll_create1 <? 0 then None else Some epoll_create1.

Definition createWakeupFd (epoll_fd eventfd : Z) : option Z * list Z :=
  if eventfd <? 0 then (None, [epoll_fd]) else (Some eventfd, []).

Definition construct (epoll_create1 eventfd epoll_ctl : Z) : option fds * list Z :=
  match createEpollFd epoll_create1 with
  | None => (None, [])
  | Some epoll_fd =>
      match createWakeupFd epoll_fd eventfd with
      | (None, closed) => (None, closed)
      | (Some wakeup_fd, closed) =>
          if epoll_ctl <? 0 then (None, closed ++ [wakeup_fd; epoll_fd])
          else (Some (mkFds epoll_fd wakeup_fd), closed)
      end
  end.

(** The destructor. *)
Definition destroy (l : fds) : list Z := [wakeup_fd_ l; epoll_fd_ l].

(** The descriptors the system calls of the constructor opened. *)
Definition opened (epoll_create1 eventfd : Z) : list Z :=
  if epoll_create1 <? 0 then []
  else if eventfd <? 0 then [epoll_create1] else [epoll_create1; eventfd].

(** * Turns *)

(** What a descriptor is ready for, as [epoll_event] carries it. *)
Definition event : Type := Z * Z.

(** What the loop calls, over a state [W] of their own: [channels_], the
    handlers and the functors; true when an exception leaves the call. *)
Class Handlers (W : Type) := {
  is_wakeup : Z -> bool;
  has_channel : W -> Z -> bool;
  handleWakeupRead : W -> W;
  handleEvent : event -> W -> W * bool;
  doPendingFunctors : W -> W * bool;
  quit_ : W -> bool;
  clear_quit : W -> W;
}.

(** The events the kernel holds ready and those [epoll_wait] returned, in order;
    [size] is that of [active_events_]. *)
Record t (W : Type) := mk {
  size : Z;
  looping_ : bool;
  ready : list event;
  returned : list event;
  world : W;
}.
Arguments mk {W}. Arguments size {W}. Arguments looping_ {W}. Arguments ready {W}.
Arguments returned {W}. Arguments world {W}.

(** [active_events_] has [kInitialEventListSize] entries at first. *)
Definition kInitialEventListSize : Z := 16.
Definition init {W} (w : W) : t W := mk kInitialEventListSize false [] [] w.

(** The kernel has one entry for each ready descriptor; more readiness is added
    to its mask. *)
Fixpoint arrive (e : event) (ready : list event) : list event :=
  match ready with
  | [] => [e]
  | (fd, mask) :: ready =>
      if fd =? e.1 then (fd, Z.lor mask e.2) :: ready else (fd, mask) :: arrive e ready
  end.

(** How a wait ends: with an [errno], or with the ready events, after those of
    the list became ready. *)
Inductive wait_answer := Failed (errno : Z) | Arrived (l : list event).

Inductive exit := Return | Throw.

Section turns.
Context {W : Type} `{HW : Handlers W}.

Definition set_looping b (s : t W) := mk (size s) b (ready s) (returned s) (world s).
Definition set_size n (s : t W) := mk n (looping_ s) (ready s) (returned s) (world s).
Definition set_world (w : W) (s : t W) := mk (size s) (looping_ s) (ready s) (returned s) w.

(** [epoll_wait] takes at most [maxevents] of the ready events; all descriptors
    are edge triggered, so these are not ready any more.  It refuses a
    [maxevents] that is not positive. *)
Definition epoll_wait (maxevents : Z) (arrived : list event) (s : t W) : option (list event) * t W :=
  let all := fold_left (fun l e => arrive e l) arrived (ready s) in
  if maxevents <=? 0 then (None, mk (size s) (looping_ s) all (returned s) (world s))
  else
    let n := Z.to_nat maxevents in
    (Some (take n all), mk (size s) (looping_ s) (drop n all) (returned s ++ take n all) (world s)).

(** The [do ... while] around it; none is an error other than [EINTR], and the
    fuel is the script of answers (a wait with nothing ready blocks on). *)
Fixpoint wait (answers : list wait_answer) (s : t W) : outcome (option (list event) * list wait_answer * t W) :=
  match answers with
  | [] => OutOfFuel
  | Failed errno :: answers => if errno =? EINTR then wait answers s else Ret (None, answers, s)
  | Arrived l :: answers =>
      match epoll_wait (s32 (size s)) l s with
      | (Some [], s) => wait answers s
      | (events, s) => Ret (events, answers, s)
      end
  end.

(** The events in order, up to the first handler that throws. *)
Fixpoint dispatch (events : list event) (w : W) : W * bool :=
  match events with
  | [] => (w, false)
  | event :: events =>
      if is_wakeup event.1 then dispatch events (handleWakeupRead w)
      else if negb (has_channel w event.1) then dispatch events w
      else
        match handleEvent event w with
        | (w, true) => (w, true)
        | (w, false) => dispatch events w
        end
  end.

(** [active_events_.resize(active_events_.size() * 2)]. *)
Definition grow (events : list event) (s : t W) : t W :=
  if lenZ events =? s32 (size s) then set_size (u64 (size s * 2)) s else s.

(** The body of the [while]; true when an exception leaves it. *)
Definition turn (answers : list wait_answer) (s : t W) : outcome (bool * list wait_answer * t W) :=
  let* '(events, answers, s) := wait answers s in
  match events with
  | None => Ret (true, answers, s)
  | Some events =>
      match dispatch events (world s) with
      | (w, true) => Ret (true, answers, set_world w s)
      | (w, false) =>
          let s := grow events s in
          let '(w, thrown) := doPendingFunctors w in
          Ret (thrown, answers, set_world w s)
      end
  end.

(** A turn takes an answer at least, so the script is fuel enough. *)
Fixpoint turns (fuel : nat) (answers : list wait_answer) (s : t W) : outcome (exit * list wait_answer * t W) :=
  if quit_ (world s) then Ret (Return, answers, s)
  else
    match fuel with
    | O => OutOfFuel
    | S f =>
        let* '(thrown, answers, s) := turn answers s in
        if thrown : bool then Ret (Throw, answers, s) else turns f answers s
    end.

(** [loop]: the [catch] clears [looping_] as well. *)
Definition loop (answers : list wait_answer) (s : t W) : outcome (exit * list wait_answer * t W) :=
  if looping_ s then Ret (Return, answers, s)
  else
    let s := set_world (clear_quit (world s)) (set_looping true s) in
    let* '(exit, answers, s) := turns (length answers) answers s in
    Ret (exit, answers, set_looping false s).

(** * Lemmas *)

(** Every event of [seen] is part of an event of [l]. *)
Definition covers (l seen : list event) : Prop :=
  forall fd mask, (fd, mask) ∈ seen -> exists m, (fd, m) ∈ l /\ Z.land m mask = mask.

Lemma covers_app l seen1 seen2 : covers l seen1 -> covers l seen2 -> covers l (seen1 ++ seen2).
Proof. intros H1 H2 fd mask [?|?]%elem_of_app; eauto. Qed.

Lemma covers_mono l l' seen : covers l' l -> covers l seen -> covers l' seen.
Proof.
  intros H1 H2 fd mask Hin. destruct (H2 _ _ Hin) as (m & Hm & E).
  destruct (H1 _ _ Hm) as (m' & Hm' & E'). exists m'. split; [done|].
  by rewrite <- E, Z.land_assoc, E'.
Qed.

Lemma covers_sub l l' : l ⊆ l' -> covers l' l.
Proof. intros H fd mask Hin. exists mask. split; [by apply H|apply Z.land_diag]. Qed.

Lemma arrive_covers e l : covers (arrive e l) (e :: l).
Proof.
  intros fd mask Hin. induction l as [|[fd' m] l IH]; cbn.
  - exists mask. split; [done|apply Z.land_diag].
  - assert (Hor : forall a b, Z.land (Z.lor a b) a = a /\ Z.land (Z.lor a b) b = b).
    { intros x y. split; apply Z.bits_inj'; intros n _; rewrite Z.land_spec, Z.lor_spec;
        destruct (Z.testbit x n), (Z.testbit y n); done. }
    destruct (fd' =? e.1) eqn:Ee.
    + apply Z.eqb_eq in Ee. apply elem_of_cons in Hin as [<-|[Hin|Hin]%elem_of_cons]; cbn in Ee.
      * subst fd'. exists (Z.lor m mask). split; [by left|apply Hor].
      * injection Hin as -> ->. exists (Z.lor m e.2). split; [by left|apply Hor].
      * exists mask. split; [by right|apply Z.land_diag].
    + assert (Hcase : (fd, mask) = (fd', m) \/ (fd, mask) ∈ e :: l)
        by (rewrite !elem_of_cons in *; tauto).
      destruct Hcase as [[= -> ->]|Hin'].
      * exists m. split; [by left|apply Z.land_diag].
      * destruct (IH Hin') as (k & Hk & E). exists k. split; [by right|done].
Qed.

Lemma arrive_fds e l :
  map fst (arrive e l) = map fst l \/ ((e.1 ∉ map fst l) /\ map fst (arrive e l) = map fst l ++ [e.1]).
Proof.
  induction l as [|[fd m] l IH]; cbn; [right; split; [apply not_elem_of_nil|done]|].
  case_if; [by left|]. cbn.
  destruct IH as [->|[Hn ->]]; [by left|right]. split; [|done].
  rewrite not_elem_of_cons. split; [lia|done].
Qed.

(** The descriptors that are ready are in [D], each once, and [seen] was
    returned or is still ready. *)
Record sound (D : list Z) (seen : list event) (s : t W) : Prop := {
  sound_fds : map fst (ready s) ⊆ D;
  sound_nodup : NoDup (map fst (ready s));
  sound_size : 16 <= size s <= Z.max 16 (2 * lenZ D);
  sound_seen : covers (returned s ++ ready s) seen;
}.

Lemma sound_ready_length D seen s : sound D seen s -> lenZ (ready s) <= lenZ D.
Proof.
  intros Hs. unfold lenZ. pose proof (NoDup_incl_length (l := map fst (ready s)) (l' := D)) as Hl.
  rewrite length_map in Hl. apply Nat2Z.inj_le, Hl; [|intros fd; rewrite <- !list_elem_of_In; apply (sound_fds _ _ _ Hs)].
  apply NoDup_ListNoDup, (sound_nodup _ _ _ Hs).
Qed.

Definition set_ready l (s : t W) := mk (size s) (looping_ s) l (returned s) (world s).

Lemma sound_arrive D seen e s :
  e.1 ∈ D -> sound D seen s -> sound D (e :: seen) (set_ready (arrive e (ready s)) s).
Proof.
  intros He [H1 H2 H3 H4]. pose proof (arrive_covers e (ready s)) as Hc.
  split; cbn; [..|done|].
  - destruct (arrive_fds e (ready s)) as [->|[_ ->]]; [done|set_solver].
  - destruct (arrive_fds e (ready s)) as [->|[Hn ->]]; [done|].
    apply NoDup_app. split; [done|]. split; [set_solver|apply NoDup_singleton].
  - apply (covers_mono (returned s ++ (e :: ready s))).
    + apply covers_app; [apply covers_sub; set_solver|].
      eapply covers_mono; [|exact Hc]. apply covers_sub. set_solver.
    + apply (covers_app _ [e]); [apply covers_sub; set_solver|].
      eapply covers_mono; [|exact H4]. apply covers_sub. set_solver.
Qed.

Lemma sound_less D seen seen' s : seen' ⊆ seen -> sound D seen s -> sound D seen' s.
Proof. intros H [H1 H2 H3 H4]. split; [done..|]. intros fd mask Hin. by apply H4, H. Qed.

(** The script's answers up to where a definition stopped reading it. *)
Fixpoint arrivals (answers : list wait_answer) : list event :=
  match answers with
  | [] => []
  | Arrived l :: answers => l ++ arrivals answers
  | Failed _ :: answers => arrivals answers
  end.

Definition fatal (a : wait_answer) : Prop :=
  match a with Failed errno => errno <> EINTR | Arrived _ => False end.

Lemma arrivals_app l1 l2 : arrivals (l1 ++ l2) = arrivals l1 ++ arrivals l2.
Proof. induction l1 as [|[e|l] l1 IH]; cbn; [done..|]. by rewrite IH, app_assoc. Qed.

(** The entries of the descriptors after those of [l] became ready. *)
Definition all_ready (l : list event) (s : t W) : list event :=
  fold_left (fun l e => arrive e l) l (ready s).

Lemma sound_arrivals D seen l s :
  map fst l ⊆ D -> sound D seen s -> sound D (l ++ seen) (set_ready (all_ready l s) s).
Proof.
  unfold all_ready. revert seen s. induction l as [|e l IH]; intros seen s Hl Hs; cbn; [by destruct s|].
  eapply sound_less; [|apply (IH (e :: seen) (set_ready (arrive e (ready s)) s))]; [set_solver..|].
  apply sound_arrive; [set_solver|done].
Qed.

(** Moving entries from the kernel to the loop. *)
Lemma sound_take D seen s n :
  sound D seen s ->
  sound D seen (mk (size s) (looping_ s) (drop n (ready s)) (returned s ++ take n (ready s)) (world s)).
Proof.
  intros [H1 H2 H3 H4]. rewrite <- (take_drop n (ready s)) in H1, H2. rewrite map_app in H1, H2.
  apply NoDup_app in H2 as (_ & _ & H2). split; cbn; [set_solver|done|done|].
  by rewrite <- app_assoc, take_drop.
Qed.

Lemma s32_small z : 0 <= z < 2 ^ 31 -> s32 z = z.
Proof. intros H. unfold s32, u32. rewrite Z.mod_small by lia. case_if; lia. Qed.

Lemma lenZ_take {A} n (l : list A) : lenZ (take n l) <= Z.of_nat n /\ lenZ (take n l) <= lenZ l.
Proof. unfold lenZ. rewrite length_take. lia. Qed.

(** What a wait did: the part of the script it used, and what it returned. *)
Definition wait_post (D : list Z) (seen : list event) (used : list wait_answer) (s : t W)
    (r : option (list event)) (s' : t W) : Prop :=
  used <> [] /\ sound D (arrivals used ++ seen) s' /\
  looping_ s' = looping_ s /\ world s' = world s /\ size s' = size s /\
  match r with
  | Some events => lenZ events <= lenZ D /\ Forall (fun a => ~ fatal a) used
  | None => True
  end.

Lemma wait_post_skip D seen seen1 a used s s1 r s' :
  ~ fatal a -> arrivals (a :: used) ++ seen ⊆ arrivals used ++ seen1 ->
  looping_ s1 = looping_ s -> world s1 = world s -> size s1 = size s ->
  wait_post D seen1 used s1 r s' -> wait_post D seen (a :: used) s r s'.
Proof.
  intros Ha Hsub Hl Hw Hz (_ & Hs & H1 & H2 & H3 & H4). unfold wait_post.
  rewrite H1, H2, H3. split; [done|]. split; [by eapply sound_less|]. repeat split; [done..|].
  destruct r; [|done]. destruct H4. split; [done|]. by constructor.
Qed.

Lemma wait_spec D seen answers s :
  lenZ D < 2 ^ 30 -> map fst (arrivals answers) ⊆ D -> sound D seen s ->
  match wait answers s with
  | Ret (r, rest, s') => exists used, answers = used ++ rest /\ wait_post D seen used s r s'
  | OutOfFuel => ~ Exists fatal answers
  | OutOfBounds => False
  end.
Proof.
  intros HD. revert seen s. induction answers as [|a answers IH]; intros seen s Hsub Hs;
    [by intros H%Exists_nil|].
  assert (Hnext : forall seen1 s1, ~ fatal a -> sound D seen1 s1 ->
    (forall used, arrivals (a :: used) ++ seen ⊆ arrivals used ++ seen1) ->
    looping_ s1 = looping_ s -> world s1 = world s -> size s1 = size s ->
    match wait answers s1 with
    | Ret (r, rest, s') => exists used, a :: answers = used ++ rest /\ wait_post D seen used s r s'
    | OutOfFuel => ~ Exists fatal (a :: answers)
    | OutOfBounds => False
    end).
  { intros seen1 s1 Ha Hs1 Hsub1 Hl Hw Hz. assert (Hd : map fst (arrivals answers) ⊆ D) by (destruct a; set_solver).
    specialize (IH seen1 s1 Hd Hs1). destruct (wait answers s1) as [[[r rest] s']| |]; [..|rewrite Exists_cons].
    - destruct IH as (used & -> & Hp). exists (a :: used). split; [done|].
      by eapply wait_post_skip.
    - done.
    - tauto. }
  destruct a as [errno|l]; cbn [wait].
  - case_if; [apply (Hnext seen); [cbn; lia|done|by intros used|done..]|].
    exists [Failed errno]. split; [done|]. by split; [|split].
  - pose proof (sound_size _ _ _ Hs) as Hz. rewrite s32_small by lia.
    unfold epoll_wait. rewrite (proj2 (Z.leb_gt _ _)) by lia. fold (all_ready l s).
    assert (Hs1 : sound D (l ++ seen) (set_ready (all_ready l s) s))
      by (apply sound_arrivals; [set_solver|done]).
    pose proof (sound_take _ _ _ (Z.to_nat (size s)) Hs1) as Hs2. cbn in Hs2.
    pose proof (sound_ready_length _ _ _ Hs1) as Hlen. cbn in Hlen.
    pose proof (lenZ_take (Z.to_nat (size s)) (all_ready l s)) as [_ Htake].
    destruct (take (Z.to_nat (size s)) (all_ready l s)) as [|e events] eqn:Et.
    + apply (Hnext (l ++ seen)); [tauto|done| |done..]. intros used; cbn. set_solver.
    + exists [Arrived l]. split; [done|]. split; [done|]. cbn [arrivals].
      rewrite app_nil_r. repeat split; [apply Hs2..|lia|]. constructor; [tauto|constructor].
Qed.

Lemma sound_set_world D seen w s : sound D seen s -> sound D seen (set_world w s).
Proof. intros [H1 H2 H3 H4]. by split. Qed.

Lemma sound_set_looping D seen b s : sound D seen s -> sound D seen (set_looping b s).
Proof. intros [H1 H2 H3 H4]. by split. Qed.

Lemma sound_grow D seen events s :
  lenZ D < 2 ^ 30 -> lenZ events <= lenZ D -> sound D seen s -> sound D seen (grow events s).
Proof.
  intros HD Hev [H1 H2 H3 H4]. unfold grow. rewrite s32_small by lia. case_if; [|done].
  split; cbn; [done|done| |done]. unfold u64. rewrite Z.mod_small by lia. lia.
Qed.

Lemma turn_spec D seen answers s :
  lenZ D < 2 ^ 30 -> map fst (arrivals answers) ⊆ D -> sound D seen s ->
  match turn answers s with
  | Ret (thrown, rest, s') => exists used, answers = used ++ rest /\ used <> [] /\
      sound D (arrivals used ++ seen) s' /\ looping_ s' = looping_ s /\
      (thrown = false -> Forall (fun a => ~ fatal a) used)
  | OutOfFuel => ~ Exists fatal answers
  | OutOfBounds => False
  end.
Proof.
  intros HD Hsub Hs. unfold turn. pose proof (wait_spec D seen answers s HD Hsub Hs) as Hw.
  destruct (wait answers s) as [[[[events|] rest] s1]| |]; cbn [mbind outcome_bind]; [| |done..].
  - destruct Hw as (used & -> & Hne & Hs1 & Hl & _ & _ & Hev & Hf).
    destruct (dispatch events (world s1)) as [w [|]].
    { exists used. split; [done|]. split; [done|]. split; [by apply sound_set_world|done]. }
    destruct (doPendingFunctors w) as [w' thrown]. exists used.
    split; [done|]. split; [done|]. split; [by apply sound_set_world, sound_grow|]. split; [|done].
    cbn. unfold grow. by case_if.
  - destruct Hw as (used & -> & Hne & Hs1 & Hl & _). by exists used.
Qed.

Lemma turns_spec D fuel seen answers s :
  lenZ D < 2 ^ 30 -> map fst (arrivals answers) ⊆ D -> sound D seen s -> (length answers <= fuel)%nat ->
  match turns fuel answers s with
  | Ret (ex, rest, s') => exists used, answers = used ++ rest /\
      sound D (arrivals used ++ seen) s' /\ looping_ s' = looping_ s /\
      (ex = Return -> quit_ (world s') = true)
  | OutOfFuel => ~ Exists fatal answers
  | OutOfBounds => False
  end.
Proof.
  intros HD. revert seen answers s. induction fuel as [|f IH]; intros seen answers s Hsub Hs Hf;
    cbn [turns]; (destruct (quit_ (world s)) eqn:Hq; [by exists []|]).
  { destruct answers; [by intros ?%Exists_nil|cbn in Hf; lia]. }
  pose proof (turn_spec D seen answers s HD Hsub Hs) as Ht.
  destruct (turn answers s) as [[[thrown rest] s1]| |]; cbn [mbind outcome_bind]; [|done..].
  destruct Ht as (used & -> & Hne & Hs1 & Hl & Hnf). destruct thrown; [by exists used|].
  rewrite arrivals_app in Hsub. specialize (IH (arrivals used ++ seen) rest s1).
  assert (Hrest : map fst (arrivals rest) ⊆ D) by (rewrite map_app in Hsub; set_solver).
  assert (Hlen : (length rest <= f)%nat).
  { rewrite length_app in Hf. destruct used; [done|cbn in Hf; lia]. }
  specialize (IH Hrest Hs1 Hlen). destruct (turns f rest s1) as [[[ex rest2] s2]| |]; [|done|].
  - destruct IH as (used2 & -> & Hs2 & Hl2 & Hret). exists (used ++ used2).
    split; [by rewrite app_assoc|]. split; [|by rewrite Hl2].
    eapply sound_less; [|exact Hs2]. rewrite arrivals_app. set_solver.
  - intros [Hu|Hr]%Exists_app; [|done]. specialize (Hnf eq_refl). rewrite Forall_forall in Hnf.
    apply Exists_exists in Hu as (a & Hin & Ha). by apply (Hnf a).
Qed.

Lemma init_sound D w : sound D [] (init w).
Proof. split; cbn; [set_solver|constructor|unfold kInitialEventListSize; lia|]. by intros fd mask ?%elem_of_nil. Qed.


End turns.

(** A constructor that throws closes what it opened; one that returns closes
    nothing and keeps both descriptors. *)
Lemma construct_descriptors epoll_create1 eventfd epoll_ctl :
  match construct epoll_create1 eventfd epoll_ctl with
  | (None, closed) => Permutation closed (opened epoll_create1 eventfd)
  | (Some l, closed) => closed = [] /\ Permutation (destroy l) (opened epoll_create1 eventfd)
  end.
Proof.
  unfold construct, createEpollFd, createWakeupFd, opened, destroy.
  repeat case_if; cbn; repeat split; try done; apply perm_swap.
Qed.

(** * Witness *)

(** Handlers that note their descriptor; descriptor 0 is the wakeup's, and the
    twentieth event quits. *)
#[local] Instance noting : Handlers (list Z) := {|
  is_wakeup := Z.eqb 0;
  has_channel := fun _ _ => true;
  handleWakeupRead := fun w => w;
  handleEvent := fun e w => (w ++ [e.1], false);
  doPendingFunctors := fun w => (w, false);
  quit_ := fun w => 20 <=? lenZ w;
  clear_quit := fun w => w;
|}.

Definition twenty : list Z := map Z.of_nat (seq 1 20).
Definition burst : list wait_answer := [Failed EINTR; Arrived (map (fun fd => (fd, 1)) twenty); Arrived []].


End EventLoopIo.
