(* ===== verification/TcpConnection.v ===== *)
(** A TCP connection: src/net/tcp_connection.cpp.  Operations run on the loop's
    thread; what other threads queue for it is part of the state.  The kernel's
    answers and a log of what the connection did are fields, and the user's
    callbacks are parameters that may call the connection again. *)
From Stdlib Require Import ZArith Lia.
From Stdlib Require Import Strings.Byte.
From stdpp Require Import base list strings.
From S2P Require Import Prelude NetBuffer EventLoop.

Module TcpConnection.

Definition EAGAIN : Z := 11.
Definition ECONNRESET : Z := 104.
Definition ENOTCONN : Z := 107.

Inductive State := kDisconnected | kConnecting | kConnected | kDisconnecting.
#[global] Instance State_eq_dec : EqDecision State.
Proof. solve_decision. Defined.

(** [write]'s answer: octets taken (at least one of a request that has any, at
    most all), or an [errno]. *)
Inductive write_result := WriteCount (n : nat) | WriteError (errno : Z).

Definition taken (n : nat) (length : nat) : nat := Nat.min (Nat.max n 1) length.

(** The functors [runInLoop] queues from another thread. *)
Inductive functor := SendInLoop (msg : bytes) | ShutdownInLoop | ForceCloseInLoop.

Inductive action :=
  | ConnectionCb (s : State)     (** [connection_callback_] *)
  | MessageCb
  | WriteCompleteCb
  | HighWaterMarkCb (size : Z)
  | CloseCb
  | ShutdownWrite.               (** [shutdown(fd, SHUT_WR)] succeeded *)
#[global] Instance action_eq_dec : EqDecision action.
Proof. solve_decision. Defined.

Record t := mk {
  state_ : State;
  channel_ : Channel.t;
  input_buffer_ : Buffer.t;
  output_buffer_ : Buffer.t;
  high_water_mark_ : Z;
  pending : list functor;         (* queued for the loop *)
  kernel_write : nat -> write_result;   (* the answer to each write in turn *)
  kernel_shutdown : option Z;     (* [errno] of [shutdown], or none *)
  writes : nat;                   (* writes made *)
  wire : bytes;                   (* octets the kernel took *)
  accepted : bytes;               (* octets given to [sendInLoop] while connected *)
  log : list action;
}.

(** The descriptors the destructor closes. *)
Definition destroy (c : t) : list Z :=
  if 0 <=? Channel.fd_ (channel_ c) then [Channel.fd_ (channel_ c)] else [].

Definition set_state v c := mk v (channel_ c) (input_buffer_ c) (output_buffer_ c) (high_water_mark_ c) (pending c) (kernel_write c) (kernel_shutdown c) (writes c) (wire c) (accepted c) (log c).
Definition set_channel v c := mk (state_ c) v (input_buffer_ c) (output_buffer_ c) (high_water_mark_ c) (pending c) (kernel_write c) (kernel_shutdown c) (writes c) (wire c) (accepted c) (log c).
Definition set_input v c := mk (state_ c) (channel_ c) v (output_buffer_ c) (high_water_mark_ c) (pending c) (kernel_write c) (kernel_shutdown c) (writes c) (wire c) (accepted c) (log c).
Definition set_output v c := mk (state_ c) (channel_ c) (input_buffer_ c) v (high_water_mark_ c) (pending c) (kernel_write c) (kernel_shutdown c) (writes c) (wire c) (accepted c) (log c).
Definition set_pending v c := mk (state_ c) (channel_ c) (input_buffer_ c) (output_buffer_ c) (high_water_mark_ c) v (kernel_write c) (kernel_shutdown c) (writes c) (wire c) (accepted c) (log c).
Definition set_wire n v c := mk (state_ c) (channel_ c) (input_buffer_ c) (output_buffer_ c) (high_water_mark_ c) (pending c) (kernel_write c) (kernel_shutdown c) n v (accepted c) (log c).
Definition set_accepted v c := mk (state_ c) (channel_ c) (input_buffer_ c) (output_buffer_ c) (high_water_mark_ c) (pending c) (kernel_write c) (kernel_shutdown c) (writes c) (wire c) v (log c).
Definition logged a c := mk (state_ c) (channel_ c) (input_buffer_ c) (output_buffer_ c) (high_water_mark_ c) (pending c) (kernel_write c) (kernel_shutdown c) (writes c) (wire c) (accepted c) (log c ++ [a]).

(** The constructor; the buffers have their default size. *)
Definition construct (fd : Z) (buffer : Buffer.t) (mark : Z) (kernel_write : nat -> write_result)
    (kernel_shutdown : option Z) : t :=
  mk kConnecting (Channel.construct fd) buffer buffer mark [] kernel_write kernel_shutdown 0 [] [] [].

(** A channel's interest; that the registration behind it succeeds is
    shown with the event loop. *)
Definition change (i : Channel.interest) (c : t) : t :=
  set_channel (Channel.set_events (Channel.new_events i (Channel.events_ (channel_ c))) (channel_ c)) c.

Definition isWriting (c : t) : bool := Channel.isWriting (channel_ c).
Definition is_state (s : State) (c : t) : bool := bool_decide (state_ c = s).

(** A member function: it returns or leaves with an exception. *)
Abbreviation result := (outcome (option Buffer.exn * t)).

Definition return_ (c : t) : result := Ret (None, c).

Definition then_ (r : result) (k : t -> result) : result :=
  let* '(thrown, c) := r in
  match thrown with
  | Some e => Ret (Some e, c)
  | None => k c
  end.

(** [write(fd, data, length)]: the octets taken, or the [errno]. *)
Definition write (data : bytes) (c : t) : (nat + Z) * t :=
  match kernel_write c (writes c) with
  | WriteCount n =>
      let n := taken n (length data) in
      (inl n, set_wire (S (writes c)) (wire c ++ take n data) c)
  | WriteError errno => (inr errno, set_wire (S (writes c)) (wire c) c)
  end.

Section connection.
Context (connection_callback message_callback write_complete_callback close_callback : option (t -> result)).
Context (high_water_mark_callback : option (Z -> t -> result)).

(** [if (callback) callback(...)], with the call in the log. *)
Definition fire (callback : option (t -> result)) (a : action) (c : t) : result :=
  match callback with
  | Some f => f (logged a c)
  | None => return_ c
  end.

(** * Closing *)

Definition handleClose (c : t) : result :=
  if is_state kDisconnected c then return_ c
  else
    let c := change Channel.DisableAll (set_state kDisconnected c) in
    fire close_callback CloseCb c.

Definition handleError (c : t) : result := handleClose c.

Definition connectEstablished (c : t) : result :=
  let c := change Channel.EnableReading (set_state kConnected c) in
  fire connection_callback (ConnectionCb (state_ c)) c.

(** The assertion of [connectEstablished]. *)
Definition connectEstablished_asserts (c : t) : bool := is_state kConnecting c.

Definition connectDestroyed (c : t) : result :=
  let c :=
    if negb (is_state kDisconnected c) then change Channel.DisableAll (set_state kDisconnected c) else c in
  then_ (fire connection_callback (ConnectionCb (state_ c)) c) (fun c =>
  return_ (set_channel (Channel.set_index Channel.kDeleted (channel_ c)) c)).

(** * shutdownInLoop and forceCloseInLoop *)

Definition shutdownInLoop (c : t) : result :=
  if negb (is_state kDisconnecting c) || (0 <? Buffer.readableBytes (output_buffer_ c)) then return_ c
  else
    match kernel_shutdown c with
    | None => return_ (logged ShutdownWrite c)
    | Some errno =>
        if negb (errno =? ENOTCONN) && negb (errno =? ECONNRESET) then handleError c else return_ c
    end.

Definition forceCloseInLoop (c : t) : result :=
  if negb (is_state kConnected c) && negb (is_state kDisconnecting c) then return_ c
  else handleClose c.

(** * sendInLoop *)

Definition sendInLoop (data : bytes) (c : t) : result :=
  if negb (is_state kConnected c) then return_ c
  else
    let c := set_accepted (accepted c ++ data) c in
    let remaining_before := Buffer.readableBytes (output_buffer_ c) in
    let '(written, c) :=
      if (remaining_before =? 0) && negb (isWriting c) then
        match write data c with
        | (inl n, c) => (Some n, c)
        | (inr errno, c) => (if errno =? EAGAIN then Some 0%nat else None, c)
        end
      else (Some 0%nat, c) in
    match written with
    | None => handleError c
    | Some n_written =>
        let remaining := lenZ data - Z.of_nat n_written in
        then_
          (if 0 <? remaining then
             let new_buffer_size := remaining_before + remaining in
             then_
               (if (0 <? high_water_mark_ c) && (remaining_before <? high_water_mark_ c) &&
                   (high_water_mark_ c <=? new_buffer_size) then
                  fire (option_map (fun f => f new_buffer_size) high_water_mark_callback)
                       (HighWaterMarkCb new_buffer_size) c
                else return_ c)
               (fun c =>
                let* '(thrown, b) := Buffer.append (output_buffer_ c) (Buffer.Octets (drop n_written data)) in
                match thrown with
                | Some e => Ret (Some e, set_output b c)
                | None =>
                    let c := set_output b c in
                    return_ (if negb (isWriting c) then change Channel.EnableWriting c else c)
                end)
           else return_ c)
          (fun c =>
           if (0 <? n_written)%nat && (remaining =? 0) && (remaining_before =? 0) then
             fire write_complete_callback WriteCompleteCb c
           else return_ c)
    end.

(** * Ready events *)

(** What ends the reads of one readable event, after its chunks of data. *)
Inductive read_end := EndOfFile | ReadFails (errno : Z).

Fixpoint handleRead (chunks : list bytes) (last : read_end) (c : t) : result :=
  match chunks with
  | chunk :: chunks =>
      let* '(n, _, thrown, b) := Buffer.readFd (input_buffer_ c) (Buffer.ReadvOctets chunk) in
      let c := set_input b c in
      match thrown with
      | Some e => Ret (Some e, c)
      | None =>
          if 0 <? n then then_ (fire message_callback MessageCb c) (handleRead chunks last)
          else handleClose c
      end
  | [] =>
      match last with
      | EndOfFile => handleClose c
      | ReadFails errno => if errno =? EAGAIN then return_ c else handleError c
      end
  end.

(** The loop that drains the output buffer: [true] when it goes on with the
    code after the loop. *)
Fixpoint drain (fuel : nat) (c : t) : outcome (bool * t) :=
  if 0 <? Buffer.readableBytes (output_buffer_ c) then
    match fuel with
    | O => OutOfFuel
    | S f =>
        match write (Buffer.readable (output_buffer_ c)) c with
        | (inl n, c) => drain f (set_output (Buffer.retrieve (output_buffer_ c) (Z.of_nat n)) c)
        | (inr errno, c) => if errno =? EAGAIN then Ret (true, c) else Ret (false, c)
        end
    end
  else Ret (true, c).

(** A write takes an octet at least. *)
Definition handleWrite (c : t) : result :=
  if is_state kDisconnected c then return_ c
  else
    let* '(drained, c) := drain (length (Buffer.readable (output_buffer_ c))) c in
    if negb drained then handleError c
    else if Buffer.readableBytes (output_buffer_ c) =? 0 then
      let c := change Channel.DisableWriting c in
      then_ (fire write_complete_callback WriteCompleteCb c) (fun c =>
      if is_state kDisconnecting c then shutdownInLoop c else return_ c)
    else return_ c.

(** * The public, thread-safe functions *)

(** [runInLoop]: now on the loop's thread, else queued. *)
Definition runInLoop (in_loop : bool) (f : functor) (now : t -> result) (c : t) : result :=
  if in_loop then now c else return_ (set_pending (pending c ++ [f]) c).

Definition send (in_loop : bool) (data : bytes) (c : t) : result :=
  if negb (is_state kConnected c) then return_ c
  else runInLoop in_loop (SendInLoop data) (sendInLoop data) c.

(** [send] of a buffer that [get] and [put] find in the state (the
    connection's own input buffer, in an echo server). *)
Definition send_buffer (get : t -> Buffer.t) (put : Buffer.t -> t -> t) (in_loop : bool) (c : t) : result :=
  if negb (is_state kConnected c) then return_ c
  else
    let length := Buffer.readableBytes (get c) in
    if length =? 0 then return_ c
    else
      let retrieve c := return_ (put (Buffer.retrieve (get c) length) c) in
      if in_loop then then_ (sendInLoop (Buffer.readable (get c)) c) retrieve
      else
        let message := Buffer.readable (get c) in
        then_ (retrieve c) (fun c => return_ (set_pending (pending c ++ [SendInLoop message]) c)).

Definition shutdown (in_loop : bool) (c : t) : result :=
  if negb (is_state kConnected c) then return_ c
  else runInLoop in_loop ShutdownInLoop shutdownInLoop (set_state kDisconnecting c).

Definition forceClose (in_loop : bool) (c : t) : result :=
  runInLoop in_loop ForceCloseInLoop forceCloseInLoop c.

(** The loop calls the first queued functor. *)
Definition run_functor (c : t) : result :=
  match pending c with
  | [] => return_ c
  | f :: rest =>
      let c := set_pending rest c in
      match f with
      | SendInLoop msg => sendInLoop msg c
      | ShutdownInLoop => shutdownInLoop c
      | ForceCloseInLoop => forceCloseInLoop c
      end
  end.

(** * Histories *)

Inductive op :=
  | Send (in_loop : bool) (data : bytes)
  | SendInput (in_loop : bool)
  | Shutdown (in_loop : bool)
  | ForceClose (in_loop : bool)
  | RunFunctor
  | HandleRead (chunks : list bytes) (last : read_end)
  | HandleWrite
  | HandleClose
  | HandleError
  | ConnectDestroyed.

Definition run_op (o : op) : t -> result :=
  match o with
  | Send in_loop data => send in_loop data
  | SendInput in_loop => send_buffer input_buffer_ set_input in_loop
  | Shutdown in_loop => shutdown in_loop
  | ForceClose in_loop => forceClose in_loop
  | RunFunctor => run_functor
  | HandleRead chunks last => handleRead chunks last
  | HandleWrite => handleWrite
  | HandleClose => handleClose
  | HandleError => handleError
  | ConnectDestroyed => connectDestroyed
  end.

Fixpoint run_ops (ops : list op) (c : t) : result :=
  match ops with
  | [] => return_ c
  | o :: ops => then_ (run_op o c) (run_ops ops)
  end.

End connection.
End TcpConnection.
