(* ===== verification/TcpConnectionFacts.v ===== *)
(** Theorems about a TCP connection: the octets sent arrive in order, a half
    close truncates nothing, the close is notified once; and two ways in which
    octets are lost or reordered. *)
From Stdlib Require Import ZArith Lia.
From Stdlib Require Import Strings.Byte.
From stdpp Require Import base list strings.
From S2P Require Import Prelude NetBuffer EventLoop TcpConnection.
Import TcpConnection.

(** * Interest masks *)

Lemma has_out m : Channel.has m Channel.EPOLLOUT = Z.testbit m 2.
Proof.
  unfold Channel.has, Channel.EPOLLOUT. change 4 with (2 ^ 2). destruct (Z.testbit m 2) eqn:E.
  - apply negb_true_iff, Z.eqb_neq. intros H0.
    assert (Hb : Z.testbit (Z.land m (2 ^ 2)) 2 = true) by (by rewrite Z.land_spec, E).
    by rewrite H0 in Hb.
  - apply negb_false_iff, Z.eqb_eq. apply Z.bits_inj'. intros n Hn. rewrite Z.land_spec, Z.bits_0.
    destruct (Z.eq_dec n 2) as [->|Hne]; [by rewrite E|]. rewrite Z.pow2_bits_false by done. apply andb_false_r.
Qed.

Lemma writing_change i c :
  isWriting (change i c) =
  match i with
  | Channel.EnableWriting => true
  | Channel.DisableWriting | Channel.DisableAll => false
  | _ => isWriting c
  end.
Proof.
  unfold isWriting, Channel.isWriting. rewrite !has_out. unfold change. cbn [channel_ set_channel Channel.events_ Channel.set_events].
  destruct i; cbn [Channel.new_events]; rewrite ?Z.lor_spec, ?Z.land_spec; try done.
  - by rewrite orb_false_r.
  - rewrite Z.lnot_spec by lia. by rewrite andb_true_r.
  - by rewrite orb_true_r.
  - rewrite Z.lnot_spec by lia. by rewrite andb_false_r.
Qed.

(** * The invariant *)

Definition out (c : t) : bytes := Buffer.readable (output_buffer_ c).

Definition close_calls (c : t) : nat := length (List.filter (fun a => bool_decide (a = CloseCb)) (log c)).

Record wf (c : t) : Prop := mkWf {
  wf_input : Buffer.buffer_wf (input_buffer_ c);
  wf_output : Buffer.buffer_wf (output_buffer_ c);
  wf_stream : if is_state kDisconnected c then (wire c ++ out c) `prefix_of` accepted c
              else wire c ++ out c = accepted c;
  wf_writing : if is_state kDisconnected c then Channel.events_ (channel_ c) = 0
               else isWriting c = negb (bool_decide (out c = []));
  wf_shutdown : ShutdownWrite ∈ log c ->
    wire c = accepted c /\ (state_ c = kDisconnecting \/ state_ c = kDisconnected);
  wf_close : (close_calls c <= if is_state kDisconnected c then 1 else 0)%nat;
}.

(** A call that returns, and keeps the invariant unless it throws. *)
Definition good (r : result) : Prop :=
  exists thrown c, r = Ret (thrown, c) /\ (thrown = None -> wf c).

Definition keeps (f : t -> result) : Prop := forall c, wf c -> good (f c).

Lemma good_return c : wf c -> good (return_ c).
Proof. intros H. by exists None, c. Qed.

Lemma good_thrown e c : good (Ret (Some e, c)).
Proof. by exists (Some e), c. Qed.

Lemma good_then r k : good r -> keeps k -> good (then_ r k).
Proof.
  intros (thrown & c & -> & Hc) Hk. destruct thrown as [e|]; cbn; [by exists (Some e), c|]. by apply Hk, Hc.
Qed.

Lemma close_calls_logged a c :
  close_calls (logged a c) = (close_calls c + (if bool_decide (a = CloseCb) then 1 else 0))%nat.
Proof. unfold close_calls. cbn. rewrite List.filter_app, length_app. cbn. by case_bool_decide. Qed.

Lemma wf_logged a c : a <> ShutdownWrite -> a <> CloseCb -> wf c -> wf (logged a c).
Proof.
  intros Ha Hb [Hi Ho Hs Hw Hsh Hc]. constructor; try done.
  - cbn. rewrite elem_of_app, list_elem_of_singleton. intros [Hin|Hin]; [by apply Hsh|congruence].
  - rewrite close_calls_logged, bool_decide_false by done. by rewrite Nat.add_0_r.
Qed.

Lemma good_fire callback a c :
  (forall f, callback = Some f -> keeps f) -> a <> ShutdownWrite -> a <> CloseCb -> wf c ->
  good (fire callback a c).
Proof.
  intros Hcb Ha Hb Hc. unfold fire. destruct callback as [f|]; [|by apply good_return].
  by apply (Hcb f eq_refl), wf_logged.
Qed.

(** The parts of the state the invariant does not look at. *)
Lemma wf_set_pending l c : wf c -> wf (set_pending l c).
Proof. by intros [????]. Qed.

Lemma wf_set_input b c : Buffer.buffer_wf b -> wf c -> wf (set_input b c).
Proof. intros Hb [????]. by constructor. Qed.

Lemma is_state_true s c : is_state s c = true <-> state_ c = s.
Proof. apply bool_decide_eq_true. Qed.

Lemma wf_disconnected c :
  wf c -> state_ c <> kDisconnected -> wf (change Channel.DisableAll (set_state kDisconnected c)).
Proof.
  intros [Hi Ho Hs Hw Hsh Hc] Hst. unfold is_state in *. rewrite bool_decide_false in * by done.
  constructor; try done; unfold is_state; cbn; rewrite ?bool_decide_true by done; try done.
  - by rewrite <- Hs.
  - intros Hin. split; [by apply Hsh|by right].
  - unfold close_calls in *. cbn. lia.
Qed.

Lemma wf_close_logged c :
  wf c -> state_ c <> kDisconnected ->
  wf (logged CloseCb (change Channel.DisableAll (set_state kDisconnected c))).
Proof.
  intros Hwf Hst. pose proof (wf_disconnected c Hwf Hst) as [Hi Ho Hs Hw Hsh Hc].
  pose proof (wf_close c Hwf) as H0. unfold is_state in H0. rewrite bool_decide_false in H0 by done.
  constructor; try done.
  - cbn. rewrite elem_of_app, list_elem_of_singleton. intros [Hin|Hin]; [by apply Hsh|done].
  - rewrite close_calls_logged. change (close_calls (change _ _)) with (close_calls c).
    unfold is_state. cbn. rewrite !bool_decide_true by done. lia.
Qed.

(** * Every operation keeps the invariant *)

Section callbacks.
Context (connection_callback message_callback write_complete_callback close_callback : option (t -> result)).
Context (high_water_mark_callback : option (Z -> t -> result)).

(** The callbacks may call the connection again, as every operation keeps the
    invariant, but the high-water callback must leave the connection alone. *)
Definition callbacks_keep : Prop :=
  (forall f, connection_callback = Some f -> keeps f) /\ (forall f, message_callback = Some f -> keeps f) /\
  (forall f, write_complete_callback = Some f -> keeps f) /\ (forall f, close_callback = Some f -> keeps f) /\
  (forall f n c, high_water_mark_callback = Some f -> f n c = return_ c).

Context (Hcb : callbacks_keep).

Lemma handleClose_keeps : keeps (handleClose close_callback).
Proof.
  intros c Hc. unfold handleClose. destruct (is_state kDisconnected c) eqn:E; [by apply good_return|].
  apply bool_decide_eq_false in E. unfold fire. destruct close_callback as [f|] eqn:Ef.
  - destruct Hcb as (_ & _ & _ & Hk & _). by apply (Hk f), wf_close_logged.
  - by apply good_return, wf_disconnected.
Qed.

Lemma connectDestroyed_keeps : keeps (connectDestroyed connection_callback).
Proof.
  intros c Hc. unfold connectDestroyed.
  set (c1 := if negb (is_state kDisconnected c) then _ else c).
  assert (H1 : wf c1).
  { unfold c1. destruct (is_state kDisconnected c) eqn:E; [done|]. apply bool_decide_eq_false in E.
    by apply wf_disconnected. }
  apply good_then; [apply good_fire; [apply Hcb|done|done|done]|].
  intros c2 H2. apply good_return. by destruct H2.
Qed.

Lemma shutdownInLoop_keeps : keeps (shutdownInLoop close_callback).
Proof.
  intros c Hc. unfold shutdownInLoop. destruct (_ || _) eqn:E; [by apply good_return|].
  apply orb_false_iff in E as [E1 E2]. apply negb_false_iff, is_state_true in E1. apply Z.ltb_ge in E2.
  destruct (kernel_shutdown c) as [errno|].
  - destruct (_ && _); [by apply handleClose_keeps|by apply good_return].
  - apply good_return. pose proof Hc as [Hi Ho Hs Hw Hsh Hcl].
    destruct (Buffer.wf_sizes _ Ho) as (_ & _ & Hlen). pose proof (lenZ_nonneg (Buffer.readable (output_buffer_ c))).
    assert (Hnil : out c = []) by (unfold out; apply length_zero_iff_nil; unfold lenZ in *; lia).
    constructor; try done.
    + intros _. cbn. unfold is_state in Hs. rewrite E1, bool_decide_false in Hs by done.
      rewrite Hnil, app_nil_r in Hs. by split; [|left].
    + rewrite close_calls_logged, bool_decide_false by done. by rewrite Nat.add_0_r.
Qed.

Lemma forceCloseInLoop_keeps : keeps (forceCloseInLoop close_callback).
Proof.
  intros c Hc. unfold forceCloseInLoop. destruct (_ && _); [by apply good_return|by apply handleClose_keeps].
Qed.

(** ** Reading *)

Lemma readFd_good b l :
  Buffer.buffer_wf b -> lenZ l <= Buffer.extra_size ->
  exists thrown b', Buffer.readFd b (Buffer.ReadvOctets l) = Ret (lenZ l, 0, thrown, b') /\
    (thrown = None -> Buffer.buffer_wf b' /\ Buffer.readable b' = Buffer.readable b ++ l).
Proof.
  intros Hwf Hl. pose proof (lenZ_nonneg l) as Hl0. pose proof Hwf as Hb.
  destruct (Buffer.wf_sizes b Hwf) as (Hr & Hw & _). unfold Buffer.buffer_wf, Buffer.vector_max_size, Buffer.kCheapPrepend in Hb.
  unfold Buffer.readFd, Buffer.readv_capacity. set (w := Buffer.writableBytes b) in *.
  assert (Hcap : ((if w <? Buffer.extra_size then w + Buffer.extra_size else w) <? lenZ l) = false).
  { apply Z.ltb_ge. case_if; lia. }
  rewrite Hcap. set (first := take (Z.to_nat w) l).
  assert (Hfirst : lenZ first = Z.min w (lenZ l)) by (unfold first, lenZ in *; rewrite length_take; lia).
  destruct (Buffer.write_at_end b first Hwf ltac:(lia)) as (mem & -> & Hm & Hu & Hwf' & Hrd').
  cbn [mbind outcome_bind]. rewrite Hfirst in *. destruct (lenZ l <=? w) eqn:E; breflect.
  - rewrite Z.min_r in * by done. rewrite Hu. eexists _, _. split; [done|]. intros _. split; [done|].
    rewrite Hrd'. f_equal. unfold first. apply take_ge. unfold lenZ in *. lia.
  - rewrite Z.min_l in * by lia.
    assert (Hend : lenZ mem = Buffer.writer_index_ b + w) by lia. rewrite Hend.
    pose proof (Buffer.append_spec _ (drop (Z.to_nat w) l) Hwf') as Ha. unfold Buffer.append_post in Ha.
    specialize (Ha ltac:(unfold lenZ in *; rewrite length_drop; unfold Buffer.extra_size in Hl; lia)).
    destruct (Buffer.append _ _) as [[[e|] b2]| |]; try done; cbn [mbind outcome_bind].
    + by eexists _, _.
    + eexists _, _. split; [done|]. intros _. destruct Ha as (H1 & H2 & _). split; [done|].
      rewrite H2, Hrd'. unfold first. by rewrite <- app_assoc, take_drop.
Qed.

Definition chunk_ok (l : bytes) : Prop := l <> [] /\ lenZ l <= Buffer.extra_size.

Lemma handleRead_keeps chunks last :
  Forall chunk_ok chunks -> keeps (handleRead message_callback close_callback chunks last).
Proof.
  induction 1 as [|l chunks [Hne Hl] _ IH]; intros c Hc; cbn [handleRead].
  - destruct last as [|errno]; [by apply handleClose_keeps|].
    destruct (errno =? EAGAIN); [by apply good_return|by apply handleClose_keeps].
  - destruct (readFd_good (input_buffer_ c) l (wf_input c Hc) Hl) as (thrown & b & -> & Hb).
    cbn [mbind outcome_bind]. destruct thrown as [e|]; [apply good_thrown|].
    destruct (0 <? lenZ l).
    + apply good_then; [|exact IH]. apply good_fire; [apply Hcb|done|done|]. apply wf_set_input; [by apply Hb|done].
    + apply handleClose_keeps, wf_set_input; [by apply Hb|done].
Qed.

(** ** Writing *)

(** Closing is sound also in the middle of an operation. *)
Lemma handleClose_from c :
  Buffer.buffer_wf (input_buffer_ c) -> Buffer.buffer_wf (output_buffer_ c) ->
  (wire c ++ out c) `prefix_of` accepted c -> (ShutdownWrite ∈ log c -> wire c = accepted c) ->
  close_calls c = 0%nat -> state_ c <> kDisconnected -> good (handleClose close_callback c).
Proof.
  intros Hi Ho Hp Hsh Hcl Hst. unfold handleClose, is_state. rewrite bool_decide_false by done.
  set (c1 := change Channel.DisableAll (set_state kDisconnected c)).
  assert (H1 : wf c1).
  { constructor; try done. - cbn. intros Hin. split; [by apply Hsh|by right].
    - change (close_calls c1) with (close_calls c). rewrite Hcl. lia. }
  unfold fire. destruct close_callback as [f|] eqn:Ef; [|by apply good_return].
  destruct Hcb as (_ & _ & _ & Hk & _). apply (Hk f Ef). destruct H1 as [Hi1 Ho1 Hs1 Hw1 Hsh1 Hc1].
  constructor; try done.
  - cbn. rewrite elem_of_app, list_elem_of_singleton. intros [Hin|Hin]; [by apply Hsh1|done].
  - rewrite close_calls_logged. change (close_calls c1) with (close_calls c). rewrite Hcl.
    rewrite bool_decide_true by done. unfold is_state. cbn. rewrite bool_decide_true by done. lia.
Qed.

Lemma write_spec data c :
  exists r, write data c = (r, set_wire (S (writes c)) (wire c ++ match r with inl n => take n data | inr _ => [] end) c) /\
    match r with inl n => (n <= length data)%nat /\ (data <> [] -> (0 < n)%nat) | inr _ => True end.
Proof.
  unfold write, taken. destruct (kernel_write c (writes c)) as [n|errno].
  - exists (inl (Nat.min (Nat.max n 1) (length data))). split; [done|]. split; [lia|].
    intros Hd. destruct data; [done|]. cbn. lia.
  - exists (inr errno). by rewrite app_nil_r.
Qed.

(** What the loop of [handleWrite] changes: octets move from the buffer to the
    wire. *)
Definition moved (c c' : t) : Prop :=
  exists b x k, c' = set_output b (set_wire k (wire c ++ x) c) /\ Buffer.buffer_wf b /\
    x ++ Buffer.readable b = out c.

Lemma readable_pos b : Buffer.buffer_wf b -> (0 <? Buffer.readableBytes b) = negb (bool_decide (Buffer.readable b = [])).
Proof.
  intros Hb. destruct (Buffer.wf_sizes b Hb) as (_ & _ & <-). destruct (Buffer.readable b); [done|].
  rewrite bool_decide_false by done. apply Z.ltb_lt. rewrite lenZ_cons. pose proof (lenZ_nonneg l). lia.
Qed.

Lemma readable_zero b : Buffer.buffer_wf b -> (Buffer.readableBytes b =? 0) = bool_decide (Buffer.readable b = []).
Proof.
  intros Hb. destruct (Buffer.wf_sizes b Hb) as (_ & _ & <-). destruct (Buffer.readable b); [done|].
  rewrite bool_decide_false by done. apply Z.eqb_neq. rewrite lenZ_cons. pose proof (lenZ_nonneg l). lia.
Qed.

Lemma moved_refl c k : Buffer.buffer_wf (output_buffer_ c) -> moved c (set_wire k (wire c ++ []) c).
Proof. intros Hb. exists (output_buffer_ c), [], k. by destruct c. Qed.

Lemma moved_none c : Buffer.buffer_wf (output_buffer_ c) -> moved c c.
Proof.
  intros Hb. pose proof (moved_refl c (writes c) Hb) as H. rewrite app_nil_r in H. by destruct c.
Qed.

(** The loop returns, and goes on either drained or with more to write. *)
Lemma drain_spec fuel c :
  Buffer.buffer_wf (output_buffer_ c) -> (length (out c) <= fuel)%nat ->
  exists b c', drain fuel c = Ret (b, c') /\ moved c c'.
Proof.
  revert c. induction fuel as [|fuel IH]; intros c Hb Hf; cbn [drain]; rewrite readable_pos by done.
  - unfold out in Hf. destruct (Buffer.readable (output_buffer_ c)) eqn:E; [|cbn in Hf; lia]. cbn.
    eexists _, c. split; [done|by apply moved_none].
  - case_bool_decide as Hn; cbn [negb].
    { eexists _, c. split; [done|by apply moved_none]. }
    destruct (write_spec (Buffer.readable (output_buffer_ c)) c) as (r & -> & Hr). destruct r as [n|errno].
    + destruct Hr as [Hle Hpos]. specialize (Hpos Hn).
      destruct (Buffer.retrieve_spec (output_buffer_ c) (Z.of_nat n) Hb ltac:(lia)) as (Hb' & Hrd & _).
      rewrite Nat2Z.id in Hrd.
      match goal with |- context [drain fuel ?x] => set (c1 := x) end.
      destruct (IH c1) as (b & c' & -> & b1 & x & k1 & -> & Hb1 & Hx); [done| |].
      { unfold out, c1. cbn. rewrite Hrd, length_drop. unfold out in Hf. lia. }
      eexists _, _. split; [done|]. exists b1, (take n (Buffer.readable (output_buffer_ c)) ++ x), k1.
      split; [by rewrite app_assoc|]. split; [done|].
      rewrite <- app_assoc, Hx. unfold c1, out. cbn. by rewrite Hrd, take_drop.
    + destruct (errno =? EAGAIN); (eexists _, _; split; [done|by apply moved_refl]).
Qed.

Lemma wf_close_zero c : wf c -> state_ c <> kDisconnected -> close_calls c = 0%nat.
Proof.
  intros Hc Hst. pose proof (wf_close c Hc) as H. unfold is_state in H. rewrite bool_decide_false in H by done. lia.
Qed.

Lemma wf_stream_eq c : wf c -> state_ c <> kDisconnected -> wire c ++ out c = accepted c.
Proof.
  intros Hc Hst. pose proof (wf_stream c Hc) as H. unfold is_state in H. by rewrite bool_decide_false in H.
Qed.

Lemma wf_writing_eq c : wf c -> state_ c <> kDisconnected -> isWriting c = negb (bool_decide (out c = [])).
Proof.
  intros Hc Hst. pose proof (wf_writing c Hc) as H. unfold is_state in H. by rewrite bool_decide_false in H.
Qed.

(** The connection after the loop, with the interest that fits. *)
Lemma moved_wf c c' ch :
  wf c -> state_ c <> kDisconnected -> moved c c' -> Channel.isWriting ch = negb (bool_decide (out c' = [])) ->
  wf (set_channel ch c').
Proof.
  intros Hc Hst (b & x & k & -> & Hb & Hx) Hch. pose proof (wf_stream_eq c Hc Hst) as Hs.
  pose proof (wf_close_zero c Hc Hst) as Hcl. destruct Hc as [Hi Ho _ _ Hsh _].
  constructor; unfold is_state in *; cbn in *; rewrite ?bool_decide_false by done; try done.
  - unfold out. cbn. by rewrite <- app_assoc, Hx.
  - intros Hin. destruct (Hsh Hin) as [Hwa Hor]. split; [|done]. rewrite Hwa in Hs.
    assert (out c = []) as Hnil by (apply (app_inv_head (accepted c)); by rewrite app_nil_r).
    rewrite Hnil in Hx. apply app_eq_nil in Hx as [-> _]. by rewrite app_nil_r.
  - unfold close_calls in *. cbn. lia.
Qed.

Lemma handleWrite_keeps : keeps (handleWrite write_complete_callback close_callback).
Proof.
  intros c Hc. unfold handleWrite. destruct (is_state kDisconnected c) eqn:E; [by apply good_return|].
  apply bool_decide_eq_false in E.
  destruct (drain_spec (length (out c)) c (wf_output c Hc) (Nat.le_refl _)) as (drained & c' & Hd & Hm).
  unfold out in Hd. rewrite Hd. cbn [mbind outcome_bind]. clear Hd.
  pose proof Hm as (b & x & k & Hc' & Hb & Hx).
  assert (Hst : state_ c' <> kDisconnected) by (by rewrite Hc').
  assert (Hob : output_buffer_ c' = b) by (by rewrite Hc').
  assert (Hwf : wf (set_channel (Channel.set_events (if bool_decide (out c' = []) then 0 else Channel.EPOLLOUT)
                                   (channel_ c')) c')).
  { apply (moved_wf c); [done..|]. by case_bool_decide. }
  destruct drained; cbn [negb].
  - rewrite readable_zero by (by rewrite Hob). fold (out c'). case_bool_decide as Hn.
    + apply good_then.
      * apply good_fire; [apply Hcb|done|done|]. unfold change. apply (moved_wf c); [done..|].
        pose proof (writing_change Channel.DisableWriting c') as Hw. rewrite bool_decide_true by done. exact Hw.
      * intros c2 H2. destruct (is_state kDisconnecting c2); [by apply shutdownInLoop_keeps|by apply good_return].
    + apply good_return.
      assert (Hself : set_channel (channel_ c') c' = c') by (by destruct c').
      rewrite <- Hself. apply (moved_wf c); [done..|]. rewrite bool_decide_false by done.
      pose proof (wf_writing_eq c Hc E) as Hwr. unfold isWriting in Hwr.
      rewrite Hc'. cbn. rewrite Hwr, bool_decide_false; [done|]. intros Hn'. rewrite Hn' in Hx.
      apply app_eq_nil in Hx as [_ Hx]. apply Hn. unfold out. by rewrite Hob.
  - pose proof (handleClose_keeps _ Hwf) as Hg. unfold handleError, handleClose, is_state in *.
    rewrite (bool_decide_false (state_ c' = kDisconnected)) by done.
    rewrite bool_decide_false in Hg by done. exact Hg.
Qed.

(** ** Sending *)

(** [append] of any octets, also of more than a size can count. *)
Lemma append_any b l :
  Buffer.buffer_wf b -> Buffer.append_post b l (Buffer.append b (Buffer.Octets l)).
Proof.
  intros Hb. destruct (Z.lt_ge_cases (lenZ l) (2 ^ 64)) as [Hl|Hl]; [by apply Buffer.append_spec|].
  assert (Hu : forall z, u64 z < 2 ^ 64) by (intros z; apply Z.mod_pos_bound; lia).
  unfold Buffer.append, Buffer.ensureWritableBytes, Buffer.makeSpace, Buffer.writableBytes.
  rewrite (proj2 (Z.eqb_neq _ _)) by lia.
  rewrite (proj2 (Z.ltb_lt (u64 (lenZ _ - _)) _)) by (eapply Z.lt_le_trans; [apply Hu|done]).
  rewrite (proj2 (Z.ltb_lt (u64 (Buffer.size_max - _)) _)) by (eapply Z.lt_le_trans; [apply Hu|done]).
  cbn [mbind outcome_bind Buffer.append_post]. split; [done|].
  unfold Buffer.buffer_wf, Buffer.kCheapPrepend, Buffer.vector_max_size in *. lia.
Qed.

(** In [sendInLoop], after the write: [n] octets of [data] are on the wire. *)
Definition sending (c : t) (data : bytes) (n k : nat) : t :=
  set_wire k (wire c ++ take n data) (set_accepted (accepted c ++ data) c).

(** Nothing was half-closed before, as the connection is up. *)
Lemma connected_not_shut c : wf c -> state_ c = kConnected -> ShutdownWrite ∉ log c.
Proof. intros Hc Hst Hin. destruct (wf_shutdown c Hc Hin) as [_ [E|E]]; by rewrite Hst in E. Qed.

(** The rest of the data is in the buffer, or there is none. *)
Lemma sending_wf c data n k b ch l :
  wf c -> state_ c = kConnected -> (0 < n -> out c = [])%nat -> l = log c \/ (exists m, l = log c ++ [HighWaterMarkCb m]) ->
  Buffer.buffer_wf b -> Buffer.readable b = out c ++ drop n data ->
  Channel.isWriting ch = negb (bool_decide (Buffer.readable b = [])) ->
  let c' := sending c data n k in
  wf (mk (state_ c') ch (input_buffer_ c') b (high_water_mark_ c') (pending c') (kernel_write c')
         (kernel_shutdown c') (writes c') (wire c') (accepted c') l).
Proof.
  intros Hc Hst Hn Hl Hb Hr Hch. cbv zeta. pose proof (connected_not_shut c Hc Hst) as Hns.
  assert (Hne : state_ c <> kDisconnected) by congruence.
  pose proof (wf_stream_eq c Hc Hne) as Hs. pose proof (wf_close_zero c Hc Hne) as Hcl. destruct Hc as [Hi Ho _ _ _ _].
  constructor; unfold is_state; cbn; rewrite ?Hst, ?bool_decide_false by done; try done.
  - unfold out. cbn. rewrite Hr, <- Hs, <- !app_assoc. f_equal.
    destruct n as [|n]; [done|]. rewrite Hn by lia. cbn [app]. by rewrite take_drop.
  - destruct Hl as [->|[m ->]]; [done|]. rewrite elem_of_app, list_elem_of_singleton. by intros [?|?].
  - assert (Hz : forall l', l' = log c \/ (exists m, l' = log c ++ [HighWaterMarkCb m]) ->
      length (List.filter (fun a => bool_decide (a = CloseCb)) l') = close_calls c).
    { intros l' [->|[m ->]]; [done|]. rewrite List.filter_app. cbn. by rewrite app_nil_r. }
    unfold close_calls in *. cbn [log] in *. rewrite (Hz l Hl), Hcl. lia.
Qed.

(** The part of [sendInLoop] that buffers the rest of the data. *)
Definition buffer_rest (data : bytes) (n : nat) (remaining_before : Z) (c : t) : result :=
  let remaining := lenZ data - Z.of_nat n in
  if 0 <? remaining then
    then_
      (if (0 <? high_water_mark_ c) && (remaining_before <? high_water_mark_ c) &&
          (high_water_mark_ c <=? remaining_before + remaining) then
         fire (option_map (fun f => f (remaining_before + remaining)) high_water_mark_callback)
              (HighWaterMarkCb (remaining_before + remaining)) c
       else return_ c)
      (fun c =>
       let* '(thrown, b) := Buffer.append (output_buffer_ c) (Buffer.Octets (drop n data)) in
       match thrown with
       | Some e => Ret (Some e, set_output b c)
       | None =>
           let c := set_output b c in
           return_ (if negb (isWriting c) then change Channel.EnableWriting c else c)
       end)
  else return_ c.

Lemma good_append c data n k l :
  wf c -> state_ c = kConnected -> (0 < n -> out c = [])%nat -> (n < length data)%nat ->
  l = log c \/ (exists m, l = log c ++ [HighWaterMarkCb m]) ->
  let c' := sending c data n k in
  let c2 := mk (state_ c') (channel_ c') (input_buffer_ c') (output_buffer_ c') (high_water_mark_ c') (pending c')
               (kernel_write c') (kernel_shutdown c') (writes c') (wire c') (accepted c') l in
  good (let* '(thrown, b) := Buffer.append (output_buffer_ c2) (Buffer.Octets (drop n data)) in
        match thrown with
        | Some e => Ret (Some e, set_output b c2)
        | None =>
            let c := set_output b c2 in
            return_ (if negb (isWriting c) then change Channel.EnableWriting c else c)
        end).
Proof.
  intros Hc Hst Hn Hlt Hl. cbv zeta. cbn [output_buffer_].
  pose proof (append_any (output_buffer_ c) (drop n data) (wf_output c Hc)) as Ha.
  unfold Buffer.append_post in Ha.
  destruct (Buffer.append _ _) as [[[e|] b]| |]; try done; cbn [mbind outcome_bind]; [apply good_thrown|].
  destruct Ha as (Hb & Hr & _). apply good_return.
  assert (Hne : Buffer.readable b <> []).
  { rewrite Hr. intros [_ Hd]%app_eq_nil. apply (f_equal length) in Hd. rewrite length_drop in Hd. cbn in Hd. lia. }
  set (c2 := set_output b _).
  assert (Hch : Channel.isWriting (channel_ (if negb (isWriting c2) then change Channel.EnableWriting c2 else c2)) = true).
  { destruct (isWriting c2) eqn:Ew; cbn [negb]; [exact Ew|exact (writing_change Channel.EnableWriting c2)]. }
  pose proof (sending_wf c data n k b (channel_ (if negb (isWriting c2) then change Channel.EnableWriting c2 else c2)) l
    Hc Hst Hn Hl Hb Hr) as Hwf.
  rewrite Hch, bool_decide_false in Hwf by done. specialize (Hwf eq_refl). cbv zeta in Hwf.
  destruct (isWriting c2); exact Hwf.
Qed.

Lemma buffer_rest_good c data n k remaining_before :
  wf c -> state_ c = kConnected -> (0 < n -> out c = [])%nat -> (n <= length data)%nat ->
  good (buffer_rest data n remaining_before (sending c data n k)).
Proof.
  intros Hc Hst Hn Hle. unfold buffer_rest. set (c' := sending c data n k).
  destruct (0 <? lenZ data - Z.of_nat n) eqn:E; breflect.
  - assert (Hlt : (n < length data)%nat) by (unfold lenZ in E; lia).
    set (cond := _ && _). set (m := remaining_before + _).
    assert (Hfire : exists l, (if cond then fire (option_map (fun f => f m) high_water_mark_callback) (HighWaterMarkCb m) c'
                               else return_ c') =
      return_ (mk (state_ c') (channel_ c') (input_buffer_ c') (output_buffer_ c') (high_water_mark_ c') (pending c')
               (kernel_write c') (kernel_shutdown c') (writes c') (wire c') (accepted c') l) /\
      (l = log c \/ exists m, l = log c ++ [HighWaterMarkCb m])).
    { destruct cond; [|exists (log c); split; [by destruct c|by left]].
      destruct Hcb as (_ & _ & _ & _ & Hq). unfold fire. destruct high_water_mark_callback as [f|] eqn:Ef; cbn [option_map].
      - rewrite (Hq f m _ eq_refl). exists (log c ++ [HighWaterMarkCb m]). split; [done|]. right. by exists m.
      - exists (log c). split; [by destruct c|by left]. }
    destruct Hfire as (l & -> & Hl). unfold return_ at 1. cbn [then_ mbind outcome_bind].
    by apply (good_append c data n k l).
  - apply good_return. assert (n = length data) as -> by (unfold lenZ in E; lia).
    pose proof (sending_wf c data (length data) k (output_buffer_ c) (channel_ c) (log c) Hc Hst Hn) as Hwf.
    rewrite drop_all, app_nil_r in Hwf. cbv zeta in Hwf.
    assert (Hw : Channel.isWriting (channel_ c) = negb (bool_decide (out c = [])))
      by (apply (wf_writing_eq c Hc); congruence).
    specialize (Hwf (or_introl eq_refl) (wf_output c Hc) eq_refl Hw). exact Hwf.
Qed.

Lemma sendInLoop_keeps data :
  keeps (sendInLoop write_complete_callback close_callback high_water_mark_callback data).
Proof.
  intros c Hc. unfold sendInLoop. destruct (is_state kConnected c) eqn:E; cbn [negb]; [|by apply good_return].
  apply is_state_true in E. assert (Hne : state_ c <> kDisconnected) by congruence.
  set (c1 := set_accepted (accepted c ++ data) c). change (output_buffer_ c1) with (output_buffer_ c).
  change (isWriting c1) with (isWriting c). rewrite (wf_writing_eq c Hc Hne), negb_involutive.
  rewrite readable_zero by apply Hc. fold (out c). rewrite andb_diag.
  set (rb := Buffer.readableBytes (output_buffer_ c)).
  assert (Hself : forall n k, n = 0%nat -> set_wire k (wire c ++ []) c1 = sending c data n k) by (by intros n k ->).
  (* the rest, once [n] octets are written *)
  assert (Hrest : forall (empty : bool) n k, (0 < n -> out c = [])%nat -> (n <= length data)%nat ->
    good (then_ (buffer_rest data n rb (sending c data n k))
      (fun c2 => if (0 <? n)%nat && (lenZ data - Z.of_nat n =? 0) && empty
                 then fire write_complete_callback WriteCompleteCb c2 else return_ c2))).
  { intros empty n k Hn Hle. apply good_then; [by apply buffer_rest_good|].
    intros c2 H2. destruct (_ && _); [|by apply good_return]. apply good_fire; [apply Hcb|done|done|done]. }
  destruct (bool_decide (out c = [])) eqn:Eout.
  - apply bool_decide_eq_true in Eout. destruct (write_spec data c1) as (r & -> & Hr). destruct r as [n|errno].
    + apply (Hrest true n (S (writes c1))); [done|lia].
    + destruct (errno =? EAGAIN).
      * rewrite (Hself 0%nat) by done. apply (Hrest true 0%nat (S (writes c1))); [done|lia].
      * pose proof (wf_stream_eq c Hc Hne) as Hs. pose proof (wf_close_zero c Hc Hne) as Hcl.
        apply handleClose_from; try apply Hc; try done.
        -- unfold out. cbn. fold (out c). rewrite app_nil_r, Hs. by apply prefix_app_r.
        -- intros Hin. by destruct (connected_not_shut c Hc E).
  - assert (Hc1 : c1 = sending c data 0 (writes c)) by (unfold sending; cbn; rewrite app_nil_r; by destruct c).
    rewrite Hc1. apply (Hrest false 0%nat (writes c)); lia.
Qed.

(** ** Histories *)

(** The kernel returns at most 65536 octets a read; none is the end. *)
Definition op_ok (o : op) : Prop :=
  match o with HandleRead chunks _ => Forall chunk_ok chunks | _ => True end.

Abbreviation run_one := (run_op connection_callback message_callback write_complete_callback close_callback
                           high_water_mark_callback).
Abbreviation run_all := (run_ops connection_callback message_callback write_complete_callback close_callback
                           high_water_mark_callback).

Lemma runInLoop_keeps in_loop f now : keeps now -> keeps (runInLoop in_loop f now).
Proof.
  intros Hn c Hc. unfold runInLoop. destruct in_loop; [by apply Hn|]. by apply good_return, wf_set_pending.
Qed.

Lemma wf_disconnecting c : wf c -> state_ c = kConnected -> wf (set_state kDisconnecting c).
Proof.
  intros Hc Hst. pose proof (connected_not_shut c Hc Hst) as Hns. destruct Hc as [Hi Ho Hs Hw Hsh Hcl].
  unfold is_state in *. rewrite bool_decide_false in * by congruence.
  constructor; unfold is_state; cbn; rewrite ?bool_decide_false by done; done.
Qed.

Lemma run_functor_keeps : keeps (run_functor write_complete_callback close_callback high_water_mark_callback).
Proof.
  intros c Hc. unfold run_functor. destruct (pending c) as [|f rest]; [by apply good_return|].
  assert (Hc' : wf (set_pending rest c)) by (by apply wf_set_pending).
  destruct f; [by apply sendInLoop_keeps|by apply shutdownInLoop_keeps|by apply forceCloseInLoop_keeps].
Qed.

Lemma send_input_keeps in_loop :
  keeps (send_buffer write_complete_callback close_callback high_water_mark_callback input_buffer_ set_input in_loop).
Proof.
  intros c Hc. unfold send_buffer. destruct (negb _); [by apply good_return|].
  set (len := Buffer.readableBytes (input_buffer_ c)). destruct (len =? 0); [by apply good_return|].
  assert (Hlen : 0 <= len).
  { unfold len. destruct (Buffer.wf_sizes _ (wf_input c Hc)) as (_ & _ & <-). apply lenZ_nonneg. }
  assert (Hret : forall c2, wf c2 -> wf (set_input (Buffer.retrieve (input_buffer_ c2) len) c2)).
  { intros c2 H2. apply wf_set_input; [|done]. by apply (Buffer.retrieve_spec (input_buffer_ c2) len); [apply H2|]. }
  destruct in_loop.
  - apply good_then; [by apply sendInLoop_keeps|]. intros c2 H2. by apply good_return, Hret.
  - cbn. by apply good_return, wf_set_pending, Hret.
Qed.

Lemma run_op_keeps o : op_ok o -> keeps (run_one o).
Proof.
  intros Hok. destruct o; cbn [run_op].
  - intros c Hc. unfold send. destruct (negb _); [by apply good_return|]. by apply runInLoop_keeps; [apply sendInLoop_keeps|].
  - apply send_input_keeps.
  - intros c Hc. unfold shutdown. destruct (is_state kConnected c) eqn:E; cbn [negb]; [|by apply good_return].
    apply is_state_true in E. apply runInLoop_keeps; [apply shutdownInLoop_keeps|by apply wf_disconnecting].
  - apply runInLoop_keeps, forceCloseInLoop_keeps.
  - apply run_functor_keeps.
  - by apply handleRead_keeps.
  - apply handleWrite_keeps.
  - apply handleClose_keeps.
  - apply handleClose_keeps.
  - apply connectDestroyed_keeps.
Qed.

Lemma run_ops_keeps ops : Forall op_ok ops -> keeps (run_all ops).
Proof.
  induction 1 as [|o ops Ho _ IH]; intros c Hc; [by apply good_return|]. cbn [run_ops].
  apply good_then; [by apply run_op_keeps|exact IH].
Qed.

Lemma connectEstablished_keeps c : wf c -> state_ c = kConnecting -> good (connectEstablished connection_callback c).
Proof.
  intros Hc Hst. unfold connectEstablished. apply good_fire; [apply Hcb|done|done|].
  set (c1 := change Channel.EnableReading (set_state kConnected c)).
  destruct Hc as [Hi Ho Hs Hw Hsh Hcl]. unfold is_state in *. rewrite bool_decide_false in * by congruence.
  constructor; unfold is_state; cbn; rewrite ?bool_decide_false by done; try done.
  - transitivity (isWriting c); [exact (writing_change Channel.EnableReading c)|exact Hw].
  - intros Hin. destruct (Hsh Hin) as [_ [E|E]]; by rewrite Hst in E.
Qed.

Lemma construct_wf fd b mark kw ks :
  Buffer.buffer_wf b -> Buffer.readable b = [] -> wf (construct fd b mark kw ks).
Proof.
  intros Hb Hr. constructor; unfold is_state, out; cbn; rewrite ?Hr; try done. by intros ?%elem_of_nil.
Qed.

End callbacks.

(** * Properties *)


(** What another thread sends just before [shutdown] is lost: [shutdown]
    changes the state at once, so the loop drops the octets queued before it
    and half-closes without them. *)
Theorem send_then_shutdown_loses_data cc mc wc clc hw data c :
  wf c -> state_ c = kConnected -> pending c = [] -> out c = [] -> kernel_shutdown c = None ->
  exists c', run_ops cc mc wc clc hw [Send false data; Shutdown false; RunFunctor; RunFunctor] c = Ret (None, c') /\
    wire c' = wire c /\ out c' = [] /\ pending c' = [] /\ ShutdownWrite ∈ log c'.
Proof.
  intros Hc Hst Hp Ho Hk. cbn [run_ops run_op]. unfold send, is_state. rewrite Hst, bool_decide_true by done.
  cbn [negb runInLoop return_ then_ mbind outcome_bind]. unfold shutdown, is_state. cbn [state_ set_pending].
  rewrite Hst, bool_decide_true by done. cbn [negb runInLoop return_ then_ mbind outcome_bind]. unfold run_functor.
  cbn [pending set_pending set_state]. rewrite Hp. cbn [app]. unfold sendInLoop, is_state. cbn [state_ set_pending set_state].
  rewrite bool_decide_false by done. cbn [negb return_ then_ mbind outcome_bind pending set_pending].
  unfold shutdownInLoop, is_state. cbn [state_ set_pending set_state output_buffer_].
  rewrite bool_decide_true by done. rewrite readable_pos by apply Hc. fold (out c). rewrite bool_decide_true by done.
  cbn [negb orb kernel_shutdown set_pending set_state]. rewrite Hk. cbn. eexists. split; [done|].
  split_and!; try done. apply elem_of_app. right. by left.
Qed.

(** ** Witnesses *)

Definition example_buffer : Buffer.t := Buffer.mk (repeat x00 16) 8 8.

Lemma example_buffer_wf : Buffer.buffer_wf example_buffer.
Proof. apply (bool_decide_unpack _). vm_compute. exact I. Qed.

(** A kernel that takes three octets, then refuses, then takes the rest. *)
Definition example_kernel (i : nat) : write_result :=
  match i with 0%nat => WriteCount 3 | 1%nat => WriteError EAGAIN | _ => WriteCount 100 end.

(** An echo server: the message callback sends the input buffer back. *)
Definition echo (c : t) : result := send_buffer None None None input_buffer_ set_input true c.

Lemma echo_keeps : keeps echo.
Proof. apply (send_input_keeps None None None None None). by split_and!. Qed.

Definition example_ops : list op :=
  [HandleRead [str "hello"; str ", world"] (ReadFails EAGAIN); HandleWrite; HandleWrite; Shutdown false;
   RunFunctor; HandleRead [] EndOfFile; ConnectDestroyed].

Lemma example_callbacks : callbacks_keep None (Some echo) None None None.
Proof. split_and!; try done. intros f [= <-]. apply echo_keeps. Qed.


Example example_ops_ex :
  match then_ (connectEstablished None (construct 7 example_buffer 0 example_kernel None))
          (run_ops None (Some echo) None None None example_ops) with
  | Ret (None, c) => wire c = str "hello, world" /\ log c = [MessageCb; MessageCb; ShutdownWrite]
  | _ => False
  end.
Proof. vm_compute. split; reflexivity. Qed.

Definition example_up : t :=
  mk kConnected (Channel.mk 7 Channel.read_bits 0 Channel.kAdded) example_buffer example_buffer 0 [] example_kernel
     None 0 [] [] [].

Lemma example_up_wf : wf example_up.
Proof. constructor; try exact example_buffer_wf; try (vm_compute; reflexivity). by intros ?%elem_of_nil. Qed.

Lemma send_then_shutdown_loses_data_witness :
  exists c', run_ops None None None None None [Send false (str "bye"); Shutdown false; RunFunctor; RunFunctor] example_up =
      Ret (None, c') /\
    wire c' = [] /\ out c' = [] /\ pending c' = [] /\ ShutdownWrite ∈ log c'.
Proof.
  apply (send_then_shutdown_loses_data None None None None None (str "bye") example_up);
    [exact example_up_wf|reflexivity|reflexivity|reflexivity|reflexivity].
Defined.

(** A high-water callback that sends: its octets come between those of the
    message that reached the mark. *)
Definition greedy (_ : Z) (c : t) : result := sendInLoop None None None (str "!") c.

Lemma high_water_callback_reorders :
  match then_ (sendInLoop None None (Some greedy) (str "message") (mk kConnected (channel_ example_up) example_buffer
                 example_buffer 2 [] example_kernel None 0 [] [] []))
          (fun c => then_ (handleWrite None None c) (handleWrite None None)) with
  | Ret (None, c) => wire c = str "mes!sage"
  | _ => False
  end.
Proof. vm_compute. reflexivity. Qed.
