(* ===== verification/TcpConnectionLife.v ===== *)
(** The life of a connection, for its owner: what the operations of a connection
    add to the notifications in its log, and when its state changes. *)
From Stdlib Require Import ZArith Lia.
From Stdlib Require Import Strings.Byte.
From stdpp Require Import base list strings.
From S2P Require Import Prelude NetBuffer EventLoop TcpConnection TcpConnectionFacts.
Import TcpConnection.

(** * Notifications *)

Definition is_connection_cb (a : action) : bool := match a with ConnectionCb _ => true | _ => false end.

(** The calls of [connection_callback_] so far. *)
Definition notified (c : t) : list action := List.filter is_connection_cb (log c).

(** An operation on a connection that is neither established nor destroyed by
    it: it notifies nobody but the owner, once, when it closes. *)
Record evolves (c c' : t) : Prop := mkEvolves {
  ev_log : log c `prefix_of` log c';
  ev_notified : notified c' = notified c;
  ev_connecting : state_ c <> kConnecting -> state_ c' <> kConnecting;
  ev_closes : close_calls c' =
    (close_calls c + if is_state kDisconnected c' && negb (is_state kDisconnected c) then 1 else 0)%nat;
  ev_closed : state_ c = kDisconnected -> state_ c' = kDisconnected;
}.

#[global] Instance evolves_preorder : PreOrder evolves.
Proof.
  split.
  - intros c. constructor; try done. destruct (is_state _ c); cbn; lia.
  - intros a b c [L1 N1 C1 K1 D1] [L2 N2 C2 K2 D2]. constructor.
    + by etrans.
    + by rewrite N2.
    + auto.
    + rewrite K2, K1. unfold is_state. repeat case_bool_decide; cbn; try lia; exfalso; auto.
    + auto.
Qed.

(** The parts of the state the relation does not look at. *)
Lemma evolves_same c c' : log c' = log c -> state_ c' = state_ c -> evolves c c'.
Proof.
  intros Hl Hs. constructor; unfold notified, close_calls, is_state; rewrite ?Hl, ?Hs; try done.
  case_bool_decide; cbn; lia.
Qed.

Lemma evolves_logged a c : is_connection_cb a = false -> a <> CloseCb -> evolves c (logged a c).
Proof.
  intros Hn Hc. constructor; try done; [by apply prefix_app_r| |].
  - unfold notified. cbn. rewrite List.filter_app. cbn. by rewrite Hn, app_nil_r.
  - rewrite close_calls_logged, bool_decide_false by done. unfold is_state. cbn. case_bool_decide; cbn; lia.
Qed.

(** A call that evolves the connection, if it returns. *)
Definition ev (c : t) (r : result) : Prop :=
  match r with Ret (None, c') => evolves c c' | _ => True end.

Definition evs (f : t -> result) : Prop := forall c, ev c (f c).

Lemma ev_return c c' : evolves c c' -> ev c (return_ c').
Proof. done. Qed.

Lemma ev_then c r k : ev c r -> evs k -> ev c (then_ r k).
Proof.
  intros Hr Hk. destruct r as [[[e|] c1]| |]; try done. cbn. specialize (Hk c1).
  destruct (k c1) as [[[e|] c2]| |]; try done. exact (transitivity (R := evolves) Hr Hk).
Qed.

Lemma ev_from c c1 r : evolves c c1 -> ev c1 r -> ev c r.
Proof. intros H. destruct r as [[[e|] c2]| |]; try done. exact (transitivity (R := evolves) H). Qed.

Section callbacks.
Context (connection_callback message_callback write_complete_callback : option (t -> result)).
Context (high_water_mark_callback : option (Z -> t -> result)).

(** The user's callbacks may call the connection, through its operations. *)
Definition callbacks_evolve : Prop :=
  (forall f, connection_callback = Some f -> evs f) /\ (forall f, message_callback = Some f -> evs f) /\
  (forall f, write_complete_callback = Some f -> evs f) /\ (forall f n, high_water_mark_callback = Some f -> evs (f n)).

Context (Hcb : callbacks_evolve).

(** The owner's callback only takes note. *)
Abbreviation close_callback := (Some return_).

Lemma ev_fire callback a c :
  (forall f, callback = Some f -> evs f) -> is_connection_cb a = false -> a <> CloseCb -> ev c (fire callback a c).
Proof.
  intros Hf Hn Hc. unfold fire. destruct callback as [f|]; [|by apply ev_return].
  eapply ev_from; [by apply evolves_logged|]. by apply (Hf f).
Qed.

Lemma handleClose_evs : evs (handleClose close_callback).
Proof.
  intros c. unfold handleClose. destruct (is_state kDisconnected c) eqn:E; [by apply ev_return|].
  cbn [fire]. apply ev_return. constructor; try done.
  - by apply prefix_app_r.
  - unfold notified. cbn. by rewrite List.filter_app, app_nil_r.
  - rewrite close_calls_logged, E. rewrite bool_decide_true by done. unfold is_state. cbn.
    rewrite bool_decide_true by done. done.
Qed.

Lemma shutdownInLoop_evs : evs (shutdownInLoop close_callback).
Proof.
  intros c. unfold shutdownInLoop. destruct (_ || _); [by apply ev_return|]. destruct (kernel_shutdown c).
  - destruct (_ && _); [apply handleClose_evs|by apply ev_return].
  - apply ev_return. by apply evolves_logged.
Qed.

Lemma forceCloseInLoop_evs : evs (forceCloseInLoop close_callback).
Proof. intros c. unfold forceCloseInLoop. destruct (_ && _); [by apply ev_return|apply handleClose_evs]. Qed.

Lemma write_same data c : log (write data c).2 = log c /\ state_ (write data c).2 = state_ c.
Proof. unfold write. by destruct (kernel_write c (writes c)). Qed.

Lemma sendInLoop_evs data : evs (sendInLoop write_complete_callback close_callback high_water_mark_callback data).
Proof.
  intros c. unfold sendInLoop. destruct (negb _); [by apply ev_return|].
  set (c1 := set_accepted (accepted c ++ data) c). assert (H1 : evolves c c1) by by apply evolves_same.
  set (rb := Buffer.readableBytes _).
  match goal with |- ev c (let '(written, c) := ?x in _) => assert (Hx : evolves c x.2); [|destruct x as [written c2]] end.
  { destruct (_ && _); [|done]. pose proof (write_same data c1) as [Hl Hs]. destruct (write data c1) as [[n|errno] c2]; cbn in *;
      (etrans; [exact H1|by apply evolves_same]). }
  cbn in Hx. destruct written as [n|]; [|by eapply ev_from; [|apply handleClose_evs]].
  eapply ev_from; [exact Hx|]. apply ev_then.
  - destruct (0 <? lenZ data - Z.of_nat n); [|by apply ev_return]. apply ev_then.
    + destruct (_ && _); [|by apply ev_return]. apply ev_fire; [|done|done].
      destruct Hcb as (_ & _ & _ & Hh). destruct high_water_mark_callback as [f|]; [|done]. intros g [= <-]. by apply Hh.
    + intros c3. destruct (Buffer.append _ _) as [[[e|] b]| |]; try done. cbn.
      destruct (negb _); by apply evolves_same.
  - intros c3. destruct (_ && _); [|by apply ev_return]. apply ev_fire; [apply Hcb|done|done].
Qed.

Lemma handleRead_evs chunks last : evs (handleRead message_callback close_callback chunks last).
Proof.
  induction chunks as [|chunk chunks IH]; intros c; cbn [handleRead].
  - destruct last as [|errno]; [apply handleClose_evs|]. destruct (_ =? _); [by apply ev_return|apply handleClose_evs].
  - destruct (Buffer.readFd _ _) as [[[[n m] [e|]] b]| |]; try done. cbn [mbind outcome_bind].
    apply (ev_from c (set_input b c)); [by apply evolves_same|].
    destruct (0 <? n); [|apply handleClose_evs]. apply ev_then; [|exact IH]. apply ev_fire; [apply Hcb|done|done].
Qed.

Lemma drain_evolves fuel c b c' : drain fuel c = Ret (b, c') -> evolves c c'.
Proof.
  revert c. induction fuel as [|fuel IH]; intros c; cbn [drain]; (destruct (0 <? _); [|by intros [= <- <-]]); [done|].
  pose proof (write_same (Buffer.readable (output_buffer_ c)) c) as [Hl Hs].
  destruct (write _ c) as [[n|errno] c1]; cbn in Hl, Hs.
  - intros Hd%IH. etrans; [|exact Hd]. by apply evolves_same.
  - destruct (errno =? EAGAIN); intros [= <- <-]; by apply evolves_same.
Qed.

Lemma handleWrite_evs : evs (handleWrite write_complete_callback close_callback).
Proof.
  intros c. unfold handleWrite. destruct (is_state kDisconnected c); [by apply ev_return|].
  destruct (drain _ c) as [[drained c1]| |] eqn:Ed; try done. cbn [mbind outcome_bind].
  eapply ev_from; [by eapply drain_evolves|]. destruct (negb drained); [apply handleClose_evs|].
  destruct (_ =? 0); [|by apply ev_return].
  apply (ev_from c1 (change Channel.DisableWriting c1)); [by apply evolves_same|]. apply ev_then.
  - apply ev_fire; [apply Hcb|done|done].
  - intros c2. destruct (is_state _ c2); [apply shutdownInLoop_evs|by apply ev_return].
Qed.

Lemma runInLoop_evs in_loop f now : evs now -> evs (runInLoop in_loop f now).
Proof. intros Hn c. destruct in_loop; [apply Hn|]. by apply ev_return, evolves_same. Qed.

Lemma run_functor_evs : evs (run_functor write_complete_callback close_callback high_water_mark_callback).
Proof.
  intros c. unfold run_functor. destruct (pending c) as [|f rest]; [by apply ev_return|].
  apply (ev_from c (set_pending rest c)); [by apply evolves_same|].
  destruct f; [apply sendInLoop_evs|apply shutdownInLoop_evs|apply forceCloseInLoop_evs].
Qed.

Lemma shutdown_evs in_loop : evs (shutdown close_callback in_loop).
Proof.
  intros c. unfold shutdown. destruct (is_state kConnected c) eqn:E; cbn [negb]; [|by apply ev_return].
  apply is_state_true in E. apply (ev_from c (set_state kDisconnecting c)).
  - constructor; try done. by rewrite E.
  - apply runInLoop_evs, shutdownInLoop_evs.
Qed.

Lemma send_input_evs in_loop :
  evs (send_buffer write_complete_callback close_callback high_water_mark_callback input_buffer_ set_input in_loop).
Proof.
  intros c. unfold send_buffer. destruct (negb _); [by apply ev_return|]. destruct (_ =? 0); [by apply ev_return|].
  destruct in_loop.
  - apply ev_then; [apply sendInLoop_evs|]. intros c2. by apply ev_return, evolves_same.
  - cbn. by apply evolves_same.
Qed.

Lemma run_op_evs o :
  o <> ConnectDestroyed ->
  evs (run_op connection_callback message_callback write_complete_callback close_callback high_water_mark_callback o).
Proof.
  intros Ho. destruct o; cbn [run_op]; try done.
  - intros c. unfold send. destruct (negb _); [by apply ev_return|]. by apply runInLoop_evs, sendInLoop_evs.
  - apply send_input_evs.
  - apply shutdown_evs.
  - apply runInLoop_evs, forceCloseInLoop_evs.
  - apply run_functor_evs.
  - apply handleRead_evs.
  - apply handleWrite_evs.
  - apply handleClose_evs.
  - apply handleClose_evs.
Qed.

Lemma run_ops_evs ops :
  ConnectDestroyed ∉ ops ->
  evs (run_ops connection_callback message_callback write_complete_callback close_callback high_water_mark_callback ops).
Proof.
  induction ops as [|o ops IH]; intros Hin c; [by apply ev_return|]. rewrite not_elem_of_cons in Hin.
  destruct Hin as [Hne Hin]. cbn [run_ops]. apply ev_then; [by apply run_op_evs|by apply IH].
Qed.

(** * Establishing and destroying *)

Context (f : t -> result) (Hf : connection_callback = Some f).

(** After [connectEstablished] and [connectDestroyed], the user was notified. *)
Definition ev_after (a : action) (s : State) (c : t) (r : result) : Prop :=
  match r with
  | Ret (None, c') => exists c1, log c1 = log c ++ [a] /\ state_ c1 = s /\ evolves c1 c'
  | _ => True
  end.

Lemma connectEstablished_ev c :
  ev_after (ConnectionCb kConnected) kConnected c (connectEstablished connection_callback c).
Proof.
  unfold connectEstablished. rewrite Hf. cbn [fire]. destruct Hcb as (Hc & _). specialize (Hc f Hf).
  set (c1 := logged _ _). specialize (Hc c1). unfold ev in Hc. destruct (f c1) as [[[e|] c2]| |]; try done.
  exists c1. by split.
Qed.

Lemma connectDestroyed_ev c :
  ev_after (ConnectionCb kDisconnected) kDisconnected c (connectDestroyed connection_callback c).
Proof.
  unfold connectDestroyed. rewrite Hf. destruct Hcb as (Hc & _). specialize (Hc f Hf).
  set (c1 := if negb (is_state kDisconnected c) then _ else c).
  assert (H1 : log c1 = log c /\ state_ c1 = kDisconnected).
  { unfold c1. destruct (is_state kDisconnected c) eqn:E; cbn; [|done]. by apply is_state_true in E. }
  destruct H1 as [Hl Hs]. cbn [fire]. specialize (Hc (logged (ConnectionCb (state_ c1)) c1)). unfold ev in Hc.
  destruct (f _) as [[[e|] c2]| |]; try done. cbn. eexists. split; [|split; [|etrans; [exact Hc|by apply evolves_same]]]; cbn.
  - by rewrite Hl, Hs.
  - done.
Qed.

End callbacks.
