(* ===== verification/Chars.v ===== *)
(** Decimal integers as text: [std::to_string] and [std::from_chars] of the
    C++ library, which the RPC server, the RPC client and the JSON code use. *)
From Stdlib Require Import ZArith Lia.
From Stdlib Require Import Strings.Byte.
From stdpp Require Import base list strings.
From S2P Require Import Prelude.

Module Chars.

(** * Digits *)

Definition digit (d : Z) : byte := z2b (48 + d).
Definition is_digit (b : byte) : bool := (48 <=? b2z b) && (b2z b <=? 57).
Definition digit_value (b : byte) : Z := b2z b - 48.

(** The decimal digits of [n >= 0] before [acc]; [fuel] bounds their number. *)
Fixpoint digits_loop (fuel : nat) (n : Z) (acc : bytes) : bytes :=
  match fuel with
  | O => acc
  | S f =>
      let acc := digit (n mod 10) :: acc in
      if n <? 10 then acc else digits_loop f (n / 10) acc
  end.

(** A number below [2 ^ k] has at most [k] decimal digits. *)
Definition digits (n : Z) : bytes := digits_loop (S (Z.to_nat (Z.log2 n))) n [].

(** [std::to_string] of an integer of any width. *)
Definition to_string (n : Z) : bytes :=
  if n <? 0 then x2d :: digits (- n) else digits n.

(** * from_chars *)

Inductive errc := no_error | invalid_argument | result_out_of_range.
#[global] Instance errc_eq_dec : EqDecision errc.
Proof. solve_decision. Defined.

(** [ptr] as the number of octets consumed; [value] is [None] where the
    function leaves its output argument alone. *)
Record from_chars_result := mkResult { ptr : nat; ec : errc; value : option Z }.

(** The run of digits at the front, its value added to [acc]. *)
Fixpoint scan_digits (l : bytes) (acc : Z) (n : nat) : Z * nat :=
  match l with
  | b :: l => if is_digit b then scan_digits l (10 * acc + digit_value b) (S n) else (acc, n)
  | [] => (acc, n)
  end.

(** [std::from_chars] into an unsigned integer with largest value [max]. *)
Definition from_chars_unsigned (max : Z) (l : bytes) : from_chars_result :=
  let '(v, n) := scan_digits l 0 0 in
  if (n =? 0)%nat then mkResult 0 invalid_argument None
  else if max <? v then mkResult n result_out_of_range None
  else mkResult n no_error (Some v).

(** [std::from_chars] into a signed integer of range [min .. max]: a minus sign
    is accepted, a plus sign is not. *)
Definition from_chars_signed (min max : Z) (l : bytes) : from_chars_result :=
  let '(negative, rest) := match l with x2d :: l' => (true, l') | _ => (false, l) end in
  let '(v, n) := scan_digits rest 0 0 in
  let consumed := if negative then S n else n in
  let v := if negative then - v else v in
  if (n =? 0)%nat then mkResult 0 invalid_argument None
  else if (v <? min) || (max <? v) then mkResult consumed result_out_of_range None
  else mkResult consumed no_error (Some v).

(** * Lemmas *)

Lemma b2z_digit d : 0 <= d < 10 -> b2z (digit d) = 48 + d.
Proof. intros H. unfold digit. rewrite b2z_z2b. apply Z.mod_small. lia. Qed.

Lemma is_digit_digit d : 0 <= d < 10 -> is_digit (digit d) = true.
Proof. intros H. unfold is_digit. rewrite b2z_digit by done. apply andb_true_iff. lia. Qed.

Lemma digit_value_digit d : 0 <= d < 10 -> digit_value (digit d) = d.
Proof. intros H. unfold digit_value. rewrite b2z_digit by done. lia. Qed.

Lemma is_digit_inv b : is_digit b = true -> 0 <= digit_value b < 10 /\ b = digit (digit_value b).
Proof.
  unfold is_digit, digit_value, digit. intros H. breflect. split; [lia|].
  replace (48 + (b2z b - 48)) with (b2z b) by lia. by rewrite z2b_b2z.
Qed.

(** The value of a list of digits, most significant first. *)
Definition digits_value (l : bytes) (acc : Z) : Z :=
  fold_left (fun acc b => 10 * acc + digit_value b) l acc.

Lemma scan_digits_app l rest acc n :
  Forall (fun b => is_digit b = true) l ->
  (forall b r, rest = b :: r -> is_digit b = false) ->
  scan_digits (l ++ rest) acc n = (digits_value l acc, (n + length l)%nat).
Proof.
  intros Hl Hr. revert acc n. induction Hl as [|b l Hb Hl IH]; intros acc n; cbn.
  - destruct rest as [|b r]; cbn; [by rewrite Nat.add_0_r|].
    rewrite (Hr b r eq_refl). by rewrite Nat.add_0_r.
  - rewrite Hb, IH. cbn. f_equal. lia.
Qed.

Lemma digits_loop_spec fuel n acc :
  0 <= n < 10 ^ Z.of_nat fuel ->
  exists l, digits_loop fuel n acc = l ++ acc /\ Forall (fun b => is_digit b = true) l /\
    (forall a, digits_value l a = a * 10 ^ lenZ l + n) /\ (length l <= fuel /\ (fuel = 0 \/ 0 < length l))%nat.
Proof.
  revert n acc. induction fuel as [|f IH]; intros n acc Hn.
  { exists []. cbn in *. split; [done|]. split; [done|]. split; [|lia].
    intros a. unfold lenZ; cbn. lia. }
  rewrite Nat2Z.inj_succ, Z.pow_succ_r in Hn by lia. cbn [digits_loop].
  pose proof (Z.mod_pos_bound n 10 eq_refl) as Hm. case_if.
  - exists [digit (n mod 10)]. split; [done|]. split; [by constructor; [apply is_digit_digit|]|].
    split; [|cbn; lia]. intros a. unfold digits_value; cbn. rewrite digit_value_digit by done.
    rewrite Z.mod_small by lia. unfold lenZ; cbn. lia.
  - destruct (IH (n / 10) (digit (n mod 10) :: acc)) as (l & El & Hd & Hv & Hl).
    { pose proof (Z.div_lt_upper_bound n 10 (10 ^ Z.of_nat f)). pose proof (Z.div_pos n 10). lia. }
    exists (l ++ [digit (n mod 10)]). rewrite El, <- app_assoc. split; [done|].
    split; [apply Forall_app; split; [done|]; by constructor; [apply is_digit_digit|]|].
    split; [|rewrite length_app; cbn; lia].
    intros a. unfold digits_value in *. rewrite fold_left_app; cbn. rewrite Hv.
    rewrite digit_value_digit by done.
    rewrite (lenZ_app l [_]), Z.pow_add_r, Z.pow_1_r by (unfold lenZ; lia).
    pose proof (Z.div_mod n 10). lia.
Qed.

Lemma digits_spec n :
  0 <= n -> Forall (fun b => is_digit b = true) (digits n) /\ digits n <> [] /\
    digits_value (digits n) 0 = n /\ lenZ (digits n) <= 1 + Z.log2 n.
Proof.
  intros Hn. pose proof (Z.log2_nonneg n) as Hlog.
  destruct (digits_loop_spec (S (Z.to_nat (Z.log2 n))) n []) as (l & El & Hd & Hv & Hl).
  { split; [done|]. destruct (Z.eq_dec n 0) as [->|Hne]; [apply Z.pow_pos_nonneg; lia|].
    pose proof (Z.log2_spec n ltac:(lia)) as [_ Hlt].
    rewrite Nat2Z.inj_succ, Z2Nat.id by done.
    pose proof (Z.pow_le_mono_l 2 10 (Z.succ (Z.log2 n))). lia. }
  unfold digits. rewrite El, app_nil_r. split; [done|]. split; [by destruct l; cbn in Hl; [lia|]|].
  rewrite Hv. unfold lenZ. split; [lia|]. lia.
Qed.

Lemma to_string_digits n : 0 <= n -> to_string n = digits n.
Proof. intros H. unfold to_string. by rewrite (proj2 (Z.ltb_ge _ _)). Qed.

Lemma scan_digits_digits n rest :
  0 <= n -> (forall b r, rest = b :: r -> is_digit b = false) ->
  scan_digits (digits n ++ rest) 0 0 = (n, length (digits n)).
Proof.
  intros Hn Hr. destruct (digits_spec n Hn) as (Hd & _ & Hv & _).
  by rewrite scan_digits_app, Hv.
Qed.

Lemma digits_nil_not_digit b r : ([] : bytes) = b :: r -> is_digit b = false.
Proof. done. Qed.

Lemma from_chars_unsigned_to_string max n :
  0 <= n <= max ->
  from_chars_unsigned max (to_string n) = mkResult (length (to_string n)) no_error (Some n).
Proof.
  intros H. rewrite to_string_digits by lia. unfold from_chars_unsigned.
  pose proof (scan_digits_digits n [] ltac:(lia) digits_nil_not_digit) as E.
  rewrite app_nil_r in E. rewrite E. destruct (digits_spec n ltac:(lia)) as (_ & Hne & _).
  rewrite (proj2 (Nat.eqb_neq _ _)) by (by destruct (digits n)).
  by rewrite (proj2 (Z.ltb_ge _ _)) by lia.
Qed.

Lemma digits_head n : 0 <= n -> exists b l, digits n = b :: l /\ is_digit b = true.
Proof.
  intros H. destruct (digits_spec n H) as (Hd & Hne & _).
  destruct (digits n) as [|b l]; [done|]. inversion Hd; subst. by exists b, l.
Qed.

Lemma from_chars_signed_to_string min max n :
  min <= n <= max -> 0 <= max ->
  from_chars_signed min max (to_string n) = mkResult (length (to_string n)) no_error (Some n).
Proof.
  intros H Hmax. unfold from_chars_signed, to_string. case_if.
  - pose proof (scan_digits_digits (- n) [] ltac:(lia) digits_nil_not_digit) as Es.
    rewrite app_nil_r in Es. rewrite Es. destruct (digits_spec (- n) ltac:(lia)) as (_ & Hne & _).
    rewrite (proj2 (Nat.eqb_neq _ _)) by (by destruct (digits (- n))).
    rewrite Z.opp_involutive. by rewrite (proj2 (Z.ltb_ge _ _)), (proj2 (Z.ltb_ge _ _)) by lia.
  - destruct (digits_head n ltac:(lia)) as (b & l & El & Hb).
    assert (Hm : match digits n with x2d :: l' => (true, l') | _ => (false, digits n) end =
                 (false, digits n)) by (rewrite El; by destruct b).
    rewrite Hm. pose proof (scan_digits_digits n [] ltac:(lia) digits_nil_not_digit) as Es.
    rewrite app_nil_r in Es. rewrite Es. destruct (digits_spec n ltac:(lia)) as (_ & Hne & _).
    rewrite (proj2 (Nat.eqb_neq _ _)) by (by destruct (digits n)).
    by rewrite (proj2 (Z.ltb_ge _ _)), (proj2 (Z.ltb_ge _ _)) by lia.
Qed.

(** A successful parse consumed only digits, and its value is in range. *)
Lemma scan_digits_spec l acc n :
  let '(v, m) := scan_digits l acc n in
  (n <= m)%nat /\ (m - n <= length l)%nat /\ v = digits_value (take (m - n) l) acc /\
  Forall (fun b => is_digit b = true) (take (m - n) l).
Proof.
  revert acc n. induction l as [|b l IH]; intros acc n; cbn.
  { rewrite Nat.sub_diag. cbn. repeat split; try lia. constructor. }
  destruct (is_digit b) eqn:Eb; [|by rewrite Nat.sub_diag; cbn; repeat split; try lia; constructor].
  specialize (IH (10 * acc + digit_value b) (S n)).
  destruct (scan_digits l _ (S n)) as [v m]. destruct IH as (H1 & H2 & H3 & H4).
  replace (m - n)%nat with (S (m - S n)) by lia. cbn. repeat split; try lia; [done|].
  by constructor.
Qed.

End Chars.
