(* ===== verification/Socket.v ===== *)
(** Addresses and sockets: src/net/socket.cpp.  The text form of an address is
    libc's ([inet_pton], [inet_ntop]) and a parameter; descriptors are owned by
    [Socket] objects, which are moved and destroyed. *)
From Stdlib Require Import ZArith Lia.
From Stdlib Require Import Strings.Byte.
From stdpp Require Import base list strings gmap.
From S2P Require Import Prelude Chars.

(** * Byte order *)

(** [htons] and [ntohs], [htonl] and [ntohl] on a little-endian machine. *)
Definition htons (x : Z) : Z := Z.lor (Z.land (Z.shiftl x 8) 0xff00) (Z.land (Z.shiftr x 8) 0xff).
Definition htonl (x : Z) : Z :=
  Z.lor (Z.shiftl (htons (Z.land x 0xffff)) 16) (htons (Z.land (Z.shiftr x 16) 0xffff)).

(** * libc *)

(** [inet_pton] of a C string and [inet_ntop] into a buffer that is large
    enough, for [AF_INET]; the address is in network byte order. *)
Class Inet := {
  inet_pton : bytes -> option Z;
  inet_ntop : Z -> option bytes;
}.

(** What POSIX says of them: the text of an address has at most 15 characters,
    digits and dots only, and reads back. *)
Class InetLaws `{Inet} := {
  ntop_text a : 0 <= a < 2 ^ 32 ->
    exists s, inet_ntop a = Some s /\ (length s <= 15)%nat /\
      Forall (fun b => Chars.is_digit b = true \/ b = x2e) s /\ inet_pton s = Some a;
}.

(** * InetAddress *)

Module InetAddress.

Definition AF_INET : Z := 2.
Definition INADDR_ANY : Z := 0.
Definition INADDR_LOOPBACK : Z := 0x7f000001.

(** [struct sockaddr_in]; port and address are in network byte order. *)
Record t := mk {
  sin_family : Z;
  sin_port : Z;
  s_addr : Z;
}.
#[global] Instance t_eq_dec : EqDecision t.
Proof. solve_decision. Defined.

Definition set_port v a := mk (sin_family a) v (s_addr a).
Definition set_addr v a := mk (sin_family a) (sin_port a) v.

Definition construct (port : Z) : t := mk AF_INET (htons port) (htonl INADDR_ANY).
Definition loopback (port : Z) : t :=
  set_port (htons port) (set_addr (htonl INADDR_LOOPBACK) (construct port)).

(** The C string that starts at a pointer: it ends before the first NUL of the
    object pointed into. *)
Fixpoint c_string (mem : bytes) : outcome bytes :=
  match mem with
  | [] => OutOfBounds
  | b :: mem => if byte_eq_dec b x00 then Ret [] else let* s := c_string mem in Ret (b :: s)
  end.

Section text.
Context `{Inet}.

(** [InetAddress(ip, port)]: [mem] are the octets from [ip.data()] on to the end
    of the object; the length of the view is not used.  None is the
    [invalid_argument] thrown. *)
Definition construct_text (mem : bytes) (length : nat) (port : Z) : outcome (option t) :=
  let* ip := c_string mem in
  Ret (match inet_pton ip with
       | Some a => Some (mk AF_INET (htons port) a)
       | None => None
       end).

Definition toIp (a : t) : bytes := default [] (inet_ntop (s_addr a)).

Definition port (a : t) : Z := htons (sin_port a).

(** [char buf[64]], and [snprintf] of the port after the address. *)
Definition toIpPort (a : t) : bytes :=
  match inet_ntop (s_addr a) with
  | None => []
  | Some buf => buf ++ take (63 - length buf) (x3a :: Chars.to_string (htons (sin_port a)))
  end.

End text.

(** The members of an address are as wide as in C++. *)
Definition in_range (a : t) : Prop := 0 <= sin_port a < 2 ^ 16 /\ 0 <= s_addr a < 2 ^ 32.

End InetAddress.

(** * Socket *)

Module Socket.

Definition SOL_SOCKET : Z := 1.
Definition IPPROTO_TCP : Z := 6.
Definition SO_REUSEADDR : Z := 2.
Definition SO_REUSEPORT : Z := 15.
Definition SO_KEEPALIVE : Z := 9.
Definition TCP_NODELAY : Z := 1.

(** The system calls on a socket that has a descriptor. *)
Inductive syscall :=
  | Setsockopt (fd level option_name value : Z)
  | Bind (fd : Z) (local : InetAddress.t)
  | Listen (fd backlog : Z).

(** The kernel, with a state of its own: [inl] is a result, [inr] an [errno]. *)
Class Kernel (K : Type) := {
  sys_call : syscall -> K -> option Z * K;                      (* none is success *)
  sys_socket : K -> (Z + Z) * K;                                (* [socket] *)
  sys_accept4 : Z -> K -> (Z * InetAddress.t + Z) * K;          (* [accept4] of a listening socket *)
  sys_open_null : K -> (Z + Z) * K;                             (* [open("/dev/null")] *)
  sys_close : Z -> K -> K;
}.

Section calls.
Context `{Kernel K}.

(** A [system_error] thrown, with the name of the call; none is a return. *)
Abbreviation thrown := (option (Z * bytes)).

Definition checked (call : syscall) (what : bytes) (k : K) : thrown * K :=
  match sys_call call k with
  | (Some errno, k) => (Some (errno, what), k)
  | (None, k) => (None, k)
  end.

Definition setReuseAddr (fd : Z) (on : bool) : K -> thrown * K :=
  checked (Setsockopt fd SOL_SOCKET SO_REUSEADDR (if on then 1 else 0)) (str "setsockopt SO_REUSEADDR").
Definition setReusePort (fd : Z) (on : bool) : K -> thrown * K :=
  checked (Setsockopt fd SOL_SOCKET SO_REUSEPORT (if on then 1 else 0)) (str "setsockopt SO_REUSEPORT").
Definition setTcpNoDelay (fd : Z) (on : bool) : K -> thrown * K :=
  checked (Setsockopt fd IPPROTO_TCP TCP_NODELAY (if on then 1 else 0)) (str "setsockopt TCP_NODELAY").
Definition setKeepAlive (fd : Z) (on : bool) : K -> thrown * K :=
  checked (Setsockopt fd SOL_SOCKET SO_KEEPALIVE (if on then 1 else 0)) (str "setsockopt SO_KEEPALIVE").
Definition bind (fd : Z) (local : InetAddress.t) : K -> thrown * K := checked (Bind fd local) (str "bind").
Definition listen (fd : Z) : K -> thrown * K := checked (Listen fd 1024) (str "listen").

(** [accept]: the connected descriptor with the peer's address, or [errno]. *)
Definition accept (fd : Z) (k : K) : (Z * InetAddress.t + Z) * K := sys_accept4 fd k.

Definition createNonblockingSocket (k : K) : (Z + Z * bytes) * K :=
  match sys_socket k with
  | (inl fd, k) => (inl fd, k)
  | (inr errno, k) => (inr (errno, str "socket"), k)
  end.

End calls.

(** ** Ownership *)

(** A descriptor that is closed, or nothing when there is none. *)
Definition close_if (fd : Z) : list Z := if 0 <=? fd then [fd] else [].

(** The move constructor: the new object's descriptor, and the other's. *)
Definition move (other : Z) : Z * Z := (other, -1).

(** Move assignment of two distinct objects: both descriptors after it, and
    what was closed. *)
Definition assign (this other : Z) : Z * Z * list Z := (other, -1, close_if this).

(** The [Socket] objects of a program by their addresses, and what they
    closed. *)
Record heap := mkHeap {
  objects : gmap nat Z;
  closed : list Z;
}.

Inductive op :=
  | Construct (this : nat) (fd : Z)
  | MoveConstruct (this other : nat)
  | MoveAssign (this other : nat)
  | Destroy (this : nat).

(** One operation; none when C++ does not allow it (an object that is not
    alive, or constructed twice). *)
Definition step (h : heap) (o : op) : option heap :=
  match o with
  | Construct this fd =>
      match objects h !! this with
      | None => Some (mkHeap (<[this := fd]> (objects h)) (closed h))
      | Some _ => None
      end
  | MoveConstruct this other =>
      match objects h !! this, objects h !! other with
      | None, Some fd =>
          let '(mine, theirs) := move fd in
          Some (mkHeap (<[this := mine]> (<[other := theirs]> (objects h))) (closed h))
      | _, _ => None
      end
  | MoveAssign this other =>
      match objects h !! this, objects h !! other with
      | Some fd, Some fd' =>
          if decide (this = other) then Some h
          else
            let '(mine, theirs, gone) := assign fd fd' in
            Some (mkHeap (<[this := mine]> (<[other := theirs]> (objects h))) (closed h ++ gone))
      | _, _ => None
      end
  | Destroy this =>
      match objects h !! this with
      | Some fd => Some (mkHeap (delete this (objects h)) (closed h ++ close_if fd))
      | None => None
      end
  end.

Fixpoint run (h : heap) (ops : list op) : option heap :=
  match ops with
  | [] => Some h
  | o :: ops => match step h o with Some h => run h ops | None => None end
  end.

(** The descriptors given to constructors, in order. *)
Fixpoint given (ops : list op) : list Z :=
  match ops with
  | [] => []
  | Construct _ fd :: ops => close_if fd ++ given ops
  | _ :: ops => given ops
  end.

(** The descriptors the objects own. *)
Definition owned (objects : gmap nat Z) : list Z := (map_to_list objects).*2 ≫= close_if.

End Socket.
