(* ===== verification/SocketFacts.v ===== *)
(** Theorems about addresses and sockets: the text of an address reads back, and
    every descriptor has one owner until it is closed, once. *)
From Stdlib Require Import ZArith Lia.
From Stdlib Require Import Strings.Byte.
From stdpp Require Import base list strings gmap.
From S2P Require Import Prelude Chars Socket.

(** * Byte order *)

Lemma htons_value x : 0 <= x < 2 ^ 16 -> htons x = (x mod 2 ^ 8) * 2 ^ 8 + x / 2 ^ 8.
Proof.
  intros Hx. unfold htons.
  change 0xff00 with (Z.shiftl (2 ^ 8 - 1) 8). change 0xff with (2 ^ 8 - 1).
  rewrite <- Z.shiftl_land, !land_low_bits by lia. rewrite Z.shiftr_div_pow2, Z.shiftl_mul_pow2 by lia.
  assert (0 <= x / 2 ^ 8 < 2 ^ 8) by (split; [apply Z.div_pos; lia|apply Z.div_lt_upper_bound; lia]).
  rewrite (Z.mod_small (x / 2 ^ 8)) by done.
  apply (lor_add_disjoint 8); [lia| |done]. apply Z.mod_mul. lia.
Qed.

Lemma htons_range x : 0 <= x < 2 ^ 16 -> 0 <= htons x < 2 ^ 16.
Proof.
  intros Hx. rewrite htons_value by done. pose proof (Z.mod_pos_bound x (2 ^ 8) eq_refl).
  assert (0 <= x / 2 ^ 8 < 2 ^ 8) by (split; [apply Z.div_pos; lia|apply Z.div_lt_upper_bound; lia]). lia.
Qed.

Lemma htons_involutive x : 0 <= x < 2 ^ 16 -> htons (htons x) = x.
Proof.
  intros Hx. rewrite (htons_value (htons x)), htons_value by first [done|by apply htons_range].
  assert (0 <= x / 2 ^ 8 < 2 ^ 8) by (split; [apply Z.div_pos; lia|apply Z.div_lt_upper_bound; lia]).
  replace ((x mod 2 ^ 8) * 2 ^ 8 + x / 2 ^ 8) with (x / 2 ^ 8 + (x mod 2 ^ 8) * 2 ^ 8) by lia.
  rewrite Z.mod_add, Z.div_add by lia. rewrite (Z.mod_small (x / _)), (Z.div_small (x / _)) by done.
  pose proof (Z.div_mod x (2 ^ 8)). lia.
Qed.

(** * Text *)

Lemma digits_loop_width k fuel n acc :
  (0 < k)%nat -> 0 <= n < 10 ^ Z.of_nat k -> (length (Chars.digits_loop fuel n acc) <= k + length acc)%nat.
Proof.
  intros Hk. revert fuel n acc. induction k as [|k IH]; [lia|]. intros fuel n acc Hn.
  destruct fuel as [|fuel]; cbn [Chars.digits_loop]; [lia|]. case_if; [cbn; lia|].
  rewrite Nat2Z.inj_succ, Z.pow_succ_r in Hn by lia. destruct k as [|k]; [cbn in Hn; lia|].
  etrans; [apply IH; [lia|]|cbn; lia].
  split; [apply Z.div_pos; lia|apply Z.div_lt_upper_bound; lia].
Qed.

Lemma port_width n : 0 <= n < 2 ^ 16 -> (length (Chars.to_string n) <= 5)%nat.
Proof.
  intros Hn. rewrite Chars.to_string_digits by lia.
  pose proof (digits_loop_width 5 (S (Z.to_nat (Z.log2 n))) n []) as H. rewrite Nat.add_0_r in H.
  apply H; [lia|]. change (10 ^ Z.of_nat 5) with 100000. lia.
Qed.

Lemma c_string_text s rest : x00 ∉ s -> InetAddress.c_string (s ++ x00 :: rest) = Ret s.
Proof.
  induction s as [|b s IH]; [done|]. rewrite not_elem_of_cons. intros [Hb Hs]. cbn.
  destruct (byte_eq_dec b x00) as [->|]; [done|]. by rewrite IH.
Qed.

(** ** Dotted quads: an instance of the libc functions *)

Definition octet (i : Z) (a : Z) : Z := (a / 2 ^ (8 * i)) mod 256.

Definition quad_text (a : Z) : bytes :=
  Chars.to_string (octet 0 a) ++ x2e :: Chars.to_string (octet 1 a) ++ x2e ::
  Chars.to_string (octet 2 a) ++ x2e :: Chars.to_string (octet 3 a).

Definition quad_part (s : bytes) : option (Z * bytes) :=
  let '(v, n) := Chars.scan_digits s 0 0 in
  if (n =? 0)%nat || (3 <? n)%nat || (255 <? v) then None else Some (v, drop n s).

Definition quad_dot (s : bytes) : option bytes :=
  match s with x2e :: s => Some s | _ => None end.

Definition quad_parse (s : bytes) : option Z :=
  '(a, s) ← quad_part s; s ← quad_dot s; '(b, s) ← quad_part s; s ← quad_dot s;
  '(c, s) ← quad_part s; s ← quad_dot s; '(d, s) ← quad_part s;
  match s with [] => Some (a + 2 ^ 8 * b + 2 ^ 16 * c + 2 ^ 24 * d) | _ => None end.

Definition dotted_quad : Inet := {| inet_pton := quad_parse; inet_ntop a := Some (quad_text a) |}.

Lemma octet_range i a : 0 <= octet i a < 256.
Proof. apply Z.mod_pos_bound. lia. Qed.

Lemma octet_text i a :
  (0 < length (Chars.to_string (octet i a)) <= 3)%nat /\
  Forall (fun b => Chars.is_digit b = true) (Chars.to_string (octet i a)).
Proof.
  pose proof (octet_range i a) as Ho. rewrite Chars.to_string_digits by lia.
  destruct (Chars.digits_spec (octet i a) ltac:(lia)) as (Hd & Hne & _ & _). split; [|done]. split.
  - destruct (Chars.digits _); [done|cbn; lia].
  - pose proof (digits_loop_width 3 (S (Z.to_nat (Z.log2 (octet i a)))) (octet i a) []) as H.
    rewrite Nat.add_0_r in H. apply H; [lia|]. change (10 ^ Z.of_nat 3) with 1000. lia.
Qed.

Lemma quad_part_octet i a rest :
  (forall b r, rest = b :: r -> Chars.is_digit b = false) ->
  quad_part (Chars.to_string (octet i a) ++ rest) = Some (octet i a, rest).
Proof.
  intros Hr. pose proof (octet_range i a) as Ho. pose proof (octet_text i a) as [Hl _]. unfold quad_part.
  rewrite Chars.to_string_digits in * by lia. rewrite Chars.scan_digits_digits by (lia || done).
  bfalse (length (Chars.digits (octet i a)) =? 0)%nat. bfalse (3 <? length (Chars.digits (octet i a)))%nat.
  bfalse (255 <? octet i a). cbn [orb]. by rewrite drop_app_length.
Qed.

Lemma octets_value a :
  0 <= a < 2 ^ 32 -> octet 0 a + 2 ^ 8 * octet 1 a + 2 ^ 16 * octet 2 a + 2 ^ 24 * octet 3 a = a.
Proof.
  intros Ha. unfold octet. change (2 ^ (8 * 0)) with 1. change (2 ^ (8 * 1)) with 256.
  change (2 ^ (8 * 2)) with (256 * 256). change (2 ^ (8 * 3)) with (256 * 256 * 256).
  rewrite Z.div_1_r, <- !Z.div_div by lia.
  rewrite (Z.mod_small (a / 256 / 256 / 256)).
  - pose proof (Z.div_mod a 256). pose proof (Z.div_mod (a / 256) 256). pose proof (Z.div_mod (a / 256 / 256) 256). lia.
  - split; [repeat apply Z.div_pos; lia|]. rewrite !Z.div_div by lia. apply Z.div_lt_upper_bound; lia.
Qed.

Lemma dotted_quad_laws : @InetLaws dotted_quad.
Proof.
  constructor. intros a Ha. exists (quad_text a). split; [done|].
  pose proof (octet_text 0 a) as [H0 D0]. pose proof (octet_text 1 a) as [H1 D1].
  pose proof (octet_text 2 a) as [H2 D2]. pose proof (octet_text 3 a) as [H3 D3]. unfold quad_text. split; [|split].
  - rewrite length_app, length_cons, length_app, length_cons, length_app, length_cons. lia.
  - repeat first [apply Forall_app; split|constructor; [by right|]]; (eapply Forall_impl; [done|intros b Hb; by left]).
  - cbn [inet_pton dotted_quad]. unfold quad_parse.
    rewrite quad_part_octet by (by intros b r [= <- <-]). cbn [mbind option_bind quad_dot].
    rewrite quad_part_octet by (by intros b r [= <- <-]). cbn [mbind option_bind quad_dot].
    rewrite quad_part_octet by (by intros b r [= <- <-]). cbn [mbind option_bind quad_dot].
    rewrite <- (app_nil_r (Chars.to_string (octet 3 a))), quad_part_octet by done. cbn [mbind option_bind].
    by rewrite octets_value.
Qed.

(** * Descriptors *)

Import Socket.

Lemma owned_delete m p fd : m !! p = Some fd -> owned m ≡ₚ close_if fd ++ owned (delete p m).
Proof. intros Hp. unfold owned. by rewrite <- (map_to_list_delete m p fd Hp). Qed.

Lemma owned_fresh m p fd : m !! p = None -> owned (<[p := fd]> m) ≡ₚ close_if fd ++ owned m.
Proof. intros Hp. unfold owned. by rewrite (map_to_list_insert m p fd Hp). Qed.

Lemma owned_replace m p fd fd' :
  m !! p = Some fd -> close_if fd ++ owned (<[p := fd']> m) ≡ₚ close_if fd' ++ owned m.
Proof.
  intros Hp. rewrite (owned_delete m p fd Hp), (owned_delete (<[p := fd']> m) p fd') by by rewrite lookup_insert_eq.
  rewrite delete_insert_eq. rewrite !app_assoc. f_equiv. apply Permutation_app_comm.
Qed.

(** One operation: what was owned or closed stays so, and a constructor adds its
    descriptor. *)
Lemma step_conserves h o h' :
  step h o = Some h' -> closed h' ++ owned (objects h') ≡ₚ given [o] ++ closed h ++ owned (objects h).
Proof.
  destruct o as [this fd|this other|this other|this]; cbn; repeat case_match; intros; simplify_eq; cbn.
  - rewrite owned_fresh by done. rewrite app_nil_r. by rewrite !app_assoc, (Permutation_app_comm (closed h)).
  - f_equiv. rewrite owned_fresh; [by apply (owned_replace _ other _ (-1))|].
    rewrite lookup_insert_ne by congruence. done.
  - done.
  - rewrite <- app_assoc. f_equiv.
    rewrite owned_replace by (rewrite lookup_insert_ne by done; done).
    by apply (owned_replace _ other _ (-1)).
  - rewrite <- app_assoc. f_equiv. by rewrite <- owned_delete.
Qed.

Lemma given_cons o ops : given (o :: ops) = given [o] ++ given ops.
Proof. destruct o; cbn; by rewrite ?app_nil_r. Qed.

Lemma run_conserves ops h h' :
  run h ops = Some h' -> closed h' ++ owned (objects h') ≡ₚ given ops ++ closed h ++ owned (objects h).
Proof.
  revert h. induction ops as [|o ops IH]; intros h; cbn [run]; [by intros [= ->]|].
  destruct (step h o) as [h1|] eqn:E; [|done]. intros Hr. rewrite (IH _ Hr), (step_conserves _ _ _ E), (given_cons o ops).
  rewrite !app_assoc. f_equiv. f_equiv. apply Permutation_app_comm.
Qed.

(** * Properties *)

(** The text of an address: [toIp] gives what the constructor from text
    reads back, [toIpPort] is that text, a colon and the port in decimal, never
    cut off by its buffer, and the port survives the change of byte order. *)
Theorem address_text_roundtrip `{InetLaws} a rest :
  InetAddress.sin_family a = InetAddress.AF_INET -> InetAddress.in_range a ->
  InetAddress.construct_text (InetAddress.toIp a ++ x00 :: rest) (length (InetAddress.toIp a)) (InetAddress.port a) =
    Ret (Some a) /\
  InetAddress.toIpPort a = InetAddress.toIp a ++ x3a :: Chars.to_string (InetAddress.port a) /\
  (length (InetAddress.toIpPort a) < 22)%nat /\
  InetAddress.port (InetAddress.construct (InetAddress.port a)) = InetAddress.port a.
Proof.
  intros Hf [Hp Ha]. destruct (ntop_text (InetAddress.s_addr a) Ha) as (s & Es & Hl & Hd & Hr).
  pose proof (htons_range _ Hp) as Hn. pose proof (port_width _ Hn) as Hw.
  unfold InetAddress.construct_text, InetAddress.toIpPort, InetAddress.toIp, InetAddress.port. rewrite Es.
  cbn [default]. rewrite c_string_text.
  2: { intros Hin. rewrite Forall_forall in Hd. by destruct (Hd _ Hin). }
  cbn [mbind outcome_bind id]. rewrite Hr, take_ge by (rewrite length_cons; lia).
  cbn [InetAddress.construct InetAddress.sin_port]. rewrite !htons_involutive by done.
  split; [by destruct a; cbn in Hf; subst|]. split; [done|]. split; [|done].
  rewrite length_app, length_cons. lia.
Qed.

Lemma address_text_roundtrip_witness :
  let a := InetAddress.loopback 9600 in
  @InetAddress.toIpPort dotted_quad a = str "127.0.0.1:9600" /\
  @InetAddress.construct_text dotted_quad (@InetAddress.toIp dotted_quad a ++ [x00]) 9 (InetAddress.port a) = Ret (Some a).
Proof.
  split; [vm_compute; reflexivity|].
  apply (@address_text_roundtrip dotted_quad dotted_quad_laws (InetAddress.loopback 9600) []).
  - reflexivity.
  - vm_compute; repeat split; discriminate.
Defined.

(** A view is not the C string its constructor reads: the first eight
    characters of "10.0.0.12" give the address 10.0.0.12, and a view of the
    whole of an array without a NUL is read past its end. *)
Theorem view_needs_terminator `{Inet} port :
  let text := str "10.0.0.12" in
  InetAddress.construct_text (text ++ [x00]) 8 port = InetAddress.construct_text (text ++ [x00]) 9 port /\
  InetAddress.construct_text (take 8 text) 8 port = OutOfBounds.
Proof. done. Qed.

(** Every descriptor given to a [Socket] is, after any sequence of
    constructions, moves, move assignments and destructions, either owned by
    exactly one object or closed, exactly once; when all objects are gone, all
    were closed.  An assignment of an object to itself changes nothing. *)
Theorem socket_closes_once ops h :
  run (mkHeap ∅ []) ops = Some h ->
  closed h ++ owned (objects h) ≡ₚ given ops /\
  (NoDup (given ops) -> NoDup (closed h) /\ forall fd, fd ∈ closed h -> fd ∉ owned (objects h)) /\
  (objects h = ∅ -> closed h ≡ₚ given ops).
Proof.
  intros Hrun. pose proof (run_conserves _ _ _ Hrun) as Hp. cbn in Hp. unfold owned in Hp at 2.
  rewrite map_to_list_empty in Hp. cbn in Hp. rewrite app_nil_r in Hp. split; [done|]. split.
  - rewrite <- Hp. intros Hnd. apply NoDup_app in Hnd as (Hc & Hd & _). by split.
  - intros He. rewrite He in Hp. unfold owned in Hp. rewrite map_to_list_empty in Hp. cbn in Hp.
    by rewrite app_nil_r in Hp.
Qed.

(** Two sockets; the second takes over the descriptor of the first. *)
Lemma socket_closes_once_witness :
  exists h, run (mkHeap ∅ []) [Construct 0 5; Construct 1 6; MoveAssign 1 0; MoveConstruct 2 1; Destroy 0] = Some h /\
    closed h = [6] /\ closed h ++ owned (objects h) ≡ₚ [5; 6].
Proof.
  eexists. split; [vm_compute; reflexivity|]. split; [reflexivity|].
  apply (socket_closes_once [Construct 0 5; Construct 1 6; MoveAssign 1 0; MoveConstruct 2 1; Destroy 0]).
  vm_compute; reflexivity.
Defined.
