(* ===== verification/Acceptor.v ===== *)
(** The acceptor: src/net/acceptor.cpp.  The kernel is a parameter with a state
    of its own; the owner's state is what the new-connection callback changes. *)
From Stdlib Require Import ZArith Lia.
From Stdlib Require Import Strings.Byte.
From stdpp Require Import base list strings gmap.
From S2P Require Import Prelude EventLoop Socket.

Module Acceptor.

Definition EAGAIN : Z := 11.
Definition ENFILE : Z := 23.
Definition EMFILE : Z := 24.

Record t := mk {
  accept_socket_ : Z;
  accept_channel_ : Channel.t;
  listening_ : bool;
  idle_fd_ : Z;
}.

Definition set_channel v a := mk (accept_socket_ a) v (listening_ a) (idle_fd_ a).
Definition set_listening v a := mk (accept_socket_ a) (accept_channel_ a) v (idle_fd_ a).
Definition set_idle v a := mk (accept_socket_ a) (accept_channel_ a) (listening_ a) v.

Section acceptor.
Context {K : Type} `{Socket.Kernel K}.

(** A constructor or [listen] that throws has destroyed its finished members. *)
Inductive exn := SystemError (errno : Z) (what : bytes) | EpollError.

(** [open("/dev/null")]: a descriptor, or -1. *)
Definition open_null (k : K) : Z * K :=
  match Socket.sys_open_null k with
  | (inl fd, k) => (fd, k)
  | (inr _, k) => (-1, k)
  end.

(** A call in the body of the constructor: when it throws, the members are
    destroyed; of these only the socket closes its descriptor. *)
Definition or_throw (call : K -> option (Z * bytes) * K) (fd : Z) (k : K) (next : K -> (exn + t) * K) : (exn + t) * K :=
  match call k with
  | (Some (errno, what), k) => (inl (SystemError errno what), Socket.sys_close fd k)
  | (None, k) => next k
  end.

(** The constructor; [reuse_port] has the default false. *)
Definition construct (listen_addr : InetAddress.t) (reuse_port : bool) (k : K) : (exn + t) * K :=
  match Socket.createNonblockingSocket k with
  | (inr (errno, what), k) => (inl (SystemError errno what), k)
  | (inl fd, k) =>
      let '(idle, k) := open_null k in
      or_throw (Socket.setReuseAddr fd true) fd k (fun k =>
      or_throw (Socket.setReusePort fd reuse_port) fd k (fun k =>
      or_throw (Socket.bind fd listen_addr) fd k (fun k =>
      (inr (mk fd (Channel.construct fd) false idle), k))))
  end.

(** [listen]; [this] is the address of the channel. *)
Definition listen (this : nat) (a : t) (p : Poller.t) (k : K) : (option exn * t * Poller.t) * K :=
  match Socket.listen (accept_socket_ a) k with
  | (Some (errno, what), k) => ((Some (SystemError errno what), a, p), k)
  | (None, k) =>
      let a := set_listening true a in
      match Poller.change Channel.EnableReading this (accept_channel_ a) p with
      | Some (ch, p) => ((None, set_channel ch a, p), k)
      | None =>
          let events := Channel.new_events Channel.EnableReading (Channel.events_ (accept_channel_ a)) in
          ((Some EpollError, set_channel (Channel.set_events events (accept_channel_ a)) a, p), k)
      end
  end.

(** The destructor, the socket's included; none is an exception out of it,
    which ends the program. *)
Definition destroy (this : nat) (a : t) (p : Poller.t) (k : K) : option Poller.t * K :=
  match Poller.change Channel.DisableAll this (accept_channel_ a) p with
  | None => (None, k)
  | Some (ch, p) =>
      let '(ch, p) := Poller.removeChannel ch p in
      let k := if 0 <=? idle_fd_ a then Socket.sys_close (idle_fd_ a) k else k in
      (Some p, if 0 <=? accept_socket_ a then Socket.sys_close (accept_socket_ a) k else k)
  end.

(** What a new connection's callback does to its owner's state. *)
Context {S : Type} (new_connection_callback_ : option (Z -> InetAddress.t -> S -> S)).

(** The branch for a connection that was accepted. *)
Definition deliver (conn_fd : Z) (peer_addr : InetAddress.t) (s : S) (k : K) : S * K :=
  match new_connection_callback_ with
  | Some callback => (callback conn_fd peer_addr s, k)
  | None => (s, Socket.sys_close conn_fd k)
  end.

(** The branch for [EMFILE] and [ENFILE]. *)
Definition discard_one (a : t) (k : K) : t * K :=
  let '(a, k) :=
    if 0 <=? idle_fd_ a then (set_idle (-1) a, Socket.sys_close (idle_fd_ a) k) else (a, k) in
  let k :=
    match Socket.accept (accept_socket_ a) k with
    | (inl (tmp_fd, _), k) => Socket.sys_close tmp_fd k
    | (inr _, k) => k
    end in
  if idle_fd_ a <? 0 then let '(idle, k) := open_null k in (set_idle idle a, k) else (a, k).

(** [handleRead]: [fuel] bounds the turns of [while (true)]. *)
Fixpoint handleRead (fuel : nat) (a : t) (s : S) (k : K) : outcome (t * S * K) :=
  match fuel with
  | O => OutOfFuel
  | Datatypes.S fuel =>
      match Socket.accept (accept_socket_ a) k with
      | (inl (conn_fd, peer_addr), k) =>
          let '(s, k) := deliver conn_fd peer_addr s k in
          handleRead fuel a s k
      | (inr errno, k) =>
          if errno =? EAGAIN then Ret (a, s, k)
          else if (errno =? EMFILE) || (errno =? ENFILE) then
            let '(a, k) := discard_one a k in
            handleRead fuel a s k
          else Ret (a, s, k)
      end
  end.

End acceptor.
End Acceptor.
