(* ===== verification/AcceptorFacts.v ===== *)
(** Theorems about the acceptor, on a kernel with a limited table of
    descriptors: what it serves and refuses, and where it leaks, stops early or
    spins. *)
From Stdlib Require Import ZArith Lia.
From Stdlib Require Import Strings.Byte.
From stdpp Require Import base list strings gmap.
From S2P Require Import Prelude EventLoop Socket Acceptor.
Import Acceptor.

(* [set_solver] clears hypotheses by name. *)
#[local] Set Warnings "-clear-no-such-hyp".

(** * A kernel with a table of descriptors *)

(** A pending connection, or an error pending on one ([ECONNABORTED]). *)
Abbreviation entry := (InetAddress.t + Z)%type.

(** What the acceptor relies on: a descriptor that is given was free, a table
    with [limit] descriptors is full, and [accept] takes the first of the
    pending connections.  [eager] says whether [accept] reports a full table
    also when nothing is pending, as Linux does. *)
Class KernelLaws (K : Type) `{Socket.Kernel K} := {
  fds : K -> gset Z;
  backlog : K -> list entry;
  limit : nat;
  eager : bool;
  full k := (limit <= size (fds k))%nat;
  gives (r : Z) (k k' : K) := 0 <= r /\ (r ∉ fds k) /\ fds k' = {[r]} ∪ fds k;
  accept_full fd k : full k -> eager = true \/ backlog k <> [] -> Socket.sys_accept4 fd k = (inr EMFILE, k);
  accept_empty fd k : ~ full k \/ eager = false -> backlog k = [] -> Socket.sys_accept4 fd k = (inr EAGAIN, k);
  accept_peer fd k a l : ~ full k -> backlog k = inl a :: l ->
    exists r k', Socket.sys_accept4 fd k = (inl (r, a), k') /\ gives r k k' /\ backlog k' = l;
  accept_error fd k e l : ~ full k -> backlog k = inr e :: l ->
    exists k', Socket.sys_accept4 fd k = (inr e, k') /\ fds k' = fds k /\ backlog k' = l;
  open_null_free k : ~ full k ->
    exists r k', Socket.sys_open_null k = (inl r, k') /\ gives r k k' /\ backlog k' = backlog k;
  socket_free k : ~ full k ->
    exists r k', Socket.sys_socket k = (inl r, k') /\ gives r k k' /\ backlog k' = backlog k;
  call_keeps c k : fds (Socket.sys_call c k).2 = fds k /\ backlog (Socket.sys_call c k).2 = backlog k;
  close_open fd k : fd ∈ fds k ->
    fds (Socket.sys_close fd k) = fds k ∖ {[fd]} /\ backlog (Socket.sys_close fd k) = backlog k;
}.

Lemma add_remove (r : Z) (X : gset Z) : r ∉ X -> ({[r]} ∪ X) ∖ {[r]} = X.
Proof. set_solver. Qed.

Section laws.
Context {K : Type} `{KernelLaws K}.

#[local] Instance full_dec k : Decision (full k) := decide (limit <= size (fds k))%nat.

Definition free (k : K) : nat := limit - size (fds k).

(** The reserved descriptor is open. *)
Definition reserved (a : t) (k : K) : Prop := 0 <= idle_fd_ a /\ idle_fd_ a ∈ fds k.

(** What a kernel with [free] slots has the acceptor serve, and what stays
    pending: connections beyond the free slots are refused, and an error ends
    the loop unless the table is full. *)
Fixpoint accept_spec (free : nat) (l : list entry) : list InetAddress.t * list entry :=
  match l, free with
  | [], _ => ([], [])
  | inl a :: l, Datatypes.S n => let '(served, rest) := accept_spec n l in (a :: served, rest)
  | inr _ :: l, Datatypes.S _ => ([], l)
  | _ :: l, O => accept_spec 0 l
  end.

Lemma size_minus_idle a k : reserved a k -> Datatypes.S (size (fds k ∖ {[idle_fd_ a]})) = size (fds k).
Proof.
  intros [_ Hin]. rewrite size_difference by set_solver. rewrite size_singleton.
  assert (size ({[idle_fd_ a]} : gset Z) <= size (fds k))%nat as Hle by (apply subseteq_size; set_solver).
  rewrite size_singleton in Hle. lia.
Qed.

Lemma replaced_size a k idle k' :
  reserved a k -> idle ∉ fds k ∖ {[idle_fd_ a]} -> fds k' = {[idle]} ∪ (fds k ∖ {[idle_fd_ a]}) ->
  size (fds k') = size (fds k).
Proof.
  intros Hres Hi ->. rewrite size_union, size_singleton by set_solver. by rewrite <- (size_minus_idle a k Hres).
Qed.

(** One turn with a full table: the first of the pending is taken and dropped,
    and the spare descriptor is reserved again. *)
Lemma discard_one_spec a k :
  reserved a k -> size (fds k) = limit ->
  exists idle k', discard_one a k = (set_idle idle a, k') /\ 0 <= idle /\ (idle ∉ fds k ∖ {[idle_fd_ a]}) /\
    fds k' = {[idle]} ∪ (fds k ∖ {[idle_fd_ a]}) /\ backlog k' = tail (backlog k).
Proof.
  intros Hres Hsize. pose proof (size_minus_idle a k Hres) as Hs. destruct Hres as [Hpos Hin].
  unfold discard_one. btrue (0 <=? idle_fd_ a). cbn [set_idle idle_fd_ accept_socket_].
  destruct (close_open (idle_fd_ a) k Hin) as [Hf1 Hb1]. set (k1 := Socket.sys_close (idle_fd_ a) k) in *.
  set (others := fds k ∖ {[idle_fd_ a]}) in *.
  assert (Hfree : forall k', fds k' = others -> ~ full k').
  { intros k' Hk'. unfold full. rewrite Hk'. lia. }
  assert (exists k2, (match Socket.accept (accept_socket_ a) k1 with
      | (inl (tmp_fd, _), k) => Socket.sys_close tmp_fd k | (inr _, k) => k end) = k2 /\
      fds k2 = others /\ backlog k2 = tail (backlog k)) as (k2 & -> & Hf2 & Hb2).
  { unfold Socket.accept. rewrite <- Hb1. destruct (backlog k1) as [|[peer|e] l] eqn:Eb.
    - rewrite accept_empty; [|by left; apply Hfree|done]. by exists k1; rewrite Eb.
    - destruct (accept_peer (accept_socket_ a) k1 peer l (Hfree _ Hf1) Eb) as (r & k2 & -> & (Hr0 & Hr & Hf) & Hb).
      destruct (close_open r k2) as [Hf3 Hb3]; [rewrite Hf; by apply elem_of_union_l, elem_of_singleton|].
      eexists. split; [done|]. rewrite Hf3, Hb3, Hf, Hb, <- Hf1. by rewrite add_remove.
    - destruct (accept_error (accept_socket_ a) k1 e l (Hfree _ Hf1) Eb) as (k2 & -> & Hf & Hb).
      exists k2. by rewrite Hf, Hb. }
  cbn. unfold open_null. destruct (open_null_free k2 (Hfree _ Hf2)) as (r & k3 & -> & (Hr0 & Hr & Hf) & Hb).
  exists r, k3. split; [done|]. rewrite Hf2 in *. by rewrite Hb.
Qed.

(** The open descriptors, without the reserved one. *)
Definition others (a : t) (k : K) : gset Z := fds k ∖ {[idle_fd_ a]}.

(** After serving: the new descriptors are open, all others are as before, and
    one is reserved again. *)
Record served_with (served : list (Z * InetAddress.t)) (a a' : t) (k k' : K) : Prop := mkServed {
  served_nodup : NoDup served.*1;
  served_new : forall fd, fd ∈ served.*1 -> fd ∉ others a k;
  served_open : others a' k' = list_to_set served.*1 ∪ others a k;
  served_reserved : reserved a' k';
}.

Lemma served_nothing a k k' : reserved a k -> fds k' = fds k -> served_with [] a a k k'.
Proof.
  intros Hr Hf. constructor; [constructor|set_solver| |].
  - unfold others. rewrite Hf. set_solver.
  - unfold reserved in *. by rewrite Hf.
Qed.

Lemma served_step r peer served a a' k k1 k' :
  reserved a k -> gives r k k1 -> served_with served a a' k1 k' -> served_with ((r, peer) :: served) a a' k k'.
Proof.
  intros [_ Hin] (Hr0 & Hr & Hf) [Hnd Hnew Hopen Hres].
  assert (Ho : others a k1 = {[r]} ∪ others a k) by (unfold others; rewrite Hf; set_solver).
  rewrite Ho in *. constructor; [| | |done]; cbn.
  - constructor; [|done]. intros Hx. specialize (Hnew r Hx). set_solver.
  - intros fd [->|Hx]%elem_of_cons; [unfold others; set_solver|]. specialize (Hnew fd Hx). set_solver.
  - rewrite Hopen. set_solver.
Qed.

Definition transient (e : entry) : Prop :=
  match e with inl _ => True | inr e => e <> EAGAIN /\ e <> EMFILE /\ e <> ENFILE end.

(** ** The constructor *)

(** After the constructor: it owns its socket and the spare descriptor; when it
    throws, it has closed the socket only. *)
Definition constructed (k0 : K) (r : (exn + t) * K) : Prop :=
  match r with
  | (inl _, k') => exists idle, gives idle k0 k'
  | (inr a, k') => reserved a k' /\ accept_socket_ a <> idle_fd_ a /\ (accept_socket_ a ∉ fds k0) /\
      (idle_fd_ a ∉ fds k0) /\ fds k' = {[idle_fd_ a]} ∪ ({[accept_socket_ a]} ∪ fds k0)
  end.

Lemma or_throw_constructed call what fd idle k0 k next :
  fds k = {[idle]} ∪ ({[fd]} ∪ fds k0) -> 0 <= idle -> idle ∉ fds k0 -> fd ∉ fds k0 -> fd <> idle ->
  (forall k', fds k' = fds k -> constructed k0 (next k')) ->
  constructed k0 (or_throw (Socket.checked call what) fd k next).
Proof.
  intros Hf Hi Hidle Hfd Hne Hnext. unfold or_throw, Socket.checked.
  destruct (call_keeps call k) as [Hk _]. destruct (Socket.sys_call call k) as [[errno|] k1]; cbn in Hk; [|by apply Hnext].
  destruct (close_open fd k1) as [Hc _]; [rewrite Hk, Hf; set_solver|].
  exists idle. split; [done|]. split; [done|]. rewrite Hc, Hk, Hf. set_solver.
Qed.

Lemma acceptor_construct_spec addr reuse_port k :
  (size (fds k) + 2 <= limit)%nat -> constructed k (construct addr reuse_port k).
Proof.
  intros Hsize. unfold construct, Socket.createNonblockingSocket, open_null.
  destruct (socket_free k) as (fd & k1 & -> & (Hfd0 & Hfd & Hf1) & _); [unfold full; lia|].
  destruct (open_null_free k1) as (idle & k2 & -> & (Hi0 & Hi & Hf2) & _).
  { unfold full. rewrite Hf1, size_union, size_singleton by set_solver. lia. }
  rewrite Hf1 in Hi, Hf2.
  assert (Hne : fd <> idle) by set_solver. assert (Hi' : idle ∉ fds k) by set_solver.
  apply (or_throw_constructed _ _ _ idle); [done..|]. intros k3 Hf3.
  apply (or_throw_constructed _ _ _ idle); [by rewrite Hf3|done..|]. intros k4 Hf4.
  apply (or_throw_constructed _ _ _ idle); [by rewrite Hf4, Hf3|done..|]. intros k5 Hf5.
  rewrite Hf4, Hf3, Hf2 in Hf5. cbn. unfold reserved. cbn. rewrite Hf5.
  split; [split; [done|set_solver]|]. by repeat split.
Qed.

(** ** Serving *)

Context {S : Type} (callback : Z -> InetAddress.t -> S -> S).

Definition serve (served : list (Z * InetAddress.t)) (s : S) : S :=
  fold_left (fun s '(fd, peer) => callback fd peer s) served s.

(** One turn on an error that is pending, and on a full table. *)
Lemma turn_error fuel a s k e l :
  ~ full k -> backlog k = inr e :: l -> transient (inr e) ->
  exists k', handleRead (Some callback) (Datatypes.S fuel) a s k = Ret (a, s, k') /\ fds k' = fds k /\ backlog k' = l.
Proof.
  intros Hfull Eb (H1 & H2 & H3). destruct (accept_error (accept_socket_ a) k e l Hfull Eb) as (k' & Ea & Hf & Hb).
  exists k'. cbn [handleRead]. unfold Socket.accept. rewrite Ea.
  by rewrite !(proj2 (Z.eqb_neq _ _)) by done.
Qed.

Lemma turn_full fuel a s k :
  full k -> eager = true \/ backlog k <> [] ->
  handleRead (Some callback) (Datatypes.S fuel) a s k =
    let '(a, k) := discard_one a k in handleRead (Some callback) fuel a s k.
Proof. intros Hfull Hb. cbn [handleRead]. unfold Socket.accept. by rewrite accept_full. Qed.

Lemma handleRead_spec fuel a s k :
  reserved a k -> (size (fds k) <= limit)%nat -> Forall transient (backlog k) ->
  eager = false \/ (length (backlog k) < free k)%nat -> (length (backlog k) < fuel)%nat ->
  exists a' k' served, handleRead (Some callback) fuel a s k = Ret (a', serve served s, k') /\
    (served.*2, backlog k') = accept_spec (free k) (backlog k) /\ served_with served a a' k k'.
Proof.
  revert a s k. induction fuel as [|fuel IH]; intros a s k Hres Hsize Htr Heager Hfuel; [lia|].
  destruct (decide (full k)) as [Hfull|Hfull]; [unfold full in Hfull|].
  - assert (Hfree : free k = 0%nat) by (unfold free; lia). rewrite Hfree in *.
    assert (Hlim : size (fds k) = limit) by lia.
    destruct (backlog k) as [|e l] eqn:Eb.
    { exists a, k, []. cbn [handleRead]. unfold Socket.accept. rewrite accept_empty by (first [by right; destruct Heager; [|lia]|done]).
      split; [done|]. rewrite Eb. split; [done|]. by apply served_nothing. }
    rewrite turn_full by (unfold full; first [lia|by right; rewrite Eb]).
    destruct (discard_one_spec a k Hres Hlim) as (idle & k1 & -> & Hi0 & Hi & Hf1 & Hb1). rewrite Eb in Hb1. cbn in Hb1.
    assert (Hsz : size (fds k1) = limit).
    { by rewrite (replaced_size a k idle k1). }
    assert (Hoth : others (set_idle idle a) k1 = others a k) by (unfold others; cbn; rewrite Hf1; set_solver).
    destruct (IH (set_idle idle a) s k1) as (a' & k' & served & -> & Hspec & [Hnd Hnew Hopen Hr']).
    { split; [done|]. rewrite Hf1. cbn. set_solver. }
    { lia. } { rewrite Hb1. by inversion Htr. } { left. destruct Heager; [done|lia]. } { rewrite Hb1. cbn in Hfuel. lia. }
    exists a', k', served. split; [done|]. assert (free k1 = 0%nat) as Hfree1 by (unfold free; lia).
    rewrite Hspec, Hfree1, Hb1. split; [by destruct e|]. by rewrite Hoth in *.
  - destruct (free k) as [|n] eqn:En; [unfold free, full in *; lia|].
    destruct (backlog k) as [|[peer|e] l] eqn:Eb.
    + exists a, k, []. cbn [handleRead]. unfold Socket.accept. rewrite accept_empty by (first [by left|done]).
      split; [done|]. rewrite Eb. split; [done|]. by apply served_nothing.
    + destruct (accept_peer (accept_socket_ a) k peer l Hfull Eb) as (r & k1 & Ea & Hg & Hb1).
      pose proof Hg as (Hr0 & Hr & Hf1). cbn [handleRead]. unfold Socket.accept. rewrite Ea. cbn [deliver].
      assert (Hsz : size (fds k1) = Datatypes.S (size (fds k))) by (rewrite Hf1, size_union, size_singleton by set_solver; done).
      destruct (IH a (callback r peer s) k1) as (a' & k' & served & -> & Hspec & Hserved).
      { destruct Hres. split; [done|]. rewrite Hf1. set_solver. }
      { unfold full in Hfull. lia. } { rewrite Hb1. by inversion Htr. }
      { destruct Heager as [?|Hlt]; [by left|right]. rewrite Hb1. unfold free in *. cbn in Hlt. lia. }
      { rewrite Hb1. cbn in Hfuel. lia. }
      exists a', k', ((r, peer) :: served). split; [done|]. split.
      * rewrite Hb1 in Hspec. replace (free k1) with n in Hspec by (unfold free in *; lia).
        cbn. by destruct (accept_spec n l); simplify_eq.
      * by eapply served_step.
    + destruct (turn_error fuel a s k e l Hfull Eb) as (k' & -> & Hf & Hb); [by inversion Htr|].
      exists a, k', []. split; [done|]. rewrite Hb. split; [done|]. by apply served_nothing.
Qed.

(** ** A full table *)

Lemma spins fuel a s k :
  reserved a k -> size (fds k) = limit -> eager = true -> handleRead (Some callback) fuel a s k = OutOfFuel.
Proof.
  revert a k. induction fuel as [|fuel IH]; intros a k Hres Hsize He; [done|].
  rewrite turn_full by (first [by left|unfold full; lia]).
  destruct (discard_one_spec a k Hres Hsize) as (idle & k1 & -> & Hi0 & Hi & Hf1 & _).
  apply IH; [|by rewrite (replaced_size a k idle k1)|done].
  split; [done|]. rewrite Hf1. cbn. set_solver.
Qed.

End laws.

(** * A kernel for examples *)

Record table := mkTable {
  opened : gset Z;
  pending : list entry;
  bind_errno : option Z;
}.

Section table.
Context (table_limit : nat) (reports_full_first : bool).

Definition new_fd (k : table) : Z := 1 + foldr Z.max 0 (elements (opened k)).

Definition is_full (k : table) : bool := (table_limit <=? size (opened k))%nat.

Definition set_pending l k := mkTable (opened k) l (bind_errno k).

Definition give (k : table) : (Z + Z) * table :=
  if is_full k then (inr EMFILE, k)
  else (inl (new_fd k), mkTable ({[new_fd k]} ∪ opened k) (pending k) (bind_errno k)).

Definition table_kernel : Socket.Kernel table := {|
  Socket.sys_call c k :=
    match c with Socket.Bind _ _ => (bind_errno k, k) | _ => (None, k) end;
  Socket.sys_socket := give;
  Socket.sys_open_null := give;
  Socket.sys_close fd k := mkTable (opened k ∖ {[fd]}) (pending k) (bind_errno k);
  Socket.sys_accept4 _ k :=
    match pending k with
    | [] => (inr (if is_full k && reports_full_first then EMFILE else EAGAIN), k)
    | inl peer :: l =>
        match give (set_pending l k) with
        | (inl r, k') => (inl (r, peer), k')
        | (inr e, _) => (inr e, k)
        end
    | inr e :: l => if is_full k then (inr EMFILE, k) else (inr e, set_pending l k)
    end |}.

Lemma new_fd_fresh k : 0 <= new_fd k /\ (new_fd k ∉ opened k).
Proof.
  unfold new_fd. rewrite <- elem_of_elements.
  assert (H : forall l : list Z, 0 <= foldr Z.max 0 l /\ forall x, x ∈ l -> x <= foldr Z.max 0 l).
  { induction l as [|y l [IH0 IH]]; cbn; [split; [done|by intros x Hx%elem_of_nil]|].
    split; [lia|]. intros x [->|Hx]%elem_of_cons; [lia|]. specialize (IH x Hx). lia. }
  destruct (H (elements (opened k))) as [H0 Hm]. split; [lia|]. intros Hin. specialize (Hm _ Hin). lia.
Qed.

Lemma give_gives k : is_full k = false ->
  exists r k', give k = (inl r, k') /\ (0 <= r /\ (r ∉ opened k) /\ opened k' = {[r]} ∪ opened k) /\ pending k' = pending k.
Proof.
  intros Hf. unfold give. rewrite Hf. destruct (new_fd_fresh k). by eexists _, _.
Qed.

#[program] Definition table_laws : @KernelLaws table table_kernel := {|
  fds := opened; backlog := pending; limit := table_limit; eager := reports_full_first |}.
Next Obligation.
  intros fd k Hfull%Nat.leb_le [He|Hb]; cbn; unfold is_full, give; destruct (pending k) as [|[peer|e] l]; cbn;
    unfold is_full; cbn; rewrite ?Hfull, ?He; done.
Qed.
Next Obligation.
  intros fd k Hor Hb. cbn. rewrite Hb. destruct Hor as [Hf%Nat.leb_nle|He]; unfold is_full; [by rewrite Hf|].
  by rewrite He, andb_false_r.
Qed.
Next Obligation.
  intros fd k peer l Hf%Nat.leb_nle Hb. cbn. rewrite Hb.
  destruct (give_gives (set_pending l k)) as (r & k' & -> & Hg & Hp); [exact Hf|]. by exists r, k'.
Qed.
Next Obligation.
  intros fd k e l Hf%Nat.leb_nle Hb. cbn. rewrite Hb. unfold is_full. rewrite Hf. by eexists.
Qed.
Next Obligation. intros k Hf%Nat.leb_nle. by apply give_gives. Qed.
Next Obligation. intros k Hf%Nat.leb_nle. by apply give_gives. Qed.
Next Obligation. by intros [] k. Qed.
Next Obligation. done. Qed.

End table.

(** * Properties *)


(** Four connections and two free slots: the first two are served. *)
Definition four_pending : table :=
  mkTable {[3; 4; 5]} (map (fun p => inl (InetAddress.loopback p)) [1001; 1002; 1003; 1004]) None.

Lemma five_open : 5 ∈ ({[3; 4; 5]} : gset Z).
Proof. set_solver. Qed.

Definition example_acceptor : t := mk 4 (Channel.construct 4) true 5.


(** On a kernel that reports a full table before it looks at the pending
    connections, the loop never returns once the table is full: every turn
    closes the spare descriptor, finds nothing or drops a connection, and fills
    the table again. *)
Theorem overloaded_acceptor_spins `{KernelLaws K} {S} (callback : Z -> InetAddress.t -> S -> S) a s k :
  reserved a k -> size (fds k) = limit -> eager = true ->
  forall fuel, handleRead (Some callback) fuel a s k = OutOfFuel.
Proof. intros. by apply spins. Qed.

(** No connection is pending, and all three descriptors are in use. *)
Lemma overloaded_acceptor_spins_witness :
  @handleRead table (table_kernel 3 true) unit (Some (fun _ _ u => u)) 1000 example_acceptor tt (mkTable {[3; 4; 5]} [] None) =
  OutOfFuel.
Proof.
  apply (@overloaded_acceptor_spins table (table_kernel 3 true) (table_laws 3 true) unit).
  - split; [discriminate|]. exact five_open.
  - vm_compute; reflexivity.
  - reflexivity.
Defined.

(** The constructor of an acceptor returns with a socket and a spare
    descriptor that are its own, or throws after closing the socket, with the
    spare descriptor left open for good. *)
Theorem acceptor_construct_descriptors `{KernelLaws K} addr reuse_port k :
  (size (fds k) + 2 <= limit)%nat -> constructed k (construct addr reuse_port k).
Proof. apply acceptor_construct_spec. Qed.

(** The port is in use ([EADDRINUSE]). *)
Lemma acceptor_construct_descriptors_witness :
  let k := mkTable {[0; 1; 2]} [] (Some 98) in
  let r := @construct table (table_kernel 16 true) (InetAddress.construct 80) false k in
  r.1 = inl (SystemError 98 (str "bind")) /\ exists idle, (idle ∉ opened k) /\ opened r.2 = {[idle]} ∪ opened k.
Proof.
  split; [vm_compute; reflexivity|].
  assert (H := @acceptor_construct_descriptors table (table_kernel 16 true) (table_laws 16 true)
    (InetAddress.construct 80) false (mkTable {[0; 1; 2]} [] (Some 98))).
  destruct H as (idle & _ & Hi & Hf); [apply Nat.leb_le; vm_compute; reflexivity|].
  exists idle. split; [exact Hi|]. exact Hf.
Defined.

(** An error that is pending on one connection ends the loop: the connections
    behind it wait for the next one to arrive, as the socket is
    edge-triggered. *)
Theorem error_strands_connections `{KernelLaws K} {S} (callback : Z -> InetAddress.t -> S -> S) fuel a s k e l :
  ~ full k -> backlog k = inr e :: l -> transient (inr e) ->
  exists k', handleRead (Some callback) (Datatypes.S fuel) a s k = Ret (a, s, k') /\ backlog k' = l.
Proof.
  intros Hf Hb Ht. destruct (turn_error callback fuel a s k e l Hf Hb Ht) as (k' & ? & _ & ?). by exists k'.
Qed.
