(* ===== verification/TcpServer.v ===== *)
(** The TCP server: src/net/tcp_server.cpp.  Connections, loops and what is
    queued for each loop form one state, which the main thread, the loops'
    threads and the threads of the user change step by step. *)
From Stdlib Require Import ZArith Lia.
From Stdlib Require Import Strings.Byte.
From stdpp Require Import base list strings gmap.
From S2P Require Import Prelude Chars NetBuffer EventLoop TcpConnection Socket.

Module TcpServer.

(** Loops are numbered; the main loop is loop 0. *)
Definition main_loop_ : nat := 0.

Record t := mk {
  name_ : bytes;
  num_threads_ : Z;
  sub_loops_ : list nat;
  acceptor_ : bool;                  (* there is one; it listens *)
  connections_ : gmap bytes nat;
  next_conn_id_ : Z;
  next_sub_loop_index_ : Z;
}.

Definition set_sub_loops v s := mk (name_ s) (num_threads_ s) v (acceptor_ s) (connections_ s) (next_conn_id_ s) (next_sub_loop_index_ s).
Definition set_acceptor v s := mk (name_ s) (num_threads_ s) (sub_loops_ s) v (connections_ s) (next_conn_id_ s) (next_sub_loop_index_ s).
Definition set_connections v s := mk (name_ s) (num_threads_ s) (sub_loops_ s) (acceptor_ s) v (next_conn_id_ s) (next_sub_loop_index_ s).
Definition set_next_conn_id v s := mk (name_ s) (num_threads_ s) (sub_loops_ s) (acceptor_ s) (connections_ s) v (next_sub_loop_index_ s).
Definition set_next_sub_loop_index v s := mk (name_ s) (num_threads_ s) (sub_loops_ s) (acceptor_ s) (connections_ s) (next_conn_id_ s) v.

(** The constructor and [setThreadNum]. *)
Definition construct (name : bytes) : t := mk name 4 [] false ∅ 0 0.
Definition setThreadNum (num_threads : Z) (s : t) : t :=
  mk (name_ s) num_threads (sub_loops_ s) (acceptor_ s) (connections_ s) (next_conn_id_ s) (next_sub_loop_index_ s).

(** The sub loop for the next connection. *)
Definition getNextSubLoop (s : t) : nat * t :=
  if bool_decide (sub_loops_ s = []) then (main_loop_, s)
  else
    let index := next_sub_loop_index_ s mod lenZ (sub_loops_ s) in
    (nth (Z.to_nat index) (sub_loops_ s) main_loop_,
     set_next_sub_loop_index (u32 (next_sub_loop_index_ s + 1)) s).

(** [static_cast<int>(connections_.size())]. *)
Definition connectionCount (s : t) : Z := s32 (Z.of_nat (size (connections_ s))).

(** * The server with its connections *)

(** A [TcpConnection] with the members the server gives it. *)
Record conn := mkConn {
  loop_ : nat;
  name : bytes;
  tcp : TcpConnection.t;
}.

(** What the server queues for a loop. *)
Inductive functor := ConnectEstablished (p : nat) | RemoveConnection (p : nat).
#[global] Instance functor_eq_dec : EqDecision functor.
Proof. solve_decision. Defined.

Record world := mkWorld {
  server : t;
  conns : gmap nat conn;               (* the connection objects, by address *)
  functors : list (nat * functor);     (* with the loop they are queued for *)
}.

Definition set_server v w := mkWorld v (conns w) (functors w).
Definition set_functors v w := mkWorld (server w) (conns w) v.
Definition set_tcp (p : nat) (c : conn) (v : TcpConnection.t) w :=
  mkWorld (server w) (<[p := mkConn (loop_ c) (name c) v]> (conns w)) (functors w).

(** A function of the server or of a loop: it returns or throws. *)
Abbreviation result := (outcome (option Buffer.exn * world)).

Definition return_ (w : world) : result := Ret (None, w).

Definition then_ (r : result) (k : world -> result) : result :=
  let* '(thrown, w) := r in
  match thrown with
  | Some e => Ret (Some e, w)
  | None => k w
  end.

Definition queueInLoop (loop : nat) (f : functor) (w : world) : world :=
  set_functors (functors w ++ [(loop, f)]) w.

(** The calls of [close_callback_] in what a connection added to its log; each
    queues the removal on the connection's loop. *)
Definition is_close (a : TcpConnection.action) : bool := bool_decide (a = TcpConnection.CloseCb).
Definition new_closes (before after : TcpConnection.t) : nat :=
  length (List.filter is_close (drop (length (TcpConnection.log before)) (TcpConnection.log after))).

Definition close_callback_ (p : nat) (c : conn) (after : TcpConnection.t) (w : world) : world :=
  Nat.iter (new_closes (tcp c) after) (queueInLoop (loop_ c) (RemoveConnection p)) w.

(** A member function of a connection; a connection that is not there is a
    dangling pointer. *)
Definition on_conn (p : nat) (f : TcpConnection.t -> TcpConnection.result) (w : world) : result :=
  match conns w !! p with
  | None => OutOfBounds
  | Some c =>
      let* '(thrown, after) := f (tcp c) in
      Ret (thrown, close_callback_ p c after (set_tcp p c after w))
  end.

Section server.
Context `{Inet}.

(** The user's callbacks of the server, and those a user may set on a
    connection; an empty one is none. *)
Context (connection_callback message_callback write_complete_callback : option (TcpConnection.t -> TcpConnection.result)).
Context (high_water_mark_callback : option (Z -> TcpConnection.t -> TcpConnection.result)).

Abbreviation close_callback := (Some TcpConnection.return_).

Definition connectEstablished (p : nat) : world -> result :=
  on_conn p (TcpConnection.connectEstablished connection_callback).
Definition connectDestroyed (p : nat) : world -> result :=
  on_conn p (TcpConnection.connectDestroyed connection_callback).

(** * New connections *)

(** [name_ + ":" + peer_addr.toIpPort() + "#" + std::to_string(conn_id)]. *)
Definition conn_name (server_name peer : bytes) (conn_id : Z) : bytes :=
  server_name ++ [x3a] ++ peer ++ [x23] ++ Chars.to_string conn_id.

(** On the main thread.  [p] is the new object, [tcp] what its constructor
    makes of the descriptor.  The main loop runs [connectEstablished] at once. *)
Definition onNewConnection (p : nat) (tcp : TcpConnection.t) (peer_addr : InetAddress.t) (w : world) : result :=
  let '(io_loop, s) := getNextSubLoop (server w) in
  let conn_id := next_conn_id_ s in
  let s := set_next_conn_id (u32 (conn_id + 1)) s in
  let name := conn_name (name_ s) (InetAddress.toIpPort peer_addr) conn_id in
  let w := mkWorld (set_connections (<[name := p]> (connections_ s)) s)
                   (<[p := mkConn io_loop name tcp]> (conns w)) (functors w) in
  if (io_loop =? main_loop_)%nat then connectEstablished p w
  else return_ (queueInLoop io_loop (ConnectEstablished p) w).

(** * Removal *)

(** On the connection's loop, whose [runInLoop] calls at once. *)
Definition removeConnectionInLoop (p : nat) (w : world) : result :=
  match conns w !! p with
  | None => OutOfBounds
  | Some c =>
      match connections_ (server w) !! name c with
      | Some q =>
          if (q =? p)%nat then
            connectDestroyed p (set_server (set_connections (delete (name c) (connections_ (server w))) (server w)) w)
          else return_ w
      | None => return_ w
      end
  end.

(** * start and stop *)

Definition start (w : world) : world :=
  set_server (set_acceptor true (set_sub_loops (seq 1 (Z.to_nat (num_threads_ (server w)))) (server w))) w.

(** The assertions of [start]. *)
Definition start_asserts (w : world) : bool :=
  negb (acceptor_ (server w)) && bool_decide (sub_loops_ (server w) = []).

(** [stop] up to the joins: no more connections arrive. *)
Definition stop_begin (w : world) : world := set_server (set_acceptor false (server w)) w.

(** The loop over the connections, those of the main loop being destroyed. *)
Fixpoint destroy_main (l : list nat) (w : world) : result :=
  match l with
  | [] => return_ w
  | p :: l =>
      match conns w !! p with
      | None => OutOfBounds
      | Some c =>
          then_ (if (loop_ c =? main_loop_)%nat then connectDestroyed p w else return_ w) (destroy_main l)
      end
  end.

(** [stop] after the joins: the sub loops are gone. *)
Definition stop_end (w : world) : result :=
  let w := set_server (set_sub_loops [] (server w)) w in
  then_ (destroy_main (map_to_list (connections_ (server w))).*2 w) (fun w =>
  return_ (set_server (set_connections ∅ (server w)) w)).

(** The destructor; there are threads as long as there are sub loops. *)
Definition destroy (w : world) : result :=
  if bool_decide (sub_loops_ (server w) = []) then return_ w else stop_end (stop_begin w).

(** * Loops *)

(** The first functor queued for a loop, and the others. *)
Fixpoint pop (loop : nat) (l : list (nat * functor)) : option (functor * list (nat * functor)) :=
  match l with
  | [] => None
  | (loop', f) :: l =>
      if (loop' =? loop)%nat then Some (f, l)
      else match pop loop l with Some (g, l) => Some (g, (loop', f) :: l) | None => None end
  end.

Definition run_functor (f : functor) : world -> result :=
  match f with
  | ConnectEstablished p => connectEstablished p
  | RemoveConnection p => removeConnectionInLoop p
  end.

(** [Channel::handleEvent] with the callbacks the connection's constructor set;
    the read handler finds [chunks] and then [last]. *)
Definition handleEvent (revents : Z) (chunks : list bytes) (last : TcpConnection.read_end)
    (c : TcpConnection.t) : TcpConnection.result :=
  let op cb :=
    match cb with
    | Channel.ReadCallback => TcpConnection.HandleRead chunks last
    | Channel.WriteCallback => TcpConnection.HandleWrite
    | Channel.CloseCallback => TcpConnection.HandleClose
    | Channel.ErrorCallback => TcpConnection.HandleError
    end in
  let ch := Channel.set_revents revents (TcpConnection.channel_ c) in
  TcpConnection.run_ops connection_callback message_callback write_complete_callback close_callback
    high_water_mark_callback (op <$> Channel.handleEvent (fun _ => true) ch) (TcpConnection.set_channel ch c).

(** * Steps *)

Inductive event :=
  | NewConnection (p : nat) (tcp : TcpConnection.t) (peer_addr : InetAddress.t)
  | RunFunctor (loop : nat)
  | Ready (p : nat) (revents : Z) (chunks : list bytes) (last : TcpConnection.read_end)
  | Call (p : nat) (o : TcpConnection.op)
  | StopBegin
  | StopEnd.

(** A loop whose thread runs. *)
Definition alive (loop : nat) (w : world) : bool :=
  (loop =? main_loop_)%nat || bool_decide (loop ∈ sub_loops_ (server w)).

(** What a user does with a connection, or the loop with what was queued by
    these calls. *)
Definition user_op (o : TcpConnection.op) : bool :=
  match o with
  | TcpConnection.Send _ _ | TcpConnection.SendInput _ | TcpConnection.Shutdown _
  | TcpConnection.ForceClose _ | TcpConnection.RunFunctor => true
  | _ => false
  end.

(** One step; none when it is not possible: the acceptor is gone, the object
    exists, nothing is queued, or the loop is gone.  Users know a connection
    from its first notification on. *)
Definition step (w : world) (e : event) : option result :=
  match e with
  | NewConnection p tcp peer_addr =>
      if acceptor_ (server w) && bool_decide (conns w !! p = None) then Some (onNewConnection p tcp peer_addr w)
      else None
  | RunFunctor loop =>
      if alive loop w then
        match pop loop (functors w) with
        | Some (f, l) => Some (run_functor f (set_functors l w))
        | None => None
        end
      else None
  | Ready p revents chunks last =>
      match conns w !! p with
      | Some c =>
          if alive (loop_ c) w && negb (Channel.isNoneEvent (TcpConnection.channel_ (tcp c))) then
            Some (on_conn p (handleEvent revents chunks last) w)
          else None
      | None => None
      end
  | Call p o =>
      match conns w !! p with
      | Some c =>
          if alive (loop_ c) w && user_op o &&
             negb (TcpConnection.is_state TcpConnection.kConnecting (tcp c)) then
            Some (on_conn p (TcpConnection.run_op connection_callback message_callback write_complete_callback
                               close_callback high_water_mark_callback o) w)
          else None
      | None => None
      end
  | StopBegin => if acceptor_ (server w) then Some (return_ (stop_begin w)) else None
  | StopEnd => if acceptor_ (server w) then None else Some (stop_end w)
  end.

Definition init (name : bytes) (num_threads : Z) : world :=
  start (mkWorld (setThreadNum num_threads (construct name)) ∅ []).

(** A thread that leaves its loop with an exception ends the program. *)
Fixpoint run (w : world) (es : list event) : option result :=
  match es with
  | [] => Some (return_ w)
  | e :: es =>
      match step w e with
      | Some (Ret (None, w)) => run w es
      | r => r
      end
  end.

End server.
End TcpServer.
