(* ===== verification/TcpServerFacts.v ===== *)
(** Theorems about the TCP server: the life of its connections under every
    interleaving, the table of connections, and the distribution to loops. *)
From Stdlib Require Import ZArith Lia.
From Stdlib Require Import Strings.Byte.
From stdpp Require Import base list strings gmap.
From S2P Require Import Prelude Chars NetBuffer EventLoop TcpConnection TcpConnectionFacts TcpConnectionLife Socket SocketFacts TcpServer.
Import TcpServer.

Abbreviation up := (TcpConnection.ConnectionCb TcpConnection.kConnected).
Abbreviation down := (TcpConnection.ConnectionCb TcpConnection.kDisconnected).

(** * Names *)

Lemma digits_no_hash n : 0 <= n -> x23 ∉ Chars.to_string n.
Proof.
  intros Hn. rewrite Chars.to_string_digits by done. destruct (Chars.digits_spec n Hn) as (Hd & _).
  rewrite Forall_forall in Hd. intros Hin. by specialize (Hd _ Hin).
Qed.

Lemma digits_inj a b : 0 <= a -> 0 <= b -> Chars.to_string a = Chars.to_string b -> a = b.
Proof.
  intros Ha Hb. rewrite !Chars.to_string_digits by done. intros E.
  destruct (Chars.digits_spec a Ha) as (_ & _ & Hva & _). destruct (Chars.digits_spec b Hb) as (_ & _ & Hvb & _).
  by rewrite <- Hva, <- Hvb, E.
Qed.

(** What follows the last separator is determined. *)
Lemma last_part {A} (x : A) l l' r r' : x ∉ r -> x ∉ r' -> l ++ x :: r = l' ++ x :: r' -> r = r'.
Proof.
  intros Hr Hr' E. apply app_eq_app in E as (k & [[-> E]|[-> E]]).
  - destruct k as [|y k]; cbn in E; [congruence|]. injection E as -> E. destruct Hr'. rewrite E. set_solver.
  - destruct k as [|y k]; cbn in E; [congruence|]. injection E as -> E. destruct Hr. rewrite E. set_solver.
Qed.

Lemma conn_name_id name peer peer' i j :
  0 <= i -> 0 <= j -> conn_name name peer i = conn_name name peer' j -> i = j.
Proof.
  intros Hi Hj E. unfold conn_name in E. apply digits_inj; [done..|].
  apply (last_part x23 (name ++ [x3a] ++ peer) (name ++ [x3a] ++ peer')); [by apply digits_no_hash..|].
  rewrite <- !app_assoc. exact E.
Qed.

(** * Queued functors *)

Definition queued (g : functor) (l : list (nat * functor)) : nat :=
  length (List.filter (fun x => bool_decide (x.2 = g)) l).

Lemma queued_app g l k : queued g (l ++ k) = (queued g l + queued g k)%nat.
Proof. unfold queued. by rewrite List.filter_app, length_app. Qed.

Lemma queued_in g l : (0 < queued g l)%nat <-> exists loop, (loop, g) ∈ l.
Proof.
  unfold queued. induction l as [|[loop f] l IH]; cbn.
  { split; [lia|]. by intros [? ?%elem_of_nil]. }
  case_bool_decide as E; cbn in E |- *.
  - subst. split; [intros _; exists loop; by left|lia].
  - rewrite IH. split; intros [loop' Hin]; exists loop'; [by right|]. apply elem_of_cons in Hin as [[=]|Hin]; [congruence|done].
Qed.

Lemma pop_spec loop l f l' :
  pop loop l = Some (f, l') -> (loop, f) ∈ l /\ l ≡ₚ (loop, f) :: l'.
Proof.
  revert l'. induction l as [|[loop' g] l IH]; intros l'; cbn; [done|].
  destruct (loop' =? loop)%nat eqn:E; breflect.
  - intros [= -> ->]. subst. split; [by left|done].
  - destruct (pop loop l) as [[g' k]|]; [|done]. intros [= -> <-]. destruct (IH k eq_refl) as [Hin Hp].
    split; [by right|]. rewrite Hp. by apply perm_swap.
Qed.

Lemma queued_perm g l k : l ≡ₚ k -> queued g l = queued g k.
Proof.
  unfold queued. induction 1 as [|[? ?] ? ? _ IH|[? ?] [? ?]|]; cbn; repeat case_bool_decide; cbn; congruence.
Qed.

(** The functor that was taken is queued once less, others as before. *)
Lemma queued_pop loop l f l' g :
  pop loop l = Some (f, l') -> queued g l = ((if bool_decide (f = g) then 1 else 0) + queued g l')%nat.
Proof.
  intros [_ Hp]%pop_spec. rewrite (queued_perm g l _ Hp). unfold queued. cbn. by case_bool_decide.
Qed.

Lemma close_callback_functors p c after w :
  functors (close_callback_ p c after w) =
    functors w ++ replicate (new_closes (tcp c) after) (loop_ c, RemoveConnection p) /\
  conns (close_callback_ p c after w) = conns w /\ server (close_callback_ p c after w) = server w.
Proof.
  unfold close_callback_. induction (new_closes (tcp c) after) as [|n IH]; [by rewrite app_nil_r|].
  rewrite Nat.iter_succ. set (w1 := Nat.iter n _ w) in *. destruct IH as (IH1 & IH2 & IH3).
  cbn [queueInLoop set_functors functors conns server]. rewrite IH1, IH2, IH3.
  split; [|done]. rewrite <- app_assoc. f_equal. by rewrite <- replicate_S_end.
Qed.

Lemma queued_replicate g n loop f : queued g (replicate n (loop, f)) = if bool_decide (f = g) then n else 0%nat.
Proof.
  unfold queued. induction n as [|n IH]; cbn; [by case_bool_decide|].
  case_bool_decide; cbn; [by rewrite IH|exact IH].
Qed.

Lemma new_closes_spec before after :
  TcpConnection.log before `prefix_of` TcpConnection.log after ->
  close_calls after = (close_calls before + new_closes before after)%nat.
Proof.
  intros [l E]. unfold new_closes, close_calls, is_close. rewrite E, drop_app_length. by rewrite List.filter_app, length_app.
Qed.

(** * The life of one connection *)

Section life.
Context (connection_callback : TcpConnection.t -> TcpConnection.result).
Context (message_callback write_complete_callback : option (TcpConnection.t -> TcpConnection.result)).
Context (high_water_mark_callback : option (Z -> TcpConnection.t -> TcpConnection.result)).
Context (Hkeep : callbacks_keep (Some connection_callback) message_callback write_complete_callback
                   (Some TcpConnection.return_) high_water_mark_callback).
Context (Hevolve : callbacks_evolve (Some connection_callback) message_callback write_complete_callback
                     high_water_mark_callback).

Inductive stage := Connecting | Open | Closing | Gone.

(** A stage, with the number of queued [ConnectEstablished] and
    [RemoveConnection] and whether the table has the connection; [stopped] after
    [stop], which empties the table. *)
Definition stage_ok (stopped : bool) (loop : nat) (c : TcpConnection.t) (e r : nat) (in_table : Prop) (s : stage) : Prop :=
  match s with
  | Connecting => TcpConnection.state_ c = TcpConnection.kConnecting /\ notified c = [] /\ e = 1%nat /\ r = 0%nat /\
      loop <> main_loop_ /\ Channel.events_ (TcpConnection.channel_ c) = 0
  | Open => (TcpConnection.state_ c = TcpConnection.kConnected \/ TcpConnection.state_ c = TcpConnection.kDisconnecting) /\
      notified c = [up] /\ e = 0%nat /\ r = 0%nat
  | Closing => TcpConnection.state_ c = TcpConnection.kDisconnected /\ notified c = [up] /\ e = 0%nat /\ r = 1%nat
  | Gone => TcpConnection.state_ c = TcpConnection.kDisconnected /\ notified c = [up; down] /\ e = 0%nat /\
      (r <= if stopped then 1 else 0)%nat
  end /\
  if stopped then ~ in_table /\ (loop = main_loop_ -> s = Gone)
  else (in_table <-> s <> Gone).

Definition conn_ok (stopped : bool) (loop : nat) (c : TcpConnection.t) (e r : nat) (in_table : Prop) : Prop :=
  wf c /\ exists s, stage_ok stopped loop c e r in_table s.

Lemma conn_ok_table stopped loop c e r (P Q : Prop) :
  (P <-> Q) -> conn_ok stopped loop c e r P -> conn_ok stopped loop c e r Q.
Proof.
  intros HPQ [Hwf (s & Hs & Ht)]. split; [done|]. exists s. split; [done|]. destruct stopped; rewrite <- HPQ; exact Ht.
Qed.

(** A user's operation or a ready event: it may close the connection, which
    queues the removal. *)
Lemma conn_ok_evolves stopped loop c c' e r P :
  conn_ok stopped loop c e r P -> TcpConnection.state_ c <> TcpConnection.kConnecting -> evolves c c' -> wf c' ->
  conn_ok stopped loop c' e (r + new_closes c c') P.
Proof.
  intros [_ (s & Hs & Ht)] Hne [Hlog Hn Hcon Hcl Hd] Hwf. split; [done|].
  rewrite (new_closes_spec c c' Hlog) in Hcl.
  destruct s; cbn in Hs; destruct Hs as (Hst & Hnot & He & Hr).
  - congruence.
  - specialize (Hcon Hne). destruct (TcpConnection.is_state TcpConnection.kDisconnected c') eqn:E.
    + assert (E0 : TcpConnection.is_state TcpConnection.kDisconnected c = false)
        by (apply bool_decide_eq_false; destruct Hst; congruence).
      rewrite E0 in Hcl. cbn in Hcl. apply is_state_true in E.
      exists Closing. split; [cbn; rewrite Hn; repeat split; try done; lia|].
      destruct stopped; [|rewrite Ht; done]. destruct Ht as [Ht1 Ht2]. split; [done|]. intros Hm. by specialize (Ht2 Hm).
    + cbn in Hcl. apply bool_decide_eq_false in E. exists Open. split; [cbn; rewrite Hn; repeat split; try done; try lia|done].
      destruct (TcpConnection.state_ c'); try done; [by left|by right].
  - specialize (Hd Hst). exists Closing. split; [cbn; rewrite Hn; repeat split; try done|done].
    unfold TcpConnection.is_state in Hcl. rewrite Hd, Hst, bool_decide_true in Hcl by done. cbn in Hcl. lia.
  - specialize (Hd Hst). exists Gone. split; [cbn; rewrite Hn; repeat split; try done|done].
    unfold TcpConnection.is_state in Hcl. rewrite Hd, Hst, bool_decide_true in Hcl by done. cbn in Hcl. lia.
Qed.

Lemma after_cb a s c c' :
  a = TcpConnection.ConnectionCb s -> s <> TcpConnection.kConnecting ->
  (exists c1, TcpConnection.log c1 = TcpConnection.log c ++ [a] /\ TcpConnection.state_ c1 = s /\ evolves c1 c') ->
  notified c' = notified c ++ [a] /\ TcpConnection.state_ c' <> TcpConnection.kConnecting /\
  (s = TcpConnection.kDisconnected -> TcpConnection.state_ c' = TcpConnection.kDisconnected) /\
  new_closes c c' =
    (if TcpConnection.is_state TcpConnection.kDisconnected c' && negb (bool_decide (s = TcpConnection.kDisconnected))
     then 1 else 0)%nat.
Proof.
  intros -> Hs (c1 & Hl & Hst & [Hlog Hn Hcon Hcl Hd]). split_and!.
  - rewrite Hn. unfold notified. by rewrite Hl, List.filter_app.
  - apply Hcon. congruence.
  - intros ->. auto.
  - assert (Hp : TcpConnection.log c `prefix_of` TcpConnection.log c') by (etrans; [|exact Hlog]; rewrite Hl; by apply prefix_app_r).
    pose proof (new_closes_spec c c' Hp) as Hk.
    assert (Hk1 : close_calls c1 = close_calls c).
    { unfold close_calls. rewrite Hl, List.filter_app. cbn. by rewrite app_nil_r. }
    unfold TcpConnection.is_state in *. rewrite Hst in Hcl. lia.
Qed.

Abbreviation established := (TcpConnection.connectEstablished (Some connection_callback)).
Abbreviation destroyed := (TcpConnection.connectDestroyed (Some connection_callback)).

(** The calls return or throw; when they return, this is the next stage. *)
Lemma established_ok (stopped : bool) loop c (P : Prop) :
  wf c -> TcpConnection.state_ c = TcpConnection.kConnecting -> notified c = [] ->
  (if stopped then ~ P /\ loop <> main_loop_ else P) ->
  exists (thrown : option Buffer.exn) c', established c = Ret (thrown, c') /\
    (thrown = None -> conn_ok stopped loop c' 0 (new_closes c c') P).
Proof.
  intros Hwf Hst Hn HP. destruct (connectEstablished_keeps _ _ _ _ _ Hkeep c Hwf Hst) as (thrown & c' & Hr & Hwf').
  exists thrown, c'. split; [done|]. intros ->. specialize (Hwf' eq_refl).
  pose proof (connectEstablished_ev _ _ _ _ Hevolve connection_callback eq_refl c) as Hev. rewrite Hr in Hev.
  destruct (after_cb up TcpConnection.kConnected c c' eq_refl) as (Hn' & Hne & _ & Hk); [done|exact Hev|].
  rewrite Hn in Hn'. split; [done|]. destruct (TcpConnection.is_state TcpConnection.kDisconnected c') eqn:E; cbn in Hk.
  - apply is_state_true in E. exists Closing. split; [by repeat split|].
    destruct stopped; [destruct HP; split; [done|]; intros; done|done].
  - apply bool_decide_eq_false in E. exists Open. split.
    + repeat split; try done. destruct (TcpConnection.state_ c'); try done; [by left|by right].
    + destruct stopped; [destruct HP; split; [done|]; intros; done|done].
Qed.

Lemma destroyed_ok c :
  wf c -> notified c = [up] ->
  exists (thrown : option Buffer.exn) c', destroyed c = Ret (thrown, c') /\
    (thrown = None -> wf c' /\ TcpConnection.state_ c' = TcpConnection.kDisconnected /\ notified c' = [up; down] /\
       new_closes c c' = 0%nat).
Proof.
  intros Hwf Hn. destruct (connectDestroyed_keeps _ _ _ _ _ Hkeep c Hwf) as (thrown & c' & Hr & Hwf').
  exists thrown, c'. split; [done|]. intros ->. split; [by apply Hwf'|].
  pose proof (connectDestroyed_ev _ _ _ _ Hevolve connection_callback eq_refl c) as Hev. rewrite Hr in Hev.
  destruct (after_cb down TcpConnection.kDisconnected c c' eq_refl) as (Hn' & _ & Hd & Hk); [done|exact Hev|].
  rewrite Hn in Hn'. split; [by apply Hd|]. split; [done|]. rewrite Hk. by rewrite andb_false_r.
Qed.

(** * The invariant *)

Definition in_table (w : world) (p : nat) (c : conn) : Prop := connections_ (server w) !! name c = Some p.

Definition known (w : world) (p : nat) (c : conn) (b : bool) : Prop :=
  conn_ok b (loop_ c) (tcp c) (queued (ConnectEstablished p) (functors w)) (queued (RemoveConnection p) (functors w))
    (in_table w p c).

Definition subject (g : functor) : nat := match g with ConnectEstablished p | RemoveConnection p => p end.

(** What does not change with the stages. *)
Record frame (w : world) : Prop := mkFrame {
  fr_functors : forall loop g, (loop, g) ∈ functors w -> exists c, conns w !! subject g = Some c /\ loop = loop_ c;
  fr_table : forall n p, connections_ (server w) !! n = Some p -> exists c, conns w !! p = Some c /\ name c = n;
  fr_distinct : forall p q c d, conns w !! p = Some c -> conns w !! q = Some d -> name c = name d -> p = q;
  fr_ids : forall p c, conns w !! p = Some c ->
    exists peer id, name c = conn_name (name_ (server w)) peer id /\ 0 <= id < Z.of_nat (size (conns w));
  fr_next : next_conn_id_ (server w) = u32 (Z.of_nat (size (conns w)));
}.

Record inv (b : bool) (w : world) : Prop := mkInv {
  inv_frame : frame w;
  inv_known : forall p c, conns w !! p = Some c -> known w p c b;
  inv_stopped : b = true -> acceptor_ (server w) = false /\ sub_loops_ (server w) = [];
  inv_alive : b = false -> forall p c, conns w !! p = Some c -> alive (loop_ c) w = true;
}.

(** The state after the members of a connection ran. *)
Definition updated (p : nat) (c : conn) (after : TcpConnection.t) (w : world) : world :=
  close_callback_ p c after (set_tcp p c after w).

Lemma updated_functors p c after w :
  functors (updated p c after w) = functors w ++ replicate (new_closes (tcp c) after) (loop_ c, RemoveConnection p).
Proof. apply (close_callback_functors p c after (set_tcp p c after w)). Qed.

Lemma updated_conns p c after w :
  conns (updated p c after w) = <[p := mkConn (loop_ c) (name c) after]> (conns w).
Proof. apply (close_callback_functors p c after (set_tcp p c after w)). Qed.

Lemma updated_server p c after w : server (updated p c after w) = server w.
Proof. apply (close_callback_functors p c after (set_tcp p c after w)). Qed.

Lemma on_conn_updated p f w c :
  conns w !! p = Some c ->
  on_conn p f w = (let* '(thrown, after) := f (tcp c) in Ret (thrown, updated p c after w)).
Proof. intros Hp. unfold on_conn. by rewrite Hp. Qed.

Lemma size_updated (m : gmap nat conn) p c c' : m !! p = Some c -> size (<[p := c']> m) = size m.
Proof. intros Hp. apply map_size_insert_Some. by rewrite Hp. Qed.

Lemma frame_updated p c after w : conns w !! p = Some c -> frame w -> frame (updated p c after w).
Proof.
  intros Hp [Hf Ht Hd Hi Hn]. constructor; rewrite ?updated_server, ?updated_conns, ?(size_updated _ _ c) by done; try done.
  - intros loop g. rewrite updated_functors, elem_of_app. intros [Hin|Hin].
    + destruct (Hf loop g Hin) as (d & Hd' & ->). destruct (decide (subject g = p)) as [E|Hne].
      * rewrite E in *. rewrite lookup_insert_eq. eexists. split; [done|]. cbn. congruence.
      * rewrite lookup_insert_ne by done. by exists d.
    + apply elem_of_replicate in Hin as [[= -> ->] _]. cbn. rewrite lookup_insert_eq. by eexists.
  - intros n q Hq. destruct (Ht n q Hq) as (d & Hd' & <-). destruct (decide (q = p)) as [->|Hne].
    + rewrite lookup_insert_eq. eexists. split; [done|]. cbn. congruence.
    + rewrite lookup_insert_ne by done. by exists d.
  - intros q q' d d' H1 H2 E.
    assert (Hback : forall x y, <[p := mkConn (loop_ c) (name c) after]> (conns w) !! x = Some y ->
      exists z, conns w !! x = Some z /\ name z = name y).
    { intros x y. destruct (decide (x = p)) as [->|Hne]; [rewrite lookup_insert_eq; intros [= <-]; by exists c|].
      rewrite lookup_insert_ne by done. intros. by exists y. }
    destruct (Hback _ _ H1) as (z & Hz & E1). destruct (Hback _ _ H2) as (z' & Hz' & E2). apply (Hd q q' z z'); congruence.
  - intros q d. destruct (decide (q = p)) as [->|Hne].
    + rewrite lookup_insert_eq. intros [= <-]. by apply (Hi p c).
    + rewrite lookup_insert_ne by done. apply Hi.
Qed.

(** The counts for another connection do not change. *)
Lemma queued_updated g p c after w :
  queued g (functors (updated p c after w)) =
  (queued g (functors w) + if bool_decide (RemoveConnection p = g) then new_closes (tcp c) after else 0)%nat.
Proof. by rewrite updated_functors, queued_app, queued_replicate. Qed.

Lemma known_other p c after w q d b :
  q <> p -> known w q d b -> known (updated p c after w) q d b.
Proof.
  intros Hne. unfold known, in_table. rewrite !queued_updated, updated_server, !bool_decide_false by congruence.
  by rewrite !Nat.add_0_r.
Qed.

Lemma known_self p c after w b :
  conn_ok b (loop_ c) after (queued (ConnectEstablished p) (functors w))
    (queued (RemoveConnection p) (functors w) + new_closes (tcp c) after) (in_table w p c) ->
  known (updated p c after w) p (mkConn (loop_ c) (name c) after) b.
Proof.
  unfold known, in_table. cbn. rewrite !queued_updated, updated_server, bool_decide_false, bool_decide_true by done.
  by rewrite Nat.add_0_r.
Qed.

(** * Steps *)

(** The invariant, except for what concerns the connection [p]. *)
Record inv_but (b : bool) (p : nat) (w : world) : Prop := mkInvBut {
  but_frame : frame w;
  but_known : forall q c, q <> p -> conns w !! q = Some c -> known w q c b;
  but_stopped : b = true -> acceptor_ (server w) = false /\ sub_loops_ (server w) = [];
  but_alive : b = false -> forall p c, conns w !! p = Some c -> alive (loop_ c) w = true;
}.

Lemma inv_inv_but b p w : inv b w -> inv_but b p w.
Proof. intros [H1 H2 H3 H4]. constructor; auto. Qed.

Lemma inv_but_inv b p w c : conns w !! p = Some c -> known w p c b -> inv_but b p w -> inv b w.
Proof.
  intros Hp Hk [H1 H2 H3 H4]. constructor; [done| |done|done].
  intros q d Hq. destruct (decide (q = p)) as [->|Hne]; [|by apply H2]. congruence.
Qed.

(** A result that keeps the invariant, unless an exception ends the program. *)
Definition fine (b : bool) (r : result) : Prop :=
  exists thrown w', r = Ret (thrown, w') /\ (thrown = None -> inv b w').

Lemma fine_return b w : inv b w -> fine b (return_ w).
Proof. intros H. by exists None, w. Qed.

(** The members of a connection, when they leave it in a stage that fits. *)
Lemma fine_on_conn b p f w c :
  inv_but b p w -> conns w !! p = Some c ->
  (exists (thrown : option Buffer.exn) c', f (tcp c) = Ret (thrown, c') /\
     (thrown = None ->
      conn_ok b (loop_ c) c' (queued (ConnectEstablished p) (functors w))
        (queued (RemoveConnection p) (functors w) + new_closes (tcp c) c') (in_table w p c))) ->
  fine b (on_conn p f w).
Proof.
  intros [Hfr Hk Hs Ha] Hp (thrown & c' & Hf & Hok). rewrite (on_conn_updated p f w c Hp), Hf. cbn [mbind outcome_bind].
  eexists _, _. split; [done|]. intros ->. specialize (Hok eq_refl).
  apply (inv_but_inv b p _ (mkConn (loop_ c) (name c) c')).
  - rewrite updated_conns. by rewrite lookup_insert_eq.
  - by apply known_self.
  - constructor.
    + by apply frame_updated.
    + intros q d Hne. rewrite updated_conns, lookup_insert_ne by done. intros Hq. apply known_other; [done|by apply Hk].
    + by rewrite updated_server.
    + intros Hb q d. unfold alive. rewrite updated_conns, updated_server. destruct (decide (q = p)) as [->|Hne].
      * rewrite lookup_insert_eq. intros [= <-]. by apply (Ha Hb p c).
      * rewrite lookup_insert_ne by done. by apply (Ha Hb).
Qed.

(** A call that keeps and evolves the connection. *)
Lemma fine_evolves b p f w c :
  inv b w -> conns w !! p = Some c -> TcpConnection.state_ (tcp c) <> TcpConnection.kConnecting ->
  good (f (tcp c)) -> ev (tcp c) (f (tcp c)) -> fine b (on_conn p f w).
Proof.
  intros Hinv Hp Hne (thrown & c' & Hf & Hwf) Hev. apply (fine_on_conn b p f w c); [by apply inv_inv_but|done|].
  exists thrown, c'. split; [done|]. intros ->. rewrite Hf in Hev.
  eapply conn_ok_evolves; [by apply (inv_known b w Hinv)|done|done|by apply Hwf].
Qed.

Lemma known_stage w p c b : known w p c b -> wf (tcp c) /\ exists s,
  stage_ok b (loop_ c) (tcp c) (queued (ConnectEstablished p) (functors w)) (queued (RemoveConnection p) (functors w))
    (in_table w p c) s.
Proof. done. Qed.

(** ** Functors *)

Lemma frame_fewer l w : (forall x, x ∈ l -> x ∈ functors w) -> frame w -> frame (set_functors l w).
Proof. intros Hl [Hf Ht Hd Hi Hn]. constructor; try done. intros loop g Hin. by apply Hf, Hl. Qed.

Lemma inv_popped b loop f l w :
  inv b w -> pop loop (functors w) = Some (f, l) -> inv_but b (subject f) (set_functors l w).
Proof.
  intros [Hfr Hk Hs Ha] Hpop. pose proof (pop_spec _ _ _ _ Hpop) as [_ Hperm]. constructor; [|clear Hs Ha|exact Hs|exact Ha].
  - apply frame_fewer; [|done]. intros x Hx. rewrite Hperm. by right.
  - intros q d Hne Hq. specialize (Hk q d Hq). unfold known in *.
    rewrite !(queued_pop loop (functors w) f l) in Hk by done.
    rewrite !bool_decide_false in Hk by (intros ->; by apply Hne). exact Hk.
Qed.

Lemma fine_established b loop p l w :
  inv b w -> pop loop (functors w) = Some (ConnectEstablished p, l) ->
  fine b (connectEstablished (Some connection_callback) p (set_functors l w)).
Proof.
  intros Hinv Hpop. pose proof (inv_popped _ _ _ _ _ Hinv Hpop) as Hbut. pose proof (pop_spec _ _ _ _ Hpop) as [Hin _].
  destruct (fr_functors w (inv_frame b w Hinv) _ _ Hin) as (c & Hp & _). cbn in Hp, Hbut.
  destruct (known_stage _ _ _ _ (inv_known b w Hinv p c Hp)) as (Hwf & s & Hs & Ht).
  rewrite !(queued_pop loop (functors w) _ l _ Hpop), bool_decide_true, bool_decide_false in Hs by done.
  destruct s; cbn in Hs; try (exfalso; lia). destruct Hs as (Hst & Hn & He & Hr & Hl & _).
  eapply fine_on_conn; [exact Hbut|exact Hp|].
  destruct (established_ok b (loop_ c) (tcp c) (in_table w p c) Hwf Hst Hn) as (thrown & c' & Hf & Hok).
  { destruct b; [by destruct Ht|by apply Ht]. }
  exists thrown, c'. split; [done|]. intros Hnone. cbn [functors set_functors].
  replace (queued _ l) with 0%nat by lia. replace (queued (RemoveConnection p) l) with 0%nat by lia. by apply Hok.
Qed.

(** Taking a connection from the table. *)
Lemma inv_but_removed p c w :
  conns w !! p = Some c -> inv_but false p w ->
  inv_but false p (set_server (set_connections (delete (name c) (connections_ (server w))) (server w)) w).
Proof.
  intros Hp [[Hf Ht Hd Hi Hn] Hk Hs Ha]. constructor; try done.
  - constructor; try done. cbn. intros n q [_ Hq]%lookup_delete_Some. by apply Ht.
  - intros q d Hne Hq. eapply conn_ok_table; [|exact (Hk q d Hne Hq)]. unfold in_table. cbn.
    rewrite lookup_delete_ne; [done|]. intros E. apply Hne. by apply (Hd q p d c).
Qed.

Lemma fine_removed b loop p l w :
  inv b w -> alive loop w = true -> pop loop (functors w) = Some (RemoveConnection p, l) ->
  fine b (removeConnectionInLoop (Some connection_callback) p (set_functors l w)).
Proof.
  intros Hinv Halive Hpop. pose proof (inv_popped _ _ _ _ _ Hinv Hpop) as Hbut. pose proof (pop_spec _ _ _ _ Hpop) as [Hin _].
  destruct (fr_functors w (inv_frame b w Hinv) _ _ Hin) as (c & Hp & ->). cbn in Hp, Hbut.
  destruct (known_stage _ _ _ _ (inv_known b w Hinv p c Hp)) as (Hwf & s & Hs & Ht).
  rewrite !(queued_pop (loop_ c) (functors w) _ l _ Hpop), bool_decide_false, bool_decide_true in Hs by done.
  unfold removeConnectionInLoop. cbn [conns set_functors server]. rewrite Hp. destruct b.
  - (* after stop: only the main loop runs, whose connections are gone *)
    destruct Ht as [Ht1 Ht2]. destruct (inv_stopped _ _ Hinv eq_refl) as [_ Hsub].
    assert (Hmain : loop_ c = main_loop_).
    { unfold alive in Halive. rewrite Hsub in Halive. apply orb_true_iff in Halive as [Hm|Hm]; breflect; [done|].
      by apply bool_decide_eq_true, elem_of_nil in Hm. }
    rewrite (Ht2 Hmain) in Hs. destruct Hs as (Hst & Hn & He & Hr).
    assert (Hfine : inv true (set_functors l w)).
    { eapply inv_but_inv; [exact Hp| |exact Hbut]. split; [done|]. exists Gone.
      cbn [functors set_functors stage_ok]. split; [|done]. split; [done|]. split; [done|]. split; lia. }
    destruct (connections_ (server w) !! name c) as [q|] eqn:Eq; [|by apply fine_return].
    destruct (q =? p)%nat eqn:E; breflect; [|by apply fine_return]. subst. by destruct Ht1.
  - destruct s; cbn in Hs; try (exfalso; lia). destruct Hs as (Hst & Hn & He & Hr).
    assert (Hin_table : in_table w p c) by (by apply Ht). rewrite Hin_table, Nat.eqb_refl.
    eapply fine_on_conn; [by apply (inv_but_removed p c (set_functors l w))|exact Hp|].
    destruct (destroyed_ok (tcp c) Hwf Hn) as (thrown & c' & Hf & Hok). exists thrown, c'. split; [done|].
    intros Hnone. destruct (Hok Hnone) as (Hwf' & Hst' & Hn' & Hk). split; [done|]. exists Gone. cbn [functors set_functors set_server].
    rewrite Hk. split; [repeat split; try done; lia|]. unfold in_table. cbn. by rewrite lookup_delete_eq.
Qed.

(** ** Ready events and calls of the user *)

Abbreviation handle := (handleEvent (Some connection_callback) message_callback write_complete_callback high_water_mark_callback).

Lemma wf_set_channel ch c :
  Channel.events_ ch = Channel.events_ (TcpConnection.channel_ c) -> wf c -> wf (TcpConnection.set_channel ch c).
Proof.
  intros E [Hi Ho Hs Hw Hsh Hc]. constructor; try done. revert Hw. cbn.
  unfold TcpConnection.is_state, TcpConnection.isWriting, Channel.isWriting. cbn. by rewrite E.
Qed.

Lemma handleEvent_good revents chunks last c :
  Forall chunk_ok chunks -> wf c -> good (handle revents chunks last c) /\ ev c (handle revents chunks last c).
Proof.
  intros Hch Hwf. unfold handleEvent. set (ch := Channel.set_revents _ _). split.
  - apply (run_ops_keeps _ _ _ _ _ Hkeep); [|by apply wf_set_channel].
    apply Forall_fmap, Forall_true. by intros [].
  - eapply ev_from; [|apply (run_ops_evs _ _ _ _ Hevolve)]; [by apply evolves_same|].
    intros ([] & [=] & _)%list_elem_of_fmap.
Qed.

Lemma fine_ready b p revents chunks last w c :
  inv b w -> conns w !! p = Some c -> Forall chunk_ok chunks ->
  Channel.isNoneEvent (TcpConnection.channel_ (tcp c)) = false -> fine b (on_conn p (handle revents chunks last) w).
Proof.
  intros Hinv Hp Hch He. destruct (known_stage _ _ _ _ (inv_known b w Hinv p c Hp)) as (Hwf & s & Hs & _).
  apply (fine_evolves b p _ w c); [done|done| |by apply handleEvent_good..].
  intros Hst. unfold Channel.isNoneEvent in He. apply Z.eqb_neq in He.
  destruct s; cbn in Hs; [|destruct Hs as [[?|?] _]; congruence|destruct Hs; congruence..].
  by destruct Hs as (_ & _ & _ & _ & _ & Hev).
Qed.

Lemma fine_call b p o w c :
  inv b w -> conns w !! p = Some c -> user_op o = true -> TcpConnection.state_ (tcp c) <> TcpConnection.kConnecting ->
  fine b (on_conn p (TcpConnection.run_op (Some connection_callback) message_callback write_complete_callback
                       (Some TcpConnection.return_) high_water_mark_callback o) w).
Proof.
  intros Hinv Hp Ho Hne. destruct (known_stage _ _ _ _ (inv_known b w Hinv p c Hp)) as (Hwf & _).
  apply (fine_evolves b p _ w c); [done..| |].
  - apply (run_op_keeps _ _ _ _ _ Hkeep); [by destruct o|done].
  - apply (run_op_evs _ _ _ _ Hevolve). by intros ->.
Qed.

(** ** New connections *)

Context `{Inet}.

(** What the constructor of a connection makes. *)
Definition constructed_ok (c : TcpConnection.t) : Prop :=
  exists fd b mark kw ks, c = TcpConnection.construct fd b mark kw ks /\ Buffer.buffer_wf b /\ Buffer.readable b = [].

Lemma getNextSubLoop_spec s :
  exists loop i, getNextSubLoop s = (loop, set_next_sub_loop_index i s) /\
    (loop = main_loop_ \/ loop ∈ sub_loops_ s) /\ (loop = main_loop_ -> sub_loops_ s = [] \/ main_loop_ ∈ sub_loops_ s).
Proof.
  unfold getNextSubLoop. case_bool_decide as E.
  - exists main_loop_, (next_sub_loop_index_ s). split; [by destruct s|]. split; by left.
  - eexists _, _. split; [done|].
    assert (Hin : nth (Z.to_nat (next_sub_loop_index_ s mod lenZ (sub_loops_ s))) (sub_loops_ s) main_loop_ ∈ sub_loops_ s).
    { apply list_elem_of_In, nth_In. assert (0 < lenZ (sub_loops_ s)) as Hl by (destruct (sub_loops_ s); [done|len_lia]).
      pose proof (Z.mod_pos_bound (next_sub_loop_index_ s) _ Hl). unfold lenZ in *. lia. }
    split; [by right|]. intros <-. by right.
Qed.

(** The state with a new connection, whose name carries the next number. *)
Lemma inv_but_inserted p c s peer w :
  inv false w -> conns w !! p = None ->
  let n := Z.of_nat (size (conns w)) in
  name c = conn_name (name_ (server w)) peer n -> connections_ s = <[name c := p]> (connections_ (server w)) ->
  name_ s = name_ (server w) -> next_conn_id_ s = u32 (n + 1) -> sub_loops_ s = sub_loops_ (server w) ->
  alive (loop_ c) w = true ->
  inv_but false p (mkWorld s (<[p := c]> (conns w)) (functors w)).
Proof.
  intros [[Hf Ht Hd Hi Hn] Hk Hs Ha] Hp n Hname Etab Enm Enext Esub Hal.
  assert (Hfresh : forall q d, conns w !! q = Some d -> name d <> name c).
  { intros q d Hq E. destruct (Hi q d Hq) as (peer' & id & En & Hr). rewrite E, Hname in En.
    apply conn_name_id in En; lia. }
  constructor; [constructor| |done|]; cbn; rewrite ?Etab, ?Enm, ?Enext.
  - intros l g Hin. destruct (Hf l g Hin) as (d & Hq & ->). exists d. split; [|done].
    rewrite lookup_insert_ne; [done|]. congruence.
  - intros nm q Hq. apply lookup_insert_Some in Hq as [[<- <-]|[Hne Hq]].
    + rewrite lookup_insert_eq. by eexists.
    + destruct (Ht nm q Hq) as (d & Hq' & Hnm). exists d. rewrite lookup_insert_ne by congruence. done.
  - intros q q' d d' H1 H2 E. apply lookup_insert_Some in H1 as [[<- <-]|[Hq H1]]; apply lookup_insert_Some in H2 as [[<- <-]|[Hq' H2]].
    + done.
    + by destruct (Hfresh q' d' H2).
    + by destruct (Hfresh q d H1).
    + by apply (Hd q q' d d').
  - rewrite map_size_insert_None by done. intros q d Hq. apply lookup_insert_Some in Hq as [[<- <-]|[Hq Hq']].
    + exists peer, n. split; [done|]. lia.
    + destruct (Hi q d Hq') as (peer' & id & En & Hr). exists peer', id. split; [done|]. lia.
  - rewrite map_size_insert_None by done. by rewrite Nat2Z.inj_succ, <- Z.add_1_r.
  - intros q d Hne. rewrite lookup_insert_ne by done. intros Hq. eapply conn_ok_table; [|exact (Hk q d Hq)].
    unfold in_table. cbn. rewrite Etab, lookup_insert_ne; [done|]. by intros E; destruct (Hfresh q d Hq).
  - unfold alive in *. cbn. rewrite Esub. intros _ q d Hq.
    apply lookup_insert_Some in Hq as [[<- <-]|[Hq Hq']]; [done|]. by apply (Ha eq_refl q d).
Qed.

Lemma unknown_not_queued w p g :
  frame w -> conns w !! p = None -> subject g = p -> queued g (functors w) = 0%nat.
Proof.
  intros Hf Hp Hg. destruct (queued g (functors w)) eqn:E; [done|].
  destruct (proj1 (queued_in g (functors w))) as (l & Hin); [lia|].
  destruct (fr_functors w Hf l g Hin) as (d & Hq & _). congruence.
Qed.

(** Queueing the establishment of a connection that is new. *)
Lemma fine_queued p c w :
  inv_but false p w -> conns w !! p = Some c -> in_table w p c -> loop_ c <> main_loop_ -> constructed_ok (tcp c) ->
  queued (ConnectEstablished p) (functors w) = 0%nat -> queued (RemoveConnection p) (functors w) = 0%nat ->
  inv false (queueInLoop (loop_ c) (ConnectEstablished p) w).
Proof.
  intros [[Hf Ht Hd Hi Hn] Hk _ Ha] Hp Hin Hl (fd & b & mark & kw & ks & E & Hb & Hr) H1 H2.
  assert (Hq : forall g, queued g (functors (queueInLoop (loop_ c) (ConnectEstablished p) w)) =
    (queued g (functors w) + if bool_decide (ConnectEstablished p = g) then 1 else 0)%nat).
  { intros g. unfold queueInLoop. cbn [functors set_functors]. rewrite queued_app. unfold queued at 2. cbn. by case_bool_decide. }
  apply (inv_but_inv false p _ c); [exact Hp| |constructor; [constructor; try done| |done|done]].
  - split; [rewrite E; by apply construct_wf|]. exists Connecting. rewrite !Hq, H1, H2.
    rewrite bool_decide_true, bool_decide_false by done. by rewrite E.
  - intros l g. unfold queueInLoop. cbn [functors set_functors]. rewrite elem_of_app, list_elem_of_singleton.
    intros [Hin'|[= -> ->]]; [by apply Hf|]. by exists c.
  - intros q d Hne Hq'. specialize (Hk q d Hne Hq'). unfold known in *.
    rewrite !Hq, !bool_decide_false by congruence. rewrite !Nat.add_0_r. exact Hk.
Qed.

Lemma fine_new_connection p c peer w :
  inv false w -> conns w !! p = None -> constructed_ok c -> Z.of_nat (size (conns w)) < 2 ^ 32 ->
  fine false (onNewConnection (Some connection_callback) p c peer w).
Proof.
  intros Hinv Hp Hc Hsize. unfold onNewConnection. destruct (getNextSubLoop_spec (server w)) as (loop & i & -> & Hloop & _).
  cbn [next_conn_id_ set_next_sub_loop_index name_ set_next_conn_id connections_].
  rewrite (fr_next w (inv_frame _ _ Hinv)). set (n := Z.of_nat (size (conns w))) in *.
  assert (Hu : u32 n = n) by (apply Z.mod_small; lia). rewrite Hu.
  match goal with |- fine _ (if _ then connectEstablished _ _ ?x else _) => set (w0 := x) end.
  set (c0 := mkConn loop (conn_name (name_ (server w)) (InetAddress.toIpPort peer) n) c).
  assert (Hbut : inv_but false p w0).
  { apply (inv_but_inserted p c0 _ (InetAddress.toIpPort peer)); try done.
    unfold alive. destruct Hloop as [->|Hin]; [done|]. cbn [loop_ c0]. rewrite bool_decide_true by done. apply orb_true_r. }
  assert (Hp0 : conns w0 !! p = Some c0) by apply lookup_insert_eq.
  assert (Hin0 : in_table w0 p c0) by (unfold in_table; apply lookup_insert_eq).
  pose proof (unknown_not_queued w p (ConnectEstablished p) (inv_frame _ _ Hinv) Hp eq_refl) as Hq1.
  pose proof (unknown_not_queued w p (RemoveConnection p) (inv_frame _ _ Hinv) Hp eq_refl) as Hq2.
  destruct (loop =? main_loop_)%nat eqn:E; breflect.
  - eapply fine_on_conn; [exact Hbut|exact Hp0|]. destruct Hc as (fd & b & mark & kw & ks & Ec & Hb & Hr).
    destruct (established_ok false loop c (in_table w0 p c0)) as (thrown & c' & Hc' & Hok);
      [rewrite Ec; by apply construct_wf|by rewrite Ec|by rewrite Ec|exact Hin0|].
    exists thrown, c'. split; [exact Hc'|]. intros Hnone. change (functors w0) with (functors w). rewrite Hq1, Hq2. by apply Hok.
  - apply fine_return. by apply (fine_queued p c0).
Qed.

(** ** Stopping *)

(** The members of the server that the frame does not look at. *)
Lemma frame_set_server s w :
  connections_ s = connections_ (server w) -> name_ s = name_ (server w) -> next_conn_id_ s = next_conn_id_ (server w) ->
  frame w -> frame (set_server s w).
Proof. intros E1 E2 E3 [Hf Ht Hd Hi Hn]. constructor; cbn; rewrite ?E1, ?E2, ?E3; done. Qed.

(** While [stop] goes through the connections: those left are as before, the
    others as they will be once the table is empty. *)
Definition stopping (l : list nat) (w : world) : Prop :=
  frame w /\ acceptor_ (server w) = false /\ sub_loops_ (server w) = [] /\
  forall p c, conns w !! p = Some c ->
    if decide (p ∈ l) then known w p c false /\ in_table w p c
    else conn_ok true (loop_ c) (tcp c) (queued (ConnectEstablished p) (functors w))
           (queued (RemoveConnection p) (functors w)) False.

(** A connection of a sub loop is left as it is. *)
Lemma left_alone loop c e r (P : Prop) :
  P -> loop <> main_loop_ -> conn_ok false loop c e r P -> conn_ok true loop c e r False.
Proof.
  intros HP Hl [Hwf (s & Hs & Ht)]. split; [done|]. exists s.
  split; [|split; [tauto|done]]. destruct s; try done. by destruct (proj1 Ht HP).
Qed.

Lemma stopping_next p l w c :
  p ∉ l -> conns w !! p = Some c -> stopping (p :: l) w ->
  conn_ok true (loop_ c) (tcp c) (queued (ConnectEstablished p) (functors w)) (queued (RemoveConnection p) (functors w)) False ->
  stopping l w.
Proof.
  intros Hl Hp (Hf & Ha & Hs & Hk) Hok. split_and!; try done. intros q d Hq. specialize (Hk q d Hq).
  destruct (decide (q = p)) as [->|Hne].
  - rewrite decide_False by done. congruence.
  - destruct (decide (q ∈ l)).
    + by rewrite decide_True in Hk by by right.
    + rewrite decide_False in Hk; [done|]. by intros [?|?]%elem_of_cons.
Qed.

Lemma destroy_main_fine l w :
  NoDup l -> (forall p, p ∈ l -> exists c, conns w !! p = Some c) -> stopping l w ->
  exists thrown w', destroy_main (Some connection_callback) l w = Ret (thrown, w') /\
    (thrown = None -> stopping [] w').
Proof.
  intros Hnd. revert w. induction Hnd as [|p l Hp Hnd IH]; intros w Hin Hst.
  { by exists None, w. }
  destruct (Hin p) as (c & Hc); [by left|]. cbn [destroy_main]. rewrite Hc.
  assert (Hin' : forall q, q ∈ l -> exists d, conns w !! q = Some d) by (intros q Hq; apply Hin; by right).
  pose proof Hst as (Hf & Ha & Hs & Hk). specialize (Hk p c Hc) as Hkp. rewrite decide_True in Hkp by by left.
  destruct Hkp as [Hkp Htab]. destruct (loop_ c =? main_loop_)%nat eqn:Em; breflect.
  2: { cbn. apply IH; [done|]. apply (stopping_next p l w c); [done..|].
       by apply (left_alone _ _ _ _ (in_table w p c)). }
  destruct Hkp as [Hwf (s & Hss & Ht)].
  assert (Hn : notified (tcp c) = [up] /\ queued (ConnectEstablished p) (functors w) = 0%nat /\
    (queued (RemoveConnection p) (functors w) <= 1)%nat).
  { destruct s; cbn in Hss.
    - by destruct Hss as (_ & _ & _ & _ & Hm & _).
    - destruct Hss as (_ & ? & ? & ?). repeat split; [done..|lia].
    - destruct Hss as (_ & ? & ? & ?). repeat split; [done..|lia].
    - by destruct (proj1 Ht Htab). }
  destruct Hn as (Hn & He & Hr). destruct (destroyed_ok (tcp c) Hwf Hn) as (thrown & c' & Hd & Hok).
  unfold connectDestroyed. rewrite (on_conn_updated p _ w c Hc), Hd. cbn [mbind outcome_bind then_].
  destruct thrown as [e|]; [by exists (Some e), (updated p c c' w)|].
  destruct (Hok eq_refl) as (Hwf' & Hst' & Hn' & Hk').
  assert (Hupd : functors (updated p c c' w) = functors w) by (by rewrite updated_functors, Hk', app_nil_r).
  apply IH.
  - intros q Hq. rewrite updated_conns. destruct (decide (q = p)) as [->|Hne]; [rewrite lookup_insert_eq; by eexists|].
    rewrite lookup_insert_ne by done. by apply Hin'.
  - split; [by apply frame_updated|]. rewrite updated_server. split; [done|]. split; [done|].
    intros q d. rewrite updated_conns, Hupd. destruct (decide (q = p)) as [->|Hne].
    + rewrite lookup_insert_eq. intros [= <-]. rewrite decide_False by done. cbn [loop_ tcp]. split; [done|].
      exists Gone. split; [by repeat split|]. split; [tauto|done].
    + rewrite lookup_insert_ne by done. intros Hq. specialize (Hk q d Hq). destruct (decide (q ∈ l)).
      * rewrite decide_True in Hk by by right. destruct Hk as [Hkq Hq']. split; [by apply known_other|].
        unfold in_table in *. by rewrite updated_server.
      * rewrite decide_False in Hk; [done|]. by intros [?|?]%elem_of_cons.
Qed.

Lemma table_values_nodup w : frame w -> NoDup (map_to_list (connections_ (server w))).*2.
Proof.
  intros [_ Ht _ _ _]. apply NoDup_fmap_2_strong; [|apply NoDup_map_to_list].
  intros [n p] [n' p'] H1%elem_of_map_to_list H2%elem_of_map_to_list; cbn. intros ->.
  destruct (Ht _ _ H1) as (c & Hc & <-). destruct (Ht _ _ H2) as (c' & Hc' & <-). congruence.
Qed.

Lemma fine_stop b w : inv b w -> acceptor_ (server w) = false -> fine true (stop_end (Some connection_callback) w).
Proof.
  intros [Hf Hk Hs Ha] Hacc. unfold stop_end. set (w1 := set_server _ w).
  set (l := (map_to_list (connections_ (server w1))).*2).
  assert (Hf1 : frame w1) by by apply frame_set_server.
  assert (Hl : forall p, p ∈ l <-> exists n, connections_ (server w) !! n = Some p).
  { intros p. unfold l. rewrite list_elem_of_fmap. split.
    - intros ([n q] & -> & Hq%elem_of_map_to_list). by exists n.
    - intros (n & Hn). exists (n, p). split; [done|by apply elem_of_map_to_list]. }
  destruct (destroy_main_fine l w1) as (thrown & w' & -> & Hst).
  - by apply (table_values_nodup w1).
  - intros p (n & Hn)%Hl. destruct (fr_table w Hf n p Hn) as (c & Hc & _). by exists c.
  - split; [done|]. split; [done|]. split; [done|]. intros p c Hc. change (conns w1) with (conns w) in Hc.
    pose proof (Hk p c Hc) as Hkp. destruct (decide (p ∈ l)) as [Hin|Hin].
    + apply Hl in Hin as (n & Hn). destruct (fr_table w Hf n p Hn) as (d & Hd & Hname).
      assert (Htab : in_table w p c) by (unfold in_table; congruence). split; [|done].
      destruct b; [|done]. destruct Hkp as [_ (s & _ & Hnot & _)]. by destruct Hnot.
    + assert (Hnt : ~ in_table w p c) by (intros Htab; apply Hin, Hl; by exists (name c)).
      destruct Hkp as [Hwf (s & Hss & Ht)]. split; [done|]. exists s. destruct b.
      * split; [done|]. split; [tauto|by apply Ht].
      * assert (s = Gone) as -> by (destruct s; try done; by destruct Hnt; apply Ht).
        destruct Hss as (H1 & H2 & H3 & H4). split; [|split; [tauto|done]].
        cbn [stage_ok] in *. split; [done|]. split; [done|]. split; [done|]. change (functors w1) with (functors w). lia.
  - cbn [then_ mbind outcome_bind]. destruct thrown as [e|]; [by exists (Some e), w'|].
    destruct (Hst eq_refl) as ([Hf' Ht' Hd' Hi' Hn'] & Hacc' & Hsub' & Hk').
    apply fine_return. constructor; [constructor; done| |done|done].
    intros p c Hc. specialize (Hk' p c Hc). rewrite decide_False in Hk' by by apply not_elem_of_nil.
    eapply conn_ok_table; [|exact Hk']. unfold in_table. cbn. rewrite lookup_empty. by split.
Qed.

(** ** Histories *)

Abbreviation step_one := (step (Some connection_callback) message_callback write_complete_callback high_water_mark_callback).
Abbreviation run_all := (run (Some connection_callback) message_callback write_complete_callback high_water_mark_callback).

(** A new connection comes from its constructor, and a read gives at most what
    there is room for. *)
Definition event_ok (e : event) : Prop :=
  match e with
  | NewConnection _ c _ => constructed_ok c
  | Ready _ _ chunks _ => Forall chunk_ok chunks
  | _ => True
  end.

Definition is_new (e : event) : bool := match e with NewConnection _ _ _ => true | _ => false end.
Definition is_stop (e : event) : bool := match e with StopEnd => true | _ => false end.

(** Connections a history accepts. *)
Definition accepted (es : list event) : nat := length (List.filter is_new es).

Lemma step_fine b w e r :
  inv b w -> event_ok e -> (is_new e = true -> Z.of_nat (size (conns w)) < 2 ^ 32) -> step_one w e = Some r ->
  fine (b || is_stop e) r.
Proof.
  intros Hinv He Hsize. destruct e as [p c peer|loop|p revents chunks last|p o| |]; cbn [step is_stop]; rewrite ?orb_false_r.
  - destruct (acceptor_ (server w)) eqn:Ea; [|done]. case_bool_decide as Hp; [|done]. intros [= <-].
    destruct b; [by rewrite (proj1 (inv_stopped _ _ Hinv eq_refl)) in Ea|]. apply fine_new_connection; auto.
  - destruct (alive loop w) eqn:Ea; [|done]. destruct (pop loop (functors w)) as [[[p|p] l]|] eqn:Ep; [| |done]; intros [= <-].
    + by apply (fine_established b loop).
    + by apply (fine_removed b loop).
  - destruct (conns w !! p) as [c|] eqn:Hp; [|done]. destruct (_ && _) eqn:Ea; [|done]. breflect. intros [= <-].
    by apply (fine_ready b p _ _ _ w c).
  - destruct (conns w !! p) as [c|] eqn:Hp; [|done]. destruct (_ && _) eqn:Ea; [|done].
    apply andb_true_iff in Ea as [[_ Ho]%andb_true_iff Hst%negb_true_iff%bool_decide_eq_false]. intros [= <-].
    by apply (fine_call b p o w c).
  - destruct (acceptor_ (server w)); [|done]. intros [= <-]. destruct Hinv as [Hf Hk Hs Ha]. apply fine_return.
    constructor; [by apply frame_set_server|done| |done]. intros Hb. split; [done|by apply Hs].
  - destruct (acceptor_ (server w)) eqn:Ea; [done|]. intros [= <-]. rewrite orb_true_r. by apply (fine_stop b).
Qed.

Lemma on_conn_size p f w thrown w' : on_conn p f w = Ret (thrown, w') -> size (conns w') = size (conns w).
Proof.
  unfold on_conn. destruct (conns w !! p) as [c|] eqn:Hp; [|done]. destruct (f (tcp c)) as [[t after]| |]; try done.
  intros [= _ <-]. change (size (conns (updated p c after w)) = size (conns w)).
  by rewrite updated_conns, (size_updated _ _ c).
Qed.

Lemma destroy_main_size l w w' : destroy_main (Some connection_callback) l w = Ret (None, w') -> size (conns w') = size (conns w).
Proof.
  revert w. induction l as [|p l IH]; intros w; cbn [destroy_main]; [by intros [= <-]|].
  destruct (conns w !! p) as [c|]; [|done]. destruct (loop_ c =? main_loop_)%nat; [|apply IH].
  destruct (connectDestroyed _ p w) as [[[e|] w1]| |] eqn:Ed; try done. cbn. intros Hr.
  rewrite (IH _ Hr). by eapply on_conn_size.
Qed.

Lemma step_size w e w' :
  step_one w e = Some (Ret (None, w')) ->
  size (conns w') = (size (conns w) + if is_new e then 1 else 0)%nat.
Proof.
  destruct e as [p c peer|loop|p revents chunks last|p o| |]; cbn [step is_new]; rewrite ?Nat.add_0_r.
  - destruct (_ && _) eqn:E; [|done]. apply andb_true_iff in E as [_ Hp%bool_decide_eq_true]. intros [= Hr]. revert Hr.
    unfold onNewConnection. destruct (getNextSubLoop _) as [loop s]. destruct (_ =? _)%nat.
    + intros ->%on_conn_size. cbn. rewrite map_size_insert_None by done. lia.
    + intros [= <-]. cbn. rewrite map_size_insert_None by done. lia.
  - destruct (alive loop w); [|done]. destruct (pop _ _) as [[f l]|]; [|done]. intros [= Hr]. revert Hr.
    destruct f as [p|p]; cbn [run_functor].
    + by intros ->%on_conn_size.
    + unfold removeConnectionInLoop. destruct (_ !! p); [|done]. destruct (_ !! name c); [|by intros [= <-]].
      destruct (_ =? _)%nat; [by intros ->%on_conn_size|by intros [= <-]].
  - destruct (conns w !! p); [|done]. destruct (_ && _); [|done]. intros [= Hr]. by eapply on_conn_size.
  - destruct (conns w !! p); [|done]. destruct (_ && _); [|done]. intros [= Hr]. by eapply on_conn_size.
  - destruct (acceptor_ _); [|done]. by intros [= <-].
  - destruct (acceptor_ _); [done|]. unfold stop_end. intros [= Hr]. revert Hr.
    destruct (destroy_main _ _ _) as [[[e|] w1]| |] eqn:Ed; try done. cbn. intros [= <-]. cbn.
    by apply destroy_main_size in Ed.
Qed.

Lemma run_fine es b w r :
  inv b w -> Forall event_ok es -> Z.of_nat (size (conns w) + accepted es) <= 2 ^ 32 -> run_all w es = Some r ->
  fine (b || existsb is_stop es) r.
Proof.
  intros Hinv Hok. revert b w Hinv. induction Hok as [|e es He Hok IH]; intros b w Hinv Hsize; cbn [run existsb].
  { intros [= <-]. rewrite orb_false_r. by apply fine_return. }
  assert (Hacc : accepted (e :: es) = ((if is_new e then 1 else 0) + accepted es)%nat) by (unfold accepted; cbn; by destruct (is_new e)).
  rewrite Hacc in Hsize. destruct (step_one w e) as [r0|] eqn:Es; [|done].
  destruct (step_fine b w e r0 Hinv He) as (thrown & w' & -> & Hw'); [intros Hn; rewrite Hn in Hsize; lia|done|].
  destruct thrown as [ex|].
  - intros [= <-]. exists (Some ex), w'. by split.
  - rewrite orb_assoc. apply IH; [by apply Hw'|]. rewrite (step_size _ _ _ Es). lia.
Qed.

Lemma inv_init name n : inv false (init name n).
Proof.
  assert (E : conns (init name n) = ∅) by done.
  constructor; [|by intros p c; rewrite E, lookup_empty|done|by intros _ p c; rewrite E, lookup_empty].
  constructor; try done; rewrite E. by intros ? ? ?%elem_of_nil.
Qed.

(** ** What is queued gets done *)

Definition weight_of (g : functor) : nat := match g with ConnectEstablished _ => 2 | RemoveConnection _ => 1 end.
Definition weight (l : list (nat * functor)) : nat := sum_list (weight_of <$> l.*2).

Lemma weight_app l k : weight (l ++ k) = (weight l + weight k)%nat.
Proof. unfold weight. by rewrite !fmap_app, sum_list_with_app. Qed.

Lemma weight_pop loop l f l' : pop loop l = Some (f, l') -> weight l = (weight_of f + weight l')%nat.
Proof.
  intros [_ Hp]%pop_spec. unfold weight. by rewrite Hp.
Qed.

Lemma weight_on_conn p f w c k w' :
  conns w !! p = Some c -> (forall c', f (tcp c) = Ret (None, c') -> (new_closes (tcp c) c' <= k)%nat) ->
  on_conn p f w = Ret (None, w') -> (weight (functors w') <= weight (functors w) + k)%nat.
Proof.
  intros Hp Hk. rewrite (on_conn_updated p f w c Hp). destruct (f (tcp c)) as [[t c']| |] eqn:Ef; try done.
  cbn. intros [= -> <-]. rewrite updated_functors, weight_app. specialize (Hk c' eq_refl).
  assert (Hw : forall n, weight (replicate n (loop_ c, RemoveConnection p)) = n).
  { induction n as [|n IH]; [done|]. unfold weight in *. cbn in *. by rewrite IH. }
  rewrite Hw. lia.
Qed.

Lemma established_closes c c' : established c = Ret (None, c') -> (new_closes c c' <= 1)%nat.
Proof.
  intros Hr. pose proof (connectEstablished_ev _ _ _ _ Hevolve connection_callback eq_refl c) as Hev. rewrite Hr in Hev.
  destruct (after_cb up TcpConnection.kConnected c c' eq_refl) as (_ & _ & _ & ->); [done|exact Hev|]. destruct (_ && _); lia.
Qed.

Lemma destroyed_closes c c' : destroyed c = Ret (None, c') -> (new_closes c c' <= 0)%nat.
Proof.
  intros Hr. pose proof (connectDestroyed_ev _ _ _ _ Hevolve connection_callback eq_refl c) as Hev. rewrite Hr in Hev.
  destruct (after_cb down TcpConnection.kDisconnected c c' eq_refl) as (_ & _ & _ & ->); [done|exact Hev|].
  by rewrite andb_false_r.
Qed.

Lemma functor_weight loop w w' :
  step_one w (RunFunctor loop) = Some (Ret (None, w')) -> (weight (functors w') < weight (functors w))%nat.
Proof.
  cbn [step]. destruct (alive loop w); [|done]. destruct (pop loop (functors w)) as [[f l]|] eqn:Ep; [|done].
  intros [= Hr]. rewrite (weight_pop _ _ _ _ Ep). destruct f as [p|p]; cbn [run_functor weight_of] in *.
  - destruct (conns w !! p) as [c|] eqn:Hp; [|unfold connectEstablished, on_conn in Hr; cbn in Hr; by rewrite Hp in Hr].
    eapply (weight_on_conn p _ _ c 1) in Hr; [|done|by apply established_closes]. cbn [functors set_functors] in Hr. lia.
  - unfold removeConnectionInLoop in Hr. cbn [conns set_functors server] in Hr.
    destruct (conns w !! p) as [c|] eqn:Hp; [|done].
    destruct (connections_ (server w) !! name c); [|injection Hr as <-; cbn [functors set_functors]; lia].
    destruct (_ =? p)%nat; [|injection Hr as <-; cbn [functors set_functors]; lia].
    eapply (weight_on_conn p _ _ c 0) in Hr; [|done|by apply destroyed_closes]. cbn [functors set_functors set_server] in Hr. lia.
Qed.

Lemma pop_first loop g l : pop loop ((loop, g) :: l) = Some (g, l).
Proof. cbn. by rewrite Nat.eqb_refl. Qed.

Lemma drains n w :
  inv false w -> (weight (functors w) <= n)%nat ->
  exists es thrown w', Forall (fun e => exists loop, e = RunFunctor loop) es /\ run_all w es = Some (Ret (thrown, w')) /\
    (thrown = None -> inv false w' /\ functors w' = []).
Proof.
  revert w. induction n as [|n IH]; intros w Hinv Hn.
  - exists [], None, w. split; [constructor|]. split; [done|]. intros _. split; [done|].
    revert Hn. by destruct (functors w) as [|[loop [p|p]] l]; unfold weight; cbn; [|lia..].
  - destruct (functors w) as [|[loop g] l] eqn:Ef.
    { exists [], None, w. split; [constructor|]. by split. }
    assert (Hs : exists r, step_one w (RunFunctor loop) = Some r).
    { cbn [step]. destruct (fr_functors w (inv_frame _ _ Hinv) loop g) as (c & Hc & ->); [rewrite Ef; by left|].
      rewrite (inv_alive _ _ Hinv eq_refl _ _ Hc), Ef, pop_first. by eexists. }
    destruct Hs as (r & Hs). destruct (step_fine false w (RunFunctor loop) r Hinv) as (thrown & w1 & -> & Hw1); [done..|].
    destruct thrown as [ex|].
    + exists [RunFunctor loop], (Some ex), w1. split; [constructor; [by eexists|constructor]|].
      split; [|done]. cbn [run]. by rewrite Hs.
    + destruct (IH w1) as (es & thrown & w2 & Hes & Hr & Hw2); [by apply Hw1| |].
      { pose proof (functor_weight loop w w1 Hs) as Hlt. rewrite Ef in Hlt. lia. }
      exists (RunFunctor loop :: es), thrown, w2. split; [constructor; [by eexists|done]|].
      split; [|done]. cbn [run]. by rewrite Hs.
Qed.

(** With nothing queued, a connection is open and in the table, or gone. *)
Lemma settled w p c :
  inv false w -> functors w = [] -> conns w !! p = Some c ->
  (in_table w p c /\ TcpConnection.state_ (tcp c) <> TcpConnection.kDisconnected /\ notified (tcp c) = [up]) \/
  (~ in_table w p c /\ TcpConnection.state_ (tcp c) = TcpConnection.kDisconnected /\ notified (tcp c) = [up; down]).
Proof.
  intros Hinv Hf Hc. destruct (known_stage _ _ _ _ (inv_known _ _ Hinv p c Hc)) as (_ & s & Hs & Ht). rewrite Hf in Hs.
  destruct s; cbn in Hs.
  - by destruct Hs as (_ & _ & ? & _).
  - left. split; [by apply Ht|]. destruct Hs as ([E|E] & Hn & _); by rewrite E.
  - by destruct Hs as (_ & _ & _ & ?).
  - right. destruct Hs as (? & ? & _). split; [intros Hin; by apply Ht|]. done.
Qed.

(** ** After stop *)

Lemma on_conn_other p q f w t w' :
  p <> q -> on_conn q f w = Ret (t, w') -> conns w' !! p = conns w !! p.
Proof.
  intros Hne. unfold on_conn. destruct (conns w !! q) as [c|]; [|done]. destruct (f (tcp c)) as [[t' after]| |]; try done.
  intros [= _ <-]. change (conns (updated q c after w) !! p = conns w !! p). by rewrite updated_conns, lookup_insert_ne.
Qed.

Lemma alive_stopped w loop : inv true w -> alive loop w = true -> loop = main_loop_.
Proof.
  intros Hinv. destruct (inv_stopped _ _ Hinv eq_refl) as [_ Hsub]. unfold alive. rewrite Hsub.
  intros [Hm|Hm]%orb_true_iff; breflect; [done|]. by apply bool_decide_eq_true, elem_of_nil in Hm.
Qed.

Lemma table_stopped w : inv true w -> connections_ (server w) = ∅.
Proof.
  intros Hinv. apply map_empty. intros n. destruct (connections_ (server w) !! n) as [p|] eqn:E; [|done].
  destruct (fr_table _ (inv_frame _ _ Hinv) n p E) as (c & Hc & <-).
  destruct (known_stage _ _ _ _ (inv_known _ _ Hinv p c Hc)) as (_ & s & _ & Hnot & _). by destruct Hnot.
Qed.

(** The loop of a connection that takes a step after [stop] is the main loop. *)
Lemma step_stopped w e t w' p c :
  inv true w -> conns w !! p = Some c -> loop_ c <> main_loop_ -> step_one w e = Some (Ret (t, w')) ->
  conns w' !! p = Some c.
Proof.
  intros Hinv Hp Hl. rewrite <- Hp.
  assert (Hne : forall q d, conns w !! q = Some d -> alive (loop_ d) w = true -> p <> q).
  { intros q d Hq Ha ->. apply Hl. replace c with d by congruence. by apply (alive_stopped w). }
  destruct (inv_stopped _ _ Hinv eq_refl) as [Hacc Hsub].
  destruct e as [q d peer|loop|q revents chunks last|q o| |]; cbn [step]; rewrite ?Hacc; try done.
  - destruct (alive loop w) eqn:Ea; [|done]. destruct (pop loop (functors w)) as [[f l]|] eqn:Ep; [|done].
    intros [= Hr]. apply pop_spec in Ep as [Hin _].
    destruct (fr_functors _ (inv_frame _ _ Hinv) _ _ Hin) as (d & Hq & ->). specialize (Hne _ _ Hq Ea).
    destruct f as [q|q]; cbn [run_functor subject] in *.
    + by rewrite (on_conn_other p q _ _ _ _ Hne Hr).
    + unfold removeConnectionInLoop in Hr. cbn [conns set_functors server] in Hr.
      rewrite Hq, table_stopped, lookup_empty in Hr by done. by injection Hr as _ <-.
  - destruct (conns w !! q) as [d|] eqn:Hq; [|done]. destruct (_ && _) eqn:Ea; [|done].
    apply andb_true_iff in Ea as [Ea _]. intros [= Hr]. eapply on_conn_other; [by eapply Hne|exact Hr].
  - destruct (conns w !! q) as [d|] eqn:Hq; [|done]. destruct (_ && _) eqn:Ea; [|done].
    apply andb_true_iff in Ea as [[Ea _]%andb_true_iff _]. intros [= Hr]. eapply on_conn_other; [by eapply Hne|exact Hr].
  - unfold stop_end. cbn [server set_server set_sub_loops connections_]. rewrite table_stopped by done.
    rewrite map_to_list_empty. by intros [= _ <-].
Qed.

Lemma run_stopped es w t w' p c :
  Forall event_ok es -> inv true w -> conns w !! p = Some c -> loop_ c <> main_loop_ ->
  run_all w es = Some (Ret (t, w')) -> conns w' !! p = Some c.
Proof.
  intros Hok. revert w. induction Hok as [|e es He Hok IH]; intros w Hinv Hp Hl; cbn [run]; [by intros [= _ <-]|].
  destruct (step_one w e) as [r|] eqn:Es; [|done].
  destruct (step_fine true w e r Hinv He) as (thrown & w1 & -> & Hw1); [|done|].
  { destruct e; try done. cbn in Es. by rewrite (proj1 (inv_stopped _ _ Hinv eq_refl)) in Es. }
  pose proof (step_stopped w e thrown w1 p c Hinv Hp Hl Es) as Hp1.
  destruct thrown as [ex|]; [intros [= _ <-]; done|]. by apply IH; [apply Hw1|..].
Qed.

End life.

(** * The distribution to the loops *)

(** The loops of the next [k] connections. *)
Fixpoint next_loops (k : nat) (s : t) : list nat :=
  match k with
  | O => []
  | S k => let '(loop, s) := getNextSubLoop s in loop :: next_loops k s
  end.

(** The reference: the loops in turn. *)
Definition in_turn (loops : list nat) (i : nat) : nat := nth (i mod length loops) loops main_loop_.

Lemma next_loops_in_turn k s i :
  sub_loops_ s <> [] -> next_sub_loop_index_ s = Z.of_nat i -> Z.of_nat (i + k) <= 2 ^ 32 ->
  next_loops k s = in_turn (sub_loops_ s) <$> seq i k.
Proof.
  revert s i. induction k as [|k IH]; intros s i Hne Hi Hk; [done|].
  cbn [next_loops seq fmap list_fmap]. unfold getNextSubLoop. rewrite bool_decide_false by done.
  assert (Hl : (length (sub_loops_ s) <> 0)%nat) by (by destruct (sub_loops_ s)).
  f_equal.
  - unfold in_turn, lenZ. rewrite Hi, <- Nat2Z.inj_mod. by rewrite Nat2Z.id.
  - destruct k as [|k']; [done|]. rewrite (IH _ (S i)); [done|done| |lia].
    cbn. rewrite Hi. unfold u32. rewrite Z.mod_small by lia. lia.
Qed.

(** How many of the first [k] connections go to the loop at [j]. *)
Lemma turns_count (n k j : nat) :
  (j < n)%nat -> length (List.filter (fun i => (i mod n =? j)%nat) (seq 0 k)) = ((k + (n - 1 - j)) / n)%nat.
Proof.
  intros Hj. induction k as [|k IH].
  - cbn [seq List.filter length]. symmetry. apply Nat.div_small. lia.
  - rewrite seq_S, List.filter_app, length_app, IH. cbn [List.filter Nat.add].
    pose proof (Nat.div_mod_eq k n) as Hk. pose proof (Nat.mod_upper_bound k n ltac:(lia)) as Hm.
    set (q := (k / n)%nat) in *. set (m := (k mod n)%nat) in *.
    replace (S (k + (n - 1 - j)))%nat with ((S m + (n - 1 - j)) + q * n)%nat by lia.
    replace (k + (n - 1 - j))%nat with ((m + (n - 1 - j)) + q * n)%nat by lia.
    rewrite !Nat.div_add by lia. destruct (m =? j)%nat eqn:E; breflect; cbn [length].
    + rewrite (Nat.div_small (m + _)) by lia. replace (S m + (n - 1 - j))%nat with n by lia.
      rewrite Nat.div_same by lia. lia.
    + destruct (Nat.lt_ge_cases m j).
      * rewrite !Nat.div_small by lia. lia.
      * replace (m + (n - 1 - j))%nat with ((m - 1 - j) + 1 * n)%nat by lia.
        replace (S m + (n - 1 - j))%nat with ((m - j) + 1 * n)%nat by lia.
        rewrite !Nat.div_add, !Nat.div_small by lia. lia.
Qed.

(** * Properties *)

(** The user's callbacks keep a connection's invariant and only use its
    operations; the one for new and closed connections is set. *)
Definition callbacks_ok f message_callback write_complete_callback high_water_mark_callback : Prop :=
  callbacks_keep (Some f) message_callback write_complete_callback (Some TcpConnection.return_) high_water_mark_callback /\
  callbacks_evolve (Some f) message_callback write_complete_callback high_water_mark_callback.

Section properties.
Context `{Inet}.
Context (f : TcpConnection.t -> TcpConnection.result) (mc wc : option (TcpConnection.t -> TcpConnection.result)).
Context (hw : option (Z -> TcpConnection.t -> TcpConnection.result)).


(** C33: a connection that closed is removed: from every state before [stop],
    the loops reach, by calling what is queued for them and nothing else, a
    state with empty queues (unless a callback throws), and there the table has
    exactly the connections that are still open, and the ends of all others
    were announced. *)
Theorem closed_connections_are_removed server_name num_threads es w :
  callbacks_ok f mc wc hw -> Forall event_ok es -> Z.of_nat (accepted es) <= 2 ^ 32 -> existsb is_stop es = false ->
  run (Some f) mc wc hw (init server_name num_threads) es = Some (Ret (None, w)) ->
  exists es' thrown w', Forall (fun e => exists loop, e = RunFunctor loop) es' /\
    run (Some f) mc wc hw w es' = Some (Ret (thrown, w')) /\ (thrown = None ->
      functors w' = [] /\ forall p c, conns w' !! p = Some c ->
        (connections_ (server w') !! name c = Some p /\
           TcpConnection.state_ (tcp c) <> TcpConnection.kDisconnected /\ notified (tcp c) = [up]) \/
        (connections_ (server w') !! name c <> Some p /\
           TcpConnection.state_ (tcp c) = TcpConnection.kDisconnected /\ notified (tcp c) = [up; down])).
Proof.
  intros [Hkeep Hev] Hes Hacc Hstop Hrun.
  destruct (run_fine f mc wc hw Hkeep Hev es false (init server_name num_threads) _ (inv_init _ _) Hes Hacc Hrun)
    as (thrown0 & w0 & [= <- <-] & Hinv).
  specialize (Hinv eq_refl). rewrite Hstop in Hinv.
  destruct (drains f mc wc hw Hkeep Hev (weight (functors w)) w Hinv (Nat.le_refl _)) as (es' & thrown & w' & Hes' & Hr & Hw').
  exists es', thrown, w'. split; [done|]. split; [done|]. intros Hn. destruct (Hw' Hn) as [Hinv' Hf]. split; [done|].
  intros p c Hc. exact (settled w' p c Hinv' Hf Hc).
Qed.

(** [stop] abandons the connections of the sub loops: whatever happens
    after it, they stay as they were, so the user of one that was up never
    hears of its end. *)
Theorem stop_abandons_sub_loop_connections server_name num_threads es es' w w' thrown p c :
  callbacks_ok f mc wc hw -> Forall event_ok (es ++ es') -> Z.of_nat (accepted es) <= 2 ^ 32 -> existsb is_stop es = true ->
  run (Some f) mc wc hw (init server_name num_threads) es = Some (Ret (None, w)) ->
  conns w !! p = Some c -> loop_ c <> main_loop_ ->
  run (Some f) mc wc hw w es' = Some (Ret (thrown, w')) -> conns w' !! p = Some c.
Proof.
  intros [Hkeep Hev] [Hes Hes']%Forall_app Hacc Hstop Hrun Hp Hl Hrun'.
  destruct (run_fine f mc wc hw Hkeep Hev es false (init server_name num_threads) _ (inv_init _ _) Hes Hacc Hrun)
    as (thrown0 & w0 & [= <- <-] & Hinv).
  specialize (Hinv eq_refl). rewrite Hstop in Hinv. by eapply (run_stopped f mc wc hw Hkeep Hev es' w).
Qed.

End properties.

(** New connections go to the sub loops in turn: the counter that wraps at
    2^32 gives the same loops as counting without a bound, for the first 2^32
    connections, so the numbers of connections given to two loops differ by one
    at most. *)
Theorem round_robin_in_turn s k :
  sub_loops_ s <> [] -> next_sub_loop_index_ s = 0 -> Z.of_nat k <= 2 ^ 32 ->
  next_loops k s = in_turn (sub_loops_ s) <$> seq 0 k /\
  forall j, (j < length (sub_loops_ s))%nat ->
    let count := length (List.filter (fun i => (i mod length (sub_loops_ s) =? j)%nat) (seq 0 k)) in
    (k / length (sub_loops_ s) <= count <= S (k / length (sub_loops_ s)))%nat.
Proof.
  intros Hne Hi Hk. split; [by apply next_loops_in_turn|]. intros j Hj. cbv zeta. rewrite turns_count by done.
  set (n := length (sub_loops_ s)) in *. split.
  - apply Nat.Div0.div_le_mono. lia.
  - etransitivity; [apply Nat.Div0.div_le_mono; instantiate (1 := (k + 1 * n)%nat); lia|]. rewrite Nat.div_add by lia. lia.
Qed.

Lemma round_robin_in_turn_witness :
  next_loops 7 (server (init (str "Echo") 3)) = [1; 2; 3; 1; 2; 3; 1]%nat /\
  next_loops 7 (server (init (str "Echo") 3)) = in_turn [1; 2; 3]%nat <$> seq 0 7.
Proof.
  split; [vm_compute; reflexivity|].
  apply (round_robin_in_turn (server (init (str "Echo") 3)) 7); [discriminate|reflexivity|vm_compute; discriminate].
Defined.

(** ** Witnesses *)

#[local] Existing Instance dotted_quad.

Definition example_conn (fd : Z) : TcpConnection.t :=
  TcpConnection.construct fd example_buffer 0 example_kernel None.

Definition example_peer (port : Z) : InetAddress.t := InetAddress.loopback port.

(** Two sub loops; the first connection is closed by its peer. *)
Definition example_events : list event :=
  [NewConnection 10 (example_conn 7) (example_peer 4001); NewConnection 11 (example_conn 8) (example_peer 4002);
   RunFunctor 1; RunFunctor 2; Ready 10 Channel.EPOLLIN [str "hello"] TcpConnection.EndOfFile].

(** An echo server; its connections report their closing to the server. *)
Definition server_echo : TcpConnection.t -> TcpConnection.result :=
  TcpConnection.send_buffer None (Some TcpConnection.return_) None TcpConnection.input_buffer_ TcpConnection.set_input true.

Lemma example_callbacks_ok : callbacks_ok TcpConnection.return_ (Some server_echo) None None.
Proof.
  assert (Hk : callbacks_keep None None None (Some TcpConnection.return_) None).
  { split_and!; try done. intros f [= <-] c Hc. by apply good_return. }
  assert (He : callbacks_evolve None None None None) by by split_and!.
  split.
  - split_and!; try done; intros f [= <-]; [|apply (send_input_keeps _ _ _ _ _ Hk)|]; intros c Hc; by apply good_return.
  - split_and!; try done; intros f [= <-]; [|apply (send_input_evs _ _ _ _ He true)]. intros c. by apply ev_return.
Qed.

Abbreviation example_run := (run (Some TcpConnection.return_) (Some server_echo) None None).

Lemma example_events_ok : Forall event_ok (example_events ++ [StopBegin; StopEnd; StopEnd]).
Proof.
  assert (Hc : forall fd, constructed_ok (example_conn fd)).
  { intros fd. eexists _, _, _, _, _. split; [reflexivity|]. split; [exact example_buffer_wf|reflexivity]. }
  repeat constructor; try apply Hc. - done. - by vm_compute.
Qed.


(** The connection closed by its peer leaves the table. *)
Lemma closed_connections_are_removed_witness :
  exists w es' thrown w', example_run (init (str "Echo") 2) example_events = Some (Ret (None, w)) /\
    connectionCount (server w) = 2 /\ example_run w es' = Some (Ret (thrown, w')) /\
    (thrown = None -> functors w' = [] /\ forall p c, conns w' !! p = Some c ->
      connections_ (server w') !! name c = Some p \/ notified (tcp c) = [up; down]).
Proof.
  assert (Hc : match example_run (init (str "Echo") 2) example_events with
               | Some (Ret (None, w)) => connectionCount (server w) = 2 | _ => False end) by (vm_compute; reflexivity).
  destruct (example_run (init (str "Echo") 2) example_events) as [[[[e|] w]| |]|] eqn:E; try contradiction Hc.
  destruct (closed_connections_are_removed TcpConnection.return_ (Some server_echo) None None (str "Echo") 2 example_events w
    example_callbacks_ok) as (es' & thrown & w' & _ & Hr & Hw).
  - exact (proj1 (proj1 (Forall_app _ _ _) example_events_ok)).
  - vm_compute; discriminate.
  - reflexivity.
  - exact E.
  - exists w, es', thrown, w'. split; [reflexivity|]. split; [exact Hc|]. split; [exact Hr|]. intros Hn.
    destruct (Hw Hn) as [Hf Hall]. split; [exact Hf|]. intros p c Hp. destruct (Hall p c Hp) as [(H1 & _)|(_ & _ & H2)].
    + left. exact H1.
    + right. exact H2.
Defined.

(** The second connection is up when the server stops. *)
Lemma stop_abandons_sub_loop_connections_witness :
  exists w thrown w' c, example_run (init (str "Echo") 2) (example_events ++ [StopBegin; StopEnd]) = Some (Ret (None, w)) /\
    conns w !! 11%nat = Some c /\ notified (tcp c) = [up] /\ example_run w [StopEnd] = Some (Ret (thrown, w')) /\
    conns w' !! 11%nat = Some c.
Proof.
  assert (Hc : match example_run (init (str "Echo") 2) (example_events ++ [StopBegin; StopEnd]) with
               | Some (Ret (None, w)) =>
                   match conns w !! 11%nat with
                   | Some c => notified (tcp c) = [up] /\ loop_ c = 2%nat /\
                       match example_run w [StopEnd] with Some (Ret _) => True | _ => False end
                   | None => False
                   end
               | _ => False end) by (vm_compute; repeat split).
  destruct (example_run (init (str "Echo") 2) _) as [[[[e|] w]| |]|] eqn:E; try contradiction Hc.
  destruct (conns w !! 11%nat) as [c|] eqn:Ec; [|contradiction Hc]. destruct Hc as (Hn & Hl & Hr).
  destruct (example_run w [StopEnd]) as [[[thrown w']| |]|] eqn:E'; try contradiction Hr.
  exists w, thrown, w', c. split; [reflexivity|]. split; [exact Ec|]. split; [exact Hn|]. split; [exact E'|].
  apply (stop_abandons_sub_loop_connections TcpConnection.return_ (Some server_echo) None None (str "Echo") 2
    (example_events ++ [StopBegin; StopEnd]) [StopEnd] w w' thrown 11 c example_callbacks_ok).
  - rewrite <- app_assoc. exact example_events_ok.
  - vm_compute; discriminate.
  - reflexivity.
  - exact E.
  - exact Ec.
  - rewrite Hl. discriminate.
  - exact E'.
Defined.
