(* ===== verification/Reactor.v ===== *)
(** The main reactor: the acceptor with the server as its owner, as the
    server's constructor in src/net/tcp_server.cpp connects them. *)
From Stdlib Require Import ZArith Lia.
From Stdlib Require Import Strings.Byte.
From stdpp Require Import base list strings gmap.
From S2P Require Import Prelude NetBuffer EventLoop TcpConnection TcpConnectionFacts TcpConnectionLife.
From S2P Require Import Socket SocketFacts Acceptor AcceptorFacts TcpServer TcpServerFacts.

Module Reactor.
Import TcpServer.

Section reactor.
Context `{Inet}.
Context (connection_callback message_callback write_complete_callback : option (TcpConnection.t -> TcpConnection.result)).
Context (high_water_mark_callback : option (Z -> TcpConnection.t -> TcpConnection.result)).

(** What a new connection finds: the buffers its constructor makes, and the
    kernel's answers to its calls. *)
Context (buffer : Buffer.t) (kernel_write : nat -> TcpConnection.write_result) (kernel_shutdown : option Z).

(** The new-connection callback of the server's constructor; the new object
    gets an address no other has. *)
Definition new_connection_callback (fd : Z) (peer_addr : InetAddress.t) (r : result) : result :=
  then_ r (fun w =>
    onNewConnection connection_callback (fresh (dom (conns w)))
      (TcpConnection.construct fd buffer 0 kernel_write kernel_shutdown) peer_addr w).

(** The peers of the connections a history accepts. *)
Fixpoint peers (es : list event) : list InetAddress.t :=
  match es with
  | [] => []
  | NewConnection _ _ peer :: es => peer :: peers es
  | _ :: es => peers es
  end.

Abbreviation run_all := (run connection_callback message_callback write_complete_callback high_water_mark_callback).

(** * Lemmas *)

Lemma server_run_app es es' w :
  run_all w (es ++ es') =
  match run_all w es with Some (Ret (None, w')) => run_all w' es' | r => r end.
Proof.
  revert w. induction es as [|e es IH]; intros w; [done|]. cbn [app run].
  destruct (step _ _ _ _ w e) as [[[[ex|] w1]| |]|]; done.
Qed.

Lemma onNewConnection_acceptor p c peer w w' :
  onNewConnection connection_callback p c peer w = Ret (None, w') -> acceptor_ (server w') = acceptor_ (server w).
Proof.
  unfold onNewConnection. destruct (getNextSubLoop_spec (server w)) as (loop & i & -> & _).
  destruct (loop =? main_loop_)%nat.
  - unfold connectEstablished, on_conn. cbn [conns]. rewrite lookup_insert_eq.
    match goal with |- (mbind _ ?x) = _ -> _ => destruct x as [[t after]| |] end; try done. cbn [mbind outcome_bind].
    intros [= _ <-]. match goal with |- context [close_callback_ ?a ?b ?c ?d] => pose proof (close_callback_functors a b c d) as (_ & _ & ->) end.
    done.
  - by intros [= <-].
Qed.

(** What does not return is not continued. *)
Lemma serve_stuck served r :
  (forall w, r <> Ret (None, w)) -> serve new_connection_callback served r = r.
Proof.
  intros Hr. induction served as [|[fd peer] served IH]; [done|]. unfold serve in *. cbn [fold_left].
  assert (E : new_connection_callback fd peer r = r) by (destruct r as [[[ex|] w]| |]; try done; by destruct (Hr w)).
  by rewrite E.
Qed.

Lemma serve_runs served w :
  Buffer.buffer_wf buffer -> Buffer.readable buffer = [] -> acceptor_ (server w) = true ->
  exists es, Forall event_ok es /\ Forall (fun e => is_new e = true) es /\
    run_all w es = Some (serve new_connection_callback served (return_ w)) /\
    peers es `prefix_of` served.*2 /\
    (forall w', serve new_connection_callback served (return_ w) = Ret (None, w') -> peers es = served.*2).
Proof.
  intros Hb Hr. revert w. induction served as [|[fd peer] served IH]; intros w Hacc.
  { exists []. split; [constructor|]. split; [constructor|]. split; [done|]. by split. }
  set (p := fresh (dom (conns w))). set (c := TcpConnection.construct fd buffer 0 kernel_write kernel_shutdown).
  assert (Hp : conns w !! p = None) by (apply not_elem_of_dom, is_fresh).
  assert (Hok : event_ok (NewConnection p c peer)) by (by eexists _, _, _, _, _).
  set (r := onNewConnection connection_callback p c peer w).
  assert (Hstep : step connection_callback message_callback write_complete_callback high_water_mark_callback w
                    (NewConnection p c peer) = Some r) by (cbn [step]; by rewrite Hacc, bool_decide_true).
  assert (Hserve : serve new_connection_callback ((fd, peer) :: served) (return_ w) = serve new_connection_callback served r) by done.
  rewrite Hserve. assert (Hcase : (exists w1, r = Ret (None, w1)) \/ forall w1, r <> Ret (None, w1)).
  { destruct r as [[[ex|] w1]| |]; [by right|left; by exists w1|by right|by right]. }
  destruct Hcase as [(w1 & Er)|Hstuck].
  - rewrite Er in *. destruct (IH w1) as (es & H1 & H2 & H3 & H4 & H5).
    { rewrite (onNewConnection_acceptor p c peer w w1); done. }
    exists (NewConnection p c peer :: es). split; [by constructor|]. split; [by constructor|]. cbn [run]. rewrite Hstep.
    split; [exact H3|]. cbn [peers fmap list_fmap snd]. split; [by apply prefix_cons|].
    intros w' Hw'. f_equal. by apply (H5 w').
  - rewrite (serve_stuck served r Hstuck). exists [NewConnection p c peer]. split; [by constructor|]. split; [by constructor|].
    cbn [run]. rewrite Hstep. split; [by destruct r as [[[ex|] w1]| |]; [|destruct (Hstuck w1)| |]|].
    cbn [peers fmap list_fmap snd]. split; [apply prefix_cons, prefix_nil|]. intros w' Hw'. by destruct (Hstuck w').
Qed.

End reactor.
End Reactor.
Import Reactor.

(** * Properties *)

(** The acceptor serves the server: a readable listening socket makes the
    server accept, in order, the pending connections the table of descriptors
    has room for, each with a descriptor of its own; what the server does then
    is a history of the server, so that what holds of all histories (the life of
    the connections, the table) holds after it. *)
Theorem acceptor_feeds_server `{Inet} `{KernelLaws K} cc mc wc hw buffer kw ks server_name num_threads es w fuel a k :
  Buffer.buffer_wf buffer -> Buffer.readable buffer = [] ->
  TcpServer.run cc mc wc hw (TcpServer.init server_name num_threads) es = Some (Ret (None, w)) ->
  TcpServer.acceptor_ (TcpServer.server w) = true ->
  reserved a k -> (size (fds k) <= limit)%nat -> Forall transient (backlog k) ->
  eager = false \/ (length (backlog k) < free k)%nat -> (length (backlog k) < fuel)%nat ->
  exists a' r k' es' served,
    Acceptor.handleRead (Some (new_connection_callback cc buffer kw ks)) fuel a (TcpServer.return_ w) k = Ret (a', r, k') /\
    served_with served a a' k k' /\ (served.*2, backlog k') = accept_spec (free k) (backlog k) /\
    Forall event_ok es' /\ TcpServer.run cc mc wc hw (TcpServer.init server_name num_threads) (es ++ es') = Some r /\
    forall w', r = Ret (None, w') -> peers es' = served.*2.
Proof.
  intros Hb Hr Hrun Hacc Hres Hsize Htr Heager Hfuel.
  destruct (handleRead_spec (new_connection_callback cc buffer kw ks) fuel a (TcpServer.return_ w) k Hres Hsize Htr Heager Hfuel)
    as (a' & k' & served & Hread & Hspec & Hserved).
  destruct (serve_runs cc mc wc hw buffer kw ks served w Hb Hr Hacc) as (es' & Hok & _ & Hes' & _ & Hpeers).
  exists a', (serve (new_connection_callback cc buffer kw ks) served (TcpServer.return_ w)), k', es', served.
  split; [exact Hread|]. split; [exact Hserved|]. split; [exact Hspec|]. split; [exact Hok|]. split; [|exact Hpeers].
  by rewrite server_run_app, Hrun.
Qed.

(** Two connections are pending; the server has two sub loops. *)
Lemma acceptor_feeds_server_witness :
  let I := dotted_quad in
  let k := mkTable {[3; 4; 5]} [inl (InetAddress.loopback 1001); inl (InetAddress.loopback 1002)] None in
  exists a' r k' es',
    @Acceptor.handleRead table (table_kernel 9 true) TcpServer.result
      (Some (new_connection_callback (Some TcpConnection.return_) example_buffer example_kernel None)) 3
      example_acceptor (TcpServer.return_ (TcpServer.init (str "Echo") 2)) k = Ret (a', r, k') /\
    TcpServer.run (Some TcpConnection.return_) None None None (TcpServer.init (str "Echo") 2) es' = Some r /\
    pending k' = [].
Proof.
  cbv zeta.
  destruct (@acceptor_feeds_server dotted_quad table (table_kernel 9 true) (table_laws 9 true)
    (Some TcpConnection.return_) None None None example_buffer example_kernel None (str "Echo") 2 []
    (TcpServer.init (str "Echo") 2) 3 example_acceptor
    (mkTable {[3; 4; 5]} [inl (InetAddress.loopback 1001); inl (InetAddress.loopback 1002)] None))
    as (a' & r & k' & es' & served & Hread & _ & Hspec & _ & Hrun & _).
  - exact example_buffer_wf.
  - reflexivity.
  - reflexivity.
  - reflexivity.
  - split; [discriminate|]. exact five_open.
  - apply Nat.leb_le. vm_compute; reflexivity.
  - cbn. repeat (constructor; [exact I|]). constructor.
  - right. apply Nat.ltb_lt. vm_compute; reflexivity.
  - apply Nat.ltb_lt. vm_compute; reflexivity.
  - exists a', r, k', es'. split; [exact Hread|]. split; [exact Hrun|].
    apply (f_equal snd) in Hspec. etransitivity; [exact Hspec|]. vm_compute; reflexivity.
Defined.
