(* ===== verification/RpcMessage.v ===== *)
(** The vocabulary the RPC server and client share: [Status], [Result],
    [RpcRequest], [RpcResponse] (include/nexus/rpc/status.h, rpc_message.h), the
    reserved metadata keys, the limit test on frames, and the two ends of the
    status code's trip over the wire ([makeResponseFrame] of the server,
    [decodeResponseStatus] of the client). *)
From Stdlib Require Import ZArith Lia.
From Stdlib Require Import Strings.Byte.
From stdpp Require Import base list strings gmap.
From S2P Require Import Prelude StdMap FrameHeader Metadata FrameCodec Chars.

(** * Status *)

Inductive StatusCode :=
  | scOk
  | kInvalidArgument
  | kDeadlineExceeded
  | kNotFound
  | kResourceExhausted
  | kUnsupportedCompression
  | kUnavailable
  | kInternal.

#[export] Instance StatusCode_eq_dec : EqDecision StatusCode.
Proof. solve_decision. Defined.

(** [static_cast<int>(code)]. *)
Definition StatusCode_value (c : StatusCode) : Z :=
  match c with
  | scOk => 0
  | kInvalidArgument => 1
  | kDeadlineExceeded => 2
  | kNotFound => 3
  | kResourceExhausted => 4
  | kUnsupportedCompression => 5
  | kUnavailable => 6
  | kInternal => 7
  end.

(** [static_cast<StatusCode>(value)], for the values of the enumerators. *)
Definition StatusCode_of (value : Z) : StatusCode :=
  match value with
  | 0 => scOk
  | 1 => kInvalidArgument
  | 2 => kDeadlineExceeded
  | 3 => kNotFound
  | 4 => kResourceExhausted
  | 5 => kUnsupportedCompression
  | 6 => kUnavailable
  | _ => kInternal
  end.

Record Status := mkStatus {
  code : StatusCode;
  message : bytes;
}.

#[export] Instance Status_eq_dec : EqDecision Status.
Proof. solve_decision. Defined.

Definition Ok : Status := mkStatus scOk [].
Definition ok (s : Status) : bool := bool_decide (code s = scOk).

(** [Result<T>]: a status and, when built from a value, the value. *)
Record Result (T : Type) := mkResult {
  r_status : Status;
  r_value : option T;
}.
Arguments mkResult {T}.
Arguments r_status {T}.
Arguments r_value {T}.

Definition of_status {T} (s : Status) : Result T := mkResult s None.
Definition of_value {T} (v : T) : Result T := mkResult Ok (Some v).
Definition result_ok {T} (r : Result T) : bool := ok (r_status r).

(** * Requests and responses *)

Record RpcRequest := mkRequest {
  service : bytes;
  method : bytes;
  req_metadata : metadata_map;
  req_body : bytes;
  request_id : Z;
}.

Record RpcResponse := mkResponse {
  status : Status;
  res_metadata : metadata_map;
  res_body : bytes;
}.

#[export] Instance RpcResponse_eq_dec : EqDecision RpcResponse.
Proof. solve_decision. Defined.

(** * Reserved metadata keys and limits *)

Definition kServiceMetadataKey : bytes := str "nexus.service".
Definition kMethodMetadataKey : bytes := str "nexus.method".
Definition kDeadlineMetadataKey : bytes := str "deadline_unix_ms".
Definition kStatusCodeMetadataKey : bytes := str "nexus.status_code".
Definition kStatusMessageMetadataKey : bytes := str "nexus.status_message".

Definition isFrameEncodable (metadata : metadata_map) (body : bytes) : bool :=
  (lenZ body <=? kMaxBodyLength) && (lenZ (encodeMetadata metadata) <=? kMaxMetadataLength).

(** * The server's end: makeResponseFrame *)

Definition statusCodeToString (c : StatusCode) : bytes := Chars.to_string (StatusCode_value c).

(** The metadata of a response, with the status recorded in it. *)
Definition status_metadata (r : RpcResponse) : metadata_map :=
  let metadata :=
    StdMap.insert kStatusCodeMetadataKey (statusCodeToString (code (status r))) (res_metadata r) in
  match message (status r) with
  | [] => metadata
  | _ => StdMap.insert kStatusMessageMetadataKey (message (status r)) metadata
  end.

Definition limit_response : RpcResponse :=
  mkResponse (mkStatus kResourceExhausted (str "response frame exceeds protocol limits")) [] [].

(** What is put into the frame: the response, or the error that replaces it. *)
Definition response_payload (response : RpcResponse) : metadata_map * bytes :=
  let metadata := status_metadata response in
  if negb (isFrameEncodable metadata (res_body response)) then
    (StdMap.insert kStatusMessageMetadataKey (message (status limit_response))
       (StdMap.insert kStatusCodeMetadataKey
          (statusCodeToString (code (status limit_response))) (res_metadata limit_response)),
     res_body limit_response)
  else (metadata, res_body response).

Definition makeResponseFrame (rid : Z) (response : RpcResponse) : bytes :=
  let '(metadata, body) := response_payload response in
  encodeFrame rid kResponse metadata body.

(** * The client's end: decodeResponseStatus *)

Definition int_min : Z := - 2 ^ 31.
Definition int_max : Z := 2 ^ 31 - 1.

(** The status returned and, when it is ok, the status decoded. *)
Definition decodeResponseStatus (metadata : metadata_map) : Status * option Status :=
  match StdMap.lookup kStatusCodeMetadataKey metadata with
  | None => (mkStatus kInternal (str "response is missing status metadata"), None)
  | Some text =>
      let r := Chars.from_chars_signed int_min int_max text in
      let value := default 0 (Chars.value r) in
      if negb (bool_decide (Chars.ec r = Chars.no_error)) ||
         negb (Chars.ptr r =? length text)%nat || (value <? 0) ||
         (StatusCode_value kInternal <? value)
      then (mkStatus kInternal (str "response contains an invalid status code"), None)
      else
        let msg :=
          match StdMap.lookup kStatusMessageMetadataKey metadata with
          | None => []
          | Some m => m
          end in
        (Ok, Some (mkStatus (StatusCode_of value) msg))
  end.

(** * Lemmas *)

Lemma StatusCode_value_range c : 0 <= StatusCode_value c <= 7.
Proof. destruct c; cbn; lia. Qed.

Lemma StatusCode_of_value c : StatusCode_of (StatusCode_value c) = c.
Proof. by destruct c. Qed.

Lemma key_neq_code_message : kStatusCodeMetadataKey <> kStatusMessageMetadataKey.
Proof. by vm_compute. Qed.

Lemma status_metadata_wf r : StdMap.map_wf (res_metadata r) -> StdMap.map_wf (status_metadata r).
Proof.
  intros H. unfold status_metadata.
  destruct (message (status r)); repeat apply StdMap.insert_wf; done.
Qed.

Lemma status_metadata_code r :
  StdMap.lookup kStatusCodeMetadataKey (status_metadata r) =
  Some (statusCodeToString (code (status r))).
Proof.
  unfold status_metadata. destruct (message (status r)) eqn:E.
  - apply StdMap.lookup_insert_eq.
  - rewrite StdMap.lookup_insert_ne by apply key_neq_code_message. apply StdMap.lookup_insert_eq.
Qed.

Lemma decode_status_code c metadata :
  StdMap.lookup kStatusCodeMetadataKey metadata = Some (statusCodeToString c) ->
  decodeResponseStatus metadata =
  (Ok, Some (mkStatus c (default [] (StdMap.lookup kStatusMessageMetadataKey metadata)))).
Proof.
  intros E. unfold decodeResponseStatus. rewrite E.
  pose proof (StatusCode_value_range c) as Hc. unfold statusCodeToString, int_min, int_max in *.
  rewrite Chars.from_chars_signed_to_string by lia. cbn [Chars.ec Chars.ptr Chars.value default from_option id].
  rewrite bool_decide_true, Nat.eqb_refl by done. cbn [negb orb].
  change (StatusCode_value kInternal) with 7.
  rewrite (proj2 (Z.ltb_ge _ _)), (proj2 (Z.ltb_ge _ _)) by lia. cbn [orb].
  rewrite StatusCode_of_value. by destruct (StdMap.lookup kStatusMessageMetadataKey metadata).
Qed.

Lemma isFrameEncodable_spec rid mt metadata body :
  0 <= rid < 2 ^ 64 -> isFrameEncodable metadata body = true ->
  fits (mkMessage rid mt metadata body).
Proof. intros Hr H. unfold isFrameEncodable in H. breflect. by unfold fits. Qed.

(** Whatever the handler returned, the frame's payload is within the limits. *)
Lemma response_payload_encodable r :
  isFrameEncodable (response_payload r).1 (response_payload r).2 = true.
Proof.
  unfold response_payload. destruct (isFrameEncodable _ (res_body r)) eqn:E; cbn [negb]; [done|].
  by vm_compute.
Qed.

Lemma response_payload_wf r :
  StdMap.map_wf (res_metadata r) -> StdMap.map_wf (response_payload r).1.
Proof.
  intros H. unfold response_payload. destruct (negb _); cbn [fst].
  - by repeat apply StdMap.insert_wf.
  - by apply status_metadata_wf.
Qed.

Definition response_message (rid : Z) (r : RpcResponse) : Message :=
  mkMessage rid kResponse (response_payload r).1 (response_payload r).2.

Lemma makeResponseFrame_encode rid r : makeResponseFrame rid r = encode (response_message rid r).
Proof.
  unfold makeResponseFrame, response_message, encode; cbn.
  by destruct (response_payload r).
Qed.

Lemma response_message_encodable rid r :
  0 <= rid < 2 ^ 64 -> StdMap.map_wf (res_metadata r) -> encodable (response_message rid r).
Proof.
  intros Hr Hw. split.
  - apply isFrameEncodable_spec; [done|]. apply response_payload_encodable.
  - by apply response_payload_wf.
Qed.

(** The status a client reads from a response's payload. *)
Definition delivered_status (r : RpcResponse) : Status :=
  if isFrameEncodable (status_metadata r) (res_body r) then
    mkStatus (code (status r))
      (default [] (StdMap.lookup kStatusMessageMetadataKey (status_metadata r)))
  else status limit_response.

Lemma decode_response_payload r :
  decodeResponseStatus (response_payload r).1 = (Ok, Some (delivered_status r)).
Proof.
  unfold response_payload, delivered_status.
  destruct (isFrameEncodable (status_metadata r) (res_body r)); cbn [negb fst].
  - apply decode_status_code, status_metadata_code.
  - by vm_compute.
Qed.

(** * Properties *)

(** Every response a handler can return gets a frame that the limits
    admit and the parser accepts, and the client decodes the handler's status
    code from it (or, when the response is too big, [kResourceExhausted]); the
    message arrives as sent unless the handler's own metadata supplied one for
    an empty message. *)
Theorem response_status_roundtrip rid r :
  0 <= rid < 2 ^ 64 -> StdMap.map_wf (res_metadata r) ->
  let '(metadata, body) := response_payload r in
  encodeFrame_asserts rid kResponse metadata body = true /\
  makeResponseFrame rid r = encode (mkMessage rid kResponse metadata body) /\
  encodable (mkMessage rid kResponse metadata body) /\
  decodeResponseStatus metadata = (Ok, Some (delivered_status r)) /\
  (isFrameEncodable (status_metadata r) (res_body r) = true ->
     code (delivered_status r) = code (status r) /\
     (message (status r) <> [] -> delivered_status r = status r)) /\
  (isFrameEncodable (status_metadata r) (res_body r) = false ->
     code (delivered_status r) = kResourceExhausted /\ body = []).
Proof.
  intros Hr Hw. destruct (response_payload r) as [metadata body] eqn:E.
  pose proof (response_message_encodable rid r Hr Hw) as He.
  unfold response_message in He. rewrite E in He; cbn [fst snd] in He.
  pose proof (decode_response_payload r) as Hd. rewrite E in Hd; cbn [fst] in Hd.
  split; [by apply (encodeFrame_asserts_fits (mkMessage rid kResponse metadata body)), He|].
  split; [unfold makeResponseFrame; by rewrite E|]. split; [done|]. split; [done|].
  unfold delivered_status, response_payload in *. split; intros Hf; rewrite Hf in *; cbn [negb] in E.
  - split; [done|]. intros Hne. cbn [code]. unfold status_metadata.
    destruct (message (status r)) as [|b m] eqn:Em; [done|].
    rewrite StdMap.lookup_insert_eq. cbn. rewrite <- Em. by destruct (status r).
  - injection E as <- <-. done.
Qed.

Definition example_response : RpcResponse :=
  mkResponse (mkStatus kNotFound (str "no such city")) [(str "k", str "v")] (str "body").

Lemma response_status_roundtrip_witness :
  StdMap.map_wf (res_metadata example_response) /\
  let '(metadata, body) := response_payload example_response in
  encodeFrame_asserts 7 kResponse metadata body = true /\
  makeResponseFrame 7 example_response = encode (mkMessage 7 kResponse metadata body) /\
  encodable (mkMessage 7 kResponse metadata body) /\
  decodeResponseStatus metadata = (Ok, Some (delivered_status example_response)) /\
  (isFrameEncodable (status_metadata example_response) (res_body example_response) = true ->
     code (delivered_status example_response) = code (status example_response) /\
     (message (status example_response) <> [] ->
        delivered_status example_response = status example_response)) /\
  (isFrameEncodable (status_metadata example_response) (res_body example_response) = false ->
     code (delivered_status example_response) = kResourceExhausted /\ body = []).
Proof.
  assert (H : StdMap.map_wf (res_metadata example_response)) by (apply (bool_decide_unpack _); by vm_compute).
  split; [exact H|]. apply (response_status_roundtrip 7 example_response); [lia|exact H].
Defined.

(** Only the eight codes the server writes are accepted as a status: when
    [decodeResponseStatus] succeeds, the code is present, all of its text is
    a number, and the number is the value of the code returned; any other
    metadata is an internal error and no status. *)
Theorem decodeResponseStatus_sound metadata :
  match decodeResponseStatus metadata with
  | (st, Some decoded) =>
      st = Ok /\ exists text, StdMap.lookup kStatusCodeMetadataKey metadata = Some text /\
        Chars.from_chars_signed int_min int_max text =
          Chars.mkResult (length text) Chars.no_error (Some (StatusCode_value (code decoded)))
  | (st, None) => code st = kInternal
  end.
Proof.
  unfold decodeResponseStatus.
  destruct (StdMap.lookup kStatusCodeMetadataKey metadata) as [text|]; [|done].
  destruct (_ || _) eqn:E; [done|]. breflect. split; [done|]. exists text. split; [done|].
  case_bool_decide as Hec; [|done].
  destruct (Chars.from_chars_signed _ _ _) as [p e v] eqn:Er; cbn in *. subst p e.
  assert (exists w, v = Some w) as [w ->].
  { unfold Chars.from_chars_signed in Er. destruct (match text with x2d :: l' => (true, l') | _ => (false, text) end) as [neg rest].
    destruct (Chars.scan_digits rest 0 0) as [v0 n0].
    destruct (n0 =? 0)%nat; [done|]. destruct (_ || _) in Er; [done|].
    injection Er as _ <-. by eexists. }
  cbn in *. do 2 f_equal. unfold StatusCode_of.
  assert (w = 0 \/ w = 1 \/ w = 2 \/ w = 3 \/ w = 4 \/ w = 5 \/ w = 6 \/ w = 7) as Hw by lia.
  by destruct Hw as [->|[->|[->|[->|[->|[->|[->| ->]]]]]]].
Qed.
