(* ===== verification/RpcServer.v ===== *)
(** The RPC server: [RpcServer::Impl] of src/rpc/rpc_server.cpp.  The handlers,
    the connection states (shared objects, kept in a heap), the work queue and
    the requests the workers hold are one state; every member function is a
    function on it, and the threads interleave as steps of a transition
    system. *)
From Stdlib Require Import ZArith Lia.
From Stdlib Require Import Strings.Byte.
From stdpp Require Import base list strings gmap.
From S2P Require Import Prelude StdMap FrameHeader Metadata FrameCodec NetBuffer Chars RpcMessage.

Module RpcServer.

Definition kMaxPendingRequestsPerConnection : Z := 1024.
Definition kMaxQueuedRequests : Z := 8192.

Definition uint64_max : Z := 2 ^ 64 - 1.

(** [validateRequestDeadline]; [now] is the system clock in milliseconds. *)
Definition validateRequestDeadline (now : Z) (request : RpcRequest) : Status :=
  match StdMap.lookup kDeadlineMetadataKey (req_metadata request) with
  | None => Ok
  | Some text =>
      let r := Chars.from_chars_unsigned uint64_max text in
      if negb (bool_decide (Chars.ec r = Chars.no_error)) || negb (Chars.ptr r =? length text)%nat
      then mkStatus kInvalidArgument (str "deadline_unix_ms is invalid")
      else if default 0 (Chars.value r) <=? u64 now
      then mkStatus kDeadlineExceeded (str "RPC deadline exceeded")
      else Ok
  end.

(** What a handler does when it is called. *)
Inductive HandlerResult :=
  | Returns (r : RpcResponse)
  | Throws (what : bytes)
  | ThrowsUnknown.

(** The wrapper [registerService<Request, Response>] puts around a typed
    handler; the Protobuf messages are a library's. *)
Section protobuf.
Context {Request Response : Type}.
Context (ParseFromString : bytes -> option Request).
Context (SerializeToString : Response -> option bytes).

Inductive TypedResult :=
  | TReturns (s : Status) (response : Response)
  | TThrows (what : bytes)
  | TThrowsUnknown.

Definition protobuf_handler (handler : Request -> TypedResult) (wire_request : RpcRequest) :
    HandlerResult :=
  match ParseFromString (req_body wire_request) with
  | None =>
      Returns (mkResponse (mkStatus kInvalidArgument (str "failed to parse Protobuf request")) [] [])
  | Some request =>
      match handler request with
      | TThrows what => Throws what
      | TThrowsUnknown => ThrowsUnknown
      | TReturns s response =>
          if negb (ok s) then Returns (mkResponse s [] [])
          else
            match SerializeToString response with
            | Some body => Returns (mkResponse Ok [] body)
            | None =>
                Returns (mkResponse
                  (mkStatus kInternal (str "failed to serialize Protobuf response")) [] [])
            end
      end
  end.
End protobuf.

Section server.
(** A registered callback; what a call of it does is given where it is called. *)
Context {Handler : Type}.

(** * State *)

Record ConnectionState := mkState {
  parser : FrameParser.t;
  pending_requests : Z;
}.

(** Connections and connection states are named by numbers. *)
Record PendingRequest := mkPending {
  connection : nat;
  state : nat;
  request : RpcRequest;
}.

Record Server := mkServer {
  worker_thread_count_ : nat;
  running_ : bool;
  stopping_ : bool;
  handlers_ : gmap bytes Handler;
  connections_ : gmap nat nat;
  states : gmap nat ConnectionState;   (* the shared ConnectionState objects *)
  next_state : nat;
  work_queue_ : list PendingRequest;
  workers_ : nat;                      (* worker threads that have not returned *)
  in_flight : list PendingRequest;     (* popped by a worker, not yet finished *)
  io_loop : bool;                      (* the I/O thread runs loop.loop() *)
  io_frames : option (nat * nat);      (* it is in onMessage's while loop *)
}.

Definition set_running b s := mkServer (worker_thread_count_ s) b (stopping_ s) (handlers_ s)
  (connections_ s) (states s) (next_state s) (work_queue_ s) (workers_ s) (in_flight s) (io_loop s) (io_frames s).
Definition set_stopping b s := mkServer (worker_thread_count_ s) (running_ s) b (handlers_ s)
  (connections_ s) (states s) (next_state s) (work_queue_ s) (workers_ s) (in_flight s) (io_loop s) (io_frames s).
Definition set_handlers h s := mkServer (worker_thread_count_ s) (running_ s) (stopping_ s) h
  (connections_ s) (states s) (next_state s) (work_queue_ s) (workers_ s) (in_flight s) (io_loop s) (io_frames s).
Definition set_connections c s := mkServer (worker_thread_count_ s) (running_ s) (stopping_ s) (handlers_ s)
  c (states s) (next_state s) (work_queue_ s) (workers_ s) (in_flight s) (io_loop s) (io_frames s).
Definition set_states st s := mkServer (worker_thread_count_ s) (running_ s) (stopping_ s) (handlers_ s)
  (connections_ s) st (next_state s) (work_queue_ s) (workers_ s) (in_flight s) (io_loop s) (io_frames s).
Definition set_next n s := mkServer (worker_thread_count_ s) (running_ s) (stopping_ s) (handlers_ s)
  (connections_ s) (states s) n (work_queue_ s) (workers_ s) (in_flight s) (io_loop s) (io_frames s).
Definition set_queue q s := mkServer (worker_thread_count_ s) (running_ s) (stopping_ s) (handlers_ s)
  (connections_ s) (states s) (next_state s) q (workers_ s) (in_flight s) (io_loop s) (io_frames s).
Definition set_workers n s := mkServer (worker_thread_count_ s) (running_ s) (stopping_ s) (handlers_ s)
  (connections_ s) (states s) (next_state s) (work_queue_ s) n (in_flight s) (io_loop s) (io_frames s).
Definition set_in_flight l s := mkServer (worker_thread_count_ s) (running_ s) (stopping_ s) (handlers_ s)
  (connections_ s) (states s) (next_state s) (work_queue_ s) (workers_ s) l (io_loop s) (io_frames s).
Definition set_io_loop b s := mkServer (worker_thread_count_ s) (running_ s) (stopping_ s) (handlers_ s)
  (connections_ s) (states s) (next_state s) (work_queue_ s) (workers_ s) (in_flight s) b (io_frames s).
Definition set_io_frames i s := mkServer (worker_thread_count_ s) (running_ s) (stopping_ s) (handlers_ s)
  (connections_ s) (states s) (next_state s) (work_queue_ s) (workers_ s) (in_flight s) (io_loop s) i.

(** [Impl(worker_thread_count)]. *)
Definition init (worker_thread_count : nat) : Server :=
  mkServer (if (worker_thread_count =? 0)%nat then 1%nat else worker_thread_count)
    false false ∅ ∅ ∅ 0 [] 0 [] false None.

(** What the server does to a connection. *)
Inductive action :=
  | Send (conn : nat) (frame : bytes)
  | Shutdown (conn : nat)
  | ForceClose (conn : nat).

Definition sendResponse (conn : nat) (rid : Z) (response : RpcResponse) : list action :=
  [Send conn (makeResponseFrame rid response)].

(** * Registration and life cycle *)

Definition makeHandlerKey (service method : bytes) : bytes := service ++ [x0a] ++ method.

(** [handler] is [None] for an empty [std::function]. *)
Definition registerService (s : Server) (service method : bytes) (handler : option Handler) :
    Status * Server :=
  match handler with
  | Some h =>
      if bool_decide (service = []) || bool_decide (method = []) then
        (mkStatus kInvalidArgument (str "service, method, and handler must be provided"), s)
      else if running_ s then
        (mkStatus kInternal (str "cannot register a service after start"), s)
      else
        let key := makeHandlerKey service method in
        match handlers_ s !! key with
        | Some _ => (mkStatus kInternal (str "service method is already registered"), s)
        | None => (Ok, set_handlers (<[key := h]> (handlers_ s)) s)
        end
  | None => (mkStatus kInvalidArgument (str "service, method, and handler must be provided"), s)
  end.

Definition startWorkers (s : Server) : Server := set_workers (worker_thread_count_ s) s.

(** [stopWorkers] after the joins: the worker threads have returned. *)
Definition stopWorkers (s : Server) : Server :=
  set_queue [] (set_workers 0 (set_stopping true s)).

(** [start]; [startup_status] is what the I/O thread reports: [Ok] once the
    listener runs, otherwise the thread has returned. *)
Definition start (s : Server) (port : Z) (startup_status : Status) : Status * Server :=
  if port =? 0 then (mkStatus kInvalidArgument (str "port must be non-zero"), s)
  else if running_ s then (mkStatus kInternal (str "server is already running"), s)
  else
    let s := startWorkers (set_stopping false (set_running true s)) in
    if negb (ok startup_status) then (startup_status, set_running false (stopWorkers s))
    else (startup_status, set_io_loop true s).

(** [stop] up to its first join: the flags are set. *)
Definition stop_begin (s : Server) : option Server :=
  if running_ s then Some (set_stopping true (set_running false s)) else None.

(** The rest of [stop], once the I/O thread and the workers are joined. *)
Definition stop_end (s : Server) : Server := set_connections ∅ (stopWorkers s).

(** * The I/O thread *)

Definition onConnection (s : Server) (conn : nat) : Server :=
  match connections_ s !! conn with
  | None =>
      set_connections (<[conn := next_state s]> (connections_ s))
        (set_states (<[next_state s := mkState FrameParser.init 0]> (states s))
           (set_next (S (next_state s)) s))
  | Some _ => set_connections (delete conn (connections_ s)) s
  end.

Definition enqueue (s : Server) (r : PendingRequest) : bool * Server :=
  if stopping_ s || (kMaxQueuedRequests <=? lenZ (work_queue_ s)) then (false, s)
  else (true, set_queue (work_queue_ s ++ [r]) s).

Definition set_parser (s : Server) (id : nat) (cs : ConnectionState) (p : FrameParser.t) : Server :=
  set_states (<[id := mkState p (pending_requests cs)]> (states s)) s.

Definition fetch_add (s : Server) (id : nat) (cs : ConnectionState) : Server :=
  set_states (<[id := mkState (parser cs) (u64 (pending_requests cs + 1))]> (states s)) s.

Definition fetch_sub (s : Server) (id : nat) : outcome Server :=
  match states s !! id with
  | None => OutOfBounds
  | Some cs =>
      Ret (set_states (<[id := mkState (parser cs) (u64 (pending_requests cs - 1))]> (states s)) s)
  end.

(** [onMessage] up to its loop: the connection's state is looked up and the
    octets are fed.  The last component says whether the loop is reached, and
    with which state. *)
Definition onMessage_feed (s : Server) (conn : nat) (buffer : Buffer.t) :
    outcome (Server * Buffer.t * list action * option nat) :=
  match connections_ s !! conn with
  | None => Ret (s, buffer, [ForceClose conn], None)
  | Some id =>
      match states s !! id with
      | None => OutOfBounds
      | Some cs =>
          let readable_bytes := Buffer.readableBytes buffer in
          let* '(feed_result, p) :=
            FrameParser.feed (parser cs) (FrameParser.Data (Buffer.readable buffer)) in
          let buffer := Buffer.retrieve buffer readable_bytes in
          let s := set_parser s id cs p in
          if FrameParser.is_error feed_result then Ret (s, buffer, [ForceClose conn], None)
          else Ret (s, buffer, [], Some id)
      end
  end.

(** The tests an accepted request frame passes. *)
Definition frame_request (f : FrameParser.Frame) : option RpcRequest :=
  let metadata := FrameParser.f_metadata f in
  match StdMap.lookup kServiceMetadataKey metadata, StdMap.lookup kMethodMetadataKey metadata with
  | Some service, Some method =>
      if bool_decide (service = []) || bool_decide (method = []) then None
      else Some (mkRequest service method metadata (FrameParser.f_body f)
                   (FrameHeader.request_id (FrameParser.f_header f)))
  | _, _ => None
  end.

Definition invalid_request : RpcResponse :=
  mkResponse (mkStatus kInvalidArgument (str "request metadata lacks service or method")) [] [].
Definition too_many_requests : RpcResponse :=
  mkResponse (mkStatus kResourceExhausted (str "too many in-flight requests")) [] [].
Definition queue_full : RpcResponse :=
  mkResponse (mkStatus kResourceExhausted (str "RPC handler queue is full")) [] [].

(** The part of the loop's body that admits or rejects a request. *)
Definition admit_request (s : Server) (conn id : nat) (r : RpcRequest) :
    outcome (Server * list action) :=
  match states s !! id with
  | None => OutOfBounds
  | Some cs =>
      let s := fetch_add s id cs in
      if kMaxPendingRequestsPerConnection <=? pending_requests cs then
        let* s := fetch_sub s id in
        Ret (s, sendResponse conn (request_id r) too_many_requests)
      else
        let '(queued, s) := enqueue s (mkPending conn id r) in
        if negb queued then
          let* s := fetch_sub s id in
          Ret (s, sendResponse conn (request_id r) queue_full)
        else Ret (s, [])
  end.

(** One iteration of [while (state->parser.isComplete())]; the boolean says
    whether the loop goes on. *)
Definition onMessage_frame (s : Server) (conn id : nat) : outcome (Server * list action * bool) :=
  match states s !! id with
  | None => OutOfBounds
  | Some cs =>
      let p := parser cs in
      if negb (FrameParser.isComplete p) then Ret (s, [], false)
      else
        let header := FrameParser.header p in
        if negb (msg_type header =? MessageType_value kRequest) then
          Ret (s, [ForceClose conn], false)
        else
          match frame_request (FrameParser.frame_of p) with
          | None =>
              Ret (s, sendResponse conn (FrameHeader.request_id header) invalid_request ++
                      [Shutdown conn], false)
          | Some request =>
              let s := set_parser s id cs (FrameParser.reset p) in
              let* '(s, acts) := admit_request s conn id request in
              match states s !! id with
              | None => OutOfBounds
              | Some cs =>
                  let* '(next_result, p) := FrameParser.feed (parser cs) (FrameParser.Null 0) in
                  let s := set_parser s id cs p in
                  if FrameParser.is_error next_result
                  then Ret (s, acts ++ [ForceClose conn], false)
                  else Ret (s, acts, true)
              end
          end
  end.

Fixpoint onMessage_loop (fuel : nat) (s : Server) (conn id : nat) (acts : list action) :
    outcome (Server * list action) :=
  match fuel with
  | O => OutOfFuel
  | S f =>
      let* '(s, out, again) := onMessage_frame s conn id in
      if again : bool then onMessage_loop f s conn id (acts ++ out) else Ret (s, acts ++ out)
  end.

(** Every iteration takes a frame of at least 32 octets from the parser. *)
Definition loop_fuel (s : Server) (id : nat) : nat :=
  match states s !! id with
  | None => 1
  | Some cs => S (S (length (FrameParser.buffer_ (parser cs))))
  end.

Definition onMessage (s : Server) (conn : nat) (buffer : Buffer.t) :
    outcome (Server * Buffer.t * list action) :=
  let* '(s, buffer, acts, next) := onMessage_feed s conn buffer in
  match next with
  | None => Ret (s, buffer, acts)
  | Some id =>
      let* '(s, acts) := onMessage_loop (loop_fuel s id) s conn id acts in
      Ret (s, buffer, acts)
  end.

(** * The worker threads *)

(** What a worker answers: [now] is the clock when the deadline is checked,
    [call] what a call of a handler does. *)
Definition worker_response (handlers : gmap bytes Handler) (now : Z)
    (call : Handler -> RpcRequest -> HandlerResult) (r : RpcRequest) : RpcResponse :=
  let handler := handlers !! makeHandlerKey (service r) (method r) in
  let deadline_status := validateRequestDeadline now r in
  if negb (ok deadline_status) then mkResponse deadline_status [] []
  else
    match handler with
    | None => mkResponse (mkStatus kNotFound (str "service method is not registered")) [] []
    | Some h =>
        match call h r with
        | Returns response => response
        | Throws what => mkResponse (mkStatus kInternal what) [] []
        | ThrowsUnknown => mkResponse (mkStatus kInternal (str "unclassified handler exception")) [] []
        end
    end.

(** A worker's wait ends: it takes the front of the queue, or it returns. *)
Inductive wakeup := Takes (s : Server) | Exits (s : Server) | Waits.

Definition worker_take (s : Server) : wakeup :=
  match work_queue_ s with
  | [] => if stopping_ s then Exits (set_workers (workers_ s - 1) s) else Waits
  | pending :: rest => Takes (set_in_flight (in_flight s ++ [pending]) (set_queue rest s))
  end.

(** The rest of an iteration of [workerLoop], for the [i]-th request the
    workers hold. *)
Definition worker_finish (s : Server) (i : nat) (now : Z)
    (call : Handler -> RpcRequest -> HandlerResult) : outcome (Server * list action) :=
  match in_flight s !! i with
  | None => OutOfBounds
  | Some pending =>
      let response := worker_response (handlers_ s) now call (request pending) in
      let acts := sendResponse (connection pending) (request_id (request pending)) response in
      let s := set_in_flight (delete i (in_flight s)) s in
      let* s := fetch_sub s (state pending) in
      Ret (s, acts)
  end.

(** * The threads together *)

Inductive event :=
  | Register (service method : bytes) (handler : option Handler)
  | Start (port : Z) (startup_status : Status)
  | OnConnection (conn : nat)
  | OnMessage (conn : nat) (buffer : Buffer.t)
  | NextFrame
  | WorkerTake
  | WorkerFinish (i : nat) (now : Z) (call : Handler -> RpcRequest -> HandlerResult)
  | WorkerExit
  | StopBegin
  | IoExit
  | StopEnd.

(** A step; the result is [None] when no thread can take it. *)
Definition step (s : Server) (e : event) : option (outcome (Server * list action)) :=
  match e with
  | Register service method handler => Some (Ret ((registerService s service method handler).2, []))
  | Start port startup_status =>
      (* the threads of an earlier run are joined *)
      if io_loop s || negb (workers_ s =? 0)%nat then None
      else Some (Ret ((start s port startup_status).2, []))
  | OnConnection conn =>
      if io_loop s && bool_decide (io_frames s = None) then Some (Ret (onConnection s conn, []))
      else None
  | OnMessage conn buffer =>
      if io_loop s && bool_decide (io_frames s = None) then
        Some (let* '(s, _, acts, next) := onMessage_feed s conn buffer in
              Ret (set_io_frames (option_map (fun id => (conn, id)) next) s, acts))
      else None
  | NextFrame =>
      match io_frames s with
      | None => None
      | Some (conn, id) =>
          Some (let* '(s, acts, again) := onMessage_frame s conn id in
                Ret (if again : bool then s else set_io_frames None s, acts))
      end
  | WorkerTake =>
      if (length (in_flight s) <? workers_ s)%nat then
        match worker_take s with Takes s => Some (Ret (s, [])) | _ => None end
      else None
  | WorkerFinish i now call =>
      if (i <? length (in_flight s))%nat then Some (worker_finish s i now call) else None
  | WorkerExit =>
      if (length (in_flight s) <? workers_ s)%nat then
        match worker_take s with Exits s => Some (Ret (s, [])) | _ => None end
      else None
  | StopBegin =>
      match stop_begin s with Some s => Some (Ret (s, [])) | None => None end
  | IoExit =>
      if io_loop s && negb (running_ s) && bool_decide (io_frames s = None)
      then Some (Ret (set_io_loop false s, [])) else None
  | StopEnd =>
      if negb (io_loop s) && negb (running_ s) && stopping_ s && (workers_ s =? 0)%nat
      then Some (Ret (stop_end s, [])) else None
  end.

Inductive reachable (n : nat) : Server -> Prop :=
  | reachable_init : reachable n (init n)
  | reachable_step s e s' acts :
      reachable n s -> step s e = Some (Ret (s', acts)) -> reachable n s'.

End server.
End RpcServer.
