(* ===== verification/RpcServerFacts.v ===== *)
(** Theorems about the RPC server: the accounting of pending requests under
    every interleaving of the threads, the draining of the queue, the
    dispatch of a stream of requests, deadlines and the handler table. *)
From Stdlib Require Import ZArith Lia.
From Stdlib Require Import Strings.Byte.
From stdpp Require Import base list strings gmap.
From S2P Require Import Prelude StdMap FrameHeader Metadata FrameCodec NetBuffer Chars RpcMessage RpcServer.
Import RpcServer.

Section facts.
Context {Handler : Type}.
Local Abbreviation server := (RpcServer.Server (Handler := Handler)).
Implicit Types s : server.

(** * Accounting *)

(** The requests of a list that belong to connection state [id]. *)
Definition count_state (id : nat) (l : list PendingRequest) : Z :=
  lenZ (filter (fun r => state r = id) l).

Lemma count_state_app id l k : count_state id (l ++ k) = count_state id l + count_state id k.
Proof. unfold count_state. by rewrite filter_app, lenZ_app. Qed.

Lemma count_state_cons id r l :
  count_state id (r :: l) = (if bool_decide (state r = id) then 1 else 0) + count_state id l.
Proof.
  unfold count_state. rewrite filter_cons. case_bool_decide; case_decide; try done.
  by rewrite lenZ_cons.
Qed.

Lemma count_state_nonneg id l : 0 <= count_state id l.
Proof. apply lenZ_nonneg. Qed.

Lemma count_state_delete id l i r :
  l !! i = Some r ->
  count_state id l = (if bool_decide (state r = id) then 1 else 0) + count_state id (delete i l).
Proof.
  intros H. rewrite <- (take_drop_middle l i r H) at 1. rewrite delete_take_drop.
  rewrite !count_state_app, count_state_cons. lia.
Qed.

(** The requests a state's counter stands for. *)
Definition outstanding (s : server) (id : nat) : Z :=
  count_state id (work_queue_ s) + count_state id (in_flight s).

Record server_inv (s : server) : Prop := {
  inv_queue : lenZ (work_queue_ s) <= kMaxQueuedRequests;
  inv_pending : forall id cs, states s !! id = Some cs ->
    pending_requests cs = outstanding s id /\
    pending_requests cs <= kMaxPendingRequestsPerConnection;
  inv_held : forall r, r ∈ work_queue_ s ++ in_flight s -> is_Some (states s !! state r);
  inv_connections : forall conn id, connections_ s !! conn = Some id -> is_Some (states s !! id);
  inv_frames : forall conn id, io_frames s = Some (conn, id) ->
    is_Some (states s !! id) /\ io_loop s = true;
  inv_next : forall id, is_Some (states s !! id) -> (id < next_state s)%nat;
  inv_in_flight : (length (in_flight s) <= workers_ s)%nat;
  inv_workers : stopping_ s = false -> io_loop s = true -> workers_ s = worker_thread_count_ s;
  inv_drained : workers_ s = 0%nat -> work_queue_ s = [];
  inv_thread_count : (0 < worker_thread_count_ s)%nat;
}.

Lemma outstanding_fresh s id :
  server_inv s -> states s !! id = None -> outstanding s id = 0.
Proof.
  intros Hinv Hid. unfold outstanding.
  assert (forall l, (forall r, r ∈ l -> is_Some (states s !! state r)) -> count_state id l = 0) as H0.
  { intros l Hl. induction l as [|r l IH]; [done|]. rewrite count_state_cons, IH.
    - rewrite bool_decide_false; [done|]. intros <-.
      destruct (Hl r) as [? E]; [constructor|]. by rewrite Hid in E.
    - intros r' Hr'. apply Hl. by constructor. }
  rewrite !H0; [done|..]; intros r Hr; apply (inv_held s Hinv), elem_of_app; tauto.
Qed.

(** A change of a state's parser alone. *)
Lemma set_parser_inv s id cs p :
  server_inv s -> states s !! id = Some cs -> server_inv (set_parser s id cs p).
Proof.
  intros Hinv Hid. destruct Hinv as [H1 H2 H3 H4 H5 H6 H7 H8 H9 H10].
  assert (Hdom : forall i, is_Some (states s !! i) -> is_Some (<[id := mkState p (pending_requests cs)]> (states s) !! i)).
  { intros i Hi. destruct (decide (i = id)) as [->|]; simplify_map_eq; by eauto. }
  constructor; cbn; try done.
  - intros i cs' Hcs. destruct (decide (i = id)) as [->|]; simplify_map_eq; [|by apply H2].
    cbn. by apply H2.
  - intros r Hr. by apply Hdom, H3.
  - intros c i Hc. apply Hdom. by eapply H4.
  - intros c i Hc. destruct (H5 c i Hc) as [? ?]. split; [by apply Hdom|done].
  - intros i Hi. apply H6. destruct (decide (i = id)) as [->|]; simplify_map_eq; by eauto.
Qed.

Lemma init_inv n : server_inv (init n).
Proof.
  constructor; cbn; try done; try lia.
  - intros r Hr. by apply elem_of_nil in Hr.
  - intros id [? H]. by simplify_map_eq.
  - destruct n; cbn; lia.
Qed.

Lemma onConnection_inv s conn : server_inv s -> server_inv (onConnection s conn).
Proof.
  intros Hinv. unfold onConnection. destruct (connections_ s !! conn) as [id0|] eqn:Ec.
  - destruct Hinv as [H1 H2 H3 H4 H5 H6 H7 H8 H9 H10]. constructor; cbn; try done.
    intros c id Hc. apply lookup_delete_Some in Hc as [_ Hc]. by eapply H4.
  - assert (Hfresh : states s !! next_state s = None).
    { apply eq_None_not_Some. intros Hs. apply (inv_next s Hinv) in Hs. lia. }
    pose proof (outstanding_fresh s _ Hinv Hfresh) as H0.
    destruct Hinv as [H1 H2 H3 H4 H5 H6 H7 H8 H9 H10].
    assert (Hdom : forall i, is_Some (states s !! i) ->
      is_Some (<[next_state s := mkState FrameParser.init 0]> (states s) !! i)).
    { intros i Hi. destruct (decide (i = next_state s)) as [->|]; simplify_map_eq; by eauto. }
    constructor; cbn; try done.
    + intros i cs Hcs. destruct (decide (i = next_state s)) as [->|]; simplify_map_eq; [|by apply H2].
      unfold outstanding in *; cbn. unfold kMaxPendingRequestsPerConnection. lia.
    + intros r Hr. by apply Hdom, H3.
    + intros c i Hc. destruct (decide (c = conn)) as [->|]; simplify_map_eq; [by eauto|].
      by eapply Hdom, H4.
    + intros c i Hc. destruct (H5 c i Hc) as [? ?]. split; [by apply Hdom|done].
    + intros i Hi. destruct (decide (i = next_state s)) as [->|]; [lia|]. simplify_map_eq.
      apply H6 in Hi. lia.
Qed.

(** The admission of a request. *)
Definition admitted (s : server) (cs : ConnectionState) : bool :=
  (pending_requests cs <? kMaxPendingRequestsPerConnection) && negb (stopping_ s) &&
  (lenZ (work_queue_ s) <? kMaxQueuedRequests).

Definition rejection (cs : ConnectionState) : RpcResponse :=
  if kMaxPendingRequestsPerConnection <=? pending_requests cs then too_many_requests else queue_full.

Definition admit_result (s : server) (conn id : nat) (cs : ConnectionState) (r : RpcRequest) :
    server * list action :=
  if admitted s cs
  then (set_queue (work_queue_ s ++ [mkPending conn id r]) (fetch_add s id cs), [])
  else (s, sendResponse conn (request_id r) (rejection cs)).

Lemma fetch_sub_add s id cs :
  states s !! id = Some cs -> 0 <= pending_requests cs < 2 ^ 64 ->
  fetch_sub (fetch_add s id cs) id = Ret s.
Proof.
  intros Hid Hp. unfold fetch_sub, fetch_add; cbn. simplify_map_eq. cbn.
  assert (Hu : u64 (u64 (pending_requests cs + 1) - 1) = pending_requests cs).
  { unfold u64. rewrite Zminus_mod_idemp_l. replace (_ + 1 - 1) with (pending_requests cs) by lia.
    by apply Z.mod_small. }
  rewrite Hu, insert_insert_eq. f_equal. destruct s, cs; cbn in *. unfold set_states; cbn.
  f_equal. by apply insert_id.
Qed.

Lemma admit_request_eq s conn id cs r :
  states s !! id = Some cs -> 0 <= pending_requests cs <= kMaxPendingRequestsPerConnection ->
  admit_request s conn id r = Ret (admit_result s conn id cs r).
Proof.
  unfold kMaxPendingRequestsPerConnection at 1. intros Hid Hp.
  unfold admit_request, admit_result, admitted, rejection. rewrite Hid.
  pose proof (fetch_sub_add s id cs Hid ltac:(lia)) as Hsub. case_if.
  - rewrite (proj2 (Z.ltb_ge _ _)) by done. by rewrite Hsub.
  - rewrite (proj2 (Z.ltb_lt _ _)) by done. cbn [andb]. unfold enqueue; cbn.
    destruct (stopping_ s); cbn; [by rewrite Hsub|].
    case_if; cbn.
    + by rewrite (proj2 (Z.ltb_ge _ _)), Hsub.
    + by rewrite (proj2 (Z.ltb_lt _ _)).
Qed.

Lemma admit_result_inv s conn id cs r :
  server_inv s -> states s !! id = Some cs -> io_loop s = true ->
  let s' := (admit_result s conn id cs r).1 in
  server_inv s' /\ io_frames s' = io_frames s /\ io_loop s' = true /\ stopping_ s' = stopping_ s /\
  exists cs', states s' !! id = Some cs' /\ parser cs' = parser cs.
Proof.
  intros Hinv Hid Hio. unfold admit_result. destruct (admitted s cs) eqn:Ead; cbn; [|by eauto 10].
  split; [|simplify_map_eq; by eauto 10].
  pose proof (inv_pending s Hinv id cs Hid) as [Hpe Hpl].
  destruct Hinv as [H1 H2 H3 H4 H5 H6 H7 H8 H9 H10]. unfold admitted in Ead. breflect.
  pose proof (count_state_nonneg id (work_queue_ s)). pose proof (count_state_nonneg id (in_flight s)).
  unfold kMaxPendingRequestsPerConnection, kMaxQueuedRequests, outstanding in *.
  assert (Hu : u64 (pending_requests cs + 1) = pending_requests cs + 1) by (apply Z.mod_small; lia).
  assert (Hdom : forall i, is_Some (states s !! i) ->
    is_Some (<[id := mkState (parser cs) (u64 (pending_requests cs + 1))]> (states s) !! i)).
  { intros i Hi. destruct (decide (i = id)) as [->|]; simplify_map_eq; by eauto. }
  constructor; cbn; try done.
  - unfold kMaxQueuedRequests. rewrite lenZ_app. unfold lenZ in *; cbn. lia.
  - intros i cs' Hcs. unfold outstanding; cbn. rewrite count_state_app, count_state_cons; cbn.
    unfold kMaxPendingRequestsPerConnection.
    destruct (decide (i = id)) as [->|]; simplify_map_eq; cbn.
    + rewrite bool_decide_true, Hu by done. change (count_state id []) with 0. lia.
    + rewrite bool_decide_false by done. change (count_state i []) with 0.
      destruct (H2 i cs' Hcs). lia.
  - intros r' [[Hr|Hr%list_elem_of_singleton]%elem_of_app|Hr]%elem_of_app.
    + apply Hdom, H3, elem_of_app. tauto.
    + subst r'. cbn. apply Hdom. by rewrite Hid.
    + apply Hdom, H3, elem_of_app. tauto.
  - intros c i Hc. by eapply Hdom, H4.
  - intros c i Hc. destruct (H5 c i Hc) as [? ?]. split; [by apply Hdom|done].
  - intros i Hi. apply H6. destruct (decide (i = id)) as [->|]; simplify_map_eq; by eauto.
  - intros Hw. rewrite H8 in Hw by done. lia.
Qed.

(** * Every step keeps the invariant *)

Lemma frames_inv s (f : option (nat * nat)) :
  server_inv s -> io_loop s = true ->
  (forall conn id, f = Some (conn, id) -> is_Some (states s !! id)) ->
  server_inv (set_io_frames f s).
Proof.
  intros [H1 H2 H3 H4 H5 H6 H7 H8 H9 H10] Hio Hf. constructor; cbn; try done.
  intros c i E. split; [by eapply Hf|done].
Qed.

Lemma onMessage_feed_inv s conn b s' b' acts next :
  server_inv s -> onMessage_feed s conn b = Ret (s', b', acts, next) ->
  server_inv s' /\ io_loop s' = io_loop s /\
  (forall id, next = Some id -> is_Some (states s' !! id)).
Proof.
  intros Hinv. unfold onMessage_feed.
  destruct (connections_ s !! conn) as [id|] eqn:Ec; [|by intros [= <- <- <- <-]].
  destruct (states s !! id) as [cs|] eqn:Ei; [|done].
  destruct (FrameParser.feed _ _) as [[r p]| |]; cbn [mbind outcome_bind]; [|done..].
  pose proof (set_parser_inv s id cs p Hinv Ei) as Hinv'.
  destruct (FrameParser.is_error r); intros [= <- <- <- <-]; (split; [done|]); (split; [done|]).
  - done.
  - intros id' [= <-]. cbn. by simplify_map_eq.
Qed.

Lemma onMessage_frame_inv s conn id s' acts again :
  server_inv s -> io_loop s = true -> onMessage_frame s conn id = Ret (s', acts, again) ->
  server_inv s' /\ io_loop s' = true /\ io_frames s' = io_frames s /\ is_Some (states s' !! id).
Proof.
  intros Hinv Hio. unfold onMessage_frame. destruct (states s !! id) as [cs|] eqn:Ei; [|done].
  destruct (FrameParser.isComplete _); cbn [negb]; [|intros [= <- <- <-]; by eauto].
  destruct (_ =? _); cbn [negb]; [|intros [= <- <- <-]; by eauto].
  destruct (frame_request _) as [r|]; [|intros [= <- <- <-]; by eauto].
  pose proof (set_parser_inv s id cs (FrameParser.reset (parser cs)) Hinv Ei) as Hinv1.
  remember (set_parser s id cs (FrameParser.reset (parser cs))) as s1 eqn:Es1.
  remember (mkState (FrameParser.reset (parser cs)) (pending_requests cs)) as cs1 eqn:Ecs1.
  assert (Hid1 : states s1 !! id = Some cs1) by (subst; cbn; by simplify_map_eq).
  assert (Hio1 : io_loop s1 = true) by (by subst).
  assert (Hfr1 : io_frames s1 = io_frames s) by (by subst). clear Es1 Ecs1.
  destruct (inv_pending s1 Hinv1 id _ Hid1) as [Hp Hp2].
  pose proof (count_state_nonneg id (work_queue_ s1)). pose proof (count_state_nonneg id (in_flight s1)).
  rewrite (admit_request_eq s1 conn id _ r Hid1) by (unfold outstanding in Hp; lia).
  cbn [mbind outcome_bind].
  pose proof (admit_result_inv s1 conn id _ r Hinv1 Hid1 Hio1) as Hadm.
  destruct (admit_result s1 conn id cs1 r) as [s2 acts2]. cbn [fst] in Hadm.
  destruct Hadm as (Hinv2 & Hfr2 & Hio2 & _ & cs2 & Hid2 & _). rewrite Hid2.
  destruct (FrameParser.feed _ _) as [[r2 p2]| |]; cbn [mbind outcome_bind]; [|done..].
  pose proof (set_parser_inv s2 id cs2 p2 Hinv2 Hid2) as Hinv3.
  rewrite Hfr1 in Hfr2.
  destruct (FrameParser.is_error r2); intros [= <- <- <-];
    (split; [done|]); cbn; simplify_map_eq; by eauto.
Qed.

Lemma worker_take_inv s s' :
  server_inv s -> (length (in_flight s) < workers_ s)%nat ->
  worker_take s = Takes s' \/ worker_take s = Exits s' -> server_inv s'.
Proof.
  intros [H1 H2 H3 H4 H5 H6 H7 H8 H9 H10] Hlt. unfold worker_take.
  destruct (work_queue_ s) as [|r q] eqn:Eq.
  - destruct (stopping_ s) eqn:Es; intros [E|E]; try done. injection E as <-.
    constructor; cbn; rewrite ?Eq; try done; try lia. by rewrite Es.
  - intros [E|E]; try done. injection E as <-. constructor; cbn; try done.
    + rewrite lenZ_cons in H1. lia.
    + intros id cs Hid. destruct (H2 id cs Hid) as [Hp Hl]. unfold outstanding in *. rewrite Eq in Hp.
      cbn. rewrite count_state_cons in Hp. rewrite count_state_app, count_state_cons.
      change (count_state id []) with 0. lia.
    + intros r' Hr. apply H3. rewrite !elem_of_app, list_elem_of_singleton in Hr.
      rewrite elem_of_app, elem_of_cons. tauto.
    + rewrite length_app; cbn. lia.
    + intros Hw. lia.
Qed.

(** A worker can always finish the request it holds. *)
Lemma worker_finish_inv s i now call r :
  server_inv s -> in_flight s !! i = Some r ->
  exists s', worker_finish s i now call =
      Ret (s', sendResponse (connection r) (request_id (request r))
                 (worker_response (handlers_ s) now call (request r))) /\
    server_inv s' /\ work_queue_ s' = work_queue_ s /\ in_flight s' = delete i (in_flight s) /\
    workers_ s' = workers_ s /\ handlers_ s' = handlers_ s /\ stopping_ s' = stopping_ s.
Proof.
  intros Hinv Hi. unfold worker_finish, fetch_sub. rewrite Hi; cbn.
  assert (Hin : r ∈ in_flight s) by (by eapply list_elem_of_lookup_2).
  destruct (inv_held s Hinv r) as [cs Hcs]; [apply elem_of_app; tauto|].
  rewrite Hcs. cbn. eexists. split; [done|]. split; [|done].
  destruct (inv_pending s Hinv _ cs Hcs) as [Hp Hpl].
  destruct Hinv as [H1 H2 H3 H4 H5 H6 H7 H8 H9 H10].
  unfold outstanding, kMaxPendingRequestsPerConnection in *.
  pose proof (count_state_nonneg (state r) (work_queue_ s)).
  pose proof (count_state_nonneg (state r) (delete i (in_flight s))).
  pose proof (count_state_delete (state r) (in_flight s) i r Hi) as Hd.
  rewrite bool_decide_true in Hd by done.
  assert (Hdom : forall i', is_Some (states s !! i') ->
    is_Some (<[state r := mkState (parser cs) (u64 (pending_requests cs - 1))]> (states s) !! i')).
  { intros i' Hi'. destruct (decide (i' = state r)) as [->|]; simplify_map_eq; by eauto. }
  constructor; cbn; try done.
  - intros id cs' Hid. unfold outstanding, kMaxPendingRequestsPerConnection; cbn.
    destruct (decide (id = state r)) as [->|]; simplify_map_eq; cbn.
    + assert (u64 (pending_requests cs - 1) = pending_requests cs - 1) as -> by (apply Z.mod_small; lia).
      lia.
    + destruct (H2 id cs' Hid) as [Hp' Hl']. pose proof (count_state_delete id (in_flight s) i r Hi) as Hd'.
      rewrite bool_decide_false in Hd' by done. lia.
  - intros r' [Hr|Hr]%elem_of_app; apply Hdom, H3, elem_of_app; [by left|right].
    rewrite delete_take_drop in Hr. rewrite <- (take_drop i (in_flight s)).
    apply elem_of_app in Hr as [Hr|Hr]; apply elem_of_app; [by left|right].
    rewrite (drop_S _ _ _ Hi). by constructor.
  - intros c id Hc. by eapply Hdom, H4.
  - intros c id Hc. destruct (H5 c id Hc) as [? ?]. split; [by apply Hdom|done].
  - intros id Hid. apply H6. destruct (decide (id = state r)) as [->|]; simplify_map_eq; by eauto.
  - rewrite length_delete by (by eexists). lia.
Qed.

Lemma start_inv s port st :
  server_inv s -> io_loop s = false -> workers_ s = 0%nat -> server_inv (start s port st).2.
Proof.
  intros Hinv Hio Hw. unfold start. destruct (port =? 0); [done|]. destruct (running_ s); [done|].
  pose proof (inv_drained s Hinv Hw) as Hq.
  destruct Hinv as [H1 H2 H3 H4 H5 H6 H7 H8 H9 H10].
  assert (Hf : in_flight s = []) by (destruct (in_flight s); [done|cbn in H7; lia]).
  unfold outstanding in H2. rewrite Hq, Hf in *.
  destruct (ok st); cbn [negb snd]; constructor; cbn; unfold outstanding; cbn; rewrite ?Hq, ?Hf; try done; try lia.
  - intros c i E. by destruct (H5 c i E).
Qed.

Lemma registerService_inv s svc m h : server_inv s -> server_inv (registerService s svc m h).2.
Proof.
  intros Hinv. unfold registerService. destruct h as [h|]; [|done].
  destruct (_ || _); [done|]. destruct (running_ s); [done|].
  destruct (handlers_ s !! _); [done|]. by destruct Hinv; constructor.
Qed.

Lemma step_inv s e s' acts :
  server_inv s -> step s e = Some (Ret (s', acts)) -> server_inv s'.
Proof.
  intros Hinv. destruct e as [svc m h|port st|conn|conn b| | |i now call| | | |]; cbn [step].
  - intros [= <- <-]. by apply registerService_inv.
  - destruct (_ || _) eqn:E; [done|]. breflect. intros [= <- <-]. by apply start_inv.
  - destruct (_ && _); [|done]. intros [= <- <-]. by apply onConnection_inv.
  - destruct (_ && _) eqn:E; [|done]. breflect. intros [= Hs].
    destruct (onMessage_feed s conn b) as [[[[s1 b1] a1] next]| |] eqn:Ef; cbn in Hs; [|done..].
    injection Hs as <- <-. destruct (onMessage_feed_inv _ _ _ _ _ _ _ Hinv Ef) as (H1 & H2 & H3).
    apply frames_inv; [done|by rewrite H2|]. intros c id Hn. destruct next; [|done].
    injection Hn as <- <-. by apply H3.
  - destruct (io_frames s) as [[conn id]|] eqn:Ef; [|done]. intros [= Hs].
    destruct (inv_frames s Hinv _ _ Ef) as [_ Hio].
    destruct (onMessage_frame s conn id) as [[[s1 a1] again]| |] eqn:Em; cbn in Hs; [|done..].
    destruct (onMessage_frame_inv _ _ _ _ _ _ Hinv Hio Em) as (H1 & H2 & H3 & H4).
    injection Hs as <- <-. destruct again; [done|]. by apply frames_inv.
  - destruct (_ <? _)%nat eqn:E; [|done]. breflect.
    destruct (worker_take s) eqn:Ew; try done. intros [= <- <-].
    eapply worker_take_inv; [done|done|by left].
  - destruct (_ <? _)%nat eqn:E; [|done]. breflect. intros [= Hs].
    destruct (lookup_lt_is_Some_2 (in_flight s) i) as [r Hr]; [done|].
    destruct (worker_finish_inv s i now call r Hinv Hr) as (s1 & E1 & H1 & _).
    rewrite E1 in Hs. by injection Hs as <- <-.
  - destruct (_ <? _)%nat eqn:E; [|done]. breflect.
    destruct (worker_take s) eqn:Ew; try done. intros [= <- <-].
    eapply worker_take_inv; [done|done|by right].
  - unfold stop_begin. destruct (running_ s); [|done]. intros [= <- <-]. by destruct Hinv; constructor.
  - destruct (_ && _) eqn:E; [|done]. breflect. case_bool_decide as Hf; [|done].
    intros [= <- <-]. destruct Hinv; constructor; cbn; try done. intros c i Hc. by rewrite Hf in Hc.
  - destruct (_ && _) eqn:E; [|done]. breflect. intros [= <- <-].
    pose proof (inv_drained s Hinv ltac:(done)) as Hq. destruct Hinv; constructor; cbn; try done; try lia.
    + intros id cs Hid. specialize (inv_pending0 id cs Hid).
      unfold outstanding in *; cbn. by rewrite Hq in inv_pending0.
    + intros r Hr. apply inv_held0. by rewrite Hq.
Qed.

Lemma reachable_inv n s : reachable n s -> server_inv s.
Proof. induction 1; [apply init_inv|by eapply step_inv]. Qed.

(** * The dispatch of the frames of a stream *)

(** The same server with another parser in state [id]. *)
Definition put_parser (s : server) (id : nat) (p : FrameParser.t) : server :=
  match states s !! id with
  | Some cs => set_parser s id cs p
  | None => s
  end.

(** Requests admitted one after the other. *)
Fixpoint admit_all (s : server) (conn id : nat) (rs : list RpcRequest) : server * list action :=
  match rs with
  | [] => (s, [])
  | r :: rs =>
      match states s !! id with
      | None => (s, [])
      | Some cs =>
          let '(s1, a1) := admit_result s conn id cs r in
          let '(s2, a2) := admit_all s1 conn id rs in
          (s2, a1 ++ a2)
      end
  end.

Lemma put_parser_lookup s id cs p :
  states s !! id = Some cs ->
  states (put_parser s id p) !! id = Some (mkState p (pending_requests cs)).
Proof. intros H. unfold put_parser. rewrite H. cbn. by simplify_map_eq. Qed.

Lemma put_put_parser s id p q : put_parser (put_parser s id p) id q = put_parser s id q.
Proof.
  unfold put_parser. destruct (states s !! id) as [cs|] eqn:E; [|by rewrite E].
  unfold set_parser; cbn. simplify_map_eq. unfold set_states; cbn. by rewrite insert_insert_eq.
Qed.

Lemma put_parser_id s id cs : states s !! id = Some cs -> put_parser s id (parser cs) = s.
Proof.
  intros H. unfold put_parser. rewrite H. unfold set_parser, set_states. destruct s; cbn in *.
  f_equal. apply insert_id. by destruct cs.
Qed.

Lemma admit_result_parser s conn id cs p r :
  states s !! id = Some cs ->
  admit_result (put_parser s id p) conn id (mkState p (pending_requests cs)) r =
  (put_parser (admit_result s conn id cs r).1 id p, (admit_result s conn id cs r).2).
Proof.
  intros H. unfold admit_result, put_parser, admitted, rejection; rewrite H; cbn.
  destruct (_ && _); cbn; [|by rewrite H].
  simplify_map_eq. unfold fetch_add, set_parser, set_queue, set_states; cbn.
  by rewrite !insert_insert_eq.
Qed.

Lemma admit_result_lookup s conn id cs r :
  states s !! id = Some cs -> exists cs', states (admit_result s conn id cs r).1 !! id = Some cs'.
Proof.
  intros H. unfold admit_result. destruct (admitted s cs); cbn; simplify_map_eq; by eexists.
Qed.

Lemma admit_all_parser rs s conn id p :
  admit_all (put_parser s id p) conn id rs =
  (put_parser (admit_all s conn id rs).1 id p, (admit_all s conn id rs).2).
Proof.
  revert s. induction rs as [|r rs IH]; intros s; [done|]. cbn [admit_all].
  destruct (states s !! id) as [cs|] eqn:E.
  - rewrite (put_parser_lookup s id cs p E), (admit_result_parser s conn id cs p r E).
    destruct (admit_result s conn id cs r) as [s1 a1]; cbn. rewrite IH.
    by destruct (admit_all s1 conn id rs).
  - assert (Hp : put_parser s id p = s) by (unfold put_parser; by rewrite E).
    rewrite Hp, E; cbn [fst snd]. by rewrite Hp.
Qed.

(** The frame is a request the server admits or rejects. *)
Definition frame_is (f : FrameParser.Frame) (r : RpcRequest) : Prop :=
  msg_type (FrameParser.f_header f) = MessageType_value kRequest /\ frame_request f = Some r.

Definition closes (conn : nat) (r : ParseResult) : list action :=
  if FrameParser.is_error r then [ForceClose conn] else [].

Lemma onMessage_frame_request s conn id cs r :
  server_inv s -> states s !! id = Some cs -> FrameParser.isComplete (parser cs) = true ->
  frame_is (FrameParser.frame_of (parser cs)) r ->
  onMessage_frame s conn id =
  (let* '(next_result, p) := FrameParser.feed (FrameParser.reset (parser cs)) (FrameParser.Null 0) in
   Ret (put_parser (admit_result s conn id cs r).1 id p,
        (admit_result s conn id cs r).2 ++ closes conn next_result,
        negb (FrameParser.is_error next_result))).
Proof.
  intros Hinv Hid Hc [Hmt Hfr]. unfold onMessage_frame. rewrite Hid, Hc. cbn [negb].
  change (FrameParser.f_header (FrameParser.frame_of (parser cs))) with (FrameParser.header (parser cs)) in Hmt.
  rewrite Hmt, Z.eqb_refl, Hfr. cbn [negb].
  set (q := FrameParser.reset (parser cs)).
  assert (Hs1 : set_parser s id cs q = put_parser s id q) by (unfold put_parser; by rewrite Hid).
  destruct (inv_pending s Hinv id cs Hid) as [Hp Hp2].
  pose proof (count_state_nonneg id (work_queue_ s)). pose proof (count_state_nonneg id (in_flight s)).
  rewrite Hs1, (admit_request_eq _ conn id _ r (put_parser_lookup s id cs q Hid))
    by (unfold outstanding in Hp; cbn; lia).
  cbn [mbind outcome_bind]. rewrite (admit_result_parser s conn id cs q r Hid).
  destruct (admit_result_lookup s conn id cs r Hid) as [cs' Hid'].
  destruct (admit_result s conn id cs r) as [s1 a1]; cbn [fst snd] in *.
  rewrite (put_parser_lookup s1 id cs' q Hid'). cbn [parser].
  destruct (FrameParser.feed q _) as [[r2 p2]| |]; cbn [mbind outcome_bind]; [|done..].
  assert (Hs2 : set_parser (put_parser s1 id q) id (mkState q (pending_requests cs')) p2 =
                put_parser s1 id p2).
  { rewrite <- (put_put_parser s1 id q p2). unfold put_parser at 2.
    by rewrite (put_parser_lookup s1 id cs' q Hid'). }
  rewrite Hs2. unfold closes. destruct (FrameParser.is_error r2); cbn [negb]; [done|].
  by rewrite app_nil_r.
Qed.

Lemma put_parser_inv s id p : server_inv s -> server_inv (put_parser s id p).
Proof.
  intros H. unfold put_parser. destruct (states s !! id) eqn:E; [|done]. by apply set_parser_inv.
Qed.

Lemma put_parser_io s id p : io_loop (put_parser s id p) = io_loop s.
Proof. unfold put_parser. by destruct (states s !! id). Qed.

(** The loop of [onMessage] and the plain receive loop run in step. *)
Lemma onMessage_loop_drain fuel s conn id cs out acts r outr p' rs :
  server_inv s -> io_loop s = true -> states s !! id = Some cs ->
  FrameParser.drain fuel (parser cs) out = Ret (r, outr, p') ->
  exists frames, outr = out ++ frames /\
    (Forall2 frame_is frames rs ->
     onMessage_loop fuel s conn id acts =
     Ret (put_parser (admit_all s conn id rs).1 id p',
          acts ++ (admit_all s conn id rs).2 ++ closes conn r)).
Proof.
  revert s cs out acts rs. induction fuel as [|f IH]; intros s cs out acts rs Hinv Hio Hid; [done|].
  cbn [FrameParser.drain onMessage_loop].
  destruct (FrameParser.isComplete (parser cs)) eqn:Hc.
  - intros Hd. destruct rs as [|q rs].
    { destruct (FrameParser.feed _ _) as [[r2 p2]| |]; cbn [mbind outcome_bind] in Hd; [|done..].
      destruct (FrameParser.is_error r2) eqn:Er.
      - injection Hd as <- <- <-. eexists. split; [done|]. by intros H%Forall2_nil_inv_r.
      - destruct (IH (put_parser s id p2) _ (out ++ [FrameParser.frame_of (parser cs)]) acts []
                    (put_parser_inv s id p2 Hinv) ltac:(by rewrite put_parser_io)
                    (put_parser_lookup s id cs p2 Hid) Hd) as (frames & -> & _).
        exists (FrameParser.frame_of (parser cs) :: frames). rewrite <- app_assoc. split; [done|].
        by intros H%Forall2_nil_inv_r. }
    destruct (FrameParser.feed (FrameParser.reset (parser cs)) (FrameParser.Null 0))
      as [[r2 p2]| |] eqn:Ef; cbn [mbind outcome_bind] in Hd; [|done..].
    pose proof (admit_result_inv s conn id cs q Hinv Hid Hio) as Hadm.
    pose proof (onMessage_frame_request s conn id cs q Hinv Hid Hc) as Hfr. rewrite Ef in Hfr.
    cbn [mbind outcome_bind admit_all] in *. rewrite Hid.
    destruct (admit_result s conn id cs q) as [s1 a1]; cbn [fst snd] in *.
    destruct Hadm as (Hinv1 & _ & Hio1 & _ & cs1 & Hid1 & _).
    destruct (FrameParser.is_error r2) eqn:Er; cbn [negb] in Hfr.
    + injection Hd as <- <- <-. eexists. split; [done|]. intros H2.
      inversion H2 as [|? ? ? ? Hq Hrs]; subst. apply Forall2_nil_inv_l in Hrs as ->.
      rewrite (Hfr Hq). cbn. by rewrite app_nil_r.
    + destruct (IH (put_parser s1 id p2) _ (out ++ [FrameParser.frame_of (parser cs)]) (acts ++ a1) rs
                  (put_parser_inv s1 id p2 Hinv1) ltac:(by rewrite put_parser_io)
                  (put_parser_lookup s1 id cs1 p2 Hid1) Hd) as (frames & -> & Hloop).
      exists (FrameParser.frame_of (parser cs) :: frames). rewrite <- app_assoc. split; [done|].
      intros H2. inversion H2 as [|? ? ? ? Hq Hrs]; subst. rewrite (Hfr Hq). cbn [mbind outcome_bind].
      unfold closes at 1. rewrite Er, app_nil_r, (Hloop Hrs), admit_all_parser.
      destruct (admit_all s1 conn id rs) as [s2 a2]; cbn [fst snd].
      by rewrite put_put_parser, <- !app_assoc.
  - intros [= <- <- <-]. exists []. rewrite app_nil_r. split; [done|]. intros H%Forall2_nil_inv_l.
    subst rs. unfold onMessage_frame. rewrite Hid, Hc. cbn.
    by rewrite (put_parser_id s id cs Hid).
Qed.

(** A chunk: what [onMessage] does is to parse it and admit its requests. *)
Lemma onMessage_receive s conn id cs b r frames p' rs :
  server_inv s -> io_loop s = true -> connections_ s !! conn = Some id -> states s !! id = Some cs ->
  FrameParser.receive (parser cs) (Buffer.readable b) = Ret (r, frames, p') ->
  Forall2 frame_is frames rs ->
  onMessage s conn b =
  Ret (put_parser (admit_all s conn id rs).1 id p', Buffer.retrieve b (Buffer.readableBytes b),
       (admit_all s conn id rs).2 ++ closes conn r).
Proof.
  intros Hinv Hio Hconn Hid Hrec Hrs. unfold onMessage, onMessage_feed. rewrite Hconn, Hid.
  unfold FrameParser.receive in Hrec.
  destruct (FrameParser.feed (parser cs) _) as [[fr p]| |]; cbn [mbind outcome_bind] in *; [|done..].
  assert (Hs1 : set_parser s id cs p = put_parser s id p) by (unfold put_parser; by rewrite Hid).
  rewrite Hs1. destruct (FrameParser.is_error fr) eqn:Er; cbn [mbind outcome_bind].
  - injection Hrec as <- <- <-. apply Forall2_nil_inv_l in Hrs as ->. cbn. unfold closes. by rewrite Er.
  - unfold loop_fuel. rewrite (put_parser_lookup s id cs p Hid). cbn [parser].
    destruct (onMessage_loop_drain _ (put_parser s id p) conn id _ [] [] r frames p' rs
                (put_parser_inv s id p Hinv) ltac:(by rewrite put_parser_io)
                (put_parser_lookup s id cs p Hid) Hrec) as (fs & Hfs & Hloop).
    cbn in Hfs. subst fs. rewrite (Hloop Hrs). cbn [mbind outcome_bind].
    rewrite admit_all_parser. cbn [fst snd]. by rewrite put_put_parser.
Qed.

(** The readable events of one connection, in order. *)
Fixpoint onMessages (s : server) (conn : nat) (bufs : list Buffer.t) :
    outcome (server * list action) :=
  match bufs with
  | [] => Ret (s, [])
  | b :: bufs =>
      let* '(s, _, a1) := onMessage s conn b in
      let* '(s, a2) := onMessages s conn bufs in
      Ret (s, a1 ++ a2)
  end.

(** The request a message carries. *)
Definition message_is (m : Message) (r : RpcRequest) : Prop := frame_is (message_frame m) r.

Lemma admit_all_app rs1 rs2 s conn id :
  is_Some (states s !! id) ->
  admit_all s conn id (rs1 ++ rs2) =
  let '(s1, a1) := admit_all s conn id rs1 in
  let '(s2, a2) := admit_all s1 conn id rs2 in (s2, a1 ++ a2).
Proof.
  revert s. induction rs1 as [|r rs1 IH]; intros s [cs Hid]; cbn [admit_all app].
  - by destruct (admit_all s conn id rs2).
  - rewrite Hid. destruct (admit_result_lookup s conn id cs r Hid) as [cs' Hid'].
    destruct (admit_result s conn id cs r) as [s1 a1]; cbn [fst] in *. rewrite IH by (by eexists).
    destruct (admit_all s1 conn id rs1) as [s2 a2]. destruct (admit_all s2 conn id rs2) as [s3 a3].
    by rewrite app_assoc.
Qed.

Lemma admit_all_inv rs s conn id cs :
  server_inv s -> io_loop s = true -> states s !! id = Some cs ->
  let s' := (admit_all s conn id rs).1 in
  server_inv s' /\ io_loop s' = true /\ is_Some (states s' !! id) /\ connections_ s' = connections_ s.
Proof.
  revert s cs. induction rs as [|r rs IH]; intros s cs Hinv Hio Hid; cbn; [by eauto|]. rewrite Hid.
  pose proof (admit_result_inv s conn id cs r Hinv Hid Hio) as H.
  assert (Hc : connections_ (admit_result s conn id cs r).1 = connections_ s).
  { unfold admit_result. by destruct (admitted s cs). }
  destruct (admit_result s conn id cs r) as [s1 a1]; cbn [fst] in *.
  destruct H as (Hinv1 & _ & Hio1 & _ & cs1 & Hid1 & _).
  specialize (IH s1 cs1 Hinv1 Hio1 Hid1). destruct (admit_all s1 conn id rs) as [s2 a2]; cbn in *.
  by rewrite <- Hc.
Qed.

Lemma onMessages_stream bufs s conn id cs seen ms rs :
  server_inv s -> io_loop s = true -> connections_ s !! conn = Some id -> states s !! id = Some cs ->
  FrameParserFacts.waiting (parser cs) seen -> Forall encodable ms -> Forall2 message_is ms rs ->
  seen ++ concat (map Buffer.readable bufs) = FrameParserFacts.stream ms ->
  FrameParserFacts.incomplete seen ms ->
  onMessages s conn bufs =
  Ret (put_parser (admit_all s conn id rs).1 id FrameParser.init, (admit_all s conn id rs).2).
Proof.
  revert s cs seen ms rs.
  induction bufs as [|b bufs IH]; intros s cs seen ms rs Hinv Hio Hconn Hid Hw Hms Hrs Heq Hi.
  - cbn in Heq. rewrite app_nil_r in Heq. destruct ms as [|m ms].
    + cbn in Hi. subst seen. apply Forall2_nil_inv_l in Hrs as ->.
      apply FrameParserFacts.waiting_nil in Hw. cbn [admit_all fst snd onMessages].
      by rewrite <- Hw, put_parser_id.
    + cbn [FrameParserFacts.incomplete] in Hi.
      rewrite Heq, FrameParserFacts.stream_cons, lenZ_app in Hi.
      pose proof (lenZ_nonneg (FrameParserFacts.stream ms)). lia.
  - destruct (FrameParserFacts.receive_stream (parser cs) seen (Buffer.readable b) _ ms Hw Hms Heq)
      as (ms1 & ms2 & p' & Er & -> & seen' & Hw' & Heq' & Hi').
    apply Forall2_app_inv_l in Hrs as (rs1 & rs2 & Hrs1 & Hrs2 & ->).
    apply Forall_app in Hms as [_ Hms2].
    assert (Hf : Forall2 frame_is (map message_frame ms1) rs1) by (by apply Forall2_fmap_l).
    cbn [onMessages]. rewrite (onMessage_receive s conn id cs b kOk _ p' rs1 Hinv Hio Hconn Hid Er Hf).
    cbn [mbind outcome_bind].
    rewrite (admit_all_app rs1 rs2) by (by eexists).
    pose proof (admit_all_inv rs1 s conn id cs Hinv Hio Hid) as (Hinv1 & Hio1 & [cs1 Hid1] & Hc1).
    destruct (admit_all s conn id rs1) as [s1 a1]; cbn [fst snd] in *.
    erewrite IH; [|by apply put_parser_inv|by rewrite put_parser_io|
      |by apply put_parser_lookup|exact Hw'|done|exact Hrs2|done|done].
    + cbn [mbind outcome_bind]. rewrite admit_all_parser.
      destruct (admit_all s1 conn id rs2) as [s2 a2]; cbn [fst snd]. rewrite put_put_parser.
      unfold closes. change (FrameParser.is_error kOk) with false. by rewrite app_nil_r.
    + rewrite <- Hconn, <- Hc1. unfold put_parser. by rewrite Hid1.
Qed.

(** With room in the queue and in the connection's budget nothing is rejected. *)
Lemma admit_all_room rs s conn id cs :
  server_inv s -> io_loop s = true -> states s !! id = Some cs -> stopping_ s = false ->
  pending_requests cs + lenZ rs <= kMaxPendingRequestsPerConnection ->
  lenZ (work_queue_ s) + lenZ rs <= kMaxQueuedRequests ->
  let '(s', acts) := admit_all s conn id rs in
  acts = [] /\ work_queue_ s' = work_queue_ s ++ map (mkPending conn id) rs /\
  in_flight s' = in_flight s /\ workers_ s' = workers_ s /\ handlers_ s' = handlers_ s /\
  stopping_ s' = false.
Proof.
  revert s cs. induction rs as [|r rs IH]; intros s cs Hinv Hio Hid Hst Hp Hq; cbn [admit_all].
  { cbn. rewrite app_nil_r. by eauto 10. }
  rewrite Hid. rewrite lenZ_cons in *. pose proof (lenZ_nonneg rs) as Hn.
  pose proof (admit_result_inv s conn id cs r Hinv Hid Hio) as H.
  assert (Had : admitted s cs = true).
  { unfold admitted. rewrite Hst, (proj2 (Z.ltb_lt _ _)), (proj2 (Z.ltb_lt _ _)) by lia. done. }
  destruct (inv_pending s Hinv id cs Hid) as [Hpe _]. unfold outstanding in Hpe.
  pose proof (count_state_nonneg id (work_queue_ s)). pose proof (count_state_nonneg id (in_flight s)).
  unfold admit_result in *. rewrite Had in *. cbn [fst] in H.
  set (s1 := set_queue (work_queue_ s ++ [mkPending conn id r]) (fetch_add s id cs)) in *.
  assert (Hid1 : states s1 !! id = Some (mkState (parser cs) (u64 (pending_requests cs + 1))))
    by (cbn; by simplify_map_eq).
  destruct H as (Hinv1 & _). specialize (IH s1 _ Hinv1 Hio Hid1 Hst).
  unfold kMaxPendingRequestsPerConnection in *. cbn [pending_requests] in IH.
  rewrite Buffer.u64_small in IH by lia. specialize (IH ltac:(lia)).
  assert (Hq1 : lenZ (work_queue_ s1) + lenZ rs <= kMaxQueuedRequests).
  { cbn. rewrite lenZ_app, lenZ_cons, lenZ_nil. lia. }
  specialize (IH Hq1). destruct (admit_all s1 conn id rs) as [s2 a2].
  destruct IH as (-> & E2 & E3 & E4 & E5 & E6). cbn [map].
  rewrite E2, E3, E4, E5, E6. cbn. by rewrite <- app_assoc.
Qed.

(** * The workers *)

Fixpoint run (s : server) (es : list event) : option (server * list action) :=
  match es with
  | [] => Some (s, [])
  | e :: es =>
      match step s e with
      | Some (Ret (s1, a1)) =>
          match run s1 es with
          | Some (s2, a2) => Some (s2, a1 ++ a2)
          | None => None
          end
      | _ => None
      end
  end.

Lemma run_app es1 es2 s s1 a1 :
  run s es1 = Some (s1, a1) ->
  run s (es1 ++ es2) =
  match run s1 es2 with Some (s2, a2) => Some (s2, a1 ++ a2) | None => None end.
Proof.
  revert s s1 a1. induction es1 as [|e es IH]; intros s s1 a1; cbn.
  - intros [= <- <-]. by destruct (run s es2) as [[? ?]|].
  - destruct (step s e) as [[[s2 a2]| |]|]; try done.
    destruct (run s2 es) as [[s3 a3]|] eqn:E; [|done]. intros [= <- <-].
    rewrite (IH _ _ _ E). destruct (run s3 es2) as [[s4 a4]|]; [|done]. by rewrite app_assoc.
Qed.

Lemma run_reachable es n s s' acts : reachable n s -> run s es = Some (s', acts) -> reachable n s'.
Proof.
  revert s acts. induction es as [|e es IH]; intros s acts Hr; cbn; [by intros [= <- <-]|].
  destruct (step s e) as [[[s1 a1]| |]|] eqn:E; try done.
  destruct (run s1 es) as [[s2 a2]|] eqn:E2; [|done]. intros [= <- _].
  eapply IH; [|exact E2]. by econstructor.
Qed.

(** What a worker sends for a request. *)
Definition answer (handlers : gmap bytes Handler) now call (r : PendingRequest) : action :=
  Send (connection r) (makeResponseFrame (request_id (request r))
                         (worker_response handlers now call (request r))).

(** A worker's step, which calls handlers by [call] when the clock says [now]. *)
Definition worker_event (now : Z) (call : Handler -> RpcRequest -> HandlerResult) (e : event (Handler := Handler)) : Prop :=
  match e with
  | WorkerTake => True
  | WorkerFinish _ now' call' => now' = now /\ call' = call
  | _ => False
  end.

Lemma finish_all l s now call :
  server_inv s -> in_flight s = l ->
  exists s', run s (repeat (WorkerFinish 0 now call) (length l)) =
      Some (s', map (answer (handlers_ s) now call) l) /\
    server_inv s' /\ in_flight s' = [] /\ work_queue_ s' = work_queue_ s /\
    workers_ s' = workers_ s /\ handlers_ s' = handlers_ s.
Proof.
  revert s. induction l as [|r l IH]; intros s Hinv Hl; cbn [length repeat run].
  { exists s. by rewrite Hl. }
  destruct (worker_finish_inv s 0 now call r Hinv) as (s1 & E & Hinv1 & Eq & Ei & Ew & Eh & _);
    [by rewrite Hl|].
  cbn [step]. rewrite Hl; cbn [length]. rewrite (proj2 (Nat.ltb_lt _ _)) by lia. rewrite E.
  destruct (IH s1 Hinv1) as (s2 & E2 & Hinv2 & E3 & E4 & E5 & E6); [by rewrite Ei, Hl|].
  rewrite E2. exists s2. rewrite Eh in *. split; [done|]. rewrite E4, E5, E6, Eq, Ew. by eauto.
Qed.

Lemma take_finish_all q s now call :
  server_inv s -> in_flight s = [] -> work_queue_ s = q ->
  exists s' es, run s es = Some (s', map (answer (handlers_ s) now call) q) /\
    Forall (worker_event now call) es /\ server_inv s' /\ in_flight s' = [] /\ work_queue_ s' = [].
Proof.
  revert s. induction q as [|r q IH]; intros s Hinv Hl Hq.
  { by exists s, []. }
  assert (Hw : (0 < workers_ s)%nat).
  { destruct (workers_ s) eqn:Ew; [|lia]. apply (inv_drained s Hinv) in Ew. congruence. }
  set (s1 := set_in_flight (in_flight s ++ [r]) (set_queue q s)).
  assert (Et : worker_take s = Takes s1) by (unfold worker_take; by rewrite Hq).
  pose proof (worker_take_inv s s1 Hinv ltac:(rewrite Hl; cbn; lia) (or_introl Et)) as Hinv1.
  destruct (worker_finish_inv s1 0 now call r Hinv1) as (s2 & E & Hinv2 & Eq & Ei & Ew & Eh & _);
    [cbn; by rewrite Hl|].
  destruct (IH s2 Hinv2) as (s3 & es & E3 & Hes & Hinv3 & Hi3 & Hq3).
  { rewrite Ei. cbn. by rewrite Hl. }
  { by rewrite Eq. }
  exists s3, (WorkerTake :: WorkerFinish 0 now call :: es). split.
  - cbn [run step]. rewrite Hl; cbn [length]. rewrite (proj2 (Nat.ltb_lt _ _)) by done. rewrite Et.
    assert (Hlt : (0 <? length (in_flight s1))%nat = true) by (cbn; rewrite Hl; done).
    rewrite Hlt, E, E3. rewrite Eh. done.
  - split; [|done]. by repeat constructor.
Qed.

(** The workers alone can always answer everything that was admitted, each
    request once. *)
Lemma workers_answer_all s now call :
  server_inv s ->
  exists s' es, run s es = Some (s', map (answer (handlers_ s) now call) (in_flight s ++ work_queue_ s)) /\
    Forall (worker_event now call) es /\ in_flight s' = [] /\ work_queue_ s' = [].
Proof.
  intros Hinv. destruct (finish_all (in_flight s) s now call Hinv eq_refl)
    as (s1 & E1 & Hinv1 & Hi1 & Hq1 & _ & Hh1).
  destruct (take_finish_all (work_queue_ s) s1 now call Hinv1 Hi1 Hq1)
    as (s2 & es & E2 & Hes & _ & Hi2 & Hq2).
  exists s2, (repeat (WorkerFinish 0 now call) (length (in_flight s)) ++ es). split; [|split; [|done]].
  - rewrite (run_app _ _ _ _ _ E1), E2, Hh1, map_app. done.
  - apply Forall_app. split; [|done]. apply Forall_forall. intros e He.
    apply list_elem_of_In, repeat_spec in He. by subst e.
Qed.

(** The workers of a stopping server return one after the other. *)
Lemma workers_exit n s :
  stopping_ s = true -> work_queue_ s = [] -> in_flight s = [] -> workers_ s = n ->
  run s (repeat WorkerExit n) = Some (set_workers 0 s, []).
Proof.
  revert s. induction n as [|n IH]; intros s Hs Hq Hf Hw; cbn [repeat run].
  { rewrite <- Hw. by destruct s. }
  cbn [step]. unfold worker_take. rewrite Hf, Hq, Hs, Hw. cbn [length Nat.ltb Nat.leb].
  replace (S n - 1)%nat with n by lia. by rewrite (IH (set_workers n s)).
Qed.

Lemma run_server_inv es s s' acts : server_inv s -> run s es = Some (s', acts) -> server_inv s'.
Proof.
  revert s acts. induction es as [|e es IH]; intros s acts Hi; cbn [run]; [by intros [= <- _]|].
  destruct (step s e) as [[[s1 a1]| |]|] eqn:E; try done.
  destruct (run s1 es) as [[s2 a2]|] eqn:E2; [|done]. intros [= <- _]. eapply IH; [|exact E2]. by eapply step_inv.
Qed.

(** A connection on which nothing is outstanding serves the requests of its
    stream. *)
Lemma serve_stream s conn id cs bufs ms rs now call :
  server_inv s -> io_loop s = true -> stopping_ s = false ->
  connections_ s !! conn = Some id -> states s !! id = Some cs -> parser cs = FrameParser.init ->
  work_queue_ s = [] -> in_flight s = [] ->
  Forall encodable ms -> Forall2 message_is ms rs -> lenZ rs <= kMaxPendingRequestsPerConnection ->
  concat (map Buffer.readable bufs) = FrameParserFacts.stream ms ->
  exists s1 s2 es, onMessages s conn bufs = Ret (s1, []) /\ Forall (worker_event now call) es /\
    run s1 es = Some (s2, map (fun r =>
      Send conn (makeResponseFrame (request_id r) (worker_response (handlers_ s) now call r))) rs) /\
    in_flight s2 = [] /\ work_queue_ s2 = [].
Proof.
  intros Hr Hio Hst Hc Hid Hp Hq Hf Hms Hrs Hlen Heq.
  destruct (inv_pending s Hr id cs Hid) as [Hpe _]. unfold outstanding in Hpe. rewrite Hq, Hf in Hpe.
  change (count_state id []) with 0 in Hpe.
  assert (Hw : FrameParserFacts.waiting (parser cs) []) by (rewrite Hp; constructor).
  assert (Hi : FrameParserFacts.incomplete [] ms).
  { destruct ms as [|m ms]; [done|]. cbn [FrameParserFacts.incomplete].
    rewrite encode_eq, lenZ_app, lenZ_encodeHeader, lenZ_nil. unfold kFixedHeaderSize.
    pose proof (lenZ_nonneg (encodeMetadata (m_metadata m) ++ m_body m)). lia. }
  pose proof (onMessages_stream bufs s conn id cs [] ms rs Hr Hio Hc Hid Hw Hms Hrs Heq Hi) as Hon.
  unfold kMaxPendingRequestsPerConnection in Hlen.
  pose proof (admit_all_room rs s conn id cs Hr Hio Hid Hst) as Hroom.
  unfold kMaxPendingRequestsPerConnection, kMaxQueuedRequests in Hroom. rewrite Hq, lenZ_nil in Hroom.
  specialize (Hroom ltac:(lia) ltac:(lia)).
  pose proof (admit_all_inv rs s conn id cs Hr Hio Hid) as (Hinv1 & _).
  destruct (admit_all s conn id rs) as [s1 a1]; cbn [fst snd] in *.
  destruct Hroom as (-> & Eq1 & Ei1 & Ew1 & Eh1 & _).
  pose proof (put_parser_inv s1 id FrameParser.init Hinv1) as Hinv2.
  destruct (workers_answer_all _ now call Hinv2) as (s2 & es & E & Hes & Hi2 & Hq2).
  exists (put_parser s1 id FrameParser.init), s2, es. split; [done|]. split; [done|]. split; [|done].
  rewrite E. unfold put_parser. destruct (states s1 !! id); cbn;
    rewrite Ei1, Eq1, Eh1, Hf; cbn; by rewrite map_map.
Qed.

End facts.

(** * Deadlines and the handler table *)

Lemma validateRequestDeadline_to_string now d r :
  0 <= d < 2 ^ 64 -> 0 <= now < 2 ^ 64 ->
  StdMap.lookup kDeadlineMetadataKey (req_metadata r) = Some (Chars.to_string d) ->
  validateRequestDeadline now r =
  if d <=? now then mkStatus kDeadlineExceeded (str "RPC deadline exceeded") else Ok.
Proof.
  intros Hd Hn E. unfold validateRequestDeadline. rewrite E.
  rewrite Chars.from_chars_unsigned_to_string by (unfold uint64_max; lia).
  cbn [Chars.ec Chars.ptr Chars.value default from_option id].
  rewrite bool_decide_true, Nat.eqb_refl by done. cbn [negb orb].
  by rewrite Buffer.u64_small.
Qed.

(** Service names without a line feed give every pair a key of its own. *)
Lemma makeHandlerKey_inj s1 m1 s2 m2 :
  x0a ∉ s1 -> x0a ∉ s2 -> makeHandlerKey s1 m1 = makeHandlerKey s2 m2 -> s1 = s2 /\ m1 = m2.
Proof.
  unfold makeHandlerKey. revert s2. induction s1 as [|b s1 IH]; intros [|b2 s2] H1 H2 E; cbn in E.
  - by injection E.
  - injection E as <- E. exfalso. apply H2. by constructor.
  - injection E as -> E. exfalso. apply H1. by constructor.
  - injection E as -> E. rewrite not_elem_of_cons in H1, H2.
    destruct (IH s2) as [-> ->]; [tauto..|done|done].
Qed.

(** * A concrete server, for the witnesses *)

Definition buffer_of (l : bytes) : Buffer.t :=
  Buffer.mk (repeat x00 8 ++ l) Buffer.kCheapPrepend (Buffer.kCheapPrepend + lenZ l).

Definition example_request_metadata : metadata_map :=
  [(kDeadlineMetadataKey, Chars.to_string 5000); (kMethodMetadataKey, str "Get");
   (kServiceMetadataKey, str "Weather")].

Definition example_request (rid : Z) : RpcRequest :=
  mkRequest (str "Weather") (str "Get") example_request_metadata (str "Paris") rid.

Definition example_request_message (rid : Z) : Message :=
  mkMessage rid kRequest example_request_metadata (str "Paris").

Definition example_stream : bytes :=
  FrameParserFacts.stream [example_request_message 7; example_request_message 8].

Definition started_events : list (event (Handler := unit)) :=
  [Register (str "Weather") (str "Get") (Some tt); Start 8080 Ok; OnConnection 5].

Definition state_after (es : list (event (Handler := unit))) : RpcServer.Server (Handler := unit) :=
  match run (init 1) es with Some (s, _) => s | None => init 1 end.

Definition started : RpcServer.Server := state_after started_events.

(** Two requests arrived; a worker holds the first. *)
Definition busy_events : list (event (Handler := unit)) :=
  started_events ++ [OnMessage 5 (buffer_of example_stream); NextFrame; NextFrame; NextFrame; WorkerTake].

Definition busy : RpcServer.Server := state_after busy_events.

Definition stopped_events : list (event (Handler := unit)) :=
  busy_events ++ [StopBegin; IoExit; WorkerFinish 0 0 (fun _ _ => ThrowsUnknown); WorkerTake;
                  WorkerFinish 0 0 (fun _ _ => ThrowsUnknown); WorkerExit].

Definition stopped : RpcServer.Server := state_after stopped_events.

Lemma started_reachable : reachable 1 started.
Proof. eapply (run_reachable started_events 1 (init 1)); [constructor|by vm_compute]. Qed.

Lemma busy_reachable : reachable 1 busy.
Proof. eapply (run_reachable busy_events 1 (init 1)); [constructor|by vm_compute]. Qed.

Lemma stopped_reachable : reachable 1 stopped.
Proof. eapply (run_reachable stopped_events 1 (init 1)); [constructor|by vm_compute]. Qed.

Example busy_queue : length (work_queue_ busy) = 1%nat /\ length (in_flight busy) = 1%nat.
Proof. by vm_compute. Qed.

Lemma example_request_is rid : message_is (example_request_message rid) (example_request rid).
Proof. by vm_compute. Qed.

(** * Properties *)

Section properties.
Context {Handler : Type}.
Implicit Types s : RpcServer.Server (Handler := Handler).

(** C19: under every interleaving of the I/O thread, the workers and the
    threads that start and stop the server, a connection's counter is the
    number of its requests that are queued or being handled, it never exceeds
    1024 (so it cannot wrap), the queue never exceeds 8192 requests, and no
    more requests are held than there are workers. *)
Theorem server_accounting n s :
  reachable n s ->
  lenZ (work_queue_ s) <= kMaxQueuedRequests /\
  (length (in_flight s) <= workers_ s)%nat /\
  forall id cs, states s !! id = Some cs ->
    pending_requests cs = count_state id (work_queue_ s) + count_state id (in_flight s) /\
    0 <= pending_requests cs <= kMaxPendingRequestsPerConnection.
Proof.
  intros Hr. apply reachable_inv in Hr. split; [apply Hr|]. split; [apply Hr|].
  intros id cs Hid. destruct (inv_pending s Hr id cs Hid) as [Hp Hl]. unfold outstanding in Hp.
  pose proof (count_state_nonneg id (work_queue_ s)). pose proof (count_state_nonneg id (in_flight s)). lia.
Qed.

(** When [stop] gets past its joins no admitted request is left: the
    queue is empty, no worker holds a request, and every connection's counter
    is zero; clearing the queue then drops nothing. *)
Theorem stop_drops_nothing n s s' acts :
  reachable n s -> step s StopEnd = Some (Ret (s', acts)) ->
  work_queue_ s = [] /\ in_flight s = [] /\
  (forall id cs, states s !! id = Some cs -> pending_requests cs = 0) /\ connections_ s' = ∅.
Proof.
  intros Hr. apply reachable_inv in Hr. cbn [step]. destruct (_ && _) eqn:E; [|done]. breflect.
  intros [= <- <-]. pose proof (inv_drained s Hr ltac:(done)) as Hq. pose proof (inv_in_flight s Hr) as Hf.
  assert (Hf0 : in_flight s = []) by (destruct (in_flight s); [done|cbn in Hf; lia]).
  split; [done|]. split; [done|]. split; [|done]. intros id cs Hid.
  destruct (inv_pending s Hr id cs Hid) as [-> _]. unfold outstanding. by rewrite Hq, Hf0.
Qed.

(** From every reachable state the workers alone can answer everything
    that was admitted, each request exactly once and in the order it was
    taken: no request is stuck, whatever the I/O thread does. *)
Theorem workers_make_progress n s now call :
  reachable n s ->
  exists s' es, Forall (worker_event now call) es /\
    run s es = Some (s', map (answer (handlers_ s) now call) (in_flight s ++ work_queue_ s)) /\
    in_flight s' = [] /\ work_queue_ s' = [].
Proof.
  intros Hr. apply reachable_inv in Hr.
  destruct (workers_answer_all s now call Hr) as (s' & es & E & Hes & H). by exists s', es.
Qed.

(** One readable event is "parse, then admit": when the receive loop of
    the parser delivers the frames of the octets and they are requests,
    [onMessage] admits exactly those requests in order, leaves the parser the
    receive loop leaves, empties the buffer, and closes the connection exactly
    when the octets were in error. *)
Theorem onMessage_dispatches n s conn id cs b r frames p' rs :
  reachable n s -> io_loop s = true -> connections_ s !! conn = Some id -> states s !! id = Some cs ->
  Buffer.buffer_wf b ->
  FrameParser.receive (parser cs) (Buffer.readable b) = Ret (r, frames, p') ->
  Forall2 frame_is frames rs ->
  exists b', onMessage s conn b =
    Ret (put_parser (admit_all s conn id rs).1 id p', b',
         (admit_all s conn id rs).2 ++ closes conn r) /\ Buffer.readable b' = [].
Proof.
  intros Hr Hio Hc Hid Hb Hrec Hf. apply reachable_inv in Hr. eexists.
  split; [by eapply onMessage_receive|].
  destruct (Buffer.wf_sizes b Hb) as (_ & _ & Hl). pose proof (lenZ_nonneg (Buffer.readable b)) as H0.
  destruct (Buffer.retrieve_spec b (Buffer.readableBytes b) Hb ltac:(lia)) as (_ & -> & _).
  apply drop_ge. unfold lenZ in Hl. lia.
Qed.


(** Registering makes exactly that service and method reachable: the
    worker finds the handler for the pair, every other pair with a service
    name without a line feed keeps its handler or lack of one, and a second
    registration of the pair is refused and changes nothing. *)
Theorem registerService_lookup s svc m h s' :
  registerService s svc m (Some h) = (Ok, s') -> x0a ∉ svc ->
  handlers_ s' !! makeHandlerKey svc m = Some h /\
  (forall svc' m', x0a ∉ svc' -> (svc', m') <> (svc, m) ->
     handlers_ s' !! makeHandlerKey svc' m' = handlers_ s !! makeHandlerKey svc' m') /\
  (forall h', (registerService s' svc m (Some h')).2 = s' /\
     ok (registerService s' svc m (Some h')).1 = false).
Proof.
  intros E Hnl. unfold registerService in *.
  destruct (bool_decide (svc = []) || bool_decide (m = [])); [done|].
  destruct (running_ s) eqn:Er; [done|].
  destruct (handlers_ s !! makeHandlerKey svc m) eqn:Eh; [done|].
  injection E as <-. cbn. rewrite Er, lookup_insert_eq. split; [done|]. split; [|done].
  intros svc' m' Hnl' Hne. rewrite lookup_insert_ne; [done|].
  intros Ek. apply makeHandlerKey_inj in Ek as [-> ->]; [done..].
Qed.

End properties.

(** A deadline the client writes with [std::to_string] is read back by
    the server: the request is refused as late exactly when the deadline is
    not after the server's clock, and text that is not a 64-bit decimal number
    is refused as invalid. *)
Theorem deadline_enforced now d r text :
  0 <= now < 2 ^ 64 ->
  StdMap.lookup kDeadlineMetadataKey (req_metadata r) = Some text ->
  (0 <= d < 2 ^ 64 -> text = Chars.to_string d ->
     code (validateRequestDeadline now r) = (if d <=? now then kDeadlineExceeded else scOk)) /\
  (code (validateRequestDeadline now r) <> kInvalidArgument ->
     text <> [] /\ Forall (fun b => Chars.is_digit b = true) text /\
     Chars.digits_value text 0 <= uint64_max).
Proof.
  intros Hn E. split.
  - intros Hd ->. rewrite (validateRequestDeadline_to_string now d r Hd Hn E). by case_if.
  - unfold validateRequestDeadline. rewrite E. unfold Chars.from_chars_unsigned.
    pose proof (Chars.scan_digits_spec text 0 0) as Hs.
    destruct (Chars.scan_digits text 0 0) as [v k]. destruct Hs as (_ & Hk & Hv & Hf).
    rewrite Nat.sub_0_r in *. destruct (k =? 0)%nat eqn:E1; [intros []; done|].
    destruct (uint64_max <? v) eqn:E2; [intros []; done|]. cbn.
    destruct (k =? length text)%nat eqn:Ek; [|intros []; done]. breflect. subst k. intros _.
    rewrite firstn_all in *. split; [by intros ->|]. split; [done|]. by rewrite <- Hv.
Qed.

(** A service name with a line feed collides: a handler registered for
    one pair answers requests for another pair that was never registered. *)
Theorem handler_key_collision :
  exists (s s' : RpcServer.Server (Handler := unit)) svc m svc' m' ,
    (svc, m) <> (svc', m') /\ registerService s svc m (Some tt) = (Ok, s') /\
    handlers_ s !! makeHandlerKey svc' m' = None /\
    forall r response, service r = svc' -> method r = m' -> req_metadata r = [] ->
      worker_response (handlers_ s') 0 (fun _ _ => Returns response) r = response.
Proof.
  exists (init 1). eexists _, [x61; x0a; x62], [x63], [x61], [x62; x0a; x63].
  split; [done|]. split; [reflexivity|]. split; [done|].
  intros [? ? ? ? ?] response; cbn. intros -> -> ->. by vm_compute.
Qed.

(** * Witnesses *)

Lemma server_accounting_witness :
  reachable 1 busy /\
  lenZ (work_queue_ busy) <= kMaxQueuedRequests /\
  (length (in_flight busy) <= workers_ busy)%nat /\
  forall id cs, states busy !! id = Some cs ->
    pending_requests cs = count_state id (work_queue_ busy) + count_state id (in_flight busy) /\
    0 <= pending_requests cs <= kMaxPendingRequestsPerConnection.
Proof. split; [exact busy_reachable|]. apply (server_accounting 1 busy busy_reachable). Defined.

Lemma stop_drops_nothing_witness :
  step stopped StopEnd = Some (Ret (stop_end stopped, [])) /\
  work_queue_ stopped = [] /\ in_flight stopped = [] /\
  (forall id cs, states stopped !! id = Some cs -> pending_requests cs = 0) /\
  connections_ (stop_end stopped) = ∅.
Proof.
  split; [by vm_compute|].
  apply (stop_drops_nothing 1 stopped (stop_end stopped) [] stopped_reachable). by vm_compute.
Defined.

Lemma workers_make_progress_witness :
  let call := fun (_ : unit) (_ : RpcRequest) => Throws (str "boom") in
  exists s' es, Forall (worker_event 17 call) es /\
    run busy es =
      Some (s', map (answer (handlers_ busy) 17 call) (in_flight busy ++ work_queue_ busy)) /\
    in_flight s' = [] /\ work_queue_ s' = [].
Proof. intros call. apply (workers_make_progress 1 busy 17 call busy_reachable). Defined.

Lemma onMessage_dispatches_witness :
  exists b', onMessage started 5 (buffer_of example_stream) =
    Ret (put_parser (admit_all started 5 0 [example_request 7; example_request 8]).1 0 FrameParser.init, b',
         (admit_all started 5 0 [example_request 7; example_request 8]).2 ++ closes 5 kOk) /\
    Buffer.readable b' = [].
Proof.
  apply (onMessage_dispatches 1 started 5 0 (mkState FrameParser.init 0) (buffer_of example_stream) kOk
    (map message_frame [example_request_message 7; example_request_message 8])).
  - exact started_reachable.
  - by vm_compute.
  - by vm_compute.
  - by vm_compute.
  - apply (bool_decide_unpack _). by vm_compute.
  - by vm_compute.
  - by repeat constructor; apply example_request_is.
Defined.


Lemma registerService_lookup_witness :
  let s' := set_handlers (<[makeHandlerKey (str "Weather") (str "Get") := tt]> ∅) (init 1) in
  registerService (init 1) (str "Weather") (str "Get") (Some tt) = (Ok, s') /\
  handlers_ s' !! makeHandlerKey (str "Weather") (str "Get") = Some tt /\
  (forall svc' m', x0a ∉ svc' -> (svc', m') <> (str "Weather", str "Get") ->
     handlers_ s' !! makeHandlerKey svc' m' = handlers_ (init (Handler := unit) 1) !! makeHandlerKey svc' m') /\
  (forall h', (registerService s' (str "Weather") (str "Get") (Some h')).2 = s' /\
     ok (registerService s' (str "Weather") (str "Get") (Some h')).1 = false).
Proof.
  intros s'. split; [reflexivity|].
  apply (registerService_lookup (init 1) (str "Weather") (str "Get") tt s'); [reflexivity|].
  apply (bool_decide_unpack _). by vm_compute.
Defined.

Lemma deadline_enforced_witness :
  StdMap.lookup kDeadlineMetadataKey (req_metadata (example_request 7)) = Some (Chars.to_string 5000) /\
  (0 <= 5000 < 2 ^ 64 -> Chars.to_string 5000 = Chars.to_string 5000 ->
     code (validateRequestDeadline 5000 (example_request 7)) =
       (if 5000 <=? 5000 then kDeadlineExceeded else scOk)) /\
  (code (validateRequestDeadline 5000 (example_request 7)) <> kInvalidArgument ->
     Chars.to_string 5000 <> [] /\
     Forall (fun b => Chars.is_digit b = true) (Chars.to_string 5000) /\
     Chars.digits_value (Chars.to_string 5000) 0 <= uint64_max).
Proof.
  split; [by vm_compute|].
  apply (deadline_enforced 5000 5000 (example_request 7) (Chars.to_string 5000)); [lia|by vm_compute].
Defined.
