(* ===== verification/WorkQueue.v ===== *)
(** The work queue of the RPC server at the level of its mutex and condition
    variable: [enqueue], [workerLoop]'s wait, [startWorkers] and [stopWorkers] of
    src/rpc/rpc_server.cpp.  [RpcServer] takes these as atomic; here the wait is
    the check of its predicate under the mutex, the sleep that releases it, and
    the wakeups by [notify_one], [notify_all] or nothing at all. *)
From Stdlib Require Import ZArith Lia.
From Stdlib Require Import Strings.Byte.
From stdpp Require Import base list strings gmap.
From S2P Require Import Prelude RpcMessage RpcServer.
#[local] Set Warnings "-clear-no-such-hyp".

Module WorkQueue.
Import RpcServer.

(** Where a worker thread is. *)
Inductive worker :=
  | Starting   (** about to lock the mutex, at first, woken, or after a request *)
  | Deciding   (** in [wait], the predicate was false, the mutex still held *)
  | Asleep     (** in [wait], the mutex released *)
  | Busy       (** with a request, the mutex released *)
  | Exited.
#[export] Instance worker_eq_dec : EqDecision worker.
Proof. solve_decision. Defined.

(** How far [stopWorkers] is. *)
Inductive stopper := NotStopping | Flagged | Notified.

(** [owner] is the worker that holds [work_queue_mutex_] between two steps; the
    other critical sections are one step.  [held] has the requests taken and not
    finished, with their workers, in the order in which they were taken. *)
Record t := mk {
  stopping_ : bool;
  work_queue_ : list PendingRequest;
  owner : option nat;
  workers_ : list worker;
  held : list (nat * PendingRequest);
  stop_at : stopper;
}.

Definition set_stopping b s := mk b (work_queue_ s) (owner s) (workers_ s) (held s) (stop_at s).
Definition set_queue q s := mk (stopping_ s) q (owner s) (workers_ s) (held s) (stop_at s).
Definition set_owner o s := mk (stopping_ s) (work_queue_ s) o (workers_ s) (held s) (stop_at s).
Definition set_workers l s := mk (stopping_ s) (work_queue_ s) (owner s) l (held s) (stop_at s).
Definition set_held l s := mk (stopping_ s) (work_queue_ s) (owner s) (workers_ s) l (stop_at s).
Definition set_stop_at p s := mk (stopping_ s) (work_queue_ s) (owner s) (workers_ s) (held s) p.

Definition set_worker (i : nat) (w : worker) (s : t) : t := set_workers (<[i := w]> (workers_ s)) s.

(** [startWorkers] with [worker_thread_count_] threads. *)
Definition startWorkers (worker_thread_count : nat) : t :=
  mk false [] None (repeat Starting worker_thread_count) [] NotStopping.

(** [notify_one] wakes a sleeping worker, which one is the scheduler's choice;
    none when nobody sleeps. *)
Definition notify_one (choice : option nat) (s : t) : option t :=
  match choice with
  | Some i => if bool_decide (workers_ s !! i = Some Asleep) then Some (set_worker i Starting s) else None
  | None => if bool_decide (Asleep ∈ workers_ s) then None else Some s
  end.

Definition notify_all (s : t) : t :=
  set_workers (map (fun w => if decide (w = Asleep) then Starting else w) (workers_ s)) s.

(** [enqueue]: none when the mutex is not free or the choice is not possible. *)
Definition enqueue (request : PendingRequest) (choice : option nat) (s : t) : option (bool * t) :=
  match owner s with
  | Some _ => None
  | None =>
      if stopping_ s || (kMaxQueuedRequests <=? lenZ (work_queue_ s)) then Some (false, s)
      else option_map (pair true) (notify_one choice (set_queue (work_queue_ s ++ [request]) s))
  end.

(** A worker locks the mutex and evaluates the predicate of [wait]; when it is
    true it goes on to its request or its return, and releases the mutex. *)
Definition check (i : nat) (s : t) : option t :=
  match owner s, workers_ s !! i with
  | None, Some Starting =>
      match work_queue_ s with
      | [] => Some (if stopping_ s then set_worker i Exited s
                    else set_owner (Some i) (set_worker i Deciding s))
      | pending :: rest =>
          Some (set_held (held s ++ [(i, pending)]) (set_queue rest (set_worker i Busy s)))
      end
  | _, _ => None
  end.

(** The predicate was false: [wait] releases the mutex and sleeps, at once. *)
Definition sleep (i : nat) (s : t) : option t :=
  match workers_ s !! i with
  | Some Deciding => Some (set_owner None (set_worker i Asleep s))
  | _ => None
  end.

(** A wakeup without a notification. *)
Definition spurious (i : nat) (s : t) : option t :=
  match workers_ s !! i with Some Asleep => Some (set_worker i Starting s) | _ => None end.

(** The worker of the [k]-th held request has answered it. *)
Definition finish (k : nat) (s : t) : option t :=
  match held s !! k with
  | Some (i, _) => Some (set_held (delete k (held s)) (set_worker i Starting s))
  | None => None
  end.

(** [stop] sets the flag without the mutex; [stopWorkers] sets it under the mutex
    and then notifies. *)
Definition stop (s : t) : t := set_stopping true s.
Definition stopWorkers_flag (s : t) : option t :=
  match owner s with
  | Some _ => None
  | None => Some (set_stop_at Flagged (set_stopping true s))
  end.
Definition stopWorkers_notify (s : t) : option t :=
  match stop_at s with Flagged => Some (set_stop_at Notified (notify_all s)) | _ => None end.

(** The joins return. *)
Definition joined (s : t) : bool := bool_decide (Forall (fun w => w = Exited) (workers_ s)).

Inductive event :=
  | Enqueue (request : PendingRequest) (choice : option nat)
  | Check (i : nat) | Sleep (i : nat) | Spurious (i : nat) | Finish (k : nat)
  | Stop | StopFlag | StopNotify.

Definition step (s : t) (e : event) : option t :=
  match e with
  | Enqueue r choice => option_map snd (enqueue r choice s)
  | Check i => check i s
  | Sleep i => sleep i s
  | Spurious i => spurious i s
  | Finish k => finish k s
  | Stop => Some (stop s)
  | StopFlag => match stop_at s with NotStopping => stopWorkers_flag s | _ => None end
  | StopNotify => stopWorkers_notify s
  end.

Fixpoint run (s : t) (es : list event) : option t :=
  match es with
  | [] => Some s
  | e :: es => match step s e with Some s => run s es | None => None end
  end.

End WorkQueue.
