(* ===== verification/WorkQueueFacts.v ===== *)
(** Theorems about the work queue: no request waits while a worker sleeps, the
    joins of [stopWorkers] return with nothing dropped, and the operations are
    the atomic ones of [RpcServer]. *)
From Stdlib Require Import ZArith Lia.
From Stdlib Require Import Strings.Byte.
From stdpp Require Import base list list_numbers strings gmap.
From S2P Require Import Prelude RpcMessage RpcServer WorkQueue.
#[local] Set Warnings "-clear-no-such-hyp".

Import RpcServer WorkQueue.

(** * Counting workers *)

Definition starting (w : worker) : nat := match w with Starting => 1 | _ => 0 end.

(** What a worker has to do before it can return. *)
Definition to_do (w : worker) : nat :=
  match w with Starting => 1 | Busy => 2 | _ => 0 end.

Lemma sum_insert {A} (f : A -> nat) l i x y :
  l !! i = Some x -> (sum_list_with f (<[i := y]> l) + f x = sum_list_with f l + f y)%nat.
Proof.
  revert i. induction l as [|z l IH]; intros [|i] H; try discriminate.
  - injection H as ->. unfold insert. cbn [list_insert sum_list_with]. lia.
  - specialize (IH i H). change (<[S i := y]> (z :: l)) with (z :: <[i := y]> l).
    cbn [sum_list_with]. lia.
Qed.

(** ** The workers after one of them moved *)

Section moved.
Context (l : list worker) (i : nat) (x y : worker) (Hi : l !! i = Some x) (Hxy : x <> y).

Lemma moved_other j w : x <> w -> y <> w -> <[i := y]> l !! j = Some w <-> l !! j = Some w.
Proof.
  intros Hx Hy. destruct (decide (i = j)) as [<-|Hne]; [|by rewrite list_lookup_insert_ne].
  rewrite list_lookup_insert_eq by (by eapply lookup_lt_Some). split; congruence.
Qed.

Lemma moved_new j : <[i := y]> l !! j = Some y <-> i = j \/ l !! j = Some y.
Proof.
  destruct (decide (i = j)) as [<-|Hne]; [|rewrite list_lookup_insert_ne by done; tauto].
  rewrite list_lookup_insert_eq by (by eapply lookup_lt_Some). split; [by left|done].
Qed.

Lemma moved_old j : <[i := y]> l !! j = Some x <-> i <> j /\ l !! j = Some x.
Proof.
  destruct (decide (i = j)) as [<-|Hne]; [|rewrite list_lookup_insert_ne by done; tauto].
  rewrite list_lookup_insert_eq by (by eapply lookup_lt_Some). split; [congruence|by intros []].
Qed.
End moved.

(** * The invariant *)

Record inv (s : t) : Prop := {
  inv_owner : forall i, owner s = Some i <-> workers_ s !! i = Some Deciding;
  inv_deciding : owner s <> None -> work_queue_ s = [];
  inv_asleep : forall i, workers_ s !! i = Some Asleep ->
    (length (work_queue_ s) <= sum_list_with starting (workers_ s))%nat;
  inv_flag : stop_at s <> NotStopping -> stopping_ s = true /\ owner s = None;
  inv_notified : stop_at s = Notified -> forall i, workers_ s !! i <> Some Asleep;
  inv_exited : forall i, workers_ s !! i = Some Exited -> stopping_ s = true /\ work_queue_ s = [];
  inv_nodup : NoDup (map fst (held s));
  inv_held : forall i, i ∈ map fst (held s) <-> workers_ s !! i = Some Busy;
}.

Lemma queue_init_inv n : inv (startWorkers n).
Proof.
  assert (H : forall i w, repeat Starting n !! i = Some w -> w = Starting).
  { intros i w Hi. apply list_elem_of_lookup_2, list_elem_of_In, repeat_spec in Hi. done. }
  split; cbn; try done.
  - intros i. split; [done|]. by intros ?%H.
  - by intros i ?%H.
  - by intros i ?%H.
  - constructor.
  - intros i. split; [by intros ?%elem_of_nil|by intros ?%H].
Qed.

(** The number of workers on their way to the queue, after a move. *)
Ltac count_moved Hi y :=
  let H := fresh "Hsum" in
  pose proof (sum_insert starting _ _ _ y Hi) as H; cbn [starting length] in *; lia.

(** The worker that moved, in the goal and the hypotheses. *)
Ltac moved Hi :=
  repeat match goal with
  | |- context [<[_ := _]> _ !! _ = Some _] => first
      [ rewrite (moved_other _ _ _ _ Hi) by done
      | rewrite (moved_new _ _ _ _ Hi) by done | rewrite (moved_old _ _ _ _ Hi) by done ]
  | H : <[_ := _]> _ !! _ = Some _ |- _ => first
      [ rewrite (moved_other _ _ _ _ Hi) in H by done
      | rewrite (moved_new _ _ _ _ Hi) in H by done | rewrite (moved_old _ _ _ _ Hi) in H by done ]
  end.

Lemma check_inv i s s' : check i s = Some s' -> inv s -> inv s'.
Proof.
  unfold check. destruct (owner s) eqn:Ho; [done|]. destruct (workers_ s !! i) as [[]|] eqn:Hi; try done.
  destruct (work_queue_ s) as [|r rest] eqn:Hq.
  - destruct (stopping_ s) eqn:Hs; intros [= <-] [H1 H2 H3 H4 H5 H6 H7 H8]; split; cbn;
      intros; rewrite ?Hq; cbn; moved Hi; try done; try lia; eauto.
    + rewrite <- H1, Ho. naive_solver.
    + match goal with H : _ <> NotStopping |- _ => destruct (H4 H) end. congruence.
    + match goal with H : _ = Some Exited |- _ => destruct (H6 _ H) end. congruence.
  - intros [= <-] [H1 H2 H3 H4 H5 H6 H7 H8]; split; cbn; intros; moved Hi; try done.
    + pose proof (H3 _ ltac:(done)) as Hlen. rewrite Hq in Hlen.
      count_moved Hi Busy.
    + by apply H4.
    + by apply H5.
    + match goal with H : _ = Some Exited |- _ => destruct (H6 _ H) end. congruence.
    + rewrite map_app. apply NoDup_app. split; [done|]. split; [|apply NoDup_singleton].
      intros j Hj Hj'. cbn in Hj'. apply list_elem_of_singleton in Hj' as ->. apply H8 in Hj. congruence.
    + rewrite map_app, elem_of_app, H8. cbn. rewrite list_elem_of_singleton. naive_solver.
Qed.

Lemma sleep_inv i s s' : sleep i s = Some s' -> inv s -> inv s'.
Proof.
  unfold sleep. destruct (workers_ s !! i) as [[]|] eqn:Hi; try done.
  intros [= <-] [H1 H2 H3 H4 H5 H6 H7 H8].
  assert (Ho : owner s = Some i) by (by apply H1). assert (Hq : work_queue_ s = []) by (apply H2; congruence).
  assert (Hn : stop_at s = NotStopping).
  { destruct (stop_at s) eqn:Hf; [done|..]; destruct (H4 ltac:(done)); congruence. }
  split; cbn; intros; rewrite ?Hq; moved Hi; try done.
  - rewrite <- H1, Ho. naive_solver.
  - cbn. lia.
  - congruence.
  - split; [by eapply H6|done].
Qed.

(** A sleeping worker that wakes up. *)
Lemma wake_inv i s : workers_ s !! i = Some Asleep -> inv s -> inv (set_worker i Starting s).
Proof.
  intros Hi [H1 H2 H3 H4 H5 H6 H7 H8]. split; cbn; intros; moved Hi; try done; eauto.
  - pose proof (H3 _ Hi). count_moved Hi Starting.
  - intros []. by eapply H5.
Qed.

Lemma finish_inv k s s' : finish k s = Some s' -> inv s -> inv s'.
Proof.
  unfold finish. destruct (held s !! k) as [[i r]|] eqn:Hk; [|done].
  intros [= <-] [H1 H2 H3 H4 H5 H6 H7 H8].
  pose proof (Permutation_map fst (delete_Permutation _ _ _ Hk)) as Hp. cbn [map fst] in Hp.
  rewrite Hp in H7.
  assert (Hh : forall j, j ∈ map fst (delete k (held s)) <-> i <> j /\ workers_ s !! j = Some Busy).
  { intros j. rewrite <- H8, Hp, elem_of_cons.
    apply NoDup_cons in H7 as [Hn _]. naive_solver. }
  assert (Hi : workers_ s !! i = Some Busy) by (apply H8; rewrite Hp; by apply elem_of_cons; left).
  split; cbn; intros; moved Hi; try done; eauto.
  - pose proof (H3 _ ltac:(done)). count_moved Hi Starting.
  - by apply NoDup_cons in H7 as [_ H7].
Qed.

Lemma notify_one_inv choice s s' : notify_one choice s = Some s' -> inv s -> inv s'.
Proof.
  unfold notify_one. destruct choice as [i|]; case_bool_decide; try done; intros [= <-]; [|done].
  by apply wake_inv.
Qed.

Lemma enqueue_inv r choice s b s' : enqueue r choice s = Some (b, s') -> inv s -> inv s'.
Proof.
  unfold enqueue. destruct (owner s) eqn:Ho; [done|].
  destruct (_ || _) eqn:Hfull; [by intros [= <- <-]|]. breflect.
  intros He [H1 H2 H3 H4 H5 H6 H7 H8].
  (* one more request, and one more worker on its way unless all are *)
  unfold notify_one in He. destruct choice as [i|]; case_bool_decide as Hc; try done; cbn in He, Hc.
  - injection He as <- <-. split; cbn; intros; moved Hc; try done; eauto.
    + pose proof (H3 _ Hc). rewrite length_app. cbn [length]. count_moved Hc Starting.
    + intros []. by eapply H5.
    + match goal with Hx : _ = Some Exited |- _ => destruct (H6 _ Hx) end. congruence.
  - injection He as <- <-. split; cbn; intros; try done; eauto.
    + destruct Hc. by eapply list_elem_of_lookup_2.
    + match goal with Hx : _ = Some Exited |- _ => destruct (H6 _ Hx) end. congruence.
Qed.

Lemma stop_inv s : inv s -> inv (stop s).
Proof.
  intros [H1 H2 H3 H4 H5 H6 H7 H8]. split; cbn; try done.
  - intros Hf. by destruct (H4 Hf).
  - intros i Hi. by destruct (H6 i Hi).
Qed.

Lemma flag_inv s s' : stop_at s = NotStopping -> stopWorkers_flag s = Some s' -> inv s -> inv s'.
Proof.
  intros Hn. unfold stopWorkers_flag. destruct (owner s) eqn:Ho; [done|].
  intros [= <-] [H1 H2 H3 H4 H5 H6 H7 H8]. split; cbn; try done.
  intros i Hi. by destruct (H6 i Hi).
Qed.

Lemma notify_all_lookup l i w :
  map (fun w => if decide (w = Asleep) then Starting else w) l !! i = Some w <->
  (w = Starting /\ l !! i = Some Asleep) \/ (w <> Asleep /\ l !! i = Some w).
Proof.
  change (map ?f l) with (f <$> l). rewrite list_lookup_fmap.
  destruct (l !! i) as [v|]; cbn; [|naive_solver]. case_decide; naive_solver.
Qed.

Lemma notify_inv s s' : stopWorkers_notify s = Some s' -> inv s -> inv s'.
Proof.
  unfold stopWorkers_notify. destruct (stop_at s) eqn:Hf; [done| |done].
  intros [= <-] [H1 H2 H3 H4 H5 H6 H7 H8]. split; cbn; intros; rewrite ?notify_all_lookup in *; try done.
  - rewrite H1. naive_solver.
  - by apply H2.
  - naive_solver.
  - apply H4. by rewrite Hf.
  - naive_solver.
  - naive_solver.
  - rewrite H8. naive_solver.
Qed.

Lemma queue_step_inv s e s' : step s e = Some s' -> inv s -> inv s'.
Proof.
  destruct e as [r choice|i|i|i|k| | |]; cbn.
  - destruct (enqueue r choice s) as [[b s1]|] eqn:E; [|done]. intros [= <-]. by eapply enqueue_inv.
  - apply check_inv.
  - apply sleep_inv.
  - unfold spurious. destruct (workers_ s !! i) as [[]|] eqn:Hi; try done. intros [= <-]. by apply wake_inv.
  - apply finish_inv.
  - intros [= <-]. apply stop_inv.
  - destruct (stop_at s) eqn:Hs; try done. by apply flag_inv.
  - apply notify_inv.
Qed.

Lemma run_inv es s s' : run s es = Some s' -> inv s -> inv s'.
Proof.
  revert s. induction es as [|e es IH]; intros s; cbn; [by intros [= <-]|].
  destruct (step s e) as [s1|] eqn:E; [|done]. intros H Hi. eapply IH; [exact H|]. by eapply queue_step_inv.
Qed.

(** * Stopping *)

(** What is left for the workers to do: each request is taken and finished. *)
Definition work (s : t) : nat := 2 * length (work_queue_ s) + sum_list_with to_do (workers_ s).

(** The steps of the workers. *)
Definition by_worker (e : event) : bool :=
  match e with Check _ | Sleep _ | Spurious _ | Finish _ => true | _ => false end.

Definition worker_steps (es : list event) : nat := length (filter (fun e => by_worker e = true) es).

Lemma worker_steps_cons e es :
  worker_steps (e :: es) = ((if by_worker e then 1 else 0) + worker_steps es)%nat.
Proof. unfold worker_steps. rewrite filter_cons. case_decide; destruct (by_worker e); done. Qed.

Ltac count_work Hi y :=
  let H := fresh "Hsum" in
  pose proof (sum_insert to_do _ _ _ y Hi) as H; cbn [to_do length] in *; lia.

(** After the notification, every step of a worker is progress and nothing adds
    work. *)
Lemma stopped_step s e s' :
  inv s -> stop_at s = Notified -> step s e = Some s' ->
  stop_at s' = Notified /\ length (workers_ s') = length (workers_ s) /\
  ((if by_worker e then 1 else 0) + work s')%nat = work s.
Proof.
  intros [H1 H2 H3 H4 H5 H6 H7 H8] Hs. destruct (H4 ltac:(congruence)) as [Hst Ho].
  destruct e as [r choice|i|i|i|k| | |]; cbn [step by_worker].
  - unfold enqueue. rewrite Ho, Hst. by intros [= <-].
  - unfold check. rewrite Ho. destruct (workers_ s !! i) as [[]|] eqn:Hi; try done.
    rewrite Hst. destruct (work_queue_ s) as [|r rest] eqn:Hq; intros [= <-];
      (split; [done|]); cbn; (split; [by rewrite length_insert|]); unfold work; cbn; rewrite Hq.
    + count_work Hi Exited.
    + count_work Hi Busy.
  - unfold sleep. destruct (workers_ s !! i) as [[]|] eqn:Hi; try done. apply H1 in Hi. congruence.
  - unfold spurious. destruct (workers_ s !! i) as [[]|] eqn:Hi; try done. by apply H5 in Hi.
  - unfold finish. destruct (held s !! k) as [[i r]|] eqn:Hk; [|done]. intros [= <-].
    assert (Hi : workers_ s !! i = Some Busy).
    { apply H8. change (map fst (held s)) with (fst <$> held s). apply list_elem_of_fmap.
      exists (i, r). split; [done|]. by eapply list_elem_of_lookup_2. }
    split; [done|]. cbn. split; [by rewrite length_insert|]. unfold work; cbn. count_work Hi Starting.
  - intros [= <-]. by split.
  - by rewrite Hs.
  - unfold stopWorkers_notify. by rewrite Hs.
Qed.

Lemma stopped_run es s s' :
  inv s -> stop_at s = Notified -> run s es = Some s' ->
  inv s' /\ stop_at s' = Notified /\ length (workers_ s') = length (workers_ s) /\
  (worker_steps es + work s')%nat = work s.
Proof.
  revert s. induction es as [|e es IH]; intros s Hi Hs; cbn [run]; [by intros [= <-]|].
  destruct (step s e) as [s1|] eqn:E; [|done]. intros Hr.
  destruct (stopped_step _ _ _ Hi Hs E) as (Hs1 & Hl & Hw).
  destruct (IH s1 (queue_step_inv _ _ _ E Hi) Hs1 Hr) as (Hi' & Hs' & Hl' & Hw').
  rewrite worker_steps_cons. split; [done|]. split; [done|]. split; [congruence|lia].
Qed.

Lemma held_busy s i r k : inv s -> held s !! k = Some (i, r) -> workers_ s !! i = Some Busy.
Proof.
  intros Hi Hk. apply (inv_held _ Hi). change (map fst (held s)) with (fst <$> held s).
  apply list_elem_of_fmap. exists (i, r). split; [done|]. by eapply list_elem_of_lookup_2.
Qed.

(** With the notification behind it, a worker that has not returned can move. *)
Lemma stopped_stuck s :
  inv s -> stop_at s = Notified ->
  joined s = true <-> forall e, by_worker e = true -> step s e = None.
Proof.
  intros Hi Hs. unfold joined. rewrite bool_decide_eq_true, Forall_lookup.
  destruct (inv_flag _ Hi ltac:(congruence)) as [Hst Ho]. split.
  - intros Hall [r choice|i|i|i|k| | |]; cbn; try done; intros _.
    + unfold check. rewrite Ho. destruct (workers_ s !! i) as [w|] eqn:Hw; [|done]. by rewrite (Hall _ _ Hw).
    + unfold sleep. destruct (workers_ s !! i) as [w|] eqn:Hw; [|done]. by rewrite (Hall _ _ Hw).
    + unfold spurious. destruct (workers_ s !! i) as [w|] eqn:Hw; [|done]. by rewrite (Hall _ _ Hw).
    + unfold finish. destruct (held s !! k) as [[i r]|] eqn:Hk; [|done].
      apply held_busy in Hk; [|done]. by apply Hall in Hk.
  - intros Hno i w Hw. destruct w; [..|done]; exfalso.
    + specialize (Hno (Check i) eq_refl). cbn in Hno. unfold check in Hno. rewrite Ho, Hw in Hno.
      by destruct (work_queue_ s).
    + apply (inv_owner _ Hi) in Hw. congruence.
    + by apply (inv_notified _ Hi Hs) in Hw.
    + apply (inv_held _ Hi) in Hw. change (map fst (held s)) with (fst <$> held s) in Hw.
      apply list_elem_of_fmap in Hw as ([j r] & _ & Hin). apply list_elem_of_lookup_1 in Hin as [k Hk].
      specialize (Hno (Finish k) eq_refl). cbn in Hno. unfold finish in Hno. by rewrite Hk in Hno.
Qed.

Lemma joined_empty s : inv s -> joined s = true -> workers_ s <> [] -> work_queue_ s = [] /\ held s = [].
Proof.
  intros Hi. unfold joined. rewrite bool_decide_eq_true, Forall_lookup. intros Hall Hne.
  destruct (workers_ s) as [|w l] eqn:Hw; [done|].
  assert (H0 : w = Exited) by (by apply (Hall 0%nat)). subst w.
  split; [apply (inv_exited _ Hi 0%nat); by rewrite Hw|].
  destruct (held s) as [|[i r] h] eqn:Hh; [done|].
  pose proof (held_busy s i r 0%nat Hi) as Hb. rewrite Hh, Hw in Hb. specialize (Hb eq_refl).
  by apply Hall in Hb.
Qed.

Lemma step_length s e s' : step s e = Some s' -> length (workers_ s') = length (workers_ s).
Proof.
  destruct e as [r choice|i|i|i|k| | |]; cbn.
  - unfold enqueue, notify_one. repeat (case_match; cbn; try done); intros [= <-]; cbn; try done.
    all: by rewrite ?length_insert.
  - unfold check. repeat (case_match; try done); intros [= <-]; cbn; by rewrite length_insert.
  - unfold sleep. repeat (case_match; try done); intros [= <-]; cbn; by rewrite length_insert.
  - unfold spurious. repeat (case_match; try done); intros [= <-]; cbn; by rewrite length_insert.
  - unfold finish. repeat (case_match; try done); intros [= <-]; cbn; by rewrite length_insert.
  - by intros [= <-].
  - unfold stopWorkers_flag. repeat (case_match; try done). by intros [= <-].
  - unfold stopWorkers_notify. repeat (case_match; try done). intros [= <-]; cbn. by rewrite length_map.
Qed.

Lemma run_length n es s s' : run s es = Some s' -> length (workers_ s) = n -> length (workers_ s') = n.
Proof.
  revert s. induction es as [|e es IH]; intros s; cbn; [by intros [= <-]|].
  destruct (step s e) as [s1|] eqn:E; [|done]. intros H Hl. eapply IH; [exact H|].
  by rewrite (step_length _ _ _ E).
Qed.

(** * Refinement of the atomic queue *)

Definition alive (w : worker) : nat := match w with Exited => 0 | _ => 1 end.

Lemma alive_count l ks :
  NoDup ks -> (forall j, j ∈ ks -> exists w, l !! j = Some w /\ w <> Exited) ->
  (length ks <= sum_list_with alive l)%nat.
Proof.
  revert l. induction ks as [|k ks IH]; intros l Hnd Hks; [cbn; lia|].
  apply NoDup_cons in Hnd as [Hk Hnd].
  destruct (Hks k) as (w & Hw & Hne); [by apply elem_of_cons; left|].
  pose proof (sum_insert alive l k w Exited Hw) as Hsum.
  assert (Halive : alive w = 1%nat) by (by destruct w). rewrite Halive in Hsum. cbn [alive length] in *.
  enough (length ks <= sum_list_with alive (<[k := Exited]> l))%nat by lia.
  apply IH; [done|]. intros j Hj. destruct (Hks j) as (v & Hv & Hvne); [by apply elem_of_cons; right|].
  exists v. rewrite list_lookup_insert_ne; [done|]. congruence.
Qed.

Section refinement.
Context {Handler : Type}.

(** The server with this queue; the other fields are those of [base]. *)
Definition abs (base : @Server Handler) (s : t) : Server :=
  RpcServer.set_stopping (stopping_ s) (RpcServer.set_queue (work_queue_ s)
    (RpcServer.set_workers (sum_list_with alive (workers_ s))
      (RpcServer.set_in_flight (map snd (held s)) base))).

Lemma abs_same base s s' :
  stopping_ s' = stopping_ s -> work_queue_ s' = work_queue_ s -> held s' = held s ->
  sum_list_with alive (workers_ s') = sum_list_with alive (workers_ s) -> abs base s' = abs base s.
Proof. unfold abs. by intros -> -> -> ->. Qed.

Lemma alive_insert l i x y :
  l !! i = Some x -> alive x = alive y -> sum_list_with alive (<[i := y]> l) = sum_list_with alive l.
Proof. intros Hi Ha. pose proof (sum_insert alive l i x y Hi). lia. Qed.

Lemma alive_notify l :
  sum_list_with alive (map (fun w => if decide (w = Asleep) then Starting else w) l) = sum_list_with alive l.
Proof.
  induction l as [|w l IH]; [done|]. cbn [map sum_list_with]. rewrite IH. by destruct w.
Qed.

Lemma enqueue_refines base r choice s b s' :
  enqueue r choice s = Some (b, s') -> RpcServer.enqueue (abs base s) r = (b, abs base s').
Proof.
  unfold enqueue, RpcServer.enqueue. destruct (owner s); [done|].
  change (RpcServer.stopping_ (abs base s)) with (stopping_ s).
  change (RpcServer.work_queue_ (abs base s)) with (work_queue_ s).
  destruct (_ || _); [by intros [= <- <-]|].
  unfold notify_one. destruct choice as [i|]; case_bool_decide as Hc; cbn in *; try done; intros [= <- <-]; [|done].
  f_equal. symmetry. apply (abs_same base (WorkQueue.set_queue (work_queue_ s ++ [r]) s)); [done..|].
  by eapply alive_insert.
Qed.

(** A worker that checks the predicate takes the request or returns, as the
    atomic worker does, or goes on to sleep and changes nothing. *)
Lemma check_refines base i s s' :
  inv s -> check i s = Some s' ->
  RpcServer.step (abs base s) WorkerTake = Some (Ret (abs base s', [])) \/
  RpcServer.step (abs base s) WorkerExit = Some (Ret (abs base s', [])) \/
  abs base s' = abs base s.
Proof.
  intros Hi. unfold check. destruct (owner s); [done|].
  destruct (workers_ s !! i) as [[]|] eqn:Hw; try done.
  assert (Hcount : (length (in_flight (abs base s)) < RpcServer.workers_ (abs base s))%nat).
  { cbn. rewrite length_map, <- (length_map fst).
    apply (alive_count (workers_ s) (i :: map fst (held s))).
    - apply NoDup_cons. split; [|apply (inv_nodup _ Hi)]. intros Hin%(inv_held _ Hi). congruence.
    - intros j [->|Hj%(inv_held _ Hi)]%elem_of_cons; by eexists. }
  unfold RpcServer.step. rewrite (proj2 (Nat.ltb_lt _ _) Hcount). unfold worker_take.
  change (RpcServer.stopping_ (abs base s)) with (stopping_ s).
  change (RpcServer.work_queue_ (abs base s)) with (work_queue_ s).
  destruct (work_queue_ s) as [|r rest] eqn:Hq; [destruct (stopping_ s) eqn:Hst|]; intros [= <-].
  - right; left. do 3 f_equal. unfold abs, set_worker, RpcServer.set_workers; cbn. rewrite Hst, Hq.
    pose proof (sum_insert alive _ _ _ Exited Hw) as Hsum. cbn [alive] in Hsum.
    replace (sum_list_with alive (<[i := Exited]> _)) with (sum_list_with alive (workers_ s) - 1)%nat by lia.
    reflexivity.
  - right; right. apply abs_same; [done..|]. by eapply alive_insert.
  - left. do 3 f_equal. unfold abs, set_worker; cbn. rewrite map_app, (alive_insert _ _ _ _ Hw) by done.
    reflexivity.
Qed.

Lemma delete_map {A B} (f : A -> B) k l : map f (delete k l) = delete k (map f l).
Proof. apply list_fmap_delete. Qed.

Lemma finish_refines base k s s' :
  inv s -> finish k s = Some s' -> abs base s' = RpcServer.set_in_flight (delete k (in_flight (abs base s))) (abs base s).
Proof.
  intros Hi. unfold finish. destruct (held s !! k) as [[i r]|] eqn:Hk; [|done]. intros [= <-].
  pose proof (held_busy _ _ _ _ Hi Hk) as Hb. unfold abs, set_worker; cbn.
  by rewrite delete_map, (alive_insert _ _ _ _ Hb).
Qed.

End refinement.

(** * Properties *)

(** C26: no request waits for a sleeping worker: in every interleaving of the
    threads that enqueue, the workers and a stopping thread, while some worker
    sleeps there are at least as many workers on their way to the queue as
    requests in it, and each of them can take a request at once; so a wakeup is
    never lost although [notify_one] wakes one worker only. *)
Theorem no_request_waits_for_a_sleeper n es s i :
  run (startWorkers n) es = Some s -> workers_ s !! i = Some Asleep ->
  (length (work_queue_ s) <= sum_list_with starting (workers_ s))%nat /\
  forall j, work_queue_ s <> [] -> workers_ s !! j = Some Starting ->
    exists s', check j s = Some s' /\ workers_ s' !! j = Some Busy /\
      S (length (work_queue_ s')) = length (work_queue_ s).
Proof.
  intros Hr Hi. pose proof (run_inv _ _ _ Hr (queue_init_inv n)) as Hinv.
  split; [by eapply inv_asleep|]. intros j Hq Hj. unfold check.
  assert (Ho : owner s = None).
  { destruct (owner s) eqn:Ho; [|done]. by destruct Hq; apply (inv_deciding _ Hinv); rewrite Ho. }
  rewrite Ho, Hj. destruct (work_queue_ s) as [|r rest]; [done|]. eexists. split; [done|].
  cbn. split; [|done]. apply list_lookup_insert_eq. by eapply lookup_lt_Some.
Qed.

(** C28: the joins of [stopWorkers] return: once it has notified, each step of a
    worker is progress, so that there are at most two for each request in the
    queue or with a worker and one for each worker; while a worker has not
    returned, one can take a step; and when all have, every admitted request was
    taken and finished. *)
Theorem stop_workers_join n es s es' s' :
  (0 < n)%nat -> run (startWorkers n) es = Some s -> stop_at s = Notified -> run s es' = Some s' ->
  (worker_steps es' + work s')%nat = work s /\
  (joined s' = true <-> forall e, by_worker e = true -> step s' e = None) /\
  (joined s' = true -> work_queue_ s' = [] /\ held s' = []).
Proof.
  intros Hn Hr Hs Hr'. pose proof (run_inv _ _ _ Hr (queue_init_inv n)) as Hinv.
  destruct (stopped_run _ _ _ Hinv Hs Hr') as (Hinv' & Hs' & Hl & Hw).
  split; [done|]. split; [by apply stopped_stuck|]. intros Hj. apply joined_empty; [done|done|].
  assert (Hlen : length (workers_ s) = n) by (eapply run_length; [exact Hr|apply repeat_length]).
  destruct (workers_ s'); [cbn in Hl; lia|done].
Qed.

(** C27: the queue with its mutex and condition variable implements the atomic
    queue of [RpcServer]: [enqueue] is its [enqueue]; a worker's check is its
    [WorkerTake] or [WorkerExit] or changes nothing the server sees; falling
    asleep, waking up and notifying change nothing. *)
Theorem work_queue_refines_server {Handler} (base : @Server Handler) n es s e s' :
  run (startWorkers n) es = Some s -> step s e = Some s' ->
  match e with
  | Enqueue r _ => exists b, RpcServer.enqueue (abs base s) r = (b, abs base s')
  | Check _ =>
      RpcServer.step (abs base s) WorkerTake = Some (Ret (abs base s', [])) \/
      RpcServer.step (abs base s) WorkerExit = Some (Ret (abs base s', [])) \/
      abs base s' = abs base s
  | Finish k => abs base s' = RpcServer.set_in_flight (delete k (in_flight (abs base s))) (abs base s)
  | Stop | StopFlag => abs base s' = RpcServer.set_stopping true (abs base s)
  | Sleep _ | Spurious _ | StopNotify => abs base s' = abs base s
  end.
Proof.
  intros Hr. pose proof (run_inv _ _ _ Hr (queue_init_inv n)) as Hinv. destruct e as [r choice|i|i|i|k| | |]; cbn.
  - destruct (enqueue r choice s) as [[b s1]|] eqn:E; [|done]. intros [= <-]. exists b.
    by eapply enqueue_refines.
  - by apply check_refines.
  - unfold sleep. destruct (workers_ s !! i) as [[]|] eqn:Hi; try done. intros [= <-].
    apply abs_same; [done..|]. by eapply alive_insert.
  - unfold spurious. destruct (workers_ s !! i) as [[]|] eqn:Hi; try done. intros [= <-].
    apply abs_same; [done..|]. by eapply alive_insert.
  - by apply finish_refines.
  - by intros [= <-].
  - unfold stopWorkers_flag. destruct (stop_at s); try done. destruct (owner s); [done|]. by intros [= <-].
  - unfold stopWorkers_notify. destruct (stop_at s); try done. intros [= <-].
    apply abs_same; [done..|]. apply alive_notify.
Qed.

(** The flag that [stop] sets without the mutex can be missed: a worker that has
    found the predicate false goes to sleep all the same, and it is the
    notification after the flag of [stopWorkers] that wakes it. *)
Lemma stop_alone_is_missed :
  exists s, run (startWorkers 1) [Check 0; Stop; Sleep 0] = Some s /\
    stopping_ s = true /\ workers_ s !! 0%nat = Some Asleep.
Proof. eexists. split; [reflexivity|]. done. Qed.

(** * Witnesses *)

Definition example_request : PendingRequest :=
  mkPending 0 0 (mkRequest (str "Weather") (str "Get") [] [] 1).

(** Two workers sleep, and a request wakes the first. *)
Definition two_sleepers : list event :=
  [Check 0; Sleep 0; Check 1; Sleep 1; Enqueue example_request (Some 0%nat)].

Lemma no_request_waits_for_a_sleeper_witness :
  exists s, run (startWorkers 2) two_sleepers = Some s /\ work_queue_ s = [example_request] /\
    (length (work_queue_ s) <= sum_list_with starting (workers_ s))%nat /\
    forall j, work_queue_ s <> [] -> workers_ s !! j = Some Starting ->
      exists s', check j s = Some s' /\ workers_ s' !! j = Some Busy /\
        S (length (work_queue_ s')) = length (work_queue_ s).
Proof.
  eexists. split; [reflexivity|]. split; [reflexivity|].
  apply (no_request_waits_for_a_sleeper 2 two_sleepers _ 1); reflexivity.
Defined.

(** One worker has a request and the other is about to sleep when the server
    stops. *)
Definition stopping_run : list event :=
  [Enqueue example_request None; Check 0; Check 1; Stop; Sleep 1; StopFlag; StopNotify].

Lemma stop_workers_join_witness :
  exists s s', run (startWorkers 2) stopping_run = Some s /\
    run s [Check 1; Finish 0; Check 0] = Some s' /\ joined s' = true /\
    (worker_steps [Check 1; Finish 0; Check 0] + work s')%nat = work s /\
    (joined s' = true <-> forall e, by_worker e = true -> step s' e = None) /\
    (joined s' = true -> work_queue_ s' = [] /\ held s' = []).
Proof.
  eexists _, _. split; [reflexivity|]. split; [reflexivity|]. split; [reflexivity|].
  apply (stop_workers_join 2 stopping_run); [lia|reflexivity..].
Defined.

Lemma work_queue_refines_server_witness :
  let base := RpcServer.startWorkers (@RpcServer.init unit 2) in
  exists s s', run (startWorkers 2) two_sleepers = Some s /\ step s (Check 0) = Some s' /\
    (RpcServer.step (abs base s) WorkerTake = Some (Ret (abs base s', [])) \/
     RpcServer.step (abs base s) WorkerExit = Some (Ret (abs base s', [])) \/
     abs base s' = abs base s).
Proof.
  intros base. eexists _, _. split; [reflexivity|]. split; [reflexivity|].
  apply (work_queue_refines_server base 2 two_sleepers _ (Check 0)); reflexivity.
Defined.

