(* ===== verification/RpcIo.v ===== *)
(** The I/O thread of the RPC server: [start] and [stop] of src/rpc/rpc_server.cpp
    put [RpcServer], its event loop and its [TcpServer] together.  The thread owns
    the loop; [loop_] and [tcp_server_] are members of the server. *)
From Stdlib Require Import ZArith Lia.
From Stdlib Require Import Strings.Byte.
From stdpp Require Import base list strings gmap.
From S2P Require Import Prelude RpcMessage EventLoop RpcServer.

Module IoThread.
#[local] Existing Instance EventLoop.phase_eq_dec.

(** * Startup *)

(** What an exception carries. *)
Inductive exn := StdException (what : bytes) | OtherException.

(** How far the I/O thread comes: the constructor of the loop, that of the TCP
    server and its [start] can throw. *)
Inductive startup :=
  | LoopThrows (e : exn)
  | ServerThrows (e : exn)
  | ListenThrows (e : exn)
  | Listens.

(** The two handlers of the thread's [try]. *)
Definition caught (e : exn) : Status :=
  match e with
  | StdException what => mkStatus kUnavailable what
  | OtherException => mkStatus kInternal (str "RPC server startup failed")
  end.

(** [tcp_server_]: none, one on the loop that is alive, running or stopped, or
    one whose loop is gone. *)
Inductive server := NoServer | OnLoop (stopped : bool) | Dangling.

(** Destroying the server: its acceptor removes its channel from the loop. *)
Definition release (s : server) : outcome server :=
  match s with Dangling => OutOfBounds | _ => Ret NoServer end.

(** The I/O thread up to [loop.loop()]: the status it reports, the server it
    leaves and the loop, or none when it has returned. *)
Definition io_startup (st : startup) (s : server) : outcome (Status * server * option EventLoop.t) :=
  match st with
  | LoopThrows e => Ret (caught e, s, None)
  | ServerThrows e => Ret (caught e, s, None)
  | ListenThrows e => let* _ := release s in Ret (caught e, Dangling, None)
  | Listens => let* _ := release s in Ret (Ok, OnLoop false, Some EventLoop.init)
  end.

(** * The server with its thread *)

Section io.
Context {Handler : Type}.

(** [loop] is the loop object, which [loop_] points to as long as the thread has
    it; [entered] says whether [loop.loop()] was called. *)
Record t := mk {
  rpc : @RpcServer.Server Handler;
  tcp_server_ : server;
  loop : option EventLoop.t;
  entered : bool;
}.

Definition init (worker_thread_count : nat) : t := mk (RpcServer.init worker_thread_count) NoServer None false.

(** The functor [stop] queues; all others have other numbers. *)
Definition stop_functor : nat := 0.

Definition refuses (port : Z) (s : t) : bool := (port =? 0) || RpcServer.running_ (rpc s).

(** [start], with the startup of the thread it waits for. *)
Definition start (port : Z) (st : startup) (s : t) : outcome (Status * t) :=
  if refuses port s then Ret ((RpcServer.start (rpc s) port Ok).1, s)
  else
    let* '(status, srv, l) := io_startup st (tcp_server_ s) in
    let '(status, r) := RpcServer.start (rpc s) port status in
    Ret (status, mk r srv l false).

(** [stop] up to its join: the push; the wakeup of the loop follows as a step of
    the same thread. *)
Definition stop_begin (s : t) : option t :=
  match RpcServer.stop_begin (rpc s) with
  | Some r => Some (mk r (tcp_server_ s) (option_map (EventLoop.queue_other stop_functor) (loop s)) (entered s))
  | None => None
  end.

(** [if (tcp_server_ != nullptr) tcp_server_->stop()]. *)
Definition stop_server (s : server) : server :=
  match s with OnLoop _ => OnLoop true | _ => s end.

(** What the loop calls, when it is the functor of [stop]. *)
Definition called (e : EventLoop.event) (l : EventLoop.t) : bool :=
  match e, EventLoop.callbacks l with
  | EventLoop.CallFunctor, f :: _ => (f =? stop_functor)%nat
  | _, _ => false
  end.

(** The steps of the loop and of those that use it; only the functor of [stop]
    calls [quit], and [loop] is called once. *)
Definition allowed (e : EventLoop.event) (s : t) : bool :=
  match e with
  | EventLoop.Quit | EventLoop.QuitOther => false
  | EventLoop.QueueLoop f | EventLoop.QueueOther f => negb (f =? stop_functor)%nat
  | EventLoop.WakeOther => true
  | EventLoop.LoopEnter => negb (entered s) && bool_decide (RpcServer.io_frames (rpc s) = None)
  | _ => bool_decide (RpcServer.io_frames (rpc s) = None)
  end.

Definition loop_event (e : EventLoop.event) (s : t) : option t :=
  match loop s with
  | None => None
  | Some l =>
      if allowed e s then
        match EventLoop.step l e with
        | None => None
        | Some l' =>
            let entered := entered s || match e with EventLoop.LoopEnter => true | _ => false end in
            Some (if called e l
                  then mk (rpc s) (stop_server (tcp_server_ s)) (Some (EventLoop.quit l')) entered
                  else mk (rpc s) (tcp_server_ s) (Some l') entered)
        end
      else None
  end.

(** [loop.loop()] has returned: the rest of the thread. *)
Definition io_return (s : t) : option (outcome t) :=
  match loop s with
  | Some l =>
      if entered s && bool_decide (EventLoop.at_ l = EventLoop.Outside) then
        match RpcServer.step (rpc s) RpcServer.IoExit with
        | Some r => Some (let* '(r, _) := r in let* srv := release (tcp_server_ s) in Ret (mk r srv None false))
        | None => None
        end
      else None
  | None => None
  end.

(** Whether the I/O thread is where it calls back into the server. *)
Definition calls_back (s : t) : bool :=
  match loop s with
  | Some l => bool_decide (EventLoop.at_ l = EventLoop.Handling) || bool_decide (EventLoop.at_ l = EventLoop.Running)
  | None => false
  end.

(** The other steps of the server: those of the I/O thread happen while the loop
    handles events or calls functors. *)
Definition rpc_event (e : @RpcServer.event Handler) (s : t) : option (outcome t) :=
  let apply :=
    match RpcServer.step (rpc s) e with
    | Some r => Some (let* '(r, _) := r in Ret (mk r (tcp_server_ s) (loop s) (entered s)))
    | None => None
    end in
  match e with
  | RpcServer.Start _ _ | RpcServer.StopBegin | RpcServer.IoExit => None
  | RpcServer.OnConnection _ | RpcServer.OnMessage _ _ | RpcServer.NextFrame =>
      if calls_back s then apply else None
  | _ => apply
  end.

Inductive event :=
  | StartServer (port : Z) (st : startup)
  | StopServer
  | Loop (e : EventLoop.event)
  | IoReturn
  | Rpc (e : @RpcServer.event Handler).

(** A [start] that is not refused finds the threads of an earlier run joined. *)
Definition step (s : t) (e : event) : option (outcome t) :=
  match e with
  | StartServer port st =>
      if negb (refuses port s) && (RpcServer.io_loop (rpc s) || negb (RpcServer.workers_ (rpc s) =? 0)%nat)
      then None
      else Some (let* '(_, s) := start port st s in Ret s)
  | StopServer => match stop_begin s with Some s => Some (Ret s) | None => None end
  | Loop e => match loop_event e s with Some s => Some (Ret s) | None => None end
  | IoReturn => io_return s
  | Rpc e => rpc_event e s
  end.

Fixpoint run (s : t) (es : list event) : option (outcome t) :=
  match es with
  | [] => Some (Ret s)
  | e :: es =>
      match step s e with
      | Some (Ret s) => run s es
      | r => r
      end
  end.

End io.
End IoThread.
