(* ===== verification/RpcIoFacts.v ===== *)
(** Theorems about the I/O thread: with its loop it refines the server's own
    transition system, and a stopped server's thread always comes to its end. *)
From Stdlib Require Import ZArith Lia.
From Stdlib Require Import Strings.Byte.
From stdpp Require Import base list strings gmap.
From S2P Require Import Prelude RpcMessage EventLoop EventLoopFacts RpcServer RpcServerFacts RpcIo.
Import IoThread.
#[local] Existing Instance EventLoop.phase_eq_dec.
#[local] Set Warnings "-clear-no-such-hyp".

Section facts.
Context {Handler : Type}.

(** * Steps of the server that leave its life cycle alone *)

(** A part of the state that messages and workers do not write. *)
Section untouched.
Context {X : Type} (f : @RpcServer.Server Handler -> X).
Context (f_states : forall st s, f (RpcServer.set_states st s) = f s).
Context (f_queue : forall q s, f (RpcServer.set_queue q s) = f s).
Context (f_in_flight : forall l s, f (RpcServer.set_in_flight l s) = f s).
Context (f_workers : forall n s, f (RpcServer.set_workers n s) = f s).
Context (f_connections : forall c s, f (RpcServer.set_connections c s) = f s).
Context (f_next : forall n s, f (RpcServer.set_next n s) = f s).
Context (f_frames : forall i s, f (RpcServer.set_io_frames i s) = f s).

#[local] Ltac kept := rewrite ?f_frames, ?f_connections, ?f_next, ?f_workers, ?f_in_flight, ?f_queue, ?f_states.

Lemma fetch_sub_untouched s id s' : RpcServer.fetch_sub s id = Ret s' -> f s' = f s.
Proof. unfold RpcServer.fetch_sub. destruct (_ !! _); [|done]. intros [= <-]. by kept. Qed.

Lemma enqueue_untouched s r b s' : RpcServer.enqueue s r = (b, s') -> f s' = f s.
Proof. unfold RpcServer.enqueue. by destruct (_ || _); intros [= <- <-]; kept. Qed.

Lemma admit_untouched s conn id r s' acts : RpcServer.admit_request s conn id r = Ret (s', acts) -> f s' = f s.
Proof.
  unfold RpcServer.admit_request, RpcServer.fetch_add. destruct (_ !! _) as [cs|]; [|done]. case_if.
  - destruct (RpcServer.fetch_sub _ _) as [s1| |] eqn:E1; [|done..]. cbn [mbind outcome_bind].
    intros [= <- _]. apply fetch_sub_untouched in E1 as ->. by kept.
  - destruct (RpcServer.enqueue _ _) as [b s1] eqn:Eq. apply enqueue_untouched in Eq. rewrite f_states in Eq.
    destruct b; cbn [negb]; [by intros [= <- _]|].
    destruct (RpcServer.fetch_sub _ _) as [s2| |] eqn:E1; [|done..]. cbn [mbind outcome_bind].
    intros [= <- _]. apply fetch_sub_untouched in E1 as ->. done.
Qed.

Lemma feed_untouched s conn b s' b' acts next :
  RpcServer.onMessage_feed s conn b = Ret (s', b', acts, next) -> f s' = f s.
Proof.
  unfold RpcServer.onMessage_feed, RpcServer.set_parser. destruct (_ !! _) as [id|]; [|by intros [= <- _ _ _]].
  destruct (_ !! _) as [cs|]; [|done]. destruct (FrameCodec.FrameParser.feed _ _) as [[r p]| |]; [|done..].
  cbn [mbind outcome_bind]. by case_if; intros [= <- _ _ _]; kept.
Qed.

Lemma frame_untouched s conn id s' acts again :
  RpcServer.onMessage_frame s conn id = Ret (s', acts, again) -> f s' = f s.
Proof.
  unfold RpcServer.onMessage_frame, RpcServer.set_parser. destruct (_ !! _) as [cs|]; [|done].
  case_if; [by intros [= <- _ _]|]. case_if; [by intros [= <- _ _]|].
  destruct (RpcServer.frame_request _) as [r|]; [|by intros [= <- _ _]].
  destruct (RpcServer.admit_request _ _ _ _) as [[s1 a1]| |] eqn:E1; [|done..]. cbn [mbind outcome_bind].
  apply admit_untouched in E1. rewrite f_states in E1. rewrite <- E1. destruct (_ !! _) as [cs1|]; [|done].
  destruct (FrameCodec.FrameParser.feed _ _) as [[fr p]| |]; [|done..]. cbn [mbind outcome_bind].
  by case_if; intros [= <- _ _]; kept.
Qed.

(** The steps of the I/O thread on messages and of the workers. *)
Definition thread_step (e : @RpcServer.event Handler) : bool :=
  match e with
  | RpcServer.OnConnection _ | RpcServer.OnMessage _ _ | RpcServer.NextFrame
  | RpcServer.WorkerTake | RpcServer.WorkerFinish _ _ _ | RpcServer.WorkerExit => true
  | _ => false
  end.

Lemma step_untouched s e s' acts :
  thread_step e = true -> RpcServer.step s e = Some (Ret (s', acts)) -> f s' = f s.
Proof.
  destruct e; cbn [RpcServer.step thread_step]; try done; intros _.
  - case_match; [|done]. intros [= <- _]. unfold RpcServer.onConnection. by case_match; kept.
  - case_match; [|done]. destruct (RpcServer.onMessage_feed _ _ _) as [[[[s1 b] a] next]| |] eqn:E1; [|done..].
    cbn [mbind outcome_bind]. intros [= <- _]. kept. by eapply feed_untouched.
  - destruct (RpcServer.io_frames s) as [[conn id]|]; [|done].
    destruct (RpcServer.onMessage_frame _ _ _) as [[[s1 a] again]| |] eqn:E1; [|done..].
    cbn [mbind outcome_bind]. intros [= <- _]. apply frame_untouched in E1. by destruct again; kept.
  - case_match; [|done]. unfold RpcServer.worker_take. destruct (RpcServer.work_queue_ s); [by destruct (RpcServer.stopping_ s)|].
    intros [= <- _]. by kept.
  - case_match; [|done]. unfold RpcServer.worker_finish. destruct (_ !! _); [|done].
    destruct (RpcServer.fetch_sub _ _) as [s1| |] eqn:E1; [|done..]. cbn [mbind outcome_bind].
    intros [= <- _]. apply fetch_sub_untouched in E1 as ->. by kept.
  - case_match; [|done]. unfold RpcServer.worker_take. destruct (RpcServer.work_queue_ s); [|done].
    destruct (RpcServer.stopping_ s); [|done]. intros [= <- _]. by kept.
Qed.

Lemma run_untouched es s s' acts :
  Forall (fun e => thread_step e = true) es -> RpcServerFacts.run s es = Some (s', acts) -> f s' = f s.
Proof.
  intros Hes. revert s acts. induction Hes as [|e es He _ IH]; intros s acts; cbn [RpcServerFacts.run]; [by intros [= <- _]|].
  destruct (RpcServer.step s e) as [[[s1 a1]| |]|] eqn:E; try done.
  destruct (RpcServerFacts.run s1 es) as [[s2 a2]|] eqn:E2; [|done]. intros [= <- _].
  rewrite (IH _ _ E2). by eapply step_untouched.
Qed.

End untouched.

Definition life (s : @RpcServer.Server Handler) : bool * bool := (RpcServer.running_ s, RpcServer.io_loop s).

Lemma step_life s e s' acts :
  RpcServer.step s e = Some (Ret (s', acts)) ->
  match e with
  | RpcServer.Start _ _ | RpcServer.StopBegin | RpcServer.IoExit => True
  | _ => life s' = life s
  end.
Proof.
  intros Hs. destruct e; try done; try (by eapply (step_untouched life); [done..| |exact Hs]); cbn [RpcServer.step] in Hs.
  - injection Hs as <- _. unfold RpcServer.registerService. repeat (case_match; try done).
  - case_match; [|done]. by injection Hs as <- _.
Qed.

(** The workers of a stopping server answer what they have and return. *)
Lemma workers_return s now (call : Handler -> RpcRequest -> RpcServer.HandlerResult) :
  server_inv s -> RpcServer.stopping_ s = true ->
  exists s' es, RpcServerFacts.run s es =
      Some (s', map (answer (RpcServer.handlers_ s) now call) (RpcServer.in_flight s ++ RpcServer.work_queue_ s)) /\
    Forall (fun e => worker_event now call e \/ e = RpcServer.WorkerExit) es /\
    RpcServer.workers_ s' = 0%nat /\ RpcServer.stopping_ s' = true /\ life s' = life s.
Proof.
  intros Hi Hs. destruct (workers_answer_all s now call Hi) as (s1 & es & Hrun & Hes & Hf & Hq).
  assert (Hown : Forall (fun e => thread_step e = true) es) by (eapply Forall_impl; [exact Hes|]; by intros []).
  pose proof (run_untouched RpcServer.stopping_ ltac:(done) ltac:(done) ltac:(done) ltac:(done) ltac:(done) ltac:(done)
    ltac:(done) _ _ _ _ Hown Hrun) as Hs1. rewrite Hs in Hs1.
  pose proof (run_untouched life ltac:(done) ltac:(done) ltac:(done) ltac:(done) ltac:(done) ltac:(done)
    ltac:(done) _ _ _ _ Hown Hrun) as Hl1.
  exists (RpcServer.set_workers 0 s1), (es ++ repeat RpcServer.WorkerExit (RpcServer.workers_ s1)). split_and!; try done.
  - by rewrite (RpcServerFacts.run_app _ _ _ _ _ Hrun), (workers_exit _ s1), app_nil_r.
  - apply Forall_app. split; [eapply Forall_impl; [exact Hes|by left]|]. apply Forall_forall.
    intros e ->%list_elem_of_In%repeat_spec. by right.
Qed.

(** * The loop and the functor of [stop] *)

Import EventLoop.

(** What holds of the loop, in terms of whether the server runs and whether
    [loop] was called. *)
Record loop_inv (running entered : bool) (l : t) : Prop := mkLoopInv {
  li_ok : exists h, LoopFacts.ok l h;
  li_new : entered = false -> at_ l = Outside /\ quit_ l = false /\ (stop_functor ∉ executed l);
  li_running : running = true -> stop_functor ∉ executed l ++ callbacks l ++ pending_functors_ l;
  li_stopped : running = false -> stop_functor ∈ executed l ++ callbacks l ++ pending_functors_ l;
  li_quit : quit_ l = true <-> stop_functor ∈ executed l;
  li_at : quit_ l = true -> at_ l = Running \/ at_ l = Outside;
  li_left : entered = true -> at_ l = Outside -> quit_ l = true;
  li_wake : stop_functor ∈ pending_functors_ l -> at_ l <> Handling -> LoopFacts.will_wake l;
}.

Lemma init_loop_inv : loop_inv true false EventLoop.init.
Proof.
  split; cbn; try done.
  - exists []. apply LoopFacts.ok_init.
  - intros _. split; [done|]. split; [done|]. by apply not_elem_of_nil.
  - intros _. by apply not_elem_of_nil.
  - split; [done|]. by intros ?%elem_of_nil.
  - by intros ?%elem_of_nil.
Qed.

(** [stop] queues its functor. *)
Lemma stop_loop_inv entered l : loop_inv true entered l -> loop_inv false entered (queue_other stop_functor l).
Proof.
  intros [[h H1] H2 H3 H4 H5 H6 H7 H8]. split; cbn; try done.
  - exists (h ++ [stop_functor]). apply (LoopFacts.ok_step l (QueueOther stop_functor)); [done|]. by destruct (at_ l).
  - intros _. rewrite !elem_of_app, list_elem_of_singleton. tauto.
  - intros _ _. right. cbn. lia.
Qed.

Lemma ok_quit l h : LoopFacts.ok l h -> LoopFacts.ok (quit l) h.
Proof. intros H. pose proof H as [_ _ _ Hw]. by eapply LoopFacts.ok_same. Qed.

Lemma queueInLoop_inv running entered f l :
  f <> stop_functor -> at_ l = Outside \/ at_ l = Handling \/ at_ l = Running ->
  loop_inv running entered l -> loop_inv running entered (queueInLoop f l).
Proof.
  intros Hf Hat [[h H1] H2 H3 H4 H5 H6 H7 H8].
  assert (Hok : LoopFacts.ok (queueInLoop f l) (h ++ [f])).
  { apply (LoopFacts.ok_step l (QueueLoop f)); [done|]. cbn. by destruct (at_ l); naive_solver. }
  assert (Hw : 0 <= wakeups l) by apply H1.
  assert (E : exists n, queueInLoop f l = set_wakeups n (push_functor f l) /\ (wakeups l <= n \/ 0 < n)).
  { unfold queueInLoop. case_if.
    - eexists. split; [reflexivity|]. cbn. lia.
    - exists (wakeups l). split; [by destruct l|]. by left. }
  destruct E as (n & E & Hn). rewrite E in *. split; cbn; try done; [by exists (h ++ [f])|..].
  - intros Hr. specialize (H3 Hr). rewrite !elem_of_app, list_elem_of_singleton in *. naive_solver.
  - intros Hr. specialize (H4 Hr). rewrite !elem_of_app in *. tauto.
  - rewrite elem_of_app, list_elem_of_singleton. intros [Hp|?] Ha; [|naive_solver].
    destruct (H8 Hp Ha) as [?|?]; [left; cbn; lia|by right].
Qed.

(** The end of an iteration. *)
Lemma loop_condition_inv running l h :
  LoopFacts.ok (loop_condition l) h -> at_ l = Running -> callbacks l = [] ->
  loop_inv running true l -> loop_inv running true (loop_condition l).
Proof.
  intros Hok Ha Hc [_ H2 H3 H4 H5 H6 H7 H8].
  assert (Hw : stop_functor ∈ pending_functors_ l -> LoopFacts.will_wake l) by (intros Hp; apply H8; [done|by rewrite Ha]).
  unfold loop_condition in *. destruct (quit_ l) eqn:Hq; split; cbn; rewrite ?Hq; try done; try by exists h.
  all: naive_solver.
Qed.

(** A functor is called; the one of [stop] sets the flag. *)
Lemma call_inv running entered f rest l h :
  LoopFacts.ok (call_functor f rest l) h -> at_ l = Running -> callbacks l = f :: rest ->
  loop_inv running entered l ->
  loop_inv running entered
    (if (f =? stop_functor)%nat then quit (call_functor f rest l) else call_functor f rest l).
Proof.
  intros Hok Ha Hc [_ H2 H3 H4 H5 H6 H7 H8]. rewrite Hc in *.
  assert (Hin : forall x, (x ∈ (executed l ++ [f]) ++ rest ++ pending_functors_ l) <->
                (x ∈ executed l ++ (f :: rest) ++ pending_functors_ l)).
  { intros x. rewrite !elem_of_app, !elem_of_cons, elem_of_nil. tauto. }
  assert (Hen : entered = true).
  { destruct entered; [done|]. destruct (H2 eq_refl) as (? & _). congruence. }
  destruct (f =? stop_functor)%nat eqn:Hf.
  - apply Nat.eqb_eq in Hf as ->. split; cbn; rewrite ?Hin; try done.
    + exists h. by apply ok_quit.
    + by rewrite Hen.
    + rewrite elem_of_app, list_elem_of_singleton. naive_solver.
    + intros _. by left.
  - apply Nat.eqb_neq in Hf. split; cbn; rewrite ?Hin; try done.
    + by exists h.
    + by rewrite Hen.
    + rewrite H5, elem_of_app, list_elem_of_singleton. naive_solver.
Qed.

Lemma loop_step_inv running (s : @IoThread.t Handler) e l l' :
  allowed e s = true -> EventLoop.step l e = Some l' -> loop_inv running (entered s) l ->
  loop_inv running (entered s || match e with LoopEnter => true | _ => false end)
    (if called e l then quit l' else l').
Proof.
  intros Hall Hstep Hi. pose proof Hi as [[h H1] H2 H3 H4 H5 H6 H7 H8].
  pose proof (LoopFacts.ok_step _ _ _ _ H1 Hstep) as Hok.
  destruct e; cbn [allowed called] in *; rewrite ?orb_false_r, ?orb_true_r.
  - cbn [step] in Hstep. destruct (at_ l) eqn:Ea; try done. injection Hstep as <-.
    apply andb_true_iff in Hall as [Hen _]. apply negb_true_iff in Hen.
    destruct (H2 Hen) as (_ & Hq & Hex). pose proof (LoopFacts.ok_looping _ _ H1) as Hlk.
    rewrite Ea, bool_decide_true in Hlk by done. cbn in Hlk.
    unfold loop_enter in *. rewrite Hlk in *. unfold loop_condition in *. cbn [quit_ set_quit] in *.
    split; cbn; try done; try (by exists (h ++ [])); try (rewrite Hq in H5; naive_solver).
  - cbn [step] in Hstep. destruct (at_ l) eqn:Ea; try done. destruct (_ && _); [done|]. injection Hstep as <-.
    destruct wakeup_ready; split; cbn; try done; try (by exists (h ++ [])); naive_solver.
  - cbn [step] in Hstep. destruct (at_ l) eqn:Ea; try done. injection Hstep as <-.
    assert (Hc : callbacks l = []) by (apply (LoopFacts.ok_callbacks _ _ H1); by rewrite Ea). rewrite Hc in *.
    split; cbn; rewrite ?app_nil_r; try done; [by exists (h ++ [])|naive_solver|naive_solver|].
    by intros ?%elem_of_nil.
  - cbn [step] in Hstep. destruct (at_ l) eqn:Ea; try done. destruct (callbacks l) as [|f rest] eqn:Ec; [done|].
    injection Hstep as <-. by eapply call_inv.
  - cbn [step] in Hstep. destruct (at_ l) eqn:Ea; try done. destruct (callbacks l) eqn:Ec; [|done].
    injection Hstep as <-. assert (Hen : entered s = true).
    { destruct (entered s); [done|]. destruct (H2 eq_refl). congruence. }
    rewrite Hen in *. by eapply loop_condition_inv.
  - apply negb_true_iff, Nat.eqb_neq in Hall. cbn [step] in Hstep.
    destruct (at_ l) eqn:Ea; try done; injection Hstep as <-; (apply queueInLoop_inv; [done|by auto|done]).
  - apply negb_true_iff, Nat.eqb_neq in Hall. assert (E : l' = queue_other f l) by (by destruct (at_ l); injection Hstep).
    subst l'. split; cbn; try done; [by exists (h ++ [f])|..].
    + intros Hr. specialize (H3 Hr). rewrite !elem_of_app, list_elem_of_singleton in *. naive_solver.
    + intros Hr. specialize (H4 Hr). rewrite !elem_of_app in *. tauto.
    + intros _ _. right. cbn. lia.
  - assert (E : l' = wake_other l).
    { cbn [step] in Hstep. destruct (wakers l); [by destruct (at_ l)|]. by destruct (at_ l); injection Hstep. }
    subst l'. split; cbn; try done; [by exists (h ++ [])|]. intros _ _. left. cbn.
    pose proof (LoopFacts.ok_wakeups _ _ H1). lia.
  - done.
  - done.
Qed.

(** * The invariant of the server with its thread *)

Record io_inv (n : nat) (s : @IoThread.t Handler) : Prop := mkIoInv {
  ii_reach : RpcServer.reachable n (rpc s);
  ii_io : RpcServer.io_loop (rpc s) = bool_decide (is_Some (loop s));
  ii_server : (exists b, tcp_server_ s = OnLoop b) <-> is_Some (loop s);
  ii_loop : forall l, loop s = Some l -> loop_inv (RpcServer.running_ (rpc s)) (entered s) l;
}.

Lemma init_io_inv n : io_inv n (IoThread.init n).
Proof.
  split; [constructor|done| |done]. split; [by intros [b ?]|by intros [? ?]].
Qed.

Lemma start_io_inv n port st s s' status :
  io_inv n s -> refuses port s = false -> RpcServer.io_loop (rpc s) = false ->
  RpcServer.workers_ (rpc s) = 0%nat -> start port st s = Ret (status, s') -> io_inv n s'.
Proof.
  intros [H1 H2 H3 H4] Href Hio Hw. unfold start. rewrite Href.
  assert (Hnone : loop s = None) by (destruct (loop s); [by rewrite Hio in H2|done]).
  assert (Hserver : forall b, tcp_server_ s <> OnLoop b).
  { intros b Hb. assert (Hx : is_Some (loop s)) by (apply H3; by exists b). rewrite Hnone in Hx. by destruct Hx. }
  destruct (io_startup st (tcp_server_ s)) as [[[st1 srv] l]| |] eqn:Est; [|done..]. cbn [mbind outcome_bind].
  destruct (RpcServer.start (rpc s) port st1) as [st2 r] eqn:Er. intros [= <- <-].
  assert (Hreach : RpcServer.reachable n r).
  { eapply (RpcServer.reachable_step n (rpc s) (RpcServer.Start port st1) r []); [done|].
    cbn. by rewrite Hio, Hw, Er. }
  unfold refuses in Href. apply orb_false_iff in Href as [Hp Hrun].
  unfold RpcServer.start in Er. rewrite Hp, Hrun in Er.
  assert (Hfail : forall e, negb (ok (caught e)) = true) by (by intros []).
  destruct st as [e|e|e|]; cbn in Est; try (destruct (release _) eqn:Hrel; [|done..]; cbn in Est);
    injection Est as <- <- <-; rewrite ?Hfail in Er; cbn [ok] in Er; injection Er as <- <-.
  all: split; cbn; try done.
  - split; [by intros [b ?%Hserver]|by intros [? ?]].
  - split; [by intros [b ?%Hserver]|by intros [? ?]].
  - split; [by intros [b ?]|by intros [? ?]].
  - split; [done|]. intros _. by exists false.
  - intros l [= <-]. apply init_loop_inv.
Qed.

Lemma loop_event_io_inv n e s s' :
  io_inv n s -> loop_event e s = Some s' ->
  io_inv n s' /\ rpc s' = rpc s.
Proof.
  intros [H1 H2 H3 H4]. unfold loop_event. destruct (loop s) as [l|] eqn:El; [|done].
  destruct (allowed e s) eqn:Ea; [|done]. destruct (EventLoop.step l e) as [l'|] eqn:Es; [|done].
  pose proof (loop_step_inv _ s e l l' Ea Es (H4 l eq_refl)) as Hi.
  destruct (proj2 H3) as [b Hb]; [done|].
  destruct (called e l); intros [= <-]; (split; [|done]); split; cbn; try done.
  - rewrite Hb. split; [done|]. by exists true.
  - by intros ? [= <-].
  - split; [done|]. by exists b.
  - by intros ? [= <-].
Qed.

Lemma rpc_event_io_inv n e s s' :
  io_inv n s -> rpc_event e s = Some (Ret s') -> io_inv n s'.
Proof.
  intros [H1 H2 H3 H4] H.
  assert (Hs : exists r acts, RpcServer.step (rpc s) e = Some (Ret (r, acts)) /\ s' = IoThread.mk r (tcp_server_ s) (loop s) (entered s) /\
            life r = life (rpc s)).
  { unfold rpc_event in H. pose proof (step_life (rpc s) e) as Hl.
    destruct (RpcServer.step (rpc s) e) as [[[r acts]| |]|] eqn:E; destruct e; try destruct (calls_back s); try done;
      cbn in H; injection H as <-; exists r, acts; repeat split; by eapply Hl. }
  destruct Hs as (r & acts & Hr & -> & [= Hrun Hio]). split; cbn; try done.
  - by eapply RpcServer.reachable_step.
  - by rewrite Hio.
  - by rewrite Hrun.
Qed.

Lemma step_io_inv n e s s' : io_inv n s -> IoThread.step s e = Some (Ret s') -> io_inv n s'.
Proof.
  intros Hi. destruct e as [port st| |e| |e]; cbn [IoThread.step].
  - destruct (refuses port s) eqn:Hr; cbn [negb andb].
    + unfold start. rewrite Hr. by intros [= <-].
    + destruct (_ || _) eqn:Hg; [done|]. apply orb_false_iff in Hg as [Hio Hw].
      apply negb_false_iff, Nat.eqb_eq in Hw.
      destruct (start port st s) as [[status s1]| |] eqn:E; [|done..]. cbn. intros [= <-]. by eapply start_io_inv.
  - unfold stop_begin. destruct (RpcServer.stop_begin (rpc s)) as [r|] eqn:E; [|done]. intros [= <-].
    destruct Hi as [H1 H2 H3 H4]. pose proof E as E'. unfold RpcServer.stop_begin in E'.
    destruct (RpcServer.running_ (rpc s)) eqn:Hrun; [|done]. injection E' as <-. split; cbn.
    + eapply (RpcServer.reachable_step n (rpc s) RpcServer.StopBegin); [done|]. cbn. by rewrite E.
    + rewrite H2. by destruct (loop s).
    + rewrite H3. destruct (loop s); [|done]. by split.
    + destruct (loop s) as [l|]; [|done]. intros ? [= <-]. apply stop_loop_inv. by apply H4.
  - destruct (loop_event e s) as [s1|] eqn:E; [|done]. intros [= <-]. by destruct (loop_event_io_inv _ _ _ _ Hi E).
  - unfold io_return. destruct (loop s) as [l|] eqn:El; [|done]. case_if; [|done].
    destruct Hi as [H1 H2 H3 H4].
    destruct (RpcServer.step (rpc s) RpcServer.IoExit) as [[[r acts]| |]|] eqn:Er; [|done..]. cbn [mbind outcome_bind].
    destruct (release (tcp_server_ s)) as [srv| |] eqn:Hrel; [|done..]. cbn. intros [= <-].
    assert (srv = NoServer) as -> by (unfold release in Hrel; destruct (tcp_server_ s); congruence).
    split; cbn; try done; [by eapply RpcServer.reachable_step| |split; [by intros [b ?]|by intros [? ?]]].
    cbn in Er. destruct (_ && _); [|done]. by injection Er as <- _.
  - by apply rpc_event_io_inv.
Qed.

Lemma run_io_inv n es s s' : io_inv n s -> IoThread.run s es = Some (Ret s') -> io_inv n s'.
Proof.
  revert s. induction es as [|e es IH]; intros s Hi; cbn; [by intros [= <-]|].
  destruct (IoThread.step s e) as [[s1| |]|] eqn:E; [|done..]. apply IH. by eapply step_io_inv.
Qed.

(** * The end of the thread *)

(** The steps of the I/O thread between two calls back, and the wakeups of
    threads that have queued a functor. *)
Definition of_io_thread (e : @IoThread.event Handler) : bool :=
  match e with
  | Loop (QueueLoop _ | QueueOther _ | Quit | QuitOther) => false
  | Loop _ | IoReturn => true
  | _ => false
  end.

Definition leads (s s' : @IoThread.t Handler) : Prop :=
  exists es, forallb of_io_thread es = true /\ IoThread.run s es = Some (Ret s').

Lemma leads_refl s : leads s s.
Proof. by exists []. Qed.

Lemma leads_step s e s1 s2 :
  of_io_thread e = true -> IoThread.step s e = Some (Ret s1) -> leads s1 s2 -> leads s s2.
Proof. intros He Hs (es & Hf & Hr). exists (e :: es). cbn. by rewrite He, Hs, Hf. Qed.

(** A stopped server whose I/O thread is in the loop, between two calls back. *)
Record stopping (n : nat) (s : @IoThread.t Handler) (l : t) : Prop := mkStopping {
  st_inv : io_inv n s;
  st_loop : loop s = Some l;
  st_entered : entered s = true;
  st_running : RpcServer.running_ (rpc s) = false;
  st_frames : RpcServer.io_frames (rpc s) = None;
}.

Lemma stopping_loop n s l : stopping n s l -> loop_inv false true l.
Proof. intros [H1 H2 H3 H4 _]. pose proof (ii_loop _ _ H1 l H2) as H. by rewrite H3, H4 in H. Qed.

(** One step of the loop. *)
Lemma stopping_step n s l e l' :
  stopping n s l -> of_io_thread (Loop e) = true -> e <> LoopEnter -> EventLoop.step l e = Some l' ->
  exists s', IoThread.step s (Loop e) = Some (Ret s') /\
    stopping n s' (if called e l then quit l' else l').
Proof.
  intros Hs He Hne Hstep. pose proof Hs as [H1 H2 H3 H4 H5].
  assert (Hall : allowed e s = true) by (destruct e; try done; cbn; by rewrite bool_decide_true).
  assert (E : exists s', loop_event e s = Some s' /\ loop s' = Some (if called e l then quit l' else l') /\
            entered s' = true).
  { unfold loop_event. rewrite H2, Hall, Hstep, H3. destruct (called e l); by eexists. }
  destruct E as (s' & E & El & Een). exists s'. cbn [IoThread.step]. rewrite E. split; [done|].
  destruct (loop_event_io_inv _ _ _ _ H1 E) as [Hi Hr]. by split; rewrite ?Hr.
Qed.

(** From the end of the loop to the end of the thread. *)
Lemma leave n s l : stopping n s l -> at_ l = Outside -> exists s', leads s s' /\ io_inv n s' /\ loop s' = None.
Proof.
  intros Hs Ha. pose proof Hs as [H1 H2 H3 H4 H5].
  destruct (proj2 (ii_server _ _ H1)) as [b Hb]; [by rewrite H2|].
  assert (Hio : RpcServer.io_loop (rpc s) = true) by (rewrite (ii_io _ _ H1), H2; done).
  assert (E : exists s', IoThread.step s IoReturn = Some (Ret s') /\ loop s' = None).
  { cbn [IoThread.step]. unfold io_return. rewrite H2, H3, bool_decide_true by done. cbn [andb].
    cbn [RpcServer.step]. rewrite Hio, H4, H5, Hb. cbn. by eexists. }
  destruct E as (s' & E & Hn). exists s'. split; [by eapply leads_step; [|exact E|apply leads_refl]|].
  split; [by eapply step_io_inv|done].
Qed.

Lemma finish_functors n s l :
  stopping n s l -> at_ l = Running -> (stop_functor ∈ executed l ++ callbacks l) ->
  exists s', leads s s' /\ io_inv n s' /\ loop s' = None.
Proof.
  remember (callbacks l) as cs eqn:Hc. revert s l Hc. induction cs as [|f rest IH]; intros s l Hc Hs Ha Hin.
  - rewrite app_nil_r in Hin. assert (Hq : quit_ l = true) by (by apply (li_quit _ _ _ (stopping_loop _ _ _ Hs))).
    destruct (stopping_step n s l EndFunctors (loop_condition l) Hs) as (s1 & Hstep & Hs1); [done|done|cbn; by rewrite Ha, <- Hc|].
    destruct (leave n s1 _ Hs1) as (s' & Hl & Hi); [unfold loop_condition; by rewrite Hq|].
    exists s'. split; [by eapply leads_step; [|exact Hstep|]|done].
  - destruct (stopping_step n s l CallFunctor (call_functor f rest l) Hs) as (s1 & Hstep & Hs1); [done|done|cbn; by rewrite Ha, <- Hc|].
    set (l1 := if called CallFunctor l then _ else _) in Hs1.
    assert (Hl1 : callbacks l1 = rest /\ at_ l1 = Running /\ executed l1 = executed l ++ [f])
      by (unfold l1; by destruct (called CallFunctor l)).
    destruct Hl1 as (Hc1 & Ha1 & He1).
    destruct (IH s1 l1) as (s' & Hl & Hi); [done..|by rewrite He1, <- app_assoc|].
    exists s'. split; [by eapply leads_step; [|exact Hstep|]|done].
Qed.

(** A loop that waits is woken, as the functor of [stop] is pending. *)
Lemma finish_waiting k n s l :
  wakers l = k -> stopping n s l -> at_ l = Waiting -> exists s', leads s s' /\ io_inv n s' /\ loop s' = None.
Proof.
  revert s l. induction k as [|k IH]; intros s l Hk Hs Ha; pose proof (stopping_loop _ _ _ Hs) as Hi;
    pose proof Hi as [[h Hok] _ _ H4 H5 H6 _ H8].
  all: assert (Hp : stop_functor ∈ pending_functors_ l).
  1,3: assert (Hc : callbacks l = []) by (apply (LoopFacts.ok_callbacks _ _ Hok); by rewrite Ha);
    assert (Hx : stop_functor ∉ executed l) by (rewrite <- H5; intros Hq; by destruct (H6 Hq); congruence);
    specialize (H4 eq_refl); rewrite Hc, !elem_of_app in H4; destruct H4 as [?|[?%elem_of_nil|?]]; done.
  - destruct (H8 Hp ltac:(by rewrite Ha)) as [Hw|Hw]; [|lia].
    destruct (stopping_step n s l (EpollReturn true) (epoll_return true l) Hs) as (s1 & Hstep1 & Hs1); [done|done| |].
    { cbn. rewrite Ha, (proj2 (Z.leb_gt _ _) Hw). done. }
    destruct (stopping_step n s1 _ SwapPending (swap_pending (epoll_return true l)) Hs1) as (s2 & Hstep2 & Hs2); [done..|].
    destruct (finish_functors n s2 _ Hs2) as (s' & Hl & Hend); [done|cbn; rewrite elem_of_app; by right|].
    exists s'. split; [|done]. by eapply leads_step; [|exact Hstep1|eapply leads_step; [|exact Hstep2|]].
  - destruct (stopping_step n s l WakeOther (wake_other l) Hs) as (s1 & Hstep & Hs1); [done|done| |].
    { cbn [step]. by rewrite Hk. }
    destruct (IH s1 (wake_other l)) as (s' & Hl & Hend); [cbn; by rewrite Hk|done|done|].
    exists s'. split; [|done]. by eapply leads_step; [|exact Hstep|].
Qed.

Lemma finish_handling n s l :
  stopping n s l -> at_ l = Handling -> exists s', leads s s' /\ io_inv n s' /\ loop s' = None.
Proof.
  intros Hs Ha. pose proof (stopping_loop _ _ _ Hs) as [[h Hok] _ _ H4 H5 H6 _ _].
  assert (Hc : callbacks l = []) by (apply (LoopFacts.ok_callbacks _ _ Hok); by rewrite Ha).
  assert (Hx : stop_functor ∉ executed l) by (rewrite <- H5; intros Hq; by destruct (H6 Hq); congruence).
  specialize (H4 eq_refl). rewrite Hc, !elem_of_app in H4.
  destruct (stopping_step n s l SwapPending (swap_pending l) Hs) as (s1 & Hstep & Hs1); [done|done|cbn; by rewrite Ha|].
  destruct (finish_functors n s1 _ Hs1) as (s' & Hl & Hend); [done| |].
  { cbn. rewrite elem_of_app. right. destruct H4 as [?|[?%elem_of_nil|?]]; done. }
  exists s'. split; [|done]. by eapply leads_step; [|exact Hstep|].
Qed.

(** While functors run, the one of [stop] is among them, or the next turn has
    it. *)
Lemma finish_running n s l :
  stopping n s l -> at_ l = Running -> exists s', leads s s' /\ io_inv n s' /\ loop s' = None.
Proof.
  remember (callbacks l) as cs eqn:Hc. revert s l Hc. induction cs as [|f rest IH]; intros s l Hc Hs Ha.
  - destruct (stopping_step n s l EndFunctors (loop_condition l) Hs) as (s1 & Hstep & Hs1);
      [done|done|cbn; by rewrite Ha, <- Hc|].
    assert (Hend : exists s', leads s1 s' /\ io_inv n s' /\ loop s' = None).
    { unfold loop_condition in Hs1. destruct (quit_ l).
      - by eapply leave.
      - by eapply finish_waiting. }
    destruct Hend as (s' & Hl & Hend). exists s'. split; [by eapply leads_step; [|exact Hstep|]|done].
  - destruct (stopping_step n s l CallFunctor (call_functor f rest l) Hs) as (s1 & Hstep & Hs1);
      [done|done|cbn; by rewrite Ha, <- Hc|].
    set (l1 := if called CallFunctor l then _ else _) in Hs1.
    assert (Hl1 : callbacks l1 = rest /\ at_ l1 = Running) by (unfold l1; by destruct (called CallFunctor l)).
    destruct Hl1 as (Hc1 & Ha1). destruct (IH s1 l1) as (s' & Hl & Hi); [done..|].
    exists s'. split; [by eapply leads_step; [|exact Hstep|]|done].
Qed.

Lemma finish_entered n s l :
  stopping n s l -> exists s', leads s s' /\ io_inv n s' /\ loop s' = None.
Proof.
  intros Hs. destruct (at_ l) eqn:Ha.
  - by eapply leave.
  - by eapply finish_waiting.
  - by eapply finish_handling.
  - by eapply finish_running.
Qed.

(** A thread that has not called [loop] yet. *)
Lemma finish_new n s l :
  io_inv n s -> loop s = Some l -> entered s = false -> RpcServer.running_ (rpc s) = false ->
  RpcServer.io_frames (rpc s) = None -> exists s', leads s s' /\ io_inv n s' /\ loop s' = None.
Proof.
  intros Hi Hl Hen Hrun Hfr. destruct (li_new _ _ _ (ii_loop _ _ Hi l Hl) Hen) as (Ha & _).
  assert (E : exists s1 l1, IoThread.step s (Loop LoopEnter) = Some (Ret s1) /\ stopping n s1 l1).
  { pose proof (loop_event_io_inv n LoopEnter s) as Hev. cbn [IoThread.step].
    assert (E : exists s1, loop_event LoopEnter s = Some s1 /\ is_Some (loop s1) /\ entered s1 = true).
    { unfold loop_event. rewrite Hl. cbn [allowed]. rewrite Hen, bool_decide_true by done. cbn [negb andb].
      cbn [step]. rewrite Ha. by eexists. }
    destruct E as (s1 & E & [l1 Hl1] & Hen1). destruct (Hev s1 Hi E) as [Hi1 Hr1].
    exists s1, l1. rewrite E. split; [done|]. by split; rewrite ?Hr1. }
  destruct E as (s1 & l1 & Hstep & Hs1). destruct (finish_entered n s1 l1 Hs1) as (s' & Hl' & Hend).
  exists s'. split; [by eapply leads_step; [|exact Hstep|]|done].
Qed.

(** * Properties *)

(** The server with its I/O thread refines the server: every run of [start],
    [stop], the loop and the callbacks is a run of [RpcServer]'s transition
    system, of which the I/O thread is exactly the life of the loop; so the
    invariants of that system hold here.  The TCP server is on the loop exactly
    as long as the loop lives. *)
Theorem io_thread_refines_server n es s :
  IoThread.run (@IoThread.init Handler n) es = Some (Ret s) ->
  RpcServer.reachable n (rpc s) /\
  RpcServer.io_loop (rpc s) = bool_decide (is_Some (loop s)) /\
  ((exists b, tcp_server_ s = OnLoop b) <-> is_Some (loop s)).
Proof. intros Hr. by destruct (run_io_inv _ _ _ _ (init_io_inv n) Hr). Qed.

(** [stop] ends the I/O thread: from every state in which it was called and
    the thread is not in the middle of a message, at whatever point the loop is
    (before its first turn, waiting, handling events or calling functors), the
    steps of the thread and the wakeups already on their way bring the thread to
    its end, with the TCP server destroyed on its loop, so that the join
    returns. *)
Theorem stop_ends_io_thread n es s :
  IoThread.run (@IoThread.init Handler n) es = Some (Ret s) ->
  RpcServer.running_ (rpc s) = false -> RpcServer.io_frames (rpc s) = None ->
  exists es' s', forallb of_io_thread es' = true /\ IoThread.run s es' = Some (Ret s') /\
    loop s' = None /\ RpcServer.io_loop (rpc s') = false /\ (forall b, tcp_server_ s' <> OnLoop b).
Proof.
  intros Hr Hrun Hfr. pose proof (run_io_inv _ _ _ _ (init_io_inv n) Hr) as Hi.
  assert (H : exists s', leads s s' /\ io_inv n s' /\ loop s' = None).
  { destruct (loop s) as [l|] eqn:Hl; [|by exists s; split; [apply leads_refl|]].
    destruct (entered s) eqn:Hen; [by eapply finish_entered|by eapply finish_new]. }
  destruct H as (s' & (es' & Hf & Hr') & [_ Hio Hsrv _] & Hn). exists es', s'.
  rewrite Hn in *. split; [done|]. split; [done|]. split; [done|]. split; [done|].
  intros b Hb. assert (Hx : is_Some (@None EventLoop.t)) by (apply Hsrv; by exists b). by destruct Hx.
Qed.

(** A [start] whose [listen] throws leaves a TCP server on a loop that is gone;
    the next [start] destroys it, which is undefined. *)
Lemma restart_after_failed_listen n port what st :
  port <> 0 -> (st = Listens \/ exists e, st = ListenThrows e) ->
  exists s, IoThread.run (@IoThread.init Handler n) [StartServer port (ListenThrows (StdException what))] = Some (Ret s) /\
    tcp_server_ s = Dangling /\ start port st s = OutOfBounds.
Proof.
  intros Hp Hst. assert (E : (port =? 0) = false) by (by apply Z.eqb_neq).
  cbn [IoThread.run IoThread.step]. unfold start at 1, refuses. cbn. rewrite E. cbn.
  unfold RpcServer.start. rewrite E. cbn. eexists. split; [done|]. split; [done|].
  unfold start, refuses. cbn. rewrite E. cbn. by destruct Hst as [->|[e ->]].
Qed.

End facts.

(** * Witnesses *)

(** A server starts, its loop waits, another thread queues a functor, and the
    server is stopped while events are handled. *)
Definition stopped_run : list (@IoThread.event unit) :=
  [StartServer 9000 Listens; Loop EventLoop.LoopEnter; Loop (EventLoop.QueueOther 7);
   Loop EventLoop.WakeOther; Loop (EventLoop.EpollReturn true); StopServer].

Lemma io_thread_refines_server_witness :
  exists s, IoThread.run (IoThread.init 2) stopped_run = Some (Ret s) /\
    RpcServer.reachable 2 (rpc s) /\
    RpcServer.io_loop (rpc s) = bool_decide (is_Some (loop s)) /\
    ((exists b, tcp_server_ s = OnLoop b) <-> is_Some (loop s)).
Proof.
  eexists. split; [reflexivity|]. apply (io_thread_refines_server 2 stopped_run). reflexivity.
Defined.

Lemma stop_ends_io_thread_witness :
  exists s, IoThread.run (IoThread.init 2) stopped_run = Some (Ret s) /\ is_Some (loop s) /\
  exists es' s', forallb of_io_thread es' = true /\ IoThread.run s es' = Some (Ret s') /\
    loop s' = None /\ RpcServer.io_loop (rpc s') = false /\ (forall b, tcp_server_ s' <> OnLoop b).
Proof.
  eexists. split; [reflexivity|]. split; [by eexists|].
  apply (stop_ends_io_thread 2 stopped_run); reflexivity.
Defined.
