(* ===== verification/RpcCrash.v ===== *)
(** Exceptions that leave the loop of the RPC server's I/O thread after it has
    reported its startup: the second half of the [catch] blocks of [start] in
    src/rpc/rpc_server.cpp. *)
From Stdlib Require Import ZArith Lia.
From Stdlib Require Import Strings.Byte.
From stdpp Require Import base list strings gmap.
From S2P Require Import Prelude RpcMessage EventLoop RpcServer RpcServerFacts RpcIo RpcIoFacts.

Module RpcCrash.
Import IoThread.
#[local] Existing Instance EventLoop.phase_eq_dec.

Section crash.
Context {Handler : Type}.
Implicit Types s : IoThread.t (Handler := Handler).

(** A wait, a handler or a functor throws: the loop and the frame of [onMessage]
    are unwound, [loop_] is null, and the TCP server stays, on a loop that is
    gone.  No flag of the server changes. *)
Definition loop_throws s : option (IoThread.t (Handler := Handler)) :=
  match loop s with
  | Some l =>
      if entered s && negb (bool_decide (EventLoop.at_ l = EventLoop.Outside)) then
        Some (IoThread.mk (RpcServer.set_io_frames None (RpcServer.set_io_loop false (rpc s))) Dangling None false)
      else None
  | None => None
  end.

(** [isRunning]. *)
Definition isRunning s : bool := RpcServer.running_ (rpc s).

(** * After the exception *)

(** Without an I/O thread; [running] is what the server says. *)
Record crashed (running : bool) s : Prop := mkCrashed {
  cr_inv : server_inv (rpc s);
  cr_running : RpcServer.running_ (rpc s) = running;
  cr_io : RpcServer.io_loop (rpc s) = false;
  cr_loop : loop s = None;
  cr_server : tcp_server_ s = Dangling;
}.

Lemma throws_crashed n s s' :
  io_inv n s -> loop_throws s = Some s' -> crashed (RpcServer.running_ (rpc s)) s'.
Proof.
  intros [Hr Hio _ _]. apply reachable_inv in Hr. unfold loop_throws. destruct (loop s) as [l|]; [|done].
  case_if; [|done]. intros [= <-]. constructor; try done. destruct Hr as [H1 H2 H3 H4 H5 H6 H7 H8 H9 H10].
  by constructor.
Qed.

(** Neither a [stop] nor a [start]. *)
Definition undisturbed (e : IoThread.event (Handler := Handler)) : bool :=
  match e with
  | StartServer _ _ | StopServer => false
  | Rpc RpcServer.StopEnd => false
  | _ => true
  end.

(** The steps of the I/O thread on connections and messages. *)
Definition serves (e : @RpcServer.event Handler) : bool :=
  match e with
  | RpcServer.OnConnection _ | RpcServer.OnMessage _ _ | RpcServer.NextFrame => true
  | _ => false
  end.

Lemma crashed_serves_nothing running s e : crashed running s -> serves e = true -> IoThread.step s (Rpc e) = None.
Proof.
  intros [_ _ _ Hl _] He. cbn [IoThread.step]. unfold rpc_event, calls_back. rewrite Hl. by destruct e.
Qed.

Lemma crashed_step running s e s' :
  crashed running s -> undisturbed e = true -> IoThread.step s e = Some (Ret s') -> crashed running s'.
Proof.
  intros Hc He. pose proof Hc as [Hi Hr Hio Hl Hs]. destruct e as [| |e| |e]; try done; cbn [IoThread.step].
  - unfold loop_event. by rewrite Hl.
  - unfold io_return. by rewrite Hl.
  - intros Hstep. assert (H1 : exists r a, RpcServer.step (rpc s) e = Some (Ret (r, a)) /\
      s' = IoThread.mk r (tcp_server_ s) (loop s) (entered s) /\ life r = life (rpc s)).
    { unfold rpc_event, calls_back in Hstep. rewrite Hl in Hstep. pose proof (step_life (rpc s) e) as Hlife.
      destruct (RpcServer.step (rpc s) e) as [[[r a]| |]|]; destruct e; try done; cbn in Hstep;
        injection Hstep as <-; rewrite <- Hl; exists r, a; (split; [done|split; [done|by eapply Hlife]]). }
    destruct H1 as (r & a & Est & -> & [= Er Eio]).
    constructor; cbn; [by eapply step_inv|congruence|congruence|done|done].
Qed.

Lemma crashed_run running es s s' :
  crashed running s -> forallb undisturbed es = true -> IoThread.run s es = Some (Ret s') -> crashed running s'.
Proof.
  revert s. induction es as [|e es IH]; intros s Hc; cbn [forallb IoThread.run]; [by intros _ [= <-]|].
  intros [He Hes]%andb_true_iff. destruct (IoThread.step s e) as [[s1| |]|] eqn:E; try done. apply IH; [|done].
  by eapply crashed_step.
Qed.

(** ** What still works *)

(** Steps of the workers as steps of the whole. *)
Lemma run_rpc es s r a :
  Forall (fun e => match e with RpcServer.WorkerTake | RpcServer.WorkerFinish _ _ _ | RpcServer.WorkerExit | RpcServer.StopEnd => True
                   | _ => False end) es ->
  RpcServerFacts.run (rpc s) es = Some (r, a) ->
  IoThread.run s (map Rpc es) = Some (Ret (IoThread.mk r (tcp_server_ s) (loop s) (entered s))).
Proof.
  intros Hes. revert s a. induction Hes as [|e es He _ IH]; intros s a; cbn [RpcServerFacts.run map IoThread.run].
  { intros [= <- _]. by destruct s. }
  destruct (RpcServer.step (rpc s) e) as [[[r1 a1]| |]|] eqn:E; try done.
  destruct (RpcServerFacts.run r1 es) as [[r2 a2]|] eqn:E2; [|done]. intros [= <- _].
  assert (Hst : IoThread.step s (Rpc e) = Some (Ret (IoThread.mk r1 (tcp_server_ s) (loop s) (entered s)))).
  { cbn [IoThread.step]. unfold rpc_event. rewrite E. by destruct e. }
  rewrite Hst. by rewrite (IH (IoThread.mk r1 (tcp_server_ s) (loop s) (entered s)) a2 E2).
Qed.

Lemma run_io_app es1 es2 s s1 :
  IoThread.run s es1 = Some (Ret s1) -> IoThread.run s (es1 ++ es2) = IoThread.run s1 es2.
Proof.
  revert s. induction es1 as [|e es IH]; intros s; cbn [IoThread.run app]; [by intros [= <-]|].
  destruct (IoThread.step s e) as [[s2| |]|]; try done. apply IH.
Qed.

(** [stop], whose join of the I/O thread returns at once, and then [start]. *)
Lemma crashed_stops s (now : Z) (call : Handler -> RpcRequest -> RpcServer.HandlerResult) :
  crashed true s ->
  exists es s', IoThread.run s (StopServer :: map Rpc es) = Some (Ret s') /\
    RpcServer.running_ (rpc s') = false /\ RpcServer.workers_ (rpc s') = 0%nat /\ crashed false s'.
Proof.
  intros [Hi Hr Hio Hl Hs].
  set (r0 := RpcServer.set_stopping true (RpcServer.set_running false (rpc s))).
  assert (H0 : RpcServer.step (rpc s) RpcServer.StopBegin = Some (Ret (r0, []))).
  { cbn [RpcServer.step]. unfold RpcServer.stop_begin. by rewrite Hr. }
  pose proof (step_inv _ _ _ _ Hi H0) as Hi0.
  destruct (workers_return r0 now call Hi0 eq_refl) as (r1 & es & Hrun & Hes & Hw1 & Hs1 & [= Hr1 Hio1]).
  change (RpcServer.running_ r0) with false in Hr1. change (RpcServer.io_loop r0) with (RpcServer.io_loop (rpc s)) in Hio1.
  assert (Hend : RpcServerFacts.run r1 [RpcServer.StopEnd] = Some (RpcServer.stop_end r1, [])).
  { cbn. by rewrite Hio1, Hio, Hr1, Hs1, Hw1. }
  pose proof (RpcServerFacts.run_app _ [RpcServer.StopEnd] _ _ _ Hrun) as Hall. rewrite Hend in Hall.
  exists (es ++ [RpcServer.StopEnd]). eexists. split; [|split; [|split]].
  - cbn [IoThread.run IoThread.step]. unfold stop_begin, RpcServer.stop_begin. rewrite Hr, Hl. cbn [option_map].
    eapply (run_rpc _ (IoThread.mk r0 (tcp_server_ s) None (entered s))); [|exact Hall].
    apply Forall_app. split; [|by repeat constructor]. eapply Forall_impl; [exact Hes|].
    intros e [He| ->]; [by destruct e|done].
  - done.
  - done.
  - constructor; cbn; try done; [by eapply run_server_inv in Hall|by rewrite Hio1].
Qed.

(** C16: an exception that leaves the loop of a running server goes unnoticed.
    Whatever happens until somebody calls [stop], the server says that it runs
    and no connection or message of any client is taken; [stop] returns, after
    the workers have finished; and the next [start] destroys a TCP server whose
    loop is gone. *)
Theorem throwing_loop_leaves_server n es s s' (now : Z) (call : Handler -> RpcRequest -> RpcServer.HandlerResult) :
  IoThread.run (IoThread.init n) es = Some (Ret s) -> isRunning s = true -> loop_throws s = Some s' ->
  (forall es' s'', forallb undisturbed es' = true -> IoThread.run s' es' = Some (Ret s'') ->
     isRunning s'' = true /\ forall e, serves e = true -> IoThread.step s'' (Rpc e) = None) /\
  (exists es' s'', IoThread.run s' (StopServer :: map Rpc es') = Some (Ret s'') /\ isRunning s'' = false /\
     forall port, port <> 0 -> IoThread.step s'' (StartServer port Listens) = Some OutOfBounds).
Proof.
  intros Hrun Hr Ht. pose proof (run_io_inv n es _ _ (init_io_inv n) Hrun) as Hi.
  pose proof (throws_crashed n s s' Hi Ht) as Hc. unfold isRunning in Hr. rewrite Hr in Hc. split.
  - intros es' s'' Hes' Hrun'. pose proof (crashed_run _ _ _ _ Hc Hes' Hrun') as Hc'.
    split; [apply (cr_running _ _ Hc')|]. intros e. by apply (crashed_serves_nothing true).
  - destruct (crashed_stops s' now call Hc) as (es' & s'' & Hrun' & Hr' & Hw & [_ _ Hio _ Hsrv]).
    exists es', s''. split; [done|]. split; [done|]. intros port Hp. cbn [IoThread.step].
    assert (refuses port s'' = false) as Href by (unfold refuses; rewrite Hr'; by apply orb_false_iff; rewrite Z.eqb_neq).
    rewrite Href, Hio, Hw. cbn [negb andb orb Nat.eqb]. unfold start. rewrite Href, Hsrv. done.
Qed.

End crash.

(** The wait of a server that has started fails. *)
Definition waiting_events : list (IoThread.event (Handler := unit)) :=
  [IoThread.StartServer 8080 IoThread.Listens; IoThread.Loop EventLoop.LoopEnter].

Definition waiting_server : IoThread.t (Handler := unit) :=
  match IoThread.run (IoThread.init 2) waiting_events with Some (Ret s) => s | _ => IoThread.init 2 end.

Lemma throwing_loop_leaves_server_witness :
  exists s', loop_throws waiting_server = Some s' /\
  (forall es' s'', forallb undisturbed es' = true -> IoThread.run s' es' = Some (Ret s'') ->
     isRunning s'' = true /\ forall e, serves e = true -> IoThread.step s'' (IoThread.Rpc e) = None) /\
  (exists es' s'', IoThread.run s' (IoThread.StopServer :: map IoThread.Rpc es') = Some (Ret s'') /\
     isRunning s'' = false /\
     forall port, port <> 0 -> IoThread.step s'' (IoThread.StartServer port IoThread.Listens) = Some OutOfBounds).
Proof.
  eexists. split; [vm_compute; reflexivity|].
  apply (throwing_loop_leaves_server 2 waiting_events waiting_server _ 0 (fun _ _ => RpcServer.ThrowsUnknown));
    vm_compute; reflexivity.
Defined.

End RpcCrash.
