(* ===== verification/RpcLedger.v ===== *)
(** The ledger of the RPC server: in every interleaving, each request taken off
    a connection is answered once, by a response frame with its identifier, or
    is still waiting or being handled. *)
From Stdlib Require Import ZArith Lia.
From Stdlib Require Import Strings.Byte.
From stdpp Require Import base list strings gmap.
From S2P Require Import Prelude StdMap FrameHeader FrameCodec RpcMessage RpcServer RpcServerFacts.
Import RpcServer.

Section ledger.
Context {Handler : Type}.
Implicit Types s : RpcServer.Server (Handler := Handler).

(** * The entries *)

(** A request by its connection and identifier. *)
Abbreviation entry := (nat * Z)%type.

Definition entry_of (r : PendingRequest) : entry := (connection r, request_id (request r)).

(** Requests admitted and not answered. *)
Definition open_entries s : list entry := map entry_of (in_flight s ++ work_queue_ s).

(** The request a step takes off the parser of a connection: the frame that is
    complete, if it has a request's type. *)
Definition taken_by s (e : event (Handler := Handler)) : list entry :=
  match e, io_frames s with
  | NextFrame, Some (conn, id) =>
      match states s !! id with
      | Some cs =>
          if FrameParser.isComplete (parser cs) &&
             (msg_type (FrameParser.header (parser cs)) =? MessageType_value kRequest)
          then [(conn, FrameHeader.request_id (FrameParser.header (parser cs)))] else []
      | None => []
      end
  | _, _ => []
  end.

(** An answer: an entry with its response, and the frames that actions send. *)
Abbreviation answer_entry := (nat * Z * RpcResponse)%type.

Definition frame_sent (a : answer_entry) : nat * bytes :=
  (a.1.1, makeResponseFrame a.1.2 a.2).

Definition frames_in (acts : list action) : list (nat * bytes) :=
  omap (fun a => match a with Send conn frame => Some (conn, frame) | _ => None end) acts.

Lemma frames_in_app a b : frames_in (a ++ b) = frames_in a ++ frames_in b.
Proof. apply omap_app. Qed.

(** A step balances: what it takes is answered or becomes open. *)
Definition balances s (taken : list entry) s' (acts : list action) : Prop :=
  exists answers, frames_in acts = map frame_sent answers /\
    map fst answers ++ open_entries s' ≡ₚ taken ++ open_entries s.

Lemma balances_refl s s' acts :
  frames_in acts = [] -> open_entries s' = open_entries s -> balances s [] s' acts.
Proof. intros Ha Ho. exists []. by rewrite Ha, Ho. Qed.

Lemma open_same s s' :
  in_flight s' = in_flight s -> work_queue_ s' = work_queue_ s -> open_entries s' = open_entries s.
Proof. intros H1 H2. unfold open_entries. by rewrite H1, H2. Qed.

(** * The steps *)

Lemma frame_request_id f r : frame_request f = Some r -> request_id r = FrameHeader.request_id (FrameParser.f_header f).
Proof.
  unfold frame_request. do 2 (destruct (StdMap.lookup _ _); [|done]). destruct (_ || _); [done|]. by intros [= <-].
Qed.

Lemma admit_balances s conn id cs r :
  balances s [(conn, request_id r)] (admit_result s conn id cs r).1 (admit_result s conn id cs r).2.
Proof.
  unfold admit_result. destruct (admitted s cs); cbn [fst snd].
  - exists []. split; [done|]. unfold open_entries; cbn. rewrite app_assoc, !map_app. cbn. by rewrite Permutation_app_comm.
  - by exists [(conn, request_id r, rejection cs)].
Qed.

Lemma feed_open s conn b s' b' acts next :
  onMessage_feed s conn b = Ret (s', b', acts, next) -> frames_in acts = [] /\ open_entries s' = open_entries s.
Proof.
  unfold onMessage_feed. destruct (_ !! _) as [id|]; [|by intros [= <- <- <- <-]].
  destruct (_ !! _) as [cs|]; [|done]. destruct (FrameParser.feed _ _) as [[r p]| |]; [|done..].
  cbn [mbind outcome_bind]. by case_if; intros [= <- <- <- <-].
Qed.

Lemma frame_balances s conn id s' acts again :
  server_inv s -> io_frames s = Some (conn, id) -> onMessage_frame s conn id = Ret (s', acts, again) ->
  balances s (taken_by s NextFrame) s' acts.
Proof.
  intros Hinv Hf. destruct (inv_frames s Hinv _ _ Hf) as [[cs Hid] _]. unfold taken_by. rewrite Hf, Hid.
  destruct (FrameParser.isComplete (parser cs)) eqn:Hc; cbn [andb].
  2:{ unfold onMessage_frame. rewrite Hid, Hc. intros [= <- <- <-]. by apply balances_refl. }
  destruct (_ =? _) eqn:Ht.
  2:{ unfold onMessage_frame. rewrite Hid, Hc, Ht. intros [= <- <- <-]. by apply balances_refl. }
  destruct (frame_request (FrameParser.frame_of (parser cs))) as [r|] eqn:Er.
  - rewrite (onMessage_frame_request s conn id cs r Hinv Hid Hc) by (split; [by apply Z.eqb_eq|done]).
    destruct (FrameParser.feed _ _) as [[fr p]| |]; [|done..]. cbn [mbind outcome_bind]. intros [= <- <- <-].
    apply frame_request_id in Er. change (FrameParser.f_header (FrameParser.frame_of (parser cs)))
      with (FrameParser.header (parser cs)) in Er. rewrite <- Er.
    destruct (admit_balances s conn id cs r) as (answers & Ha & Hp). exists answers.
    rewrite frames_in_app, Ha. split; [unfold closes; destruct (FrameParser.is_error _); by rewrite ?app_nil_r|].
    assert (Ho : forall s1, open_entries (put_parser s1 id p) = open_entries s1).
    { intros s1. unfold put_parser. by destruct (states s1 !! id). }
    by rewrite Ho.
  - unfold onMessage_frame. rewrite Hid, Hc, Ht. cbn [negb]. rewrite Er. intros [= <- <- <-].
    by exists [(conn, FrameHeader.request_id (FrameParser.header (parser cs)), invalid_request)].
Qed.

Lemma finish_balances s i now call s' acts :
  server_inv s -> (i < length (in_flight s))%nat -> worker_finish s i now call = Ret (s', acts) ->
  balances s [] s' acts.
Proof.
  intros Hinv Hi. destruct (lookup_lt_is_Some_2 _ _ Hi) as [r Hr].
  destruct (worker_finish_inv s i now call r Hinv Hr) as (s1 & -> & _ & Hq & Hf & _). intros [= <- <-].
  exists [(entry_of r, worker_response (handlers_ s) now call (request r))]. split; [done|].
  unfold open_entries. rewrite Hq, Hf. cbn [map app fst].
  change (map entry_of (r :: delete i (in_flight s) ++ work_queue_ s) ≡ₚ map entry_of (in_flight s ++ work_queue_ s)).
  apply fmap_Permutation. rewrite app_comm_cons. apply Permutation_app_tail. symmetry. by apply delete_Permutation.
Qed.

Lemma step_balances s e s' acts :
  server_inv s -> step s e = Some (Ret (s', acts)) -> balances s (taken_by s e) s' acts.
Proof.
  intros Hinv Hstep. pose proof (inv_drained s Hinv) as Hdr. pose proof (inv_in_flight s Hinv) as Hfl.
  assert (Hnone : workers_ s = 0%nat -> open_entries s = []).
  { intros Hw. unfold open_entries. rewrite (Hdr Hw). rewrite Hw in Hfl. by destruct (in_flight s); [|cbn in Hfl; lia]. }
  destruct e as [svc m h|port st|conn|conn b| | |i now call| | | |]; cbn [step] in Hstep; cbn [taken_by].
  - injection Hstep as <- <-. apply balances_refl; [done|]. unfold registerService.
    destruct h; [|done]. destruct (_ || _); [done|]. destruct (running_ s); [done|]. by destruct (handlers_ s !! _).
  - destruct (_ || _) eqn:E; [done|]. breflect. injection Hstep as <- <-. apply balances_refl; [done|].
    unfold start. destruct (port =? 0); [done|]. destruct (running_ s); [done|]. rewrite (Hnone ltac:(done)).
    destruct (ok st); cbn [negb snd]; unfold open_entries in *; cbn; [by apply Hnone|].
    specialize (Hnone ltac:(done)). rewrite map_app in Hnone. apply app_eq_nil in Hnone as [Hn _].
    by rewrite app_nil_r.
  - destruct (_ && _); [|done]. injection Hstep as <- <-. apply balances_refl; [done|].
    unfold onConnection. by destruct (connections_ s !! conn).
  - destruct (_ && _); [|done]. injection Hstep as Hs.
    destruct (onMessage_feed s conn b) as [[[[s1 b1] a1] next]| |] eqn:Ef; cbn [mbind outcome_bind] in Hs; [|done..].
    injection Hs as <- <-. apply feed_open in Ef as [Ha Ho]. by apply balances_refl.
  - destruct (io_frames s) as [[conn id]|] eqn:Ef; [|done]. injection Hstep as Hs.
    destruct (onMessage_frame s conn id) as [[[s1 a1] again]| |] eqn:Em; cbn [mbind outcome_bind] in Hs; [|done..].
    injection Hs as <- <-. pose proof (frame_balances _ _ _ _ _ _ Hinv Ef Em) as Hb. unfold taken_by in Hb.
    rewrite Ef in Hb. by destruct again.
  - destruct (_ <? _)%nat; [|done]. unfold worker_take in Hstep. destruct (work_queue_ s) as [|r q] eqn:Eq;
      [by destruct (stopping_ s)|]. injection Hstep as <- <-. apply balances_refl; [done|].
    unfold open_entries; cbn. by rewrite Eq, <- app_assoc.
  - destruct (_ <? _)%nat eqn:E; [|done]. breflect. injection Hstep as Hs. by eapply finish_balances.
  - destruct (_ <? _)%nat; [|done]. unfold worker_take in Hstep. destruct (work_queue_ s); [|done].
    destruct (stopping_ s); [|done]. injection Hstep as <- <-. by apply balances_refl.
  - unfold stop_begin in Hstep. destruct (running_ s); [|done]. injection Hstep as <- <-. by apply balances_refl.
  - destruct (_ && _); [|done]. injection Hstep as <- <-. by apply balances_refl.
  - destruct (_ && _) eqn:E; [|done]. breflect. injection Hstep as <- <-. apply balances_refl; [done|].
    rewrite Hnone by done. unfold open_entries. cbn. specialize (Hnone ltac:(done)). unfold open_entries in Hnone.
    rewrite map_app in Hnone. apply app_eq_nil in Hnone as [Hn _]. by rewrite app_nil_r.
Qed.

(** * Runs *)

(** The requests a run takes off the parsers. *)
Fixpoint taken s (es : list (event (Handler := Handler))) : list entry :=
  match es with
  | [] => []
  | e :: es =>
      match step s e with
      | Some (Ret (s1, _)) => taken_by s e ++ taken s1 es
      | _ => []
      end
  end.

Lemma balances_trans s t1 s1 a1 t2 s2 a2 :
  balances s t1 s1 a1 -> balances s1 t2 s2 a2 -> balances s (t1 ++ t2) s2 (a1 ++ a2).
Proof.
  intros (r1 & H1 & P1) (r2 & H2 & P2). exists (r1 ++ r2). rewrite frames_in_app, map_app, H1, H2. split; [done|].
  rewrite map_app, <- app_assoc, P2, (app_assoc _ t2), (Permutation_app_comm (map fst r1) t2).
  rewrite <- (app_assoc t2), P1, !(app_assoc _ _ (open_entries s)). by rewrite (Permutation_app_comm t2).
Qed.

Lemma run_balances es s s' acts :
  server_inv s -> run s es = Some (s', acts) -> balances s (taken s es) s' acts.
Proof.
  revert s acts. induction es as [|e es IH]; intros s acts Hinv; cbn [run taken].
  { intros [= <- <-]. by apply balances_refl. }
  destruct (step s e) as [[[s1 a1]| |]|] eqn:E; try done.
  destruct (run s1 es) as [[s2 a2]|] eqn:E2; [|done]. intros [= <- <-].
  eapply balances_trans; [by apply step_balances|]. apply IH; [by eapply step_inv|done].
Qed.

Lemma taken_app es1 es2 s s1 a1 : run s es1 = Some (s1, a1) -> taken s (es1 ++ es2) = taken s es1 ++ taken s1 es2.
Proof.
  revert s a1. induction es1 as [|e es IH]; intros s a1; cbn [run taken app]; [by intros [= <- _]|].
  destruct (step s e) as [[[s2 a2]| |]|] eqn:E; try done.
  destruct (run s2 es) as [[s3 a3]|] eqn:E2; [|done]. intros [= <- _]. by rewrite (IH _ _ E2), app_assoc.
Qed.

(** Workers take nothing off a parser. *)
Lemma taken_workers now call es s : Forall (worker_event now call) es -> taken s es = [].
Proof.
  intros H. revert s. induction H as [|e es He _ IH]; intros s; cbn [taken]; [done|].
  destruct (step s e) as [[[s1 a1]| |]|]; try done. by rewrite IH; destruct e.
Qed.

(** C10: every request is answered exactly once.  In every interleaving of the
    I/O thread, the workers and the threads that start and stop the server, the
    frames sent are response frames that carry, with those admitted and not yet
    answered, exactly the connections and identifiers of the requests taken off
    the parsers, each as often as it was taken; and the workers can always
    answer the rest, whatever happened before. *)
Theorem requests_answered_once n es s acts (now : Z) (call : Handler -> RpcRequest -> HandlerResult) :
  run (init n) es = Some (s, acts) ->
  (exists answers, frames_in acts = map frame_sent answers /\
     map fst answers ++ open_entries s ≡ₚ taken (init n) es) /\
  (exists es' s' acts', Forall (worker_event now call) es' /\ run (init n) (es ++ es') = Some (s', acts ++ acts') /\
     exists answers, frames_in (acts ++ acts') = map frame_sent answers /\
       map fst answers ≡ₚ taken (init n) es).
Proof.
  intros Hrun. pose proof (init_inv (Handler := Handler) n) as Hi.
  assert (Hno : open_entries (init n) = []) by done. split.
  - destruct (run_balances es (init n) s acts Hi Hrun) as (answers & Ha & Hp). exists answers.
    split; [done|]. by rewrite Hp, Hno, app_nil_r.
  - assert (Hs : server_inv s) by (eapply reachable_inv, run_reachable, Hrun; constructor).
    destruct (workers_answer_all s now call Hs) as (s' & es' & Hrun' & Hes & Hf & Hq).
    exists es', s'. eexists. split; [done|]. rewrite (run_app _ _ _ _ _ Hrun), Hrun'. split; [done|].
    destruct (run_balances (es ++ es') (init n) s' (acts ++ map (answer (handlers_ s) now call) (in_flight s ++ work_queue_ s)) Hi)
      as (answers & Ha & Hp); [by rewrite (run_app _ _ _ _ _ Hrun), Hrun'|].
    exists answers. split; [done|].
    rewrite Hno, app_nil_r, (taken_app _ _ _ _ _ Hrun), (taken_workers now call es') in Hp by done.
    unfold open_entries in Hp. rewrite Hf, Hq in Hp. cbn [app map] in Hp. by rewrite !app_nil_r in Hp.
Qed.
End ledger.

Definition answered_events : list (event (Handler := unit)) := busy_events ++ [WorkerFinish 0 0 (fun _ _ => ThrowsUnknown)].

(** Two requests were taken; the first is answered, the second waits. *)
Lemma requests_answered_once_witness :
  taken (init 1) answered_events = [(5%nat, 7); (5%nat, 8)] /\
  exists s acts, run (init 1) answered_events = Some (s, acts) /\ length (frames_in acts) = 1%nat /\
  (exists answers, frames_in acts = map frame_sent answers /\
     map fst answers ++ open_entries s ≡ₚ taken (init 1) answered_events) /\
  (exists es' s' acts', Forall (worker_event 0 (fun _ _ => ThrowsUnknown)) es' /\ run (init 1) (answered_events ++ es') = Some (s', acts ++ acts') /\
     exists answers, frames_in (acts ++ acts') = map frame_sent answers /\
       map fst answers ≡ₚ taken (init 1) answered_events).
Proof.
  split; [vm_compute; reflexivity|].
  destruct (run (init 1) answered_events) as [[s acts]|] eqn:E; [|vm_compute in E; discriminate E].
  exists s, acts. split; [reflexivity|]. split; [vm_compute in E; injection E as <- <-; reflexivity|].
  exact (requests_answered_once 1 answered_events s acts 0 (fun _ _ => ThrowsUnknown) E).
Defined.
