(* ===== verification/RpcTcp.v ===== *)
(** The RPC server on its connections: what [start] of src/rpc/rpc_server.cpp
    installs as callbacks of the TCP server, over [TcpConnection]s, octet by
    octet.  The I/O thread reads, parses and writes; the workers' answers are
    queued for it by [TcpConnection::send]. *)
From Stdlib Require Import ZArith Lia.
From Stdlib Require Import Strings.Byte.
From stdpp Require Import base list strings gmap.
From S2P Require Import Prelude NetBuffer EventLoop TcpConnection RpcMessage RpcServer.

Module RpcTcp.

(** The close callback of a connection queues its removal in the TCP server's
    loop, and leaves the connection as it is. *)
Definition close_callback : option (TcpConnection.t -> TcpConnection.result) := Some TcpConnection.return_.

(** What the server does to a connection, on the loop's thread or another. *)
Definition act (in_loop : bool) (a : RpcServer.action) : TcpConnection.t -> TcpConnection.result :=
  match a with
  | RpcServer.Send _ frame => TcpConnection.send None close_callback None in_loop frame
  | RpcServer.Shutdown _ => TcpConnection.shutdown close_callback in_loop
  | RpcServer.ForceClose _ => TcpConnection.forceClose close_callback in_loop
  end.

Definition target (a : RpcServer.action) : nat :=
  match a with
  | RpcServer.Send conn _ | RpcServer.Shutdown conn | RpcServer.ForceClose conn => conn
  end.

Section tcp.
Context {Handler : Type}.
#[local] Abbreviation rpc_server := (@RpcServer.Server Handler).

(** * State *)

(** The connections are shared objects, which a request that waits keeps alive;
    [reading] is the I/O thread in [handleRead], with what it will read. *)
Record t := mk {
  rpc : rpc_server;
  conns : gmap nat TcpConnection.t;
  reading : option (nat * list bytes * TcpConnection.read_end);
}.

Definition init (worker_thread_count : nat) : t := mk (RpcServer.init worker_thread_count) ∅ None.

Definition set_conn (conn : nat) (c : TcpConnection.t) (s : t) : t := mk (rpc s) (<[conn := c]> (conns s)) (reading s).
Definition set_rpc (r : rpc_server) (s : t) : t := mk r (conns s) (reading s).
Definition set_reading r (s : t) : t := mk (rpc s) (conns s) r.

(** A step of a thread returns, or leaves with an exception. *)
Abbreviation result := (outcome (option Buffer.exn * t)).

Definition return_ (s : t) : result := Ret (None, s).

Definition then_ (r : result) (k : t -> result) : result :=
  let* '(thrown, s) := r in
  match thrown with
  | Some e => Ret (Some e, s)
  | None => k s
  end.

(** A member function called on a connection. *)
Definition on (conn : nat) (f : TcpConnection.t -> TcpConnection.result) (s : t) : result :=
  match conns s !! conn with
  | None => OutOfBounds
  | Some c => let* '(thrown, c) := f c in Ret (thrown, set_conn conn c s)
  end.

Fixpoint perform (in_loop : bool) (acts : list RpcServer.action) (s : t) : result :=
  match acts with
  | [] => return_ s
  | a :: acts => then_ (on (target a) (act in_loop a) s) (perform in_loop acts)
  end.

(** A step of the RPC server with what it does to connections, and the actions
    as a label. *)
Definition rpc_step (in_loop : bool) (e : @RpcServer.event Handler) (s : t) :
    option (result * list RpcServer.action) :=
  match RpcServer.step (rpc s) e with
  | None => None
  | Some (Ret (r, acts)) => Some (perform in_loop acts (set_rpc r s), acts)
  | Some OutOfBounds => Some (OutOfBounds, [])
  | Some OutOfFuel => Some (OutOfFuel, [])
  end.

(** * The I/O thread *)

(** It waits for events or calls functors. *)
Definition idle (s : t) : bool :=
  RpcServer.io_loop (rpc s) && bool_decide (RpcServer.io_frames (rpc s) = None) && bool_decide (reading s = None).

(** A new connection: [connectEstablished] with the server's callback. *)
Definition connect (conn : nat) (c : TcpConnection.t) (s : t) : option (result * list RpcServer.action) :=
  match conns s !! conn with
  | Some _ => None
  | None =>
      match TcpConnection.connectEstablished (Some TcpConnection.return_) c with
      | Ret (None, c) => rpc_step true (RpcServer.OnConnection conn) (set_conn conn c s)
      | Ret (Some e, c) => Some (Ret (Some e, set_conn conn c s), [])
      | OutOfBounds => Some (OutOfBounds, [])
      | OutOfFuel => Some (OutOfFuel, [])
      end
  end.

(** [onMessage] up to its loop, on the connection's input buffer. *)
Definition message (conn : nat) (c : TcpConnection.t) (s : t) : result * list RpcServer.action :=
  match RpcServer.onMessage_feed (rpc s) conn (TcpConnection.input_buffer_ c) with
  | Ret (r, buffer, acts, next) =>
      (perform true acts
         (set_conn conn (TcpConnection.set_input buffer c)
            (set_rpc (RpcServer.set_io_frames (option_map (fun id => (conn, id)) next) r) s)), acts)
  | OutOfBounds => (OutOfBounds, [])
  | OutOfFuel => (OutOfFuel, [])
  end.

(** The next iteration of [handleRead]'s loop, once the message callback of the
    last has returned. *)
Definition read_next (s : t) : option (result * list RpcServer.action) :=
  match reading s with
  | Some (conn, chunks, last) =>
      match conns s !! conn with
      | None => None
      | Some c =>
          if bool_decide (RpcServer.io_frames (rpc s) = None) then
            let close := (on conn (TcpConnection.handleClose close_callback) (set_reading None s), []) in
            Some
              match chunks with
              | [] =>
                  match last with
                  | TcpConnection.EndOfFile => close
                  | TcpConnection.ReadFails errno =>
                      if errno =? TcpConnection.EAGAIN then (return_ (set_reading None s), []) else close
                  end
              | chunk :: chunks =>
                  match Buffer.readFd (TcpConnection.input_buffer_ c) (Buffer.ReadvOctets chunk) with
                  | Ret (n, _, thrown, b) =>
                      let c := TcpConnection.set_input b c in
                      match thrown with
                      | Some e => (Ret (Some e, set_conn conn c s), [])
                      | None =>
                          if 0 <? n then
                            message conn (TcpConnection.logged TcpConnection.MessageCb c)
                              (set_reading (Some (conn, chunks, last)) s)
                          else
                            (on conn (TcpConnection.handleClose close_callback)
                               (set_reading None (set_conn conn c s)), [])
                      end
                  | OutOfBounds => (OutOfBounds, [])
                  | OutOfFuel => (OutOfFuel, [])
                  end
              end
          else None
      end
  | None => None
  end.

(** * The threads together *)

(** When a socket hangs up or fails, [Channel::handleEvent] calls the close or the
    error callback; after the latter it calls the read callback, if there is
    something to read. *)
Inductive event :=
  | Rpc (e : @RpcServer.event Handler)
  | Connect (conn : nat) (fd : Z) (buffer : Buffer.t) (kernel_write : nat -> TcpConnection.write_result)
      (kernel_shutdown : option Z)
  | Readable (conn : nat) (chunks : list bytes) (last : TcpConnection.read_end)
  | ReadNext
  | NextFrame
  | Writable (conn : nat)
  | Failing (conn : nat) (input : option (list bytes * TcpConnection.read_end))
  | CallFunctor (conn : nat)
  | Destroy (conn : nat).

(** The steps of the threads other than the I/O thread. *)
Definition other_thread (e : @RpcServer.event Handler) : bool :=
  match e with
  | RpcServer.OnConnection _ | RpcServer.OnMessage _ _ | RpcServer.NextFrame | RpcServer.IoExit => false
  | _ => true
  end.

(** Whether the TCP server removes the connection: it has closed, or the server
    stops; once, after which its end was announced. *)
Definition removes (s : t) (c : TcpConnection.t) : bool :=
  negb (bool_decide (TcpConnection.ConnectionCb TcpConnection.kDisconnected ∈ TcpConnection.log c)) &&
  (bool_decide (TcpConnection.CloseCb ∈ TcpConnection.log c) || negb (RpcServer.running_ (rpc s))).

Definition tcp_event (conn : nat) (f : TcpConnection.t -> TcpConnection.result) (s : t) :
    option (result * list RpcServer.action) :=
  match conns s !! conn with
  | Some c => if idle s then Some (on conn f s, []) else None
  | None => None
  end.

Definition step (s : t) (e : event) : option (result * list RpcServer.action) :=
  match e with
  | Rpc RpcServer.IoExit => if idle s then rpc_step true RpcServer.IoExit s else None
  | Rpc e => if other_thread e then rpc_step false e s else None
  | Connect conn fd buffer kernel_write kernel_shutdown =>
      if idle s then connect conn (TcpConnection.construct fd buffer 0 kernel_write kernel_shutdown) s else None
  | Readable conn chunks last =>
      match conns s !! conn with
      | Some c =>
          if idle s && negb (TcpConnection.is_state TcpConnection.kDisconnected c)
          then Some (return_ (set_reading (Some (conn, chunks, last)) s), []) else None
      | None => None
      end
  | ReadNext => read_next s
  | NextFrame => rpc_step true RpcServer.NextFrame s
  | Writable conn => tcp_event conn (TcpConnection.handleWrite None close_callback) s
  | Failing conn input =>
      match tcp_event conn (TcpConnection.handleError close_callback) s with
      | Some (r, acts) =>
          Some (then_ r (fun s => return_ (set_reading ((fun '(chunks, last) => (conn, chunks, last)) <$> input) s)), acts)
      | None => None
      end
  | CallFunctor conn => tcp_event conn (TcpConnection.run_functor None close_callback None) s
  | Destroy conn =>
      match conns s !! conn with
      | Some c =>
          if idle s && removes s c then
            match TcpConnection.connectDestroyed (Some TcpConnection.return_) c with
            | Ret (None, c) => rpc_step true (RpcServer.OnConnection conn) (set_conn conn c s)
            | Ret (Some e, c) => Some (Ret (Some e, set_conn conn c s), [])
            | OutOfBounds => Some (OutOfBounds, [])
            | OutOfFuel => Some (OutOfFuel, [])
            end
          else None
      | None => None
      end
  end.

(** A run in which nothing throws, with the actions of the server. *)
Fixpoint run (s : t) (es : list event) : option (t * list RpcServer.action) :=
  match es with
  | [] => Some (s, [])
  | e :: es =>
      match step s e with
      | Some (Ret (None, s), a1) =>
          match run s es with
          | Some (s, a2) => Some (s, a1 ++ a2)
          | None => None
          end
      | _ => None
      end
  end.

End tcp.
End RpcTcp.
