(* ===== verification/RpcTcpFacts.v ===== *)
(** Theorems about the RPC server on its connections: each response is whole on
    its own connection, in every interleaving, and reaches it. *)
From Stdlib Require Import ZArith Lia.
From Stdlib Require Import Strings.Byte.
From stdpp Require Import base list strings gmap.
From S2P Require Import Prelude StdMap FrameHeader FrameCodec NetBuffer EventLoop TcpConnection TcpConnectionFacts RpcMessage RpcServer RpcServerFacts RpcIoFacts RpcLedger RpcTcp.
#[local] Set Warnings "-clear-no-such-hyp".

(** * One connection *)

Section connection.
Import TcpConnection.
Abbreviation close_callback := RpcTcp.close_callback.

(** The messages queued for the loop. *)
Definition is_send (f : functor) : Prop := match f with SendInLoop _ => True | _ => False end.

Definition pending_sends (c : t) : list bytes :=
  omap (fun f => match f with SendInLoop m => Some m | _ => None end) (pending c).

(** What a call of a member function does with the messages [msgs] it is given:
    each is taken over as a whole, queued or dropped, and dropped only when the
    connection is not up. *)
Record moves (msgs : list bytes) (c c' : t) : Prop := mkMoves {
  mv_accepted : exists now lost,
    accepted c' = accepted c ++ concat now /\
    now ++ pending_sends c' ++ lost ≡ₚ pending_sends c ++ msgs /\ (state_ c' = kConnected -> lost = []);
  mv_state : state_ c' = kConnected -> state_ c = kConnected;
  mv_established : state_ c <> kConnecting -> state_ c' <> kConnecting;
  mv_kernel : kernel_write c' = kernel_write c;
  mv_sends : Forall is_send (pending c) -> Forall is_send (pending c');
}.

(** A call that moves the messages, if it returns. *)
Definition moving (msgs : list bytes) (c : t) (r : result) : Prop :=
  match r with Ret (None, c') => moves msgs c c' | _ => True end.

Definition movings (f : t -> result) : Prop := forall c, moving [] c (f c).

Lemma moves_same c c' :
  accepted c' = accepted c -> pending c' = pending c -> kernel_write c' = kernel_write c ->
  (state_ c' = state_ c \/ state_ c' = kDisconnected \/ state_ c' = kDisconnecting) -> moves [] c c'.
Proof.
  intros Ha Hp Hk Hs. constructor; [|by intros E; destruct Hs as [<-|[?|?]]; congruence|
    by intros E; destruct Hs as [->|[->| ->]]|done|by rewrite Hp].
  exists [], []. unfold pending_sends. rewrite Ha, Hp, !app_nil_r. by split_and!.
Qed.

Lemma moves_trans m1 m2 c c1 c2 : moves m1 c c1 -> moves m2 c1 c2 -> moves (m1 ++ m2) c c2.
Proof.
  intros [(n1 & l1 & A1 & P1 & L1) S1 E1 K1 F1] [(n2 & l2 & A2 & P2 & L2) S2 E2 K2 F2].
  constructor; [|auto|auto|congruence|auto]. exists (n1 ++ n2), (l1 ++ l2). split_and!.
  - by rewrite A2, A1, concat_app, app_assoc.
  - rewrite (app_assoc (pending_sends c)), <- P1.
    transitivity (n1 ++ (n2 ++ pending_sends c2 ++ l2) ++ l1); [by solve_Permutation|]. rewrite P2. by solve_Permutation.
  - intros E. rewrite L1, L2 by auto. done.
Qed.

Lemma moving_return c c' msgs : moves msgs c c' -> moving msgs c (return_ c').
Proof. done. Qed.

Lemma moving_then msgs c r k : moving msgs c r -> movings k -> moving msgs c (then_ r k).
Proof.
  destruct r as [[[e|] c1]| |]; cbn; try done. intros H Hk. specialize (Hk c1). unfold moving in *.
  destruct (k c1) as [[[e|] c2]| |]; try done. rewrite <- (app_nil_r msgs). by eapply moves_trans.
Qed.

Lemma moving_from msgs c c1 r : moves msgs c c1 -> moving [] c1 r -> moving msgs c r.
Proof.
  unfold moving. destruct r as [[[e|] c2]| |]; try done. intros H H2. rewrite <- (app_nil_r msgs).
  by eapply moves_trans.
Qed.

(** ** The member functions *)

Lemma handleClose_moving : movings (handleClose close_callback).
Proof.
  intros c. unfold handleClose. case_if; [by apply moving_return, moves_same; auto|].
  cbn. apply moves_same; auto.
Qed.

Lemma shutdownInLoop_moving : movings (shutdownInLoop close_callback).
Proof.
  intros c. unfold shutdownInLoop. case_if; [by apply moves_same; auto|].
  destruct (kernel_shutdown c); [|by apply moves_same; auto].
  case_if; [apply handleClose_moving|by apply moves_same; auto].
Qed.

Lemma forceCloseInLoop_moving : movings (forceCloseInLoop close_callback).
Proof. intros c. unfold forceCloseInLoop. case_if; [by apply moves_same; auto|apply handleClose_moving]. Qed.

Lemma drain_moves fuel c b c' : drain fuel c = Ret (b, c') -> moves [] c c'.
Proof.
  revert c. induction fuel as [|f IH]; intros c; cbn [drain]; case_if; try done; try (intros [= <- <-]; apply moves_same; auto; fail).
  destruct (write_spec (Buffer.readable (output_buffer_ c)) c) as (r & -> & _). destruct r as [n|errno].
  - intros H. apply IH in H. rewrite <- (app_nil_r []). eapply moves_trans; [|exact H]. apply moves_same; auto.
  - destruct (errno =? EAGAIN); intros [= <- <-]; apply moves_same; auto.
Qed.

Lemma handleWrite_moving : movings (handleWrite None close_callback).
Proof.
  intros c. unfold handleWrite. case_if; [by apply moves_same; auto|].
  destruct (drain _ c) as [[b c1]| |] eqn:Ed; [|done..]. apply drain_moves in Ed. cbn [mbind outcome_bind].
  apply (moving_from [] c c1); [done|]. case_if; [apply handleClose_moving|].
  case_if; [|by apply moves_same; auto]. cbn [fire then_ mbind outcome_bind return_].
  set (c2 := change Channel.DisableWriting c1). apply (moving_from [] c1 c2); [apply moves_same; auto|].
  case_if; [apply shutdownInLoop_moving|by apply moves_same; auto].
Qed.

(** [sendInLoop] takes the message over when the connection is up. *)
Lemma moves_accepted data c : state_ c = kConnected -> moves [data] c (set_accepted (accepted c ++ data) c).
Proof.
  intros Hs. constructor; [|done..]. exists [data], []. cbn. rewrite app_nil_r. split_and!; [done| |done].
  change (pending_sends (set_accepted (accepted c ++ data) c)) with (pending_sends c).
  rewrite app_nil_r. solve_Permutation.
Qed.

Lemma moves_dropped data c : state_ c <> kConnected -> moves [data] c c.
Proof.
  intros Hs. constructor; [|done..]. exists [], [data]. cbn. rewrite app_nil_r. by split_and!.
Qed.

Lemma buffer_rest_moving data n rb : movings (buffer_rest None data n rb).
Proof.
  intros c. unfold buffer_rest. case_if; [|by apply moves_same; auto].
  apply moving_then; [by case_if; apply moves_same; auto|].
  intros c2. destruct (Buffer.append _ _) as [[[e|] b]| |]; try done. cbn. destruct (negb _); apply moves_same; auto.
Qed.

Lemma sendInLoop_moving data c : moving [data] c (sendInLoop None close_callback None data c).
Proof.
  unfold sendInLoop. destruct (is_state kConnected c) eqn:Es; cbn [negb].
  2:{ apply moving_return, moves_dropped. by apply bool_decide_eq_false in Es. }
  apply is_state_true in Es. set (c0 := set_accepted _ c).
  assert (H0 : moves [data] c c0) by (by apply moves_accepted). clearbody c0.
  set (rb := Buffer.readableBytes _).
  assert (Hrest : forall n c1, moves [] c0 c1 -> moving [data] c
    (then_ (buffer_rest None data n rb c1)
     (fun c => if (0 <? n)%nat && (lenZ data - Z.of_nat n =? 0) && (rb =? 0) then fire None WriteCompleteCb c else return_ c))).
  { intros n c1 Hc1. apply (moving_from [data] c c1); [rewrite <- (app_nil_r [data]); by eapply moves_trans|].
    apply moving_then; [apply buffer_rest_moving|]. intros c2. by case_if; apply moves_same; auto. }
  case_if.
  - destruct (write_spec data c0) as (r & -> & _). set (c1 := set_wire _ _ c0).
    assert (Hw : moves [] c0 c1) by (apply moves_same; auto). destruct r as [n|errno].
    + by apply Hrest.
    + destruct (errno =? EAGAIN); [by apply (Hrest 0%nat)|].
      apply (moving_from [data] c c1); [|apply handleClose_moving].
      rewrite <- (app_nil_r [data]). by eapply moves_trans.
  - apply (Hrest 0%nat). apply moves_same; auto.
Qed.

(** What the server does to the connection. *)
Definition message_of (a : RpcServer.action) : list bytes :=
  match a with RpcServer.Send _ frame => [frame] | _ => [] end.

Lemma moves_queued data c : moves [data] c (set_pending (pending c ++ [SendInLoop data]) c).
Proof.
  constructor; [|done..|].
  - exists [], []. cbn. rewrite !app_nil_r. split_and!; [done| |done]. unfold pending_sends. cbn. by rewrite omap_app.
  - intros H. cbn. apply Forall_app. split; [done|]. by constructor.
Qed.

(** Other threads only send. *)
Definition sends_only (in_loop : bool) (a : RpcServer.action) : Prop :=
  match a with RpcServer.Send _ _ => True | _ => in_loop = true end.

Lemma act_moving in_loop a c : sends_only in_loop a -> moving (message_of a) c (RpcTcp.act in_loop a c).
Proof.
  intros Ha. destruct a as [conn frame|conn|conn]; cbn [RpcTcp.act message_of].
  - unfold send. destruct (is_state kConnected c) eqn:Es; cbn [negb];
      [|apply moving_return, moves_dropped; by apply bool_decide_eq_false in Es].
    unfold runInLoop. destruct in_loop; [apply sendInLoop_moving|apply moves_queued].
  - unfold shutdown. case_if; [by apply moves_same; auto|].
    set (c1 := set_state kDisconnecting c). apply (moving_from [] c c1); [apply moves_same; auto|].
    cbn in Ha. subst in_loop. apply shutdownInLoop_moving.
  - cbn in Ha. subst in_loop. apply forceCloseInLoop_moving.
Qed.

Lemma run_functor_moving : movings (run_functor None close_callback None).
Proof.
  intros c. unfold run_functor. destruct (pending c) as [|f rest] eqn:E; [by apply moves_same; auto|].
  assert (Hpop : forall msgs r, (f = SendInLoop (concat msgs) /\ length msgs = 1%nat \/ ~ is_send f /\ msgs = []) ->
    moving msgs (set_pending rest c) r -> moving [] c r).
  { intros msgs r Hf. unfold moving. destruct r as [[[e|] c2]| |]; try done.
    intros [(now & lost & A & P & L) S K Kw F]. constructor; try done.
    - exists now, lost. split_and!; [done| |done]. rewrite P. unfold pending_sends. cbn. rewrite E.
      destruct Hf as [[-> Hm]|[Hf ->]]; cbn.
      + destruct msgs as [|m [|]]; try done. cbn. rewrite app_nil_r. solve_Permutation.
      + by destruct f; [destruct Hf|..].
    - rewrite E. intros H. apply F. by inversion H. }
  destruct f as [m| |].
  - apply (Hpop [m]); [left; cbn; by rewrite app_nil_r|apply sendInLoop_moving].
  - apply (Hpop []); [right; by split; [intros []|]|apply shutdownInLoop_moving].
  - apply (Hpop []); [right; by split; [intros []|]|apply forceCloseInLoop_moving].
Qed.

End connection.

(** * The server and its connections *)

Section facts.
Context {Handler : Type}.
Implicit Types s : RpcTcp.t (Handler := Handler).
Implicit Types r : RpcServer.Server (Handler := Handler).
Import RpcTcp.

(** The frames sent to a connection. *)
Definition frames_to (conn : nat) (acts : list RpcServer.action) : list bytes :=
  omap (fun p => if decide (p.1 = conn) then Some p.2 else None) (frames_in acts).

Lemma frames_to_app conn a b : frames_to conn (a ++ b) = frames_to conn a ++ frames_to conn b.
Proof. unfold frames_to. by rewrite frames_in_app, omap_app. Qed.

Lemma frames_to_one conn a : frames_to conn [a] = if decide (target a = conn) then message_of a else [].
Proof. destruct a; cbn; by case_decide. Qed.

(** What holds of a connection to which [frames] were sent. *)
Record conn_ok (frames : list bytes) (c : TcpConnection.t) : Prop := mkConnOk {
  ok_wf : wf c;
  ok_split : exists now lost, TcpConnection.accepted c = concat now /\
    now ++ pending_sends c ++ lost ≡ₚ frames /\ (TcpConnection.state_ c = TcpConnection.kConnected -> lost = []);
  ok_established : TcpConnection.state_ c <> TcpConnection.kConnecting;
  ok_sends : Forall is_send (TcpConnection.pending c);
}.

Lemma conn_ok_moves frames msgs c c' : conn_ok frames c -> moves msgs c c' -> wf c' -> conn_ok (frames ++ msgs) c'.
Proof.
  intros [Hwf (n1 & l1 & A1 & P1 & L1) He Hq] [(n2 & l2 & A2 & P2 & L2) Hs He2 _ Hq2] Hwf'. constructor; [done| |auto|auto].
  exists (n1 ++ n2), (l1 ++ l2). split_and!.
  - by rewrite A2, A1, concat_app.
  - transitivity (n1 ++ (n2 ++ pending_sends c' ++ l2) ++ l1); [by solve_Permutation|].
    rewrite P2, <- P1. by solve_Permutation.
  - intros E. rewrite L1, L2 by auto. done.
Qed.

Record tcp_inv (s : t (Handler := Handler)) (acts : list RpcServer.action) : Prop := mkTcpInv {
  ti_rpc : RpcServerFacts.server_inv (rpc s);
  ti_conns : forall conn c, conns s !! conn = Some c -> conn_ok (frames_to conn acts) c;
  ti_fresh : forall conn, conns s !! conn = None -> frames_to conn acts = [];
  ti_reading : forall rd, reading s = Some rd -> RpcServer.io_loop (rpc s) = true /\ Forall chunk_ok rd.1.2;
}.

(** ** Calls on a connection *)

Lemma callbacks_ok cc :
  cc = None \/ cc = Some TcpConnection.return_ -> callbacks_keep cc None None close_callback None.
Proof.
  intros Hcc. assert (Hr : keeps TcpConnection.return_) by (intros c Hc; by apply good_return).
  split_and!; try done; [intros f Hf; by destruct Hcc as [->| ->]; [|injection Hf as <-]|].
  by intros f [= <-].
Qed.

Lemma act_keeps in_loop a : keeps (act in_loop a).
Proof.
  pose proof (callbacks_ok None (or_introl eq_refl)) as Hcb. destruct a as [conn frame|conn|conn].
  - apply (run_op_keeps _ _ _ _ _ Hcb (TcpConnection.Send in_loop frame) I).
  - apply (run_op_keeps _ _ _ _ _ Hcb (TcpConnection.Shutdown in_loop) I).
  - apply (run_op_keeps _ _ _ _ _ Hcb (TcpConnection.ForceClose in_loop) I).
Qed.

(** The other parts of the state stay. *)
Definition same_rest s s' : Prop := rpc s' = rpc s /\ reading s' = reading s.

Lemma on_inv conn f msgs s s' acts acts' :
  tcp_inv s acts -> keeps f -> (forall c, moving msgs c (f c)) ->
  (forall conn', frames_to conn' acts' = if decide (conn' = conn) then msgs else []) ->
  on conn f s = Ret (None, s') -> tcp_inv s' (acts ++ acts') /\ same_rest s s'.
Proof.
  intros [Hr Hc Hf Hrd] Hk Hm Hfr. unfold on. destruct (conns s !! conn) as [c|] eqn:E; [|done].
  destruct (Hk c (ok_wf _ _ (Hc _ _ E))) as (thrown & c' & Hret & Hwf). specialize (Hm c). rewrite Hret in *.
  cbn [mbind outcome_bind]. intros [= -> <-]. specialize (Hwf eq_refl). cbn in Hm. split; [|done].
  constructor; [done| | |done]; cbn [conns set_conn]; intros conn'.
  - intros c1. rewrite frames_to_app, Hfr. case_decide as Hd.
    + subst conn'. rewrite lookup_insert_eq. intros [= <-]. by eapply conn_ok_moves; [apply Hc| |].
    + rewrite lookup_insert_ne by done. rewrite app_nil_r. apply Hc.
  - rewrite frames_to_app, Hfr. case_decide as Hd; [by subst; rewrite lookup_insert_eq|].
    rewrite lookup_insert_ne by done. rewrite app_nil_r. apply Hf.
Qed.

Lemma perform_inv in_loop todo s s' acts :
  Forall (sends_only in_loop) todo ->
  tcp_inv s acts -> perform in_loop todo s = Ret (None, s') -> tcp_inv s' (acts ++ todo) /\ same_rest s s'.
Proof.
  intros Ha. revert s acts. induction Ha as [|a todo Ha _ IH]; intros s acts Hi; cbn [perform].
  { intros [= <-]. by rewrite app_nil_r. }
  unfold then_. destruct (on _ _ s) as [[[e|] s1]| |] eqn:E; try done. cbn [mbind outcome_bind]. intros Hp.
  destruct (on_inv (target a) (act in_loop a) (message_of a) s s1 acts [a] Hi) as [Hi1 [Hr1 Hd1]]; [apply act_keeps|
    by intros; apply act_moving| |done|].
  { intros conn'. rewrite frames_to_one. repeat case_decide; congruence. }
  destruct (IH s1 (acts ++ [a]) Hi1 Hp) as [Hi2 [Hr2 Hd2]]. rewrite <- app_assoc in Hi2.
  split; [done|]. split; congruence.
Qed.

(** ** Steps *)

Lemma set_rpc_inv r s acts :
  tcp_inv s acts -> RpcServerFacts.server_inv r ->
  (RpcServer.io_loop (rpc s) = true -> RpcServer.io_loop r = true \/ reading s = None) -> tcp_inv (set_rpc r s) acts.
Proof.
  intros [Hr Hc Hf Hrd] Hr' Hio. constructor; [done|done|done|]. intros x Hx. cbn in *.
  destruct (Hrd x Hx) as [H1 H2]. split; [|done]. destruct (Hio H1) as [?|H]; [done|congruence].
Qed.

Lemma set_reading_inv rd s acts :
  tcp_inv s acts -> (forall x, rd = Some x -> RpcServer.io_loop (rpc s) = true /\ Forall chunk_ok x.1.2) ->
  tcp_inv (set_reading rd s) acts.
Proof. intros [Hr Hc Hf Hrd] Hx. by constructor. Qed.

Lemma set_conn_inv conn c s acts :
  tcp_inv s acts -> conn_ok (frames_to conn acts) c -> tcp_inv (set_conn conn c s) acts.
Proof.
  intros [Hr Hc Hf Hrd] Hok. constructor; try done; cbn; intros conn'.
  - intros c'. destruct (decide (conn' = conn)) as [->|]; [|rewrite lookup_insert_ne by done; apply Hc].
    rewrite lookup_insert_eq. by intros [= <-].
  - destruct (decide (conn' = conn)) as [->|]; [by rewrite lookup_insert_eq|]. rewrite lookup_insert_ne by done. apply Hf.
Qed.

Lemma sends_in_loop a : sends_only true a.
Proof. by destruct a. Qed.

Lemma Forall_in_loop acts : Forall (sends_only true) acts.
Proof. apply Forall_forall. intros a _. apply sends_in_loop. Qed.

(** What the other threads do to connections is to send. *)
Lemma other_thread_sends in_loop e r r' a :
  in_loop = true \/ other_thread e = true -> RpcServer.step r e = Some (Ret (r', a)) -> Forall (sends_only in_loop) a.
Proof.
  intros [->|He]; [intros; apply Forall_in_loop|].
  destruct e; try done; cbn [RpcServer.step]; try (intros [= _ <-]; constructor).
  - case_if; [done|]. intros [= _ <-]. constructor.
  - case_if; [|done]. unfold RpcServer.worker_take. destruct (RpcServer.work_queue_ r); [by destruct (RpcServer.stopping_ r)|].
    intros [= _ <-]. constructor.
  - case_if; [|done]. unfold RpcServer.worker_finish. destruct (_ !! _); [|done].
    destruct (RpcServer.fetch_sub _ _); [|done..]. cbn [mbind outcome_bind]. intros [= _ <-]. by repeat constructor.
  - case_if; [|done]. unfold RpcServer.worker_take. destruct (RpcServer.work_queue_ r); [|done].
    destruct (RpcServer.stopping_ r); [|done]. intros [= _ <-]. constructor.
  - unfold RpcServer.stop_begin. destruct (RpcServer.running_ r); [|done]. intros [= _ <-]. constructor.
  - case_if; [|done]. intros [= _ <-]. constructor.
Qed.

(** A step of the server with its actions is a step of the server. *)
Lemma rpc_step_inv in_loop e s s' acts acts' :
  tcp_inv s acts -> rpc_step in_loop e s = Some (Ret (None, s'), acts') -> in_loop = true \/ other_thread e = true ->
  (forall r a, RpcServer.step (rpc s) e = Some (Ret (r, a)) ->
     RpcServer.io_loop (rpc s) = true -> RpcServer.io_loop r = true \/ reading s = None) ->
  tcp_inv s' (acts ++ acts') /\ RpcServer.step (rpc s) e = Some (Ret (rpc s', acts')) /\ reading s' = reading s.
Proof.
  intros Hi. unfold rpc_step. destruct (RpcServer.step (rpc s) e) as [[[r a]| |]|] eqn:E; try done.
  intros [= Hp <-] Hth Hio. pose proof (RpcServerFacts.step_inv _ _ _ _ (ti_rpc _ _ Hi) E) as Hr.
  pose proof (other_thread_sends _ _ _ _ _ Hth E) as Hsends.
  assert (Hi1 : tcp_inv (set_rpc r s) acts) by (apply set_rpc_inv; [done|done|by eapply Hio]).
  destruct (perform_inv _ _ _ _ _ Hsends Hi1 Hp) as [Hi2 [H1 H2]]. split; [done|]. by rewrite H1, H2.
Qed.

(** The other threads leave the loop's life to the I/O thread. *)
Lemma other_thread_io r e r' a :
  other_thread e = true -> RpcServer.step r e = Some (Ret (r', a)) ->
  RpcServer.io_loop r = true -> RpcServer.io_loop r' = true.
Proof.
  intros He Hs Hio. pose proof (step_life (Handler := Handler) r e r' a Hs) as Hl. unfold life in Hl.
  destruct e; try done; try (injection Hl; congruence).
  - cbn in Hs. by rewrite Hio in Hs.
  - cbn in Hs. unfold RpcServer.stop_begin in Hs. destruct (RpcServer.running_ r); [|done]. by injection Hs as <- _.
Qed.

Lemma io_kept r e r' a :
  match e with RpcServer.Start _ _ | RpcServer.StopBegin | RpcServer.IoExit => False | _ => True end ->
  RpcServer.step r e = Some (Ret (r', a)) -> RpcServer.io_loop r = true -> RpcServer.io_loop r' = true.
Proof.
  intros He Hs Hio. pose proof (step_life (Handler := Handler) r e r' a Hs) as Hl. unfold life in Hl.
  destruct e; try done; injection Hl; congruence.
Qed.

Lemma idle_spec s : idle s = true -> RpcServer.io_loop (rpc s) = true /\ RpcServer.io_frames (rpc s) = None /\ reading s = None.
Proof. unfold idle. intros H. breflect. by rewrite !bool_decide_eq_true in *. Qed.

(** What the events are, that the kernel and the TCP server produce. *)
Definition event_ok (e : event (Handler := Handler)) : Prop :=
  match e with
  | Connect _ _ buffer _ _ => Buffer.buffer_wf buffer /\ Buffer.readable buffer = []
  | Readable _ chunks _ | Failing _ (Some (chunks, _)) => Forall chunk_ok chunks
  | _ => True
  end.

(** The step of the RPC server that a step is, if it is one. *)
Definition rpc_event s (e : event (Handler := Handler)) : list RpcServer.event :=
  match e with
  | Rpc e => [e]
  | Connect conn _ _ _ _ | Destroy conn => [RpcServer.OnConnection conn]
  | NextFrame => [RpcServer.NextFrame]
  | ReadNext =>
      match reading s with
      | Some (conn, chunk :: _, _) =>
          match conns s !! conn with
          | Some c =>
              match Buffer.readFd (TcpConnection.input_buffer_ c) (Buffer.ReadvOctets chunk) with
              | Ret (_, _, None, b) => [RpcServer.OnMessage conn b]
              | _ => []
              end
          | None => []
          end
      | _ => []
      end
  | _ => []
  end.

(** A step keeps the invariant and refines the server's steps. *)
Definition step_good s s' (acts acts' : list RpcServer.action) (es : list RpcServer.event) : Prop :=
  tcp_inv s' (acts ++ acts') /\ RpcServerFacts.run (rpc s) es = Some (rpc s', acts').

Lemma step_good_one s s' acts acts' e :
  tcp_inv s' (acts ++ acts') -> RpcServer.step (rpc s) e = Some (Ret (rpc s', acts')) ->
  step_good s s' acts acts' [e].
Proof. intros Hi Hs. split; [done|]. cbn [RpcServerFacts.run]. rewrite Hs. by rewrite app_nil_r. Qed.

Lemma step_good_none s s' acts :
  tcp_inv s' acts -> rpc s' = rpc s -> step_good s s' acts [] [].
Proof. intros Hi Hs. split; [by rewrite app_nil_r|]. by rewrite Hs. Qed.

Lemma on_good conn f s s' acts :
  tcp_inv s acts -> keeps f -> movings f -> on conn f s = Ret (None, s') -> step_good s s' acts [] [].
Proof.
  intros Hi Hk Hm Ho. destruct (on_inv conn f [] s s' acts [] Hi Hk Hm) as [Hi' [Hr _]]; [intros; by case_decide|done|].
  rewrite app_nil_r in Hi'. by apply step_good_none.
Qed.

(** ** Opening and removing a connection *)

Lemma tcp_established_ok fd buffer kw ks :
  Buffer.buffer_wf buffer -> Buffer.readable buffer = [] ->
  exists c, TcpConnection.connectEstablished (Some TcpConnection.return_) (TcpConnection.construct fd buffer 0 kw ks) =
    Ret (None, c) /\ conn_ok [] c /\ TcpConnection.state_ c = TcpConnection.kConnected /\ out c = [] /\
    TcpConnection.pending c = [] /\ TcpConnection.wire c = [] /\ TcpConnection.accepted c = [] /\
    TcpConnection.kernel_write c = kw /\ TcpConnection.input_buffer_ c = buffer.
Proof.
  intros Hb Hr.
  destruct (connectEstablished_keeps _ _ _ _ _ (callbacks_ok _ (or_intror eq_refl)) _ (construct_wf fd buffer 0 kw ks Hb Hr) eq_refl)
    as (thrown & c & He & Hwf).
  unfold TcpConnection.connectEstablished, TcpConnection.fire in He |- *.
  injection He as <- <-. eexists. split; [done|]. split; [|by split_and!].
  constructor; [by apply Hwf| |done|constructor]. by exists [], [].
Qed.

Lemma connect_good conn c s s' acts acts' :
  tcp_inv s acts -> idle s = true ->
  (exists c', TcpConnection.connectEstablished (Some TcpConnection.return_) c = Ret (None, c') /\ conn_ok [] c') ->
  connect conn c s = Some (Ret (None, s'), acts') -> step_good s s' acts acts' [RpcServer.OnConnection conn].
Proof.
  intros Hi Hidle (c' & He & Hok). unfold connect. destruct (conns s !! conn) eqn:Ec; [done|]. rewrite He.
  intros Hs. destruct (rpc_step_inv true (RpcServer.OnConnection conn) (set_conn conn c' s) s' acts acts') as (Hi' & Hst & _);
    [|done|by left|intros r a Hst _; by right; apply idle_spec|by apply step_good_one].
  apply set_conn_inv; [done|]. by rewrite (ti_fresh _ _ Hi conn Ec).
Qed.

Lemma connectDestroyed_moving cc : cc = Some TcpConnection.return_ -> movings (TcpConnection.connectDestroyed cc).
Proof.
  intros -> c. unfold TcpConnection.connectDestroyed. cbn. apply moves_same; cbn; try by case_if.
  case_if; cbn; auto.
Qed.

Lemma destroy_good conn c s s' acts acts' :
  tcp_inv s acts -> idle s = true -> conns s !! conn = Some c ->
  match TcpConnection.connectDestroyed (Some TcpConnection.return_) c with
  | Ret (None, c) => rpc_step true (RpcServer.OnConnection conn) (set_conn conn c s)
  | Ret (Some e, c) => Some (Ret (Some e, set_conn conn c s), [])
  | OutOfBounds => Some (OutOfBounds, [])
  | OutOfFuel => Some (OutOfFuel, [])
  end = Some (Ret (None, s'), acts') -> step_good s s' acts acts' [RpcServer.OnConnection conn].
Proof.
  intros Hi Hidle Hc. pose proof (ti_conns _ _ Hi _ _ Hc) as Hok.
  destruct (connectDestroyed_keeps _ _ _ _ _ (callbacks_ok _ (or_intror eq_refl)) c (ok_wf _ _ Hok)) as (thrown & c' & He & Hwf).
  pose proof (connectDestroyed_moving _ eq_refl c) as Hm. rewrite He in *. destruct thrown as [e|]; [done|]. cbn in Hm.
  intros Hs. destruct (rpc_step_inv true (RpcServer.OnConnection conn) (set_conn conn c' s) s' acts acts') as (Hi' & Hst & _);
    [|done|by left|intros r a Hst _; by right; apply idle_spec|by apply step_good_one].
  apply set_conn_inv; [done|]. rewrite <- (app_nil_r (frames_to _ _)). by eapply conn_ok_moves; [|done|apply Hwf].
Qed.

(** ** Reading *)

Lemma feed_buffer r conn b r' b' a next :
  RpcServer.onMessage_feed r conn b = Ret (r', b', a, next) -> Buffer.buffer_wf b -> Buffer.buffer_wf b'.
Proof.
  unfold RpcServer.onMessage_feed. intros E Hb. destruct (_ !! _) as [id|]; [|by injection E as _ <- _ _].
  destruct (_ !! _) as [cs|]; [|done]. destruct (FrameParser.feed _ _) as [[fr p]| |]; [|done..].
  cbn [mbind outcome_bind] in E. assert (b' = Buffer.retrieve b (Buffer.readableBytes b)) as -> by (by case_if_in E; injection E).
  destruct (Buffer.wf_sizes b Hb) as (_ & _ & Hl). pose proof (lenZ_nonneg (Buffer.readable b)).
  apply (Buffer.retrieve_spec b (Buffer.readableBytes b) Hb). lia.
Qed.

(** The message callback, on a connection whose input buffer has data. *)
Lemma message_good conn c s s' acts acts' :
  tcp_inv s acts -> conn_ok (frames_to conn acts) c -> RpcServer.io_loop (rpc s) = true ->
  RpcServer.io_frames (rpc s) = None -> message conn c s = (Ret (None, s'), acts') ->
  step_good s s' acts acts' [RpcServer.OnMessage conn (TcpConnection.input_buffer_ c)] /\ reading s' = reading s.
Proof.
  intros Hi Hok Hio Hfr. unfold message.
  destruct (RpcServer.onMessage_feed _ _ _) as [[[[r b] a] next]| |] eqn:Ef; try done. intros [= Hp <-].
  set (r1 := RpcServer.set_io_frames _ r) in Hp.
  assert (Hst : RpcServer.step (rpc s) (RpcServer.OnMessage conn (TcpConnection.input_buffer_ c)) = Some (Ret (r1, a))).
  { cbn [RpcServer.step]. rewrite Hio, Hfr, bool_decide_true by done. cbn [andb]. by rewrite Ef. }
  pose proof (RpcServerFacts.step_inv _ _ _ _ (ti_rpc _ _ Hi) Hst) as Hr1.
  assert (Hi1 : tcp_inv (set_conn conn (TcpConnection.set_input b c) (set_rpc r1 s)) acts).
  { apply set_conn_inv.
    - apply set_rpc_inv; [done|done|]. intros H. left. by eapply io_kept; [|exact Hst|].
    - rewrite <- (app_nil_r (frames_to _ _)). eapply conn_ok_moves; [exact Hok|by apply moves_same; auto|].
      apply wf_set_input; [|apply Hok]. eapply feed_buffer; [exact Ef|]. apply (ok_wf _ _ Hok). }
  destruct (perform_inv _ _ _ _ _ (Forall_in_loop a) Hi1 Hp) as [Hi2 [H1 H2]]. split; [|done]. apply step_good_one; [done|].
  by rewrite H1.
Qed.

Lemma read_next_good s s' acts acts' :
  tcp_inv s acts -> read_next s = Some (Ret (None, s'), acts') -> step_good s s' acts acts' (rpc_event s ReadNext).
Proof.
  intros Hi. unfold read_next. cbn [rpc_event]. destruct (reading s) as [[[conn chunks] last]|] eqn:Erd; [|done].
  destruct (ti_reading _ _ Hi _ Erd) as [Hio Hch]. cbn [fst snd] in Hch.
  destruct (conns s !! conn) as [c|] eqn:Ec; [|done]. pose proof (ti_conns _ _ Hi _ _ Ec) as Hok.
  case_bool_decide as Hfr; [|done].
  assert (Hclose : forall s1, tcp_inv s1 acts -> rpc s1 = rpc s ->
    Some (on conn (TcpConnection.handleClose close_callback) s1, []) = Some (Ret (None, s'), acts') ->
    step_good s s' acts acts' []).
  { intros s1 H1 E [= Hs <-]. unfold step_good. rewrite <- E. apply (on_good conn (TcpConnection.handleClose close_callback) s1 s' acts); [done| |exact handleClose_moving|done].
    apply (handleClose_keeps None None None _ None (callbacks_ok None (or_introl eq_refl))). }
  assert (Hnone : tcp_inv (set_reading None s) acts) by (by apply set_reading_inv).
  destruct chunks as [|chunk chunks].
  { destruct last as [|errno]; [by apply Hclose|]. destruct (errno =? _); [|by apply Hclose].
    intros [= <- <-]. by apply step_good_none. }
  inversion Hch as [|? ? [Hne Hl] Hch']; subst.
  destruct (readFd_good (TcpConnection.input_buffer_ c) chunk (wf_input c (ok_wf _ _ Hok)) Hl) as (thrown & b & Hrd & Hb).
  rewrite Hrd. destruct thrown as [e|]; [done|]. destruct (Hb eq_refl) as [Hbwf Hbr].
  assert (Hpos : (0 <? lenZ chunk) = true).
  { apply Z.ltb_lt. destruct chunk; [done|]. rewrite lenZ_cons. pose proof (lenZ_nonneg chunk). lia. }
  rewrite Hpos. intros [= Hm].
  eapply message_good in Hm; [by destruct Hm| | |exact Hio|exact Hfr].
  - apply set_reading_inv; [done|]. by intros x [= <-].
  - rewrite <- (app_nil_r (frames_to _ _)). eapply conn_ok_moves; [exact Hok|by apply moves_same; auto|].
    apply wf_logged; [done|done|]. apply wf_set_input; [done|apply Hok].
Qed.

(** ** Every step *)

Lemma tcp_event_good conn f s s' acts acts' :
  tcp_inv s acts -> keeps f -> movings f -> tcp_event conn f s = Some (Ret (None, s'), acts') ->
  step_good s s' acts acts' [].
Proof.
  intros Hi Hk Hm. unfold tcp_event. destruct (conns s !! conn) as [c|]; [|done]. destruct (idle s); [|done].
  intros [= Ho <-]. by eapply on_good.
Qed.

Lemma tcp_event_idle conn f s x s' acts :
  tcp_event conn f s = Some (Ret (x, s'), acts) -> idle s = true /\ rpc s' = rpc s.
Proof.
  unfold tcp_event, on. destruct (conns s !! conn) as [c|]; [|done]. destruct (idle s); [|done].
  destruct (f c) as [[y c']| |]; try done. cbn [mbind outcome_bind]. by intros [= <- <- <-].
Qed.

Lemma tcp_step_good s e s' acts acts' :
  tcp_inv s acts -> event_ok e -> step s e = Some (Ret (None, s'), acts') -> step_good s s' acts acts' (rpc_event s e).
Proof.
  intros Hi Hok. pose proof (callbacks_ok None (or_introl eq_refl)) as Hcb.
  assert (Hone : forall in_loop e, in_loop = true \/ other_thread e = true -> (forall r a, RpcServer.step (rpc s) e = Some (Ret (r, a)) ->
      RpcServer.io_loop (rpc s) = true -> RpcServer.io_loop r = true \/ reading s = None) ->
    rpc_step in_loop e s = Some (Ret (None, s'), acts') -> step_good s s' acts acts' [e]).
  { intros in_loop e0 Hth Hio Hs. destruct (rpc_step_inv in_loop e0 s s' acts acts' Hi Hs Hth Hio) as (H1 & H2 & _).
    by apply step_good_one. }
  destruct e as [e|conn fd buffer kw ks|conn chunks last| | |conn|conn input|conn|conn]; cbn [step rpc_event].
  - intros Hs. assert (H : e = RpcServer.IoExit /\ idle s = true /\ rpc_step true e s = Some (Ret (None, s'), acts') \/
      other_thread e = true /\ rpc_step false e s = Some (Ret (None, s'), acts')).
    { destruct e; try (right; by split); try done. left. by destruct (idle s). }
    destruct H as [(-> & Hidle & H)|[He H]]; eapply Hone; try exact H; [by left| |by right|]; intros r a Hst Hio.
    + right. by apply idle_spec.
    + left. by eapply other_thread_io.
  - destruct (idle s) eqn:Hidle; [|done]. destruct Hok as [Hb Hr]. apply connect_good; [done|done|].
    destruct (tcp_established_ok fd buffer kw ks Hb Hr) as (c & He & Hc & _). by exists c.
  - destruct (conns s !! conn); [|done]. destruct (idle s && _) eqn:E; [|done]. breflect.
    intros [= <- <-]. apply step_good_none; [|done]. apply set_reading_inv; [done|]. intros x [= <-].
    split; [by apply idle_spec|done].
  - by apply read_next_good.
  - apply Hone; [by left|]. intros r a Hst Hio. left. by eapply io_kept; [|exact Hst|].
  - apply tcp_event_good; [done|apply (handleWrite_keeps None None None _ None Hcb)|exact handleWrite_moving].
  - destruct (tcp_event conn _ s) as [[r a]|] eqn:Et; [|done].
    destruct r as [[[x|] s1]| |]; try done. cbn [then_ return_ mbind outcome_bind]. intros [= <- <-].
    pose proof Et as Hg. apply (tcp_event_good conn _ s s1 acts a Hi) in Hg;
      [|apply (handleClose_keeps None None None _ None Hcb)|exact handleClose_moving]. destruct Hg as [Hi1 Hr1].
    split; [|exact Hr1]. apply set_reading_inv; [done|]. destruct input as [[chunks last]|]; [|done]. intros x [= <-].
    split; [|done]. apply tcp_event_idle in Et as [Hidle Hrpc]. rewrite Hrpc. by apply idle_spec.
  - apply tcp_event_good; [done|apply (run_functor_keeps None None None _ None Hcb)|exact run_functor_moving].
  - destruct (conns s !! conn) as [c|] eqn:Ec; [|done]. destruct (idle s && _) eqn:E; [|done]. breflect.
    by apply destroy_good.
Qed.

(** ** Runs *)

Lemma init_tcp_inv n : tcp_inv (init n) [].
Proof. constructor; [apply RpcServerFacts.init_inv|done|done|done]. Qed.

(** The steps of the server in a run. *)
Fixpoint rpc_events s (es : list (event (Handler := Handler))) : list RpcServer.event :=
  match es with
  | [] => []
  | e :: es =>
      match step s e with
      | Some (Ret (None, s1), _) => rpc_event s e ++ rpc_events s1 es
      | _ => []
      end
  end.

Lemma run_good es s s' acts acts' :
  tcp_inv s acts -> Forall event_ok es -> run s es = Some (s', acts') ->
  tcp_inv s' (acts ++ acts') /\ RpcServerFacts.run (rpc s) (rpc_events s es) = Some (rpc s', acts').
Proof.
  intros Hi Hes. revert s acts acts' Hi. induction Hes as [|e es He _ IH]; intros s acts acts' Hi; cbn [run rpc_events].
  { intros [= <- <-]. by rewrite app_nil_r. }
  destruct (step s e) as [[[[[x|] s1]| |] a1]|] eqn:E; try done.
  destruct (run s1 es) as [[s2 a2]|] eqn:E2; [|done]. intros [= <- <-].
  destruct (tcp_step_good s e s1 acts a1 Hi He E) as [Hi1 Hr1]. destruct (IH _ _ _ Hi1 E2) as [Hi2 Hr2].
  rewrite app_assoc. split; [done|]. by rewrite (RpcServerFacts.run_app _ _ _ _ _ Hr1), Hr2.
Qed.

Lemma tcp_run_app es1 es2 s s1 a1 :
  run s es1 = Some (s1, a1) ->
  run s (es1 ++ es2) = match run s1 es2 with Some (s2, a2) => Some (s2, a1 ++ a2) | None => None end.
Proof.
  revert s a1. induction es1 as [|e es IH]; intros s a1; cbn [run app].
  - intros [= <- <-]. by destruct (run s es2) as [[? ?]|].
  - destruct (step s e) as [[[[[x|] s2]| |] a2]|]; try done.
    destruct (run s2 es) as [[s3 a3]|] eqn:E; [|done]. intros [= <- <-].
    rewrite (IH _ _ E). destruct (run s3 es2) as [[s4 a4]|]; [|done]. by rewrite app_assoc.
Qed.

(** ** The ledger of one connection *)

(** A response with the identifier of its request, and its frame. *)
Definition response_frame (a : Z * RpcResponse) : bytes := makeResponseFrame a.1 a.2.

(** The identifiers of the requests of one connection. *)
Definition ids_on (conn : nat) (l : list (nat * Z)) : list Z :=
  omap (fun e => if decide (e.1 = conn) then Some e.2 else None) l.

Definition answers_on (conn : nat) (l : list (nat * Z * RpcResponse)) : list (Z * RpcResponse) :=
  omap (fun a => if decide (a.1.1 = conn) then Some (a.1.2, a.2) else None) l.

Lemma frames_to_answers conn acts answers :
  frames_in acts = map frame_sent answers -> frames_to conn acts = map response_frame (answers_on conn answers).
Proof.
  unfold frames_to. intros ->. induction answers as [|a l IH]; [done|]. cbn. case_decide; [|done].
  cbn. by f_equal.
Qed.

Lemma ids_on_answers conn answers : map fst (answers_on conn answers) = ids_on conn (map fst answers).
Proof. induction answers as [|a l IH]; [done|]. cbn. case_decide; [|done]. cbn. by f_equal. Qed.

Lemma ids_on_app conn l k : ids_on conn (l ++ k) = ids_on conn l ++ ids_on conn k.
Proof. apply omap_app. Qed.

Lemma ids_on_Permutation conn l k : l ≡ₚ k -> ids_on conn l ≡ₚ ids_on conn k.
Proof.
  intros H. induction H as [|x l k H IH|x y l|l k m H1 IH1 H2 IH2]; cbn; try done.
  - case_decide; [by constructor|done].
  - repeat case_decide; first [done|apply perm_swap].
  - by rewrite IH1.
Qed.

(** What a connection has to do with the responses sent to it. *)
Record carries s (conn : nat) (c : TcpConnection.t) (taken_ids : list Z)
    (sent waiting lost : list (Z * RpcResponse)) : Prop := mkCarries {
  ca_accepted : TcpConnection.accepted c = concat (map response_frame sent);
  ca_waiting : pending_sends c = map response_frame waiting;
  ca_stream : TcpConnection.state_ c <> TcpConnection.kDisconnected ->
    TcpConnection.wire c ++ out c = TcpConnection.accepted c;
  ca_wire : TcpConnection.wire c `prefix_of` TcpConnection.accepted c;
  ca_lost : TcpConnection.state_ c = TcpConnection.kConnected -> lost = [];
  ca_once : map fst (sent ++ waiting ++ lost) ++ ids_on conn (open_entries (rpc s)) ≡ₚ taken_ids;
}.

Lemma wf_wire c : wf c -> TcpConnection.wire c `prefix_of` TcpConnection.accepted c.
Proof.
  intros Hwf. pose proof (wf_stream c Hwf) as Hs. destruct (TcpConnection.is_state _ c).
  - etransitivity; [|exact Hs]. by apply prefix_app_r.
  - rewrite <- Hs. by apply prefix_app_r.
Qed.

Lemma run_carries n es s acts conn c :
  Forall event_ok es -> run (init n) es = Some (s, acts) -> conns s !! conn = Some c ->
  exists sent waiting lost,
    carries s conn c (ids_on conn (taken (RpcServer.init n) (rpc_events (init n) es))) sent waiting lost.
Proof.
  intros Hes Hrun Hc. destruct (run_good es (init n) s [] acts (init_tcp_inv n) Hes Hrun) as [Hi Hr].
  destruct (run_balances _ _ _ _ (RpcServerFacts.init_inv n) Hr) as (answers & Ha & Hp).
  cbn [app] in Hi. destruct (ti_conns _ _ Hi _ _ Hc) as [Hwf (now & lost & Hacc & Hperm & Hl) _ _].
  rewrite (frames_to_answers conn acts answers Ha) in Hperm.
  apply Permutation_map_inv in Hperm as (l & Hl1 & Hl2).
  symmetry in Hl1. apply map_eq_app in Hl1 as (sent & l' & -> & Hn & Hl1).
  apply map_eq_app in Hl1 as (waiting & dropped & -> & Hw & Hd).
  exists sent, waiting, dropped. constructor; [by rewrite Hn|done| | | |].
  - intros Hst. by apply wf_stream_eq.
  - by apply wf_wire.
  - intros Hst. rewrite (Hl Hst) in Hd. by destruct dropped.
  - assert (Hm : map fst (sent ++ waiting ++ dropped) ≡ₚ ids_on conn (map fst answers)).
    { rewrite <- ids_on_answers. symmetry. by apply Permutation_map. }
    rewrite Hm, <- ids_on_app. apply ids_on_Permutation. rewrite Hp. cbn. by rewrite app_nil_r.
Qed.

(** * Properties *)

(** C13: the server's connections refine the server: every run of the I/O
    thread that reads, parses and writes octets, of the workers, whose answers
    the loop's functors send, and of the threads that start and stop the server
    is a run of the server's transition system with the same actions; and each
    connection keeps its stream. *)
Theorem tcp_refines_server n es s acts :
  Forall event_ok es -> run (init n) es = Some (s, acts) ->
  RpcServerFacts.run (RpcServer.init n) (rpc_events (init n) es) = Some (rpc s, acts) /\
  RpcServer.reachable n (rpc s) /\ (forall conn c, conns s !! conn = Some c -> wf c).
Proof.
  intros Hes Hrun. destruct (run_good es (init n) s [] acts (init_tcp_inv n) Hes Hrun) as [Hi Hr].
  split; [done|]. split.
  - eapply RpcServerFacts.run_reachable; [apply RpcServer.reachable_init|exact Hr].
  - intros conn c Hc. apply (ok_wf _ _ (ti_conns _ _ Hi _ _ Hc)).
Qed.

(** C8: whole responses, once.  In every interleaving, what a connection was
    given is a sequence of whole response frames, of which the wire has a prefix
    (all, with what its buffer holds, while it is up); these responses, those a
    worker has queued for the loop, those dropped and the requests still open
    are exactly the requests taken off this connection; and none is dropped
    while the connection is up. *)
Theorem connection_carries_whole_responses n es s acts conn c :
  Forall event_ok es -> run (init n) es = Some (s, acts) -> conns s !! conn = Some c ->
  exists sent waiting lost,
    carries s conn c (ids_on conn (taken (RpcServer.init n) (rpc_events (init n) es))) sent waiting lost.
Proof. apply run_carries. Qed.

End facts.

(** * Witnesses *)

(** A kernel that takes three octets, then refuses, then takes the rest. *)
Definition example_tcp_kernel (i : nat) : TcpConnection.write_result :=
  match i with 0%nat => TcpConnection.WriteCount 3 | 1%nat => TcpConnection.WriteError TcpConnection.EAGAIN
  | _ => TcpConnection.WriteCount 1000 end.

Definition listening_events : list (RpcTcp.event (Handler := unit)) :=
  [RpcTcp.Rpc (RpcServer.Register (str "Weather") (str "Get") (Some tt)); RpcTcp.Rpc (RpcServer.Start 8080 Ok)].

(** Two requests arrive in two pieces. *)
Definition reading_events (kernel : nat -> TcpConnection.write_result) : list (RpcTcp.event (Handler := unit)) :=
  listening_events ++
  [RpcTcp.Connect 5 7 TcpConnectionFacts.example_buffer kernel None;
   RpcTcp.Readable 5 [take 100 RpcServerFacts.example_stream; drop 100 RpcServerFacts.example_stream]
     (TcpConnection.ReadFails TcpConnection.EAGAIN);
   RpcTcp.ReadNext; RpcTcp.NextFrame; RpcTcp.ReadNext; RpcTcp.NextFrame; RpcTcp.NextFrame; RpcTcp.NextFrame; RpcTcp.ReadNext].

(** One is answered and partly written. *)
Definition writing_events : list (RpcTcp.event (Handler := unit)) :=
  reading_events example_tcp_kernel ++
  [RpcTcp.Rpc RpcServer.WorkerTake; RpcTcp.Rpc (RpcServer.WorkerFinish 0 0 (fun _ _ => RpcServer.ThrowsUnknown));
   RpcTcp.CallFunctor 5; RpcTcp.Rpc RpcServer.WorkerTake; RpcTcp.Writable 5; RpcTcp.Writable 5].

Definition tcp_state_after (es : list (RpcTcp.event (Handler := unit))) : RpcTcp.t (Handler := unit) :=
  match RpcTcp.run (RpcTcp.init 1) es with Some (s, _) => s | None => RpcTcp.init 1 end.
Definition tcp_acts_after (es : list (RpcTcp.event (Handler := unit))) : list RpcServer.action :=
  match RpcTcp.run (RpcTcp.init 1) es with Some (_, a) => a | None => [] end.
Definition tcp_conn_after (es : list (RpcTcp.event (Handler := unit))) : TcpConnection.t :=
  default (TcpConnection.construct 0 TcpConnectionFacts.example_buffer 0 example_tcp_kernel None)
    (RpcTcp.conns (tcp_state_after es) !! 5%nat).

Example writing_ex :
  TcpConnection.wire (tcp_conn_after writing_events) =
    makeResponseFrame 7 (mkResponse (mkStatus kInternal (str "unclassified handler exception")) [] []).
Proof. vm_compute. reflexivity. Qed.

Lemma reading_events_ok kernel : Forall event_ok (reading_events kernel).
Proof.
  repeat constructor; try exact example_buffer_wf; try reflexivity; try (vm_compute; congruence).
Qed.

Lemma writing_events_ok : Forall event_ok writing_events.
Proof. apply Forall_app. split; [apply reading_events_ok|by repeat constructor]. Qed.

Lemma tcp_refines_server_witness :
  exists s acts, RpcTcp.run (RpcTcp.init 1) writing_events = Some (s, acts) /\
    RpcServerFacts.run (RpcServer.init 1) (rpc_events (RpcTcp.init 1) writing_events) = Some (RpcTcp.rpc s, acts) /\
    RpcServer.reachable 1 (RpcTcp.rpc s) /\ (forall conn c, RpcTcp.conns s !! conn = Some c -> wf c).
Proof.
  destruct (RpcTcp.run (RpcTcp.init 1) writing_events) as [[s acts]|] eqn:E; [|vm_compute in E; discriminate E].
  exists s, acts. split; [reflexivity|]. exact (tcp_refines_server 1 writing_events s acts writing_events_ok E).
Defined.

(** One response is on the wire; the other request is being handled. *)
Lemma connection_carries_whole_responses_witness :
  let s := tcp_state_after writing_events in
  exists sent waiting lost,
    carries s 5 (tcp_conn_after writing_events) [7; 8] sent waiting lost /\
    ids_on 5 (open_entries (RpcTcp.rpc s)) = [8].
Proof.
  destruct (connection_carries_whole_responses 1 writing_events (tcp_state_after writing_events)
    (tcp_acts_after writing_events) 5 (tcp_conn_after writing_events)) as (sent & waiting & lost & H);
    [exact writing_events_ok|vm_compute; reflexivity|vm_compute; reflexivity|].
  exists sent, waiting, lost. split; [|vm_compute; reflexivity].
  assert (E : ids_on 5 (taken (RpcServer.init 1) (rpc_events (RpcTcp.init 1) writing_events)) = [7; 8])
    by (vm_compute; reflexivity).
  rewrite <- E. exact H.
Defined.
