(* ===== verification/RpcTcpLive.v ===== *)
(** The RPC server on its connections makes progress: what was read off a
    connection that is up is answered on its wire. *)
From Stdlib Require Import ZArith Lia.
From Stdlib Require Import Strings.Byte.
From stdpp Require Import base list strings gmap.
From S2P Require Import Prelude StdMap FrameHeader Metadata FrameCodec NetBuffer EventLoop TcpConnection TcpConnectionFacts RpcMessage RpcServer RpcServerFacts RpcIoFacts RpcLedger RpcTcp RpcTcpFacts.
#[local] Set Warnings "-clear-no-such-hyp".

Section live.
Context {Handler : Type}.
Implicit Types s : RpcTcp.t (Handler := Handler).
Implicit Types r : RpcServer.Server (Handler := Handler).
Import RpcTcp.

(** * The connections the server knows exist *)

Section names.
Context (P : nat -> Prop).

(** The connections of open requests and of the message being handled. *)
Definition names_ok r : Prop :=
  (forall e, e ∈ open_entries r -> P e.1) /\ (forall conn id, RpcServer.io_frames r = Some (conn, id) -> P conn).

Lemma onMessage_feed_frames r conn b r' b' a next :
  RpcServer.onMessage_feed r conn b = Ret (r', b', a, next) -> RpcServer.io_frames r' = RpcServer.io_frames r.
Proof.
  unfold RpcServer.onMessage_feed. destruct (_ !! _) as [id|]; [|by intros [= <- <- <- <-]].
  destruct (_ !! _) as [cs|]; [|done]. destruct (FrameParser.feed _ _) as [[fr p]| |]; [|done..].
  cbn [mbind outcome_bind]. by case_if; intros [= <- <- <- <-].
Qed.

Lemma step_frames r e r' a conn id :
  RpcServerFacts.server_inv r -> RpcServer.step r e = Some (Ret (r', a)) -> RpcServer.io_frames r' = Some (conn, id) ->
  RpcServer.io_frames r = Some (conn, id) \/ exists b, e = RpcServer.OnMessage conn b.
Proof.
  intros Hi. destruct e as [svc m h|port st|c|c b| | |i now call| | | |]; cbn [RpcServer.step].
  - intros [= <- _]. unfold RpcServer.registerService. destruct h; [|by left]. case_if; [by left|]. case_if; [by left|].
    by destruct (_ !! _); left.
  - case_if; [done|]. intros [= <- _]. unfold RpcServer.start. repeat (case_if; [by left|]). by left.
  - case_if; [|done]. intros [= <- _]. unfold RpcServer.onConnection. by destruct (_ !! _); left.
  - case_if; [|done]. destruct (RpcServer.onMessage_feed r c b) as [[[[r1 b1] a1] next]| |]; [|done..].
    cbn [mbind outcome_bind]. intros [= <- _]. cbn. destruct next; [|done]. intros [= -> ->]. right. by exists b.
  - destruct (RpcServer.io_frames r) as [[c i]|] eqn:Ef; [|done].
    destruct (RpcServer.onMessage_frame r c i) as [[[r1 a1] again]| |] eqn:Em; [|done..]. cbn [mbind outcome_bind].
    destruct (inv_frames r Hi _ _ Ef) as [_ Hio].
    destruct (onMessage_frame_inv _ _ _ _ _ _ Hi Hio Em) as (_ & _ & Hfr & _). intros [= <- _].
    destruct again; [|done]. rewrite Hfr, Ef. by left.
  - case_if; [|done]. unfold RpcServer.worker_take. destruct (RpcServer.work_queue_ r); [by destruct (RpcServer.stopping_ r)|].
    intros [= <- _]. by left.
  - case_if; [|done]. unfold RpcServer.worker_finish, RpcServer.fetch_sub. destruct (_ !! _); [|done]. cbn [mbind outcome_bind].
    destruct (_ !! _); [|done]. intros [= <- _]. by left.
  - case_if; [|done]. unfold RpcServer.worker_take. destruct (RpcServer.work_queue_ r); [|done].
    destruct (RpcServer.stopping_ r); [|done]. intros [= <- _]. by left.
  - unfold RpcServer.stop_begin. destruct (RpcServer.running_ r); [|done]. intros [= <- _]. by left.
  - case_if; [|done]. intros [= <- _]. by left.
  - case_if; [|done]. intros [= <- _]. by left.
Qed.

Lemma step_names r e r' a :
  RpcServerFacts.server_inv r -> names_ok r -> (forall conn b, e = RpcServer.OnMessage conn b -> P conn) ->
  RpcServer.step r e = Some (Ret (r', a)) -> names_ok r'.
Proof.
  intros Hi [Ho Hf] He Hst. split.
  - intros x Hx. destruct (step_balances r e r' a Hi Hst) as (answers & _ & Hp).
    assert (Hx' : x ∈ taken_by r e ++ open_entries r) by (rewrite <- Hp; apply elem_of_app; by right).
    apply elem_of_app in Hx' as [Hx'|?]; [|by apply Ho]. unfold taken_by in Hx'.
    destruct e; try (by apply elem_of_nil in Hx'). destruct (RpcServer.io_frames r) as [[c i]|]; [|by apply elem_of_nil in Hx'].
    destruct (_ !! _); [|by apply elem_of_nil in Hx']. case_if_in Hx'; [|by apply elem_of_nil in Hx'].
    apply list_elem_of_singleton in Hx'. subst x. by eapply Hf.
  - intros conn id Hfr. destruct (step_frames r e r' a conn id Hi Hst Hfr) as [H|[b H]]; [by eapply Hf|by eapply He].
Qed.

Lemma run_names es r r' a :
  RpcServerFacts.server_inv r -> names_ok r -> (forall conn b, RpcServer.OnMessage conn b ∈ es -> P conn) ->
  RpcServerFacts.run r es = Some (r', a) -> names_ok r'.
Proof.
  revert r a. induction es as [|e es IH]; intros r a Hi Hn Hes; cbn [RpcServerFacts.run]; [by intros [= <- _]|].
  destruct (RpcServer.step r e) as [[[r1 a1]| |]|] eqn:E; try done.
  destruct (RpcServerFacts.run r1 es) as [[r2 a2]|] eqn:E2; [|done]. intros [= <- _].
  eapply IH; [by eapply step_inv| |intros; eapply Hes; by right|exact E2].
  eapply step_names; [done|done| |exact E]. intros conn b ->. apply (Hes conn b). by left.
Qed.
End names.

(** Connections are never forgotten. *)
Definition grows s s' : Prop := forall conn, is_Some (conns s !! conn) -> is_Some (conns s' !! conn).

Lemma grows_set_conn conn c s : grows s (set_conn conn c s).
Proof.
  intros conn' H. cbn. destruct (decide (conn' = conn)) as [->|]; [by rewrite lookup_insert_eq|].
  by rewrite lookup_insert_ne.
Qed.

Lemma on_grows conn f s e s' : on conn f s = Ret (e, s') -> grows s s'.
Proof.
  unfold on. destruct (conns s !! conn); [|done]. destruct (f _) as [[thrown c]| |]; [|done..].
  cbn [mbind outcome_bind]. intros [= _ <-]. apply grows_set_conn.
Qed.

Lemma perform_grows in_loop acts s e s' : perform in_loop acts s = Ret (e, s') -> grows s s'.
Proof.
  revert s. induction acts as [|a acts IH]; intros s; cbn [perform]; [by intros [= _ <-] conn Hc|].
  unfold then_. destruct (on _ _ s) as [[[x|] s1]| |] eqn:E; [..|done|done]; cbn [mbind outcome_bind]; apply on_grows in E.
  - by intros [= _ <-].
  - intros H%IH conn Hc. by apply H, E.
Qed.

Lemma rpc_step_grows in_loop e s s' a x : rpc_step in_loop e s = Some (Ret (x, s'), a) -> grows s s'.
Proof.
  unfold rpc_step. destruct (RpcServer.step _ _) as [[[r acts]| |]|]; try done. intros [= H _].
  exact (perform_grows _ _ _ _ _ H).
Qed.

Lemma tcp_event_grows conn f s s' a x : tcp_event conn f s = Some (Ret (x, s'), a) -> grows s s'.
Proof.
  unfold tcp_event. destruct (conns s !! conn); [|done]. case_if; [|done]. intros [= Hs _]. exact (on_grows _ _ _ _ _ Hs).
Qed.

Lemma step_grows s e s' a x : step s e = Some (Ret (x, s'), a) -> grows s s'.
Proof.
  destruct e as [e|conn fd buffer kw ks|conn chunks last| | |conn|conn input|conn|conn]; cbn [step].
  - destruct e; try done; try (apply rpc_step_grows). by case_if; [apply rpc_step_grows|].
  - case_if; [|done]. unfold connect. destruct (conns s !! conn); [done|].
    destruct (TcpConnection.connectEstablished _ _) as [[[e|] c]| |]; try done.
    + intros [= _ <- _]. apply grows_set_conn.
    + intros Hs%rpc_step_grows conn' Hc. by apply Hs, grows_set_conn.
  - destruct (conns s !! conn); [|done]. case_if; [|done]. by intros [= _ <- _] conn' Hc.
  - unfold read_next. destruct (reading s) as [[[conn chunks] last]|]; [|done].
    destruct (conns s !! conn) as [c|]; [|done]. case_if; [|done].
    assert (Hclose : forall s1, grows s s1 -> Some (on conn (TcpConnection.handleClose close_callback) s1, []) = Some (Ret (x, s'), a) -> grows s s').
    { intros s1 H1 [= H _] conn' Hc. by eapply on_grows; [exact H|apply H1]. }
    assert (Hrefl : grows s (set_reading None s)) by (intros ? ?; done).
    destruct chunks as [|chunk chunks].
    { destruct last as [|errno]; [by apply Hclose|]. case_if; [by intros [= _ <- _] conn' Hc|by apply Hclose]. }
    destruct (Buffer.readFd _ _) as [[[[n errno] thrown] b]| |]; try done.
    destruct thrown; [intros [= _ <- _]; apply grows_set_conn|].
    case_if; [|apply Hclose; by apply (grows_set_conn conn)]. unfold message.
    destruct (RpcServer.onMessage_feed _ _ _) as [[[[r b'] acts] next]| |]; try done.
    intros [= Hs _] conn' Hc. eapply perform_grows; [exact Hs|]. by apply (grows_set_conn conn).
  - apply rpc_step_grows.
  - apply tcp_event_grows.
  - destruct (tcp_event conn _ s) as [[r b]|] eqn:E; [|done]. destruct r as [[y s1]| |]; [|done..].
    cbn [then_ return_ mbind outcome_bind]. apply tcp_event_grows in E. destruct y; intros [= _ <- _]; exact E.
  - apply tcp_event_grows.
  - destruct (conns s !! conn) as [c|]; [|done]. case_if; [|done].
    destruct (TcpConnection.connectDestroyed _ _) as [[[e|] c']| |]; try done.
    + intros [= _ <- _]. apply grows_set_conn.
    + intros Hs%rpc_step_grows conn' Hc. by apply Hs, grows_set_conn.
Qed.

(** The connections that the server names are connections. *)
Definition known s : Prop := names_ok (fun conn => is_Some (conns s !! conn)) (rpc s).

Lemma step_known s e s' a acts :
  tcp_inv s acts -> event_ok e -> known s -> step s e = Some (Ret (None, s'), a) -> known s'.
Proof.
  intros Hi He [Ho Hf] Hst. pose proof (step_grows _ _ _ _ _ Hst) as Hg.
  destruct (tcp_step_good s e s' acts a Hi He Hst) as [_ Hrun].
  eapply run_names; [apply Hi| | |exact Hrun].
  - split; [intros x Hx; by apply Hg, Ho|intros c i Hc; by eapply Hg, Hf].
  - intros conn b Hin. apply Hg.
    destruct e as [e|c fd buffer kw ks|c chunks last| | |c|c input|c|c]; cbn [rpc_event] in Hin;
      try (apply list_elem_of_singleton in Hin); try (by apply elem_of_nil in Hin); try done.
    + subst e. cbn in Hst. done.
    + destruct (reading s) as [[[c [|chunk chunks]] last]|]; try by apply elem_of_nil in Hin.
      destruct (conns s !! c) as [x|] eqn:Ec; [|by apply elem_of_nil in Hin].
      destruct (Buffer.readFd _ _) as [[[[n errno] [|]] b']| |]; try by apply elem_of_nil in Hin.
      apply list_elem_of_singleton in Hin. injection Hin as -> _. by rewrite Ec.
Qed.

Lemma run_known es s s' acts a :
  tcp_inv s acts -> known s -> Forall event_ok es -> run s es = Some (s', a) -> known s'.
Proof.
  intros Hi Hk Hes. revert s acts a Hi Hk. induction Hes as [|e es He _ IH]; intros s acts a Hi Hk; cbn [run].
  { by intros [= <- _]. }
  destruct (step s e) as [[[[[x|] s1]| |] a1]|] eqn:E; try done.
  destruct (run s1 es) as [[s2 a2]|] eqn:E2; [|done]. intros [= <- _].
  eapply (IH s1); [by destruct (tcp_step_good s e s1 acts a1 Hi He E)|by eapply step_known|exact E2].
Qed.

Lemma init_known n : known (init n).
Proof. split; [by intros x ?%elem_of_nil|done]. Qed.

(** * The workers answer *)

(** What the workers send to a connection that is up waits for the loop. *)
Definition queued_for (msgs : list bytes) (c : TcpConnection.t) : TcpConnection.t :=
  TcpConnection.set_pending (TcpConnection.pending c ++ map TcpConnection.SendInLoop msgs) c.

Definition queues s s' (a : list RpcServer.action) : Prop :=
  reading s' = reading s /\
  forall conn c, conns s !! conn = Some c -> TcpConnection.state_ c = TcpConnection.kConnected ->
    conns s' !! conn = Some (queued_for (frames_to conn a) c).

Lemma queued_nil c : queued_for [] c = c.
Proof. unfold queued_for. cbn. rewrite app_nil_r. by destruct c. Qed.

Lemma queued_for_app a b c : queued_for b (queued_for a c) = queued_for (a ++ b) c.
Proof. unfold queued_for. cbn. by rewrite map_app, app_assoc. Qed.

Lemma perform_sends acts s :
  (forall a, a ∈ acts -> exists conn frame, a = RpcServer.Send conn frame /\ is_Some (conns s !! conn)) ->
  exists s', perform false acts s = Ret (None, s') /\ rpc s' = rpc s /\ queues s s' acts.
Proof.
  revert s. induction acts as [|a acts IH]; intros s Ha; cbn [perform].
  { exists s. split; [done|]. split; [done|]. split; [done|]. intros conn c Hc _. by rewrite queued_nil. }
  destruct (Ha a) as (conn & frame & -> & c & Hc); [by left|]. cbn [target act]. unfold on. rewrite Hc.
  unfold TcpConnection.send. set (c1 := if TcpConnection.is_state TcpConnection.kConnected c then queued_for [frame] c else c).
  assert (E : (if negb (TcpConnection.is_state TcpConnection.kConnected c) then TcpConnection.return_ c
               else TcpConnection.runInLoop false (TcpConnection.SendInLoop frame)
                      (TcpConnection.sendInLoop None close_callback None frame) c) = Ret (None, c1)).
  { unfold c1. by destruct (TcpConnection.is_state TcpConnection.kConnected c). }
  rewrite E. unfold then_. cbn [mbind outcome_bind].
  destruct (IH (set_conn conn c1 s)) as (s' & -> & Hr & Hrd & Hq).
  { intros a' Hin. destruct (Ha a') as (conn' & frame' & -> & Hs); [by right|]. exists conn', frame'. split; [done|].
    by apply grows_set_conn. }
  exists s'. split; [done|]. split; [done|]. split; [done|]. intros conn' c' Hc' Hst.
  change (RpcServer.Send conn frame :: acts) with ([RpcServer.Send conn frame] ++ acts).
  rewrite frames_to_app, frames_to_one. cbn [target message_of]. case_decide as Hd.
  - subst conn'. assert (c' = c) as -> by congruence. rewrite <- queued_for_app.
    apply (Hq conn (queued_for [frame] c)); [|done]. cbn. rewrite lookup_insert_eq. unfold c1, TcpConnection.is_state.
    by rewrite bool_decide_true.
  - cbn [app]. apply Hq; [|done]. cbn. by rewrite lookup_insert_ne.
Qed.

Lemma worker_sends now call r e r' a :
  RpcServerFacts.server_inv r -> worker_event now call e -> RpcServer.step r e = Some (Ret (r', a)) ->
  forall x, x ∈ a -> exists conn frame, x = RpcServer.Send conn frame /\ exists i, (conn, i) ∈ open_entries r.
Proof.
  intros Hi He Hst x Hx.
  assert (Hs : Forall (sends_only false) a).
  { eapply other_thread_sends; [|exact Hst]. right. by destruct e. }
  rewrite Forall_forall in Hs. specialize (Hs x Hx). destruct x as [conn frame|conn|conn]; [|done..].
  exists conn, frame. split; [done|].
  destruct (step_balances r e r' a Hi Hst) as (answers & Ha & Hp).
  assert (Hin : (conn, frame) ∈ frames_in a) by (apply list_elem_of_omap; by exists (RpcServer.Send conn frame)).
  rewrite Ha in Hin. apply list_elem_of_fmap in Hin as ([[c i] resp] & [= -> ->] & Hin). exists i.
  assert (Ht : taken_by r e = []) by (by destruct e). rewrite Ht in Hp. cbn [app] in Hp.
  rewrite <- Hp. apply elem_of_app. left. apply list_elem_of_fmap. by exists (c, i, resp).
Qed.

Lemma lift_workers now call es s acts r' a :
  tcp_inv s acts -> known s -> Forall (worker_event now call) es -> RpcServerFacts.run (rpc s) es = Some (r', a) ->
  exists s', run s (map Rpc es) = Some (s', a) /\ rpc s' = r' /\ queues s s' a.
Proof.
  intros Hi Hk Hes. revert s acts a Hi Hk. induction Hes as [|e es He Hes IH]; intros s acts a Hi Hk; cbn [RpcServerFacts.run map run].
  { intros [= <- <-]. exists s. split; [done|]. split; [done|]. split; [done|]. intros conn c Hc _. by rewrite queued_nil. }
  destruct (RpcServer.step (rpc s) e) as [[[r1 a1]| |]|] eqn:E; try done.
  destruct (RpcServerFacts.run r1 es) as [[r2 a2]|] eqn:E2; [|done]. intros [= <- <-].
  pose proof (worker_sends _ _ _ _ _ _ (ti_rpc _ _ Hi) He E) as Hsend.
  destruct (perform_sends a1 (set_rpc r1 s)) as (s1 & Hp & Hr1 & Hrd1 & Hq1).
  { intros x Hx. destruct (Hsend x Hx) as (conn & frame & -> & i & Hin). exists conn, frame. split; [done|].
    by apply (proj1 Hk) in Hin. }
  assert (Hst : step s (Rpc e) = Some (Ret (None, s1), a1)).
  { assert (Hs : step s (Rpc e) = rpc_step false e s) by (by destruct e). rewrite Hs. unfold rpc_step. by rewrite E, Hp. }
  rewrite Hst. cbn [rpc set_rpc] in Hr1. rewrite <- Hr1 in E2.
  destruct (tcp_step_good s (Rpc e) s1 acts a1 Hi I Hst) as [Hi1 _].
  destruct (IH s1 _ a2 Hi1 (step_known s (Rpc e) _ _ _ Hi I Hk Hst) E2) as (s2 & -> & Hr2 & Hrd2 & Hq2).
  exists s2. split; [done|]. split; [done|]. split; [by rewrite Hrd2, Hrd1|].
  intros conn c Hc Hs. rewrite frames_to_app, <- queued_for_app. apply Hq2; [by apply Hq1|done].
Qed.

(** * The loop sends *)

(** The socket has room for a frame at every write. *)
Definition kernel_open (c : TcpConnection.t) : Prop :=
  forall i, exists n, TcpConnection.kernel_write c i = TcpConnection.WriteCount n /\ kMaxTotalLength <= Z.of_nat n.

(** A connection that is up, with nothing waiting for room. *)
Record sendable (c : TcpConnection.t) : Prop := mkSendable {
  se_up : TcpConnection.state_ c = TcpConnection.kConnected;
  se_out : out c = [];
  se_wf : wf c;
  se_open : kernel_open c;
}.

Lemma makeResponseFrame_length rid resp : lenZ (makeResponseFrame rid resp) <= kMaxTotalLength.
Proof.
  rewrite makeResponseFrame_encode. pose proof (response_payload_encodable resp) as He.
  unfold isFrameEncodable in He. breflect. rewrite encode_eq, !lenZ_app, lenZ_encodeHeader.
  cbn [m_metadata m_body response_message]. unfold kMaxTotalLength. lia.
Qed.

Lemma sendInLoop_sends data c :
  sendable c -> lenZ data <= kMaxTotalLength ->
  TcpConnection.sendInLoop None close_callback None data c =
  Ret (None, TcpConnection.set_wire (S (TcpConnection.writes c)) (TcpConnection.wire c ++ data)
               (TcpConnection.set_accepted (TcpConnection.accepted c ++ data) c)).
Proof.
  intros [Hst Ho Hwf Hk] Hl. assert (Hne : TcpConnection.state_ c <> TcpConnection.kDisconnected) by congruence.
  pose proof (wf_writing_eq c Hwf Hne) as Hw. rewrite Ho, bool_decide_true in Hw by done.
  unfold TcpConnection.sendInLoop, TcpConnection.is_state. rewrite Hst, bool_decide_true by done. cbn [negb].
  set (c0 := TcpConnection.set_accepted _ c). change (TcpConnection.output_buffer_ c0) with (TcpConnection.output_buffer_ c).
  change (TcpConnection.isWriting c0) with (TcpConnection.isWriting c). rewrite Hw.
  rewrite readable_zero by apply Hwf. fold (out c). rewrite Ho, bool_decide_true by done. cbn [negb andb].
  unfold TcpConnection.write. change (TcpConnection.kernel_write c0 (TcpConnection.writes c0))
    with (TcpConnection.kernel_write c (TcpConnection.writes c)).
  destruct (Hk (TcpConnection.writes c)) as (n & -> & Hn).
  assert (Ht : TcpConnection.taken n (length data) = length data) by (unfold TcpConnection.taken, lenZ in *; lia).
  rewrite Ht, firstn_all. rewrite (proj2 (Z.ltb_ge _ _)) by (unfold lenZ; lia).
  unfold TcpConnection.then_, TcpConnection.return_. cbn [mbind outcome_bind].
  by case_if.
Qed.

Lemma sendable_sent data c rest :
  sendable c ->
  wf (TcpConnection.set_wire (S (TcpConnection.writes c)) (TcpConnection.wire c ++ data)
        (TcpConnection.set_accepted (TcpConnection.accepted c ++ data) (TcpConnection.set_pending rest c))) ->
  sendable (TcpConnection.set_wire (S (TcpConnection.writes c)) (TcpConnection.wire c ++ data)
        (TcpConnection.set_accepted (TcpConnection.accepted c ++ data) (TcpConnection.set_pending rest c))).
Proof. by intros [Hst Ho Hwf Hk] Hwf'. Qed.

(** A functor sends its message. *)
Lemma functor_sends conn c m rest s acts :
  tcp_inv s acts -> idle s = true -> conns s !! conn = Some c -> sendable c ->
  TcpConnection.pending c = TcpConnection.SendInLoop m :: rest -> lenZ m <= kMaxTotalLength ->
  exists c', step s (CallFunctor conn) = Some (Ret (None, set_conn conn c' s), []) /\ sendable c' /\
    TcpConnection.pending c' = rest /\ TcpConnection.wire c' = TcpConnection.wire c ++ m.
Proof.
  intros Hi Hidle Hc Hs Hp Hl. cbn [step]. unfold tcp_event. rewrite Hc, Hidle. unfold on. rewrite Hc.
  unfold TcpConnection.run_functor. rewrite Hp.
  assert (Hs' : sendable (TcpConnection.set_pending rest c)).
  { destruct Hs as [Hst Ho Hwf Hk]. by constructor; [..|apply wf_set_pending|]. }
  destruct (sendInLoop_keeps None None None close_callback None (callbacks_ok None (or_introl eq_refl)) m _ (se_wf _ Hs'))
    as (thrown & c' & He & Hwf).
  pose proof (sendInLoop_sends m _ Hs' Hl) as He'. rewrite He' in He. injection He as <- <-.
  rewrite He'. cbn [mbind outcome_bind]. eexists. split; [done|]. split; [|done].
  apply (sendable_sent m c rest Hs). by apply Hwf.
Qed.

Lemma functors_send conn msgs s c acts :
  tcp_inv s acts -> idle s = true -> conns s !! conn = Some c -> sendable c ->
  TcpConnection.pending c = map TcpConnection.SendInLoop msgs -> Forall (fun m => lenZ m <= kMaxTotalLength) msgs ->
  exists s' c', run s (repeat (CallFunctor conn) (length msgs)) = Some (s', []) /\ rpc s' = rpc s /\ idle s' = true /\
    rpc_events s (repeat (CallFunctor conn) (length msgs)) = [] /\
    conns s' !! conn = Some c' /\ sendable c' /\ TcpConnection.pending c' = [] /\
    TcpConnection.wire c' = TcpConnection.wire c ++ concat msgs.
Proof.
  intros Hi Hidle Hc Hs Hp Hm. revert s c acts Hi Hidle Hc Hs Hp.
  induction Hm as [|m msgs Hl _ IH]; intros s c acts Hi Hidle Hc Hs Hp; cbn [length repeat run rpc_events].
  { exists s, c. cbn. by rewrite app_nil_r. }
  destruct (functor_sends conn c m (map TcpConnection.SendInLoop msgs) s acts Hi Hidle Hc Hs Hp Hl) as (c1 & Hst & Hs1 & Hp1 & Hw1).
  rewrite Hst. cbn [rpc_event app].
  destruct (tcp_step_good s (CallFunctor conn) _ acts [] Hi I Hst) as [Hi1 _].
  destruct (IH (set_conn conn c1 s) c1 _ Hi1) as (s2 & c2 & -> & Hr & Hid2 & -> & Hc2 & Hs2 & Hp2 & Hw2); [done| |done|done|].
  { cbn. by rewrite lookup_insert_eq. }
  exists s2, c2. rewrite Hw2, Hw1, <- app_assoc. by split_and!.
Qed.

(** * Progress *)

Lemma rpc_events_app es1 es2 s s1 a1 :
  run s es1 = Some (s1, a1) -> rpc_events s (es1 ++ es2) = rpc_events s es1 ++ rpc_events s1 es2.
Proof.
  revert s a1. induction es1 as [|e es IH]; intros s a1; cbn [run rpc_events app]; [by intros [= <- _]|].
  destruct (step s e) as [[[[[x|] s2]| |] a2]|] eqn:E; try done.
  destruct (run s2 es) as [[s3 a3]|] eqn:E2; [|done]. intros [= <- _]. by rewrite (IH _ _ E2), app_assoc.
Qed.

Lemma rpc_events_workers es s s' a : run s (map Rpc es) = Some (s', a) -> rpc_events s (map Rpc es) = es.
Proof.
  revert s a. induction es as [|e es IH]; intros s a; cbn [map run rpc_events]; [done|].
  destruct (step s (Rpc e)) as [[[[[x|] s2]| |] a2]|] eqn:E; try done.
  destruct (run s2 (map Rpc es)) as [[s3 a3]|] eqn:E2; [|done]. intros [= <- _]. cbn [rpc_event app].
  f_equal. by eapply IH.
Qed.

Lemma worker_events_idle now call es s s' a :
  Forall (worker_event now call) es -> RpcServerFacts.server_inv (rpc s) ->
  RpcServerFacts.run (rpc s) es = Some (rpc s', a) -> reading s' = reading s -> idle s = true -> idle s' = true.
Proof.
  intros Hes Hi Hrun Hrd Hidle. apply idle_spec in Hidle as (Hio & Hfr & Hr). unfold idle.
  rewrite Hrd, Hr, (bool_decide_true (None = None)) by done.
  assert (H : RpcServer.io_loop (rpc s') = true /\ RpcServer.io_frames (rpc s') = None).
  { clear Hrd Hr. revert Hio Hfr Hi Hrun. generalize (rpc s) as r, (rpc s') as r'. intros r r'. revert r a.
    induction Hes as [|e es He _ IH]; intros r a Hio Hfr Hi; cbn [RpcServerFacts.run]; [by intros [= <- _]|].
    destruct (RpcServer.step r e) as [[[r1 a1]| |]|] eqn:E; try done.
    destruct (RpcServerFacts.run r1 es) as [[r2 a2]|] eqn:E2; [|done]. intros [= <- _].
    apply (IH r1 a2); [|..|exact E2].
    - eapply io_kept; [|exact E|done]. by destruct e.
    - destruct (RpcServer.io_frames r1) as [[conn id]|] eqn:Ef; [|done].
      destruct (step_frames r e r1 a1 conn id Hi E Ef) as [H|[b ->]]; [congruence|done].
    - by eapply step_inv. }
  destruct H as [-> ->]. by rewrite bool_decide_true.
Qed.

Lemma pending_all_sends c :
  Forall is_send (TcpConnection.pending c) ->
  TcpConnection.pending c = map TcpConnection.SendInLoop (pending_sends c).
Proof.
  unfold pending_sends. induction 1 as [|f l Hf _ IH]; [done|]. destruct f; [|done..]. cbn. by f_equal.
Qed.

(** What the workers and the loop do until everything is answered. *)
Definition answering (now : Z) (call : Handler -> RpcRequest -> RpcServer.HandlerResult) (conn : nat) (e : event (Handler := Handler)) : Prop :=
  match e with Rpc e => worker_event now call e | CallFunctor conn' => conn' = conn | _ => False end.

Lemma answering_ok now call conn es : Forall (answering now call conn) es -> Forall event_ok es.
Proof. intros H. eapply Forall_impl; [exact H|]. by intros []. Qed.

Lemma answers_reach_wire n es s acts conn c now call :
  Forall event_ok es -> run (init n) es = Some (s, acts) -> idle s = true ->
  conns s !! conn = Some c -> sendable c ->
  exists es' s' acts' c', Forall (answering now call conn) es' /\ run s es' = Some (s', acts') /\
    idle s' = true /\ open_entries (rpc s') = [] /\
    taken (rpc s) (rpc_events s es') = [] /\
    acts' = map (answer (RpcServer.handlers_ (rpc s)) now call)
              (RpcServer.in_flight (rpc s) ++ RpcServer.work_queue_ (rpc s)) /\
    conns s' !! conn = Some c' /\ sendable c' /\ TcpConnection.pending c' = [].
Proof.
  intros Hes Hrun Hidle Hc Hs. destruct (run_good es (init n) s [] acts (init_tcp_inv n) Hes Hrun) as [Hi Hr].
  cbn [app] in Hi. pose proof (run_known _ _ _ _ _ (init_tcp_inv n) (init_known n) Hes Hrun) as Hk.
  destruct (workers_answer_all (rpc s) now call (ti_rpc _ _ Hi)) as (r1 & esw & Hrw & Hesw & Hif & Hwq).
  destruct (lift_workers now call esw s acts r1 _ Hi Hk Hesw Hrw) as (s1 & Hrun1 & Hr1 & Hrd1 & Hq1).
  assert (Hesw' : Forall event_ok (map Rpc esw)) by (apply Forall_fmap; by apply Forall_true).
  destruct (run_good _ _ _ _ _ Hi Hesw' Hrun1) as [Hi1 _].
  set (a1 := map _ _) in *. specialize (Hq1 conn c Hc (se_up _ Hs)).
  pose proof (ti_conns _ _ Hi1 _ _ Hq1) as Hok1. set (c1 := queued_for _ c) in *.
  assert (Hs1 : sendable c1) by (destruct Hs; constructor; try done; apply Hok1).
  assert (Hidle1 : idle s1 = true).
  { eapply worker_events_idle; [exact Hesw|apply Hi|by rewrite Hr1|done|done]. }
  pose proof (pending_all_sends c1 (ok_sends _ _ Hok1)) as Hp1.
  assert (Hlen : Forall (fun m => lenZ m <= kMaxTotalLength) (pending_sends c1)).
  { assert (Hall : run (init n) (es ++ map Rpc esw) = Some (s1, acts ++ a1)) by (by rewrite (tcp_run_app _ _ _ _ _ Hrun), Hrun1).
    destruct (run_carries n (es ++ map Rpc esw) s1 (acts ++ a1) conn c1) as (sent & waiting & lost & [_ -> _ _ _ _]);
      [by apply Forall_app|done|done|].
    apply Forall_forall. intros m (x & -> & _)%list_elem_of_fmap. apply makeResponseFrame_length. }
  destruct (functors_send conn _ s1 c1 _ Hi1 Hidle1 Hq1 Hs1 Hp1 Hlen) as (s2 & c2 & Hrun2 & Hr2 & Hid2 & Hev2 & Hc2 & Hs2 & Hp2 & _).
  exists (map Rpc esw ++ repeat (CallFunctor conn) (length (pending_sends c1))), s2, a1, c2.
  split_and!; try done.
  - apply Forall_app. split; [by apply Forall_fmap|]. apply Forall_forall.
    by intros e ->%list_elem_of_In%repeat_spec.
  - by rewrite (tcp_run_app _ _ _ _ _ Hrun1), Hrun2, app_nil_r.
  - unfold open_entries. by rewrite Hr2, Hr1, Hif, Hwq.
  - rewrite (rpc_events_app _ _ _ _ _ Hrun1), Hev2, app_nil_r, (rpc_events_workers _ _ _ _ Hrun1). by eapply taken_workers.
Qed.


(** * After the I/O thread has returned *)

Definition same_wires s s' : Prop :=
  forall conn c, conns s !! conn = Some c ->
    exists c', conns s' !! conn = Some c' /\ TcpConnection.wire c' = TcpConnection.wire c.

Lemma same_wires_trans s1 s2 s3 : same_wires s1 s2 -> same_wires s2 s3 -> same_wires s1 s3.
Proof.
  intros H1 H2 conn c Hc. destruct (H1 conn c Hc) as (c2 & Hc2 & E2). destruct (H2 conn c2 Hc2) as (c3 & Hc3 & E3).
  exists c3. by rewrite E3.
Qed.

Lemma perform_other_wires acts s s' :
  Forall (sends_only false) acts -> perform false acts s = Ret (None, s') -> same_wires s s'.
Proof.
  intros Ha. revert s. induction Ha as [|a acts Ha _ IH]; intros s; cbn [perform].
  { intros [= <-] conn c Hc. by exists c. }
  unfold then_. destruct (on _ _ s) as [[[x|] s1]| |] eqn:E; try done. cbn [mbind outcome_bind]. intros H%IH.
  eapply same_wires_trans; [|exact H]. unfold on in E. destruct (conns s !! target a) as [c|] eqn:Hc; [|done].
  destruct a as [conn frame|conn|conn]; [|done..]. cbn [act target] in *. unfold TcpConnection.send in E.
  intros conn' c' Hc'. destruct (negb _); cbn [mbind outcome_bind TcpConnection.runInLoop] in E; injection E as <-;
    cbn [conns set_conn]; (destruct (decide (conn' = conn)) as [->|]; [rewrite lookup_insert_eq|rewrite lookup_insert_ne by done; by exists c']);
    eexists; (split; [done|]); assert (c' = c) as -> by congruence; done.
Qed.

(** Nothing is written any more: the answers that [stop] waits for, of the
    requests its workers still had, are not sent. *)
Lemma stopped_server_writes_nothing es s s' acts a :
  tcp_inv s acts -> Forall event_ok es -> RpcServer.io_loop (rpc s) = false ->
  (forall port st, Rpc (RpcServer.Start port st) ∉ es) -> run s es = Some (s', a) -> same_wires s s'.
Proof.
  intros Hi Hes. revert s acts a Hi. induction Hes as [|e es He _ IH]; intros s acts a Hi Hio Hno; cbn [run].
  { intros [= <- _] conn c Hc. by exists c. }
  destruct (step s e) as [[[[[x|] s1]| |] a1]|] eqn:E; try done.
  destruct (run s1 es) as [[s2 a2]|] eqn:E2; [|done]. intros [= <- _].
  assert (Hidle : idle s = false) by (unfold idle; by rewrite Hio).
  assert (Hrd : reading s = None).
  { destruct (reading s) as [rd|] eqn:Erd; [|done]. destruct (ti_reading _ _ Hi rd Erd). congruence. }
  assert (H1 : exists e', e = Rpc e' /\ other_thread e' = true).
  { destruct e as [e|conn fd buffer kw ks|conn chunks last| | |conn|conn input|conn|conn]; cbn [step] in E.
    - exists e. split; [done|]. destruct e; try done. by rewrite Hidle in E.
    - by rewrite Hidle in E.
    - rewrite Hidle in E. by destruct (conns s !! conn).
    - unfold read_next in E. by rewrite Hrd in E.
    - unfold rpc_step in E. cbn [RpcServer.step] in E. destruct (RpcServer.io_frames (rpc s)) as [[c i]|] eqn:Ef; [|done].
      destruct (inv_frames _ (ti_rpc _ _ Hi) _ _ Ef). congruence.
    - unfold tcp_event in E. rewrite Hidle in E. by destruct (conns s !! conn).
    - unfold tcp_event in E. rewrite Hidle in E. by destruct (conns s !! conn).
    - unfold tcp_event in E. rewrite Hidle in E. by destruct (conns s !! conn).
    - rewrite Hidle in E. by destruct (conns s !! conn). }
  destruct H1 as (e' & -> & Hth).
  assert (Hst : rpc_step false e' s = Some (Ret (None, s1), a1)) by (by destruct e').
  destruct (tcp_step_good s (Rpc e') s1 acts a1 Hi He E) as [Hi1 _].
  unfold rpc_step in Hst. destruct (RpcServer.step (rpc s) e') as [[[r b]| |]|] eqn:Er; try done.
  injection Hst as Hp <-. pose proof (other_thread_sends false e' _ _ _ (or_intror Hth) Er) as Hs.
  apply (same_wires_trans s s1); [exact (perform_other_wires _ (set_rpc r s) _ Hs Hp)|].
  eapply (IH s1 _ _ Hi1); [|intros port st Hin; apply (Hno port st); by right|exact E2].
  destruct (perform_inv _ _ _ _ _ Hs (set_rpc_inv r s acts Hi (RpcServerFacts.step_inv _ _ _ _ (ti_rpc _ _ Hi) Er)
    ltac:(intros; congruence)) Hp) as [_ [-> _]]. cbn [rpc set_rpc].
  pose proof (step_life _ _ _ _ Er) as Hl. unfold life in Hl. destruct e'; try done; try (injection Hl; congruence).
  - by destruct (Hno port startup_status); left.
  - cbn in Er. unfold RpcServer.stop_begin in Er. destruct (RpcServer.running_ (rpc s)); [|done]. by injection Er as <- _.
Qed.

(** C14: [stop] loses late answers.  Once the I/O thread of a stopping server has
    returned, its workers still answer every request they have, but whatever
    happens, until a new [start], no octet is written to any connection. *)
Theorem stop_loses_late_answers n es s acts (now : Z) (call : Handler -> RpcRequest -> RpcServer.HandlerResult) :
  Forall event_ok es -> run (init n) es = Some (s, acts) -> RpcServer.io_loop (rpc s) = false ->
  (exists es' s', Forall (worker_event now call) es' /\
     run s (map Rpc es') = Some (s', map (answer (RpcServer.handlers_ (rpc s)) now call)
       (RpcServer.in_flight (rpc s) ++ RpcServer.work_queue_ (rpc s))) /\ open_entries (rpc s') = []) /\
  (forall es' s' a, Forall event_ok es' -> (forall port st, Rpc (RpcServer.Start port st) ∉ es') ->
     run s es' = Some (s', a) -> same_wires s s').
Proof.
  intros Hes Hrun Hio. destruct (run_good es (init n) s [] acts (init_tcp_inv n) Hes Hrun) as [Hi Hr]. split.
  - pose proof (run_known _ _ _ _ _ (init_tcp_inv n) (init_known n) Hes Hrun) as Hk.
    destruct (workers_answer_all (rpc s) now call (ti_rpc _ _ Hi)) as (r1 & esw & Hrw & Hesw & Hif & Hwq).
    destruct (lift_workers now call esw s _ r1 _ Hi Hk Hesw Hrw) as (s1 & Hrun1 & Hr1 & _).
    exists esw, s1. split; [done|]. split; [done|]. unfold open_entries. by rewrite Hr1, Hif, Hwq.
  - intros es' s' a Hes' Hno Hrun'. by eapply stopped_server_writes_nothing.
Qed.

End live.

(** * Witness *)

(** A socket that takes whole frames. *)
Lemma room : {n : nat | kMaxTotalLength <= Z.of_nat n}.
Proof. exists (Z.to_nat kMaxTotalLength). rewrite Z2Nat.id; [lia|]. by vm_compute. Qed.

Definition open_kernel (_ : nat) : TcpConnection.write_result := TcpConnection.WriteCount (proj1_sig room).

Lemma open_reading_run :
  RpcTcp.run (RpcTcp.init 1) (reading_events open_kernel) =
  Some (tcp_state_after (reading_events open_kernel), tcp_acts_after (reading_events open_kernel)).
Proof. vm_compute. reflexivity. Qed.

Lemma open_reading_conn :
  RpcTcp.conns (tcp_state_after (reading_events open_kernel)) !! 5%nat = Some (tcp_conn_after (reading_events open_kernel)).
Proof. vm_compute. reflexivity. Qed.

Lemma open_reading_sendable : sendable (tcp_conn_after (reading_events open_kernel)).
Proof.
  constructor; [vm_compute; reflexivity|vm_compute; reflexivity| |].
  - destruct (run_good _ _ _ _ _ (init_tcp_inv 1) (reading_events_ok open_kernel) open_reading_run) as [Hi _].
    exact (ok_wf _ _ (ti_conns _ _ Hi _ _ open_reading_conn)).
  - intros i. exists (proj1_sig room). split; [reflexivity|exact (proj2_sig room)].
Qed.


(** Both requests were read when the server stops. *)
Definition stopped_tcp_events : list (RpcTcp.event (Handler := unit)) :=
  reading_events example_tcp_kernel ++ [RpcTcp.Rpc RpcServer.StopBegin; RpcTcp.Rpc RpcServer.IoExit].

Lemma stop_loses_late_answers_witness :
  let s := tcp_state_after stopped_tcp_events in
  open_entries (RpcTcp.rpc s) = [(5%nat, 7); (5%nat, 8)] /\
  (exists es' s' a, Forall (worker_event 17 (fun _ _ => RpcServer.ThrowsUnknown)) es' /\ RpcTcp.run s (map RpcTcp.Rpc es') = Some (s', a) /\
     length a = 2%nat /\ open_entries (RpcTcp.rpc s') = [] /\ same_wires s s').
Proof.
  intros s. split; [vm_compute; reflexivity|].
  assert (Hok : Forall event_ok stopped_tcp_events) by (apply Forall_app; split; [apply reading_events_ok|by repeat constructor]).
  destruct (stop_loses_late_answers 1 stopped_tcp_events s (tcp_acts_after stopped_tcp_events) 17
    (fun _ _ => RpcServer.ThrowsUnknown) Hok ltac:(vm_compute; reflexivity) ltac:(vm_compute; reflexivity))
    as [(es' & s' & Hes' & Hrun & Hop) Hwires].
  eexists es', s', _. split; [exact Hes'|]. split; [exact Hrun|]. split; [vm_compute; reflexivity|].
  split; [exact Hop|]. eapply Hwires; [| |exact Hrun]; [apply Forall_fmap; by apply Forall_true|].
  intros port st (e & [= <-] & He)%list_elem_of_fmap. rewrite Forall_forall in Hes'. by apply (Hes' _ He).
Defined.
