(* ===== verification/RpcTcpServes.v ===== *)
(** A stream of requests, served over TCP: the octets that arrive on a
    connection, in any pieces, against the octets the server writes to it. *)
From Stdlib Require Import ZArith Lia.
From Stdlib Require Import Strings.Byte.
From stdpp Require Import base list strings gmap.
From S2P Require Import Prelude StdMap FrameHeader Metadata FrameCodec NetBuffer EventLoop TcpConnection TcpConnectionFacts RpcMessage RpcServer RpcServerFacts RpcIoFacts RpcLedger RpcTcp RpcTcpFacts RpcTcpLive.
#[local] Set Warnings "-clear-no-such-hyp".

Section serves.
Context {Handler : Type}.
Implicit Types s : RpcTcp.t (Handler := Handler).
Implicit Types r : RpcServer.Server (Handler := Handler).
Import RpcTcp.

(** * [onMessage] as steps *)

Abbreviation with_frames f r := (RpcServer.set_io_frames f r).

Lemma onMessage_frame_frames f r conn id :
  RpcServer.onMessage_frame (with_frames f r) conn id =
  let* '(r', a, again) := RpcServer.onMessage_frame r conn id in Ret (with_frames f r', a, again).
Proof.
  unfold RpcServer.onMessage_frame, RpcServer.admit_request, RpcServer.enqueue, RpcServer.fetch_sub.
  cbn [RpcServer.states RpcServer.set_io_frames]. destruct (RpcServer.states r !! id) as [cs|]; [|done].
  destruct (FrameParser.isComplete _); cbn [negb]; [|done]. destruct (_ =? _); cbn [negb]; [|done].
  destruct (RpcServer.frame_request _) as [q|]; [|done].
  cbn [RpcServer.states RpcServer.set_io_frames RpcServer.set_parser RpcServer.set_states RpcServer.fetch_add RpcServer.stopping_
       RpcServer.work_queue_ RpcServer.set_queue].
  destruct (<[id:=_]> (RpcServer.states r) !! id) as [cs1|]; [|done].
  destruct (_ <=? _).
  - destruct (_ !! id) as [cs2|]; [|done]. cbn.
    destruct (_ !! id) as [cs3|]; [|done]. destruct (FrameParser.feed _ _) as [[fr p]| |]; [|done..]. cbn.
    by destruct (FrameParser.is_error fr).
  - destruct (_ || _); cbn.
    + destruct (_ !! id) as [cs2|]; [|done]. cbn.
      destruct (_ !! id) as [cs3|]; [|done]. destruct (FrameParser.feed _ _) as [[fr p]| |]; [|done..]. cbn.
      by destruct (FrameParser.is_error fr).
    + destruct (_ !! id) as [cs2|]; [|done]. destruct (FrameParser.feed _ _) as [[fr p]| |]; [|done..]. cbn.
      by destruct (FrameParser.is_error fr).
Qed.

Lemma with_frames_id r : with_frames (RpcServer.io_frames r) r = r.
Proof. by destruct r. Qed.

Lemma frame_keeps_frames r conn id r' a again :
  RpcServer.onMessage_frame r conn id = Ret (r', a, again) -> RpcServer.io_frames r' = RpcServer.io_frames r.
Proof.
  intros H. pose proof (onMessage_frame_frames (RpcServer.io_frames r) r conn id) as E.
  rewrite with_frames_id, H in E. cbn [mbind outcome_bind] in E. by injection E as E%(f_equal RpcServer.io_frames).
Qed.

(** The loop is a sequence of steps, the last of which ends it. *)
Lemma onMessage_loop_steps fuel r conn id acts r' acts' :
  RpcServer.io_frames r = None ->
  RpcServer.onMessage_loop fuel r conn id acts = Ret (r', acts') ->
  exists k out, acts' = acts ++ out /\ RpcServer.io_frames r' = None /\
    RpcServerFacts.run (with_frames (Some (conn, id)) r) (repeat RpcServer.NextFrame k) = Some (r', out).
Proof.
  revert r acts. induction fuel as [|fuel IH]; intros r acts Hf; [done|]. cbn [RpcServer.onMessage_loop].
  destruct (RpcServer.onMessage_frame r conn id) as [[[r1 out] again]| |] eqn:E; [|done..]. cbn [mbind outcome_bind].
  pose proof (frame_keeps_frames _ _ _ _ _ _ E) as Hf1. rewrite Hf in Hf1.
  assert (Hst : RpcServer.step (with_frames (Some (conn, id)) r) RpcServer.NextFrame =
    Some (Ret (if again : bool then with_frames (Some (conn, id)) r1 else r1, out))).
  { cbn [RpcServer.step RpcServer.io_frames RpcServer.set_io_frames]. rewrite onMessage_frame_frames, E. cbn [mbind outcome_bind].
    destruct again; [done|]. do 3 f_equal. rewrite <- (with_frames_id r1) at 2. by rewrite Hf1. }
  destruct again.
  - intros H. destruct (IH r1 (acts ++ out) Hf1 H) as (k & out' & -> & Hf' & Hrun).
    exists (S k), (out ++ out'). split; [by rewrite app_assoc|]. split; [done|]. cbn [repeat RpcServerFacts.run].
    by rewrite Hst, Hrun.
  - intros [= <- <-]. exists 1%nat, out. split; [done|]. split; [done|]. cbn [repeat RpcServerFacts.run].
    rewrite Hst. by rewrite app_nil_r.
Qed.

Lemma onMessage_steps r conn b r' b' acts :
  RpcServer.io_loop r = true -> RpcServer.io_frames r = None ->
  RpcServer.onMessage r conn b = Ret (r', b', acts) ->
  exists k r1 a1 next out, RpcServer.onMessage_feed r conn b = Ret (r1, b', a1, next) /\ acts = a1 ++ out /\
    RpcServer.io_frames r' = None /\
    RpcServerFacts.run (with_frames (option_map (fun id => (conn, id)) next) r1) (repeat RpcServer.NextFrame k) = Some (r', out).
Proof.
  intros Hio Hf. unfold RpcServer.onMessage.
  destruct (RpcServer.onMessage_feed r conn b) as [[[[r1 b1] a1] next]| |] eqn:Ef; [|done..]. cbn [mbind outcome_bind].
  pose proof (onMessage_feed_frames _ _ _ _ _ _ _ Ef) as Hf1. rewrite Hf in Hf1. destruct next as [id|].
  - destruct (RpcServer.onMessage_loop _ r1 conn id a1) as [[r2 a2]| |] eqn:El; [|done..]. cbn [mbind outcome_bind].
    intros [= <- <- <-]. destruct (onMessage_loop_steps _ _ _ _ _ _ _ Hf1 El) as (k & out & -> & Hf2 & Hrun).
    by exists k, r1, a1, (Some id), out.
  - intros [= <- <- <-]. exists 0%nat, r1, a1, None, []. split; [done|]. split; [by rewrite app_nil_r|]. split; [done|].
    cbn [repeat RpcServerFacts.run option_map]. rewrite <- Hf1. by rewrite with_frames_id.
Qed.

(** * Reading *)

(** What reading leaves alone. *)
Record kept (c c' : TcpConnection.t) : Prop := mkKept {
  ke_state : TcpConnection.state_ c' = TcpConnection.state_ c;
  ke_output : TcpConnection.output_buffer_ c' = TcpConnection.output_buffer_ c;
  ke_pending : TcpConnection.pending c' = TcpConnection.pending c;
  ke_kernel : TcpConnection.kernel_write c' = TcpConnection.kernel_write c;
  ke_wire : TcpConnection.wire c' = TcpConnection.wire c;
}.

Lemma kept_trans c1 c2 c3 : kept c1 c2 -> kept c2 c3 -> kept c1 c3.
Proof. intros [] []. constructor; congruence. Qed.

(** An input buffer without octets, and with room for [n] more. *)
Definition empty_input (n : Z) (c : TcpConnection.t) : Prop :=
  Buffer.buffer_wf (TcpConnection.input_buffer_ c) /\ Buffer.readable (TcpConnection.input_buffer_ c) = [] /\
  lenZ (Buffer.buffer_ (TcpConnection.input_buffer_ c)) + n <= Buffer.vector_max_size.

Lemma feed_empties r conn b r' b' next :
  RpcServer.onMessage_feed r conn b = Ret (r', b', [], next) -> b' = Buffer.retrieve b (Buffer.readableBytes b).
Proof.
  unfold RpcServer.onMessage_feed. destruct (_ !! _) as [id|]; [|done]. destruct (_ !! _) as [cs|]; [|done].
  destruct (FrameParser.feed _ _) as [[fr p]| |]; [|done..]. cbn [mbind outcome_bind]. case_if; [done|]. by intros [= _ <- _].
Qed.

Lemma retrieve_empties b : Buffer.buffer_wf b ->
  let b' := Buffer.retrieve b (Buffer.readableBytes b) in
  Buffer.buffer_wf b' /\ Buffer.readable b' = [] /\ Buffer.buffer_ b' = Buffer.buffer_ b.
Proof.
  intros Hb. destruct (Buffer.wf_sizes b Hb) as (_ & _ & Hl). pose proof (lenZ_nonneg (Buffer.readable b)).
  destruct (Buffer.retrieve_spec b (Buffer.readableBytes b) Hb ltac:(lia)) as (H1 & H2 & H3). split_and!; [done| |done].
  rewrite H2. apply drop_ge. unfold lenZ in Hl. lia.
Qed.

Lemma readFd_chunk b l :
  Buffer.buffer_wf b -> Buffer.readable b = [] -> lenZ l <= Buffer.extra_size ->
  lenZ (Buffer.buffer_ b) + lenZ l <= Buffer.vector_max_size ->
  exists b', Buffer.readFd b (Buffer.ReadvOctets l) = Ret (lenZ l, 0, None, b') /\
    Buffer.buffer_wf b' /\ Buffer.readable b' = l /\ lenZ (Buffer.buffer_ b') <= lenZ (Buffer.buffer_ b) + lenZ l.
Proof.
  intros Hb Hr Hl Hmax. destruct (Buffer.readFd_spec b l Hb) as (b' & H1 & H2 & H3 & H4); [|done|].
  - unfold Buffer.readv_capacity. destruct (Buffer.wf_sizes b Hb) as (_ & Hw & _).
    assert (0 <= Buffer.writableBytes b) by (rewrite Hw; unfold Buffer.buffer_wf in Hb; lia).
    case_if; lia.
  - exists b'. by rewrite H3, Hr.
Qed.

(** Steps of the server that do nothing to connections. *)
Lemma lift_frames k s r' :
  RpcServerFacts.run (rpc s) (repeat RpcServer.NextFrame k) = Some (r', []) ->
  run s (repeat NextFrame k) = Some (set_rpc r' s, []).
Proof.
  revert s. induction k as [|k IH]; intros s; cbn [repeat RpcServerFacts.run run].
  { intros [= <-]. by destruct s. }
  destruct (RpcServer.step (rpc s) RpcServer.NextFrame) as [[[r1 a1]| |]|] eqn:E; try done.
  destruct (RpcServerFacts.run r1 (repeat RpcServer.NextFrame k)) as [[r2 a2]|] eqn:E2; [|done].
  intros [= <- [-> ->]%app_eq_nil]. cbn [step]. unfold rpc_step. rewrite E. cbn [perform]. unfold return_.
  by rewrite (IH (set_rpc r1 s) E2).
Qed.

(** The input buffer at each message callback. *)
Fixpoint input_buffers (b : Buffer.t) (chunks : list bytes) : list Buffer.t :=
  match chunks with
  | [] => []
  | chunk :: chunks =>
      match Buffer.readFd b (Buffer.ReadvOctets chunk) with
      | Ret (_, _, None, b) => b :: input_buffers (Buffer.retrieve b (Buffer.readableBytes b)) chunks
      | _ => []
      end
  end.

Lemma input_buffers_readable chunks b :
  Buffer.buffer_wf b -> Buffer.readable b = [] -> Forall chunk_ok chunks ->
  lenZ (Buffer.buffer_ b) + lenZ (concat chunks) <= Buffer.vector_max_size ->
  map Buffer.readable (input_buffers b chunks) = chunks.
Proof.
  intros Hb Hr Hch. revert b Hb Hr. induction Hch as [|chunk chunks [_ Hl] _ IH]; intros b Hb Hr Hmax; [done|].
  change (concat (chunk :: chunks)) with (chunk ++ concat chunks) in Hmax. rewrite lenZ_app in Hmax.
  pose proof (lenZ_nonneg (concat chunks)). cbn [input_buffers].
  destruct (readFd_chunk b chunk Hb Hr Hl ltac:(lia)) as (b1 & -> & Hwf & Hr1 & Hs1).
  destruct (retrieve_empties b1 Hwf) as (Hw2 & Hr2 & Hs2). cbn [map]. rewrite Hr1, IH; [done|done|done|].
  rewrite Hs2. lia.
Qed.

Lemma read_chunk s conn c chunk chunks last b r' b' :
  reading s = Some (conn, chunk :: chunks, last) -> conns s !! conn = Some c ->
  RpcServer.io_loop (rpc s) = true -> RpcServer.io_frames (rpc s) = None -> chunk <> [] ->
  Buffer.readFd (TcpConnection.input_buffer_ c) (Buffer.ReadvOctets chunk) = Ret (lenZ chunk, 0, None, b) ->
  RpcServer.onMessage (rpc s) conn b = Ret (r', b', []) ->
  exists k s' c', run s (ReadNext :: repeat NextFrame k) = Some (s', []) /\ rpc s' = r' /\
    RpcServer.io_frames r' = None /\ reading s' = Some (conn, chunks, last) /\
    conns s' !! conn = Some c' /\ kept c c' /\
    TcpConnection.input_buffer_ c' = Buffer.retrieve b (Buffer.readableBytes b).
Proof.
  intros Hrd Hc Hio Hfr Hne Hread Hon.
  destruct (onMessage_steps _ _ _ _ _ _ Hio Hfr Hon) as (k & r1 & a1 & next & out & Hfeed & Ha & Hfr' & Hrun).
  symmetry in Ha. apply app_eq_nil in Ha as [-> ->].
  pose proof (feed_empties _ _ _ _ _ _ Hfeed) as Hb'.
  assert (Hpos : (0 <? lenZ chunk) = true).
  { apply Z.ltb_lt. destruct chunk; [done|]. rewrite lenZ_cons. pose proof (lenZ_nonneg chunk). lia. }
  set (c0 := TcpConnection.logged TcpConnection.MessageCb (TcpConnection.set_input b c)).
  set (r2 := RpcServer.set_io_frames (option_map (fun id => (conn, id)) next) r1) in Hrun.
  set (c' := TcpConnection.set_input b' c0).
  set (s1 := set_conn conn c' (set_rpc r2 (set_reading (Some (conn, chunks, last)) s))).
  assert (Hst : step s ReadNext = Some (Ret (None, s1), [])).
  { cbn [step]. unfold read_next. rewrite Hrd, Hc, Hfr, bool_decide_true by done. rewrite Hread, Hpos.
    unfold message. cbn [rpc set_reading TcpConnection.input_buffer_ TcpConnection.logged TcpConnection.set_input]. by rewrite Hfeed. }
  exists k, (set_rpc r' s1), c'. split.
  { cbn [run]. rewrite Hst. by rewrite (lift_frames k s1 r' Hrun). }
  split_and!; try done. cbn. by rewrite lookup_insert_eq.
Qed.

(** The steps of the I/O thread in [handleRead]. *)
Definition read_event (e : event (Handler := Handler)) : Prop :=
  match e with ReadNext | NextFrame => True | _ => False end.

Lemma read_event_ok es : Forall read_event es -> Forall event_ok es.
Proof. intros H. eapply Forall_impl; [exact H|]. by intros []. Qed.

(** All the pieces of a readable event. *)
Lemma read_chunks chunks s conn c last acts r' :
  reading s = Some (conn, chunks, last) -> conns s !! conn = Some c -> tcp_inv s acts ->
  RpcServer.io_frames (rpc s) = None -> empty_input (lenZ (concat chunks)) c ->
  onMessages (rpc s) conn (input_buffers (TcpConnection.input_buffer_ c) chunks) = Ret (r', []) ->
  exists es s' c', Forall read_event es /\ run s es = Some (s', []) /\ rpc s' = r' /\ RpcServer.io_frames r' = None /\
    reading s' = Some (conn, [], last) /\ conns s' !! conn = Some c' /\ kept c c'.
Proof.
  revert s c acts. induction chunks as [|chunk chunks IH]; intros s c acts Hrd Hc Hi Hfr (Hb & Hr & Hmax).
  { cbn [input_buffers onMessages]. intros [= <-]. exists [], s, c. by split_and!. }
  destruct (ti_reading _ _ Hi _ Hrd) as [Hio Hch]. cbn [fst snd] in Hch. inversion Hch as [|? ? [Hne Hl] Hch']; subst.
  change (concat (chunk :: chunks)) with (chunk ++ concat chunks) in Hmax. rewrite lenZ_app in Hmax.
  pose proof (lenZ_nonneg (concat chunks)). cbn [input_buffers].
  destruct (readFd_chunk _ chunk Hb Hr Hl ltac:(lia)) as (b & Hread & Hwf & Hrb & Hs). rewrite Hread. cbn [onMessages].
  destruct (RpcServer.onMessage (rpc s) conn b) as [[[r1 b1] a1]| |] eqn:Eon; [|done..]. cbn [mbind outcome_bind].
  destruct (onMessages r1 conn _) as [[r2 a2]| |] eqn:Ems; [|done..]. cbn [mbind outcome_bind].
  intros [= <- [-> ->]%app_eq_nil].
  destruct (read_chunk s conn c chunk chunks last b r1 b1 Hrd Hc Hio Hfr Hne Hread Eon)
    as (k & s1 & c1 & Hrun1 & <- & Hfr1 & Hrd1 & Hc1 & Hk1 & Hb1).
  assert (Hok1 : Forall read_event (ReadNext :: repeat (NextFrame (Handler := Handler)) k)).
  { constructor; [done|]. apply Forall_forall. by intros e ->%list_elem_of_In%repeat_spec. }
  destruct (run_good _ _ _ _ _ Hi (read_event_ok _ Hok1) Hrun1) as [Hi1 _].
  destruct (retrieve_empties b Hwf) as (Hw2 & Hr2 & Hs2). rewrite <- Hb1 in *.
  destruct (IH s1 c1 _ Hrd1 Hc1 Hi1 Hfr1) as (es & s2 & c2 & Hes & Hrun2 & Hr' & Hfr2 & Hrd2 & Hc2 & Hk2);
    [split; [done|split; [done|rewrite Hs2; lia]]|done|].
  exists ((ReadNext :: repeat NextFrame k) ++ es), s2, c2. split; [by apply Forall_app|].
  split; [by rewrite (tcp_run_app _ _ _ _ _ Hrun1), Hrun2|]. split_and!; try done. by eapply kept_trans.
Qed.

(** * Serving a stream *)

(** The octets the server writes for requests. *)
Definition responses_wire (handlers : gmap bytes Handler) now call (rs : list RpcRequest) : bytes :=
  concat (map (fun q => makeResponseFrame (request_id q) (RpcServer.worker_response handlers now call q)) rs).

(** A connection that is idle: nothing of a request or a response is anywhere
    between its sockets. *)
Record fresh s (conn : nat) (c : TcpConnection.t) (n : Z) : Prop := mkFresh {
  fr_conn : conns s !! conn = Some c;
  fr_sendable : sendable c;
  fr_pending : TcpConnection.pending c = [];
  fr_input : empty_input n c;
  fr_known : exists id cs, RpcServer.connections_ (rpc s) !! conn = Some id /\
    RpcServer.states (rpc s) !! id = Some cs /\ RpcServer.parser cs = FrameParser.init;
  fr_idle : idle s = true;
  fr_stopping : RpcServer.stopping_ (rpc s) = false;
  fr_queue : RpcServer.work_queue_ (rpc s) = [];
  fr_in_flight : RpcServer.in_flight (rpc s) = [];
}.

Lemma kept_sendable c c' : kept c c' -> wf c' -> sendable c -> sendable c'.
Proof.
  intros [Hs Ho Hp Hk _] Hwf [H1 H2 H3 H4]. constructor; [congruence|unfold out in *; congruence|done|].
  unfold kernel_open in *. by rewrite Hk.
Qed.

Lemma frames_to_sends conn (f : RpcRequest -> bytes) rs :
  frames_to conn (map (fun q => RpcServer.Send conn (f q)) rs) = map f rs.
Proof. unfold frames_to. induction rs as [|q rs IH]; [done|]. cbn. rewrite decide_True by done. cbn. by f_equal. Qed.

Lemma pending_sends_map msgs : omap (fun f => match f with TcpConnection.SendInLoop m => Some m | _ => None end)
  (map TcpConnection.SendInLoop msgs) = msgs.
Proof. induction msgs as [|m l IH]; [done|]. cbn. by f_equal. Qed.

(** What the I/O thread and the workers do for it. *)
Definition serving now call (conn : nat) (e : event (Handler := Handler)) : Prop :=
  read_event e \/ answering now call conn e.

Lemma serving_ok now call conn es : Forall (serving now call conn) es -> Forall event_ok es.
Proof. intros H. eapply Forall_impl; [exact H|]. by intros [] []. Qed.

Lemma tcp_serves_stream s acts conn c chunks ms rs now call :
  tcp_inv s acts -> known s -> fresh s conn c (lenZ (concat chunks)) ->
  Forall encodable ms -> Forall2 message_is ms rs -> lenZ rs <= RpcServer.kMaxPendingRequestsPerConnection ->
  Forall chunk_ok chunks -> concat chunks = FrameParserFacts.stream ms ->
  exists es s' acts' c', Forall (serving now call conn) es /\
    run s (Readable conn chunks (TcpConnection.ReadFails TcpConnection.EAGAIN) :: es) = Some (s', acts') /\
    conns s' !! conn = Some c' /\
    TcpConnection.wire c' = TcpConnection.wire c ++ responses_wire (RpcServer.handlers_ (rpc s)) now call rs.
Proof.
  intros Hi Hk [Hc Hse Hpe Hin (id & cs & Hcid & Hid & Hpar) Hidle Hst Hq Hif] Hms Hrs Hlen Hch Hstr.
  apply idle_spec in Hidle as Hid'. destruct Hid' as (Hio & Hfr & Hrd).
  set (last := TcpConnection.ReadFails TcpConnection.EAGAIN).
  set (s0 := set_reading (Some (conn, chunks, last)) s).
  assert (Hst0 : step s (Readable conn chunks last) = Some (Ret (None, s0), [])).
  { cbn [step]. rewrite Hc, Hidle. unfold TcpConnection.is_state. rewrite bool_decide_false; [done|].
    rewrite (se_up _ Hse). done. }
  destruct (tcp_step_good s (Readable conn chunks last) s0 acts [] Hi Hch Hst0) as [Hi0 _].
  destruct Hin as (Hib & Hir & Him).
  set (bufs := input_buffers (TcpConnection.input_buffer_ c) chunks).
  assert (Hbufs : concat (map Buffer.readable bufs) = FrameParserFacts.stream ms).
  { unfold bufs. by rewrite input_buffers_readable. }
  destruct (serve_stream (rpc s) conn id cs bufs ms rs now call (ti_rpc _ _ Hi) Hio Hst Hcid Hid Hpar Hq Hif Hms Hrs Hlen Hbufs)
    as (r1 & r2 & esw & Hon & Hesw & Hrw & _ & _).
  destruct (read_chunks chunks s0 conn c last _ r1 eq_refl Hc Hi0 Hfr (conj Hib (conj Hir Him)) Hon)
    as (es1 & s1 & c1 & Hes1 & Hrun1 & Hr1 & Hfr1 & Hrd1 & Hc1 & Hk1).
  destruct (run_good _ _ _ _ _ Hi0 (read_event_ok _ Hes1) Hrun1) as [Hi1 _].
  (* the end of the reads *)
  set (s2 := set_reading None s1).
  assert (Hst2 : step s1 ReadNext = Some (Ret (None, s2), [])).
  { cbn [step]. unfold read_next. by rewrite Hrd1, Hc1, Hr1, Hfr1. }
  destruct (ti_reading _ _ Hi1 _ Hrd1) as [Hio1 _].
  destruct (tcp_step_good s1 ReadNext s2 _ [] Hi1 I Hst2) as [Hi2 _].
  assert (Hk2 : known s2).
  { assert (Hrun02 : run s (Readable conn chunks last :: es1 ++ [ReadNext]) = Some (s2, [])).
    { cbn [run]. rewrite Hst0, (tcp_run_app _ _ _ _ _ Hrun1). cbn [run]. by rewrite Hst2. }
    eapply (run_known _ s s2 acts _ Hi Hk); [|exact Hrun02]. constructor; [done|]. apply Forall_app. split; [by apply read_event_ok|by repeat constructor]. }
  rewrite <- Hr1 in Hrw. change (rpc s1) with (rpc s2) in Hrw.
  destruct (lift_workers now call esw s2 _ r2 _ Hi2 Hk2 Hesw Hrw) as (s3 & Hrun3 & Hr3 & Hrd3 & Hq3).
  assert (Hesw' : Forall event_ok (map Rpc esw)) by (apply Forall_fmap; by apply Forall_true).
  destruct (run_good _ _ _ _ _ Hi2 Hesw' Hrun3) as [Hi3 _].
  assert (Hse1 : sendable c1) by (eapply kept_sendable; [exact Hk1|apply (ok_wf _ _ (ti_conns _ _ Hi1 _ _ Hc1))|done]).
  specialize (Hq3 conn c1 Hc1 (se_up _ Hse1)).
  rewrite (frames_to_sends conn (fun q => makeResponseFrame (request_id q) (RpcServer.worker_response (RpcServer.handlers_ (rpc s)) now call q))) in Hq3.
  set (msgs := map _ rs) in Hq3. set (c3 := queued_for msgs c1) in Hq3.
  assert (Hse3 : sendable c3) by (destruct Hse1; constructor; try done; apply (ok_wf _ _ (ti_conns _ _ Hi3 _ _ Hq3))).
  assert (Hidle3 : idle s3 = true).
  { eapply (worker_events_idle now call esw s2 s3); [exact Hesw|apply Hi2|by rewrite Hr3|done|].
    unfold idle. rewrite (bool_decide_true (reading s2 = None)) by done. change (rpc s2) with (rpc s1).
    by rewrite Hio1, Hr1, Hfr1. }
  assert (Hp3 : TcpConnection.pending c3 = map TcpConnection.SendInLoop msgs).
  { unfold c3, queued_for. cbn. by rewrite (ke_pending _ _ Hk1), Hpe. }
  assert (Hlen3 : Forall (fun m => lenZ m <= kMaxTotalLength) msgs).
  { apply Forall_forall. intros m (q & -> & _)%list_elem_of_fmap. apply makeResponseFrame_length. }
  destruct (functors_send conn msgs s3 c3 _ Hi3 Hidle3 Hq3 Hse3 Hp3 Hlen3) as (s4 & c4 & Hrun4 & _ & _ & _ & Hc4 & _ & _ & Hw4).
  exists (es1 ++ ReadNext :: map Rpc esw ++ repeat (CallFunctor conn) (length msgs)), s4. eexists. exists c4.
  split; [|split; [|split; [done|]]].
  - apply Forall_app. split; [eapply Forall_impl; [exact Hes1|by left]|]. constructor; [by left|].
    apply Forall_app. split; [apply Forall_fmap; eapply Forall_impl; [exact Hesw|by right]|].
    apply Forall_forall. intros e ->%list_elem_of_In%repeat_spec. by right.
  - cbn [run]. rewrite Hst0, (tcp_run_app _ _ _ _ _ Hrun1). cbn [run]. rewrite Hst2, (tcp_run_app _ _ _ _ _ Hrun3), Hrun4. done.
  - rewrite Hw4. unfold c3, queued_for. cbn. by rewrite (ke_wire _ _ Hk1).
Qed.

End serves.
