(* ===== verification/RpcReactor.v ===== *)
(** The RPC server on its reactor: what [start] of src/rpc/rpc_server.cpp puts
    together.  The I/O thread with its event loop ([RpcIo]), the TCP server with
    its table of connections ([TcpServer]) and the server's callbacks on the
    connections ([RpcTcp]) are one state.  What a connection or the TCP server
    queues for the loop is a functor of its queue, called in its turn. *)
From Stdlib Require Import ZArith Lia.
From Stdlib Require Import Strings.Byte.
From stdpp Require Import base list strings gmap.
From S2P Require Import Prelude NetBuffer EventLoop TcpConnection TcpConnectionLife Socket TcpServer RpcMessage RpcServer RpcIo RpcTcp.

Module RpcReactor.
#[local] Existing Instance EventLoop.phase_eq_dec.

(** What a functor of the loop does, that of [stop] apart: the next of what
    [runInLoop] queued for a connection, or of what the TCP server queued. *)
Inductive task := OfConnection (p : nat) | OfServer.
#[export] Instance task_eq_dec : EqDecision task.
Proof. solve_decision. Defined.

(** The connection callback of the TCP server; its calls are in the log. *)
Abbreviation connection_callback := (Some TcpConnection.return_).

Section reactor.
Context `{Inet} {Handler : Type}.

(** * State *)

(** [tasks] are the functors queued for the loop since [start]: functor [S i] of
    the loop is the [i]-th, functor 0 that of [stop]. *)
Record t := mk {
  io : @IoThread.t Handler;
  world : TcpServer.world;
  reading : option (nat * list bytes * TcpConnection.read_end);
  tasks : list task;
}.

Definition server_name : bytes := str "NexusRpcServer".

Definition init (worker_thread_count : nat) : t :=
  mk (IoThread.init worker_thread_count) (TcpServer.mkWorld (TcpServer.construct server_name) ∅ []) None [].

Definition set_io i (s : t) : t := mk i (world s) (reading s) (tasks s).
Definition set_world w (s : t) : t := mk (io s) w (reading s) (tasks s).
Definition set_reading r (s : t) : t := mk (io s) (world s) r (tasks s).
Definition set_tasks l (s : t) : t := mk (io s) (world s) (reading s) l.

Definition rpc (s : t) : @RpcServer.Server Handler := IoThread.rpc (io s).
Definition loop (s : t) : option EventLoop.t := IoThread.loop (io s).
Definition set_rpc r (s : t) : t :=
  set_io (IoThread.mk r (IoThread.tcp_server_ (io s)) (IoThread.loop (io s)) (IoThread.entered (io s))) s.
Definition set_loop l (s : t) : t :=
  set_io (IoThread.mk (rpc s) (IoThread.tcp_server_ (io s)) (Some l) (IoThread.entered (io s))) s.

(** The server and its connections as the model of the callbacks has them. *)
Definition net (s : t) : @RpcTcp.t Handler :=
  RpcTcp.mk (rpc s) (TcpServer.tcp <$> TcpServer.conns (world s)) (reading s).

(** A step returns, or leaves with an exception. *)
Abbreviation result := (outcome (option Buffer.exn * t)).
Definition return_ (s : t) : result := Ret (None, s).

(** * The queue of the loop *)

(** [loop_->queueInLoop], on the loop's thread or another; a loop that is gone is
    a dangling pointer. *)
Definition queue (in_loop : bool) (k : task) (s : t) : outcome t :=
  match loop s with
  | None => OutOfBounds
  | Some l =>
      let f := S (length (tasks s)) in
      Ret (set_tasks (tasks s ++ [k])
             (set_loop (if in_loop then EventLoop.queueInLoop f l else EventLoop.queue_other f l) s))
  end.

Fixpoint queue_all (in_loop : bool) (ks : list task) (s : t) : outcome t :=
  match ks with
  | [] => Ret s
  | k :: ks => let* s := queue in_loop k s in queue_all in_loop ks s
  end.

(** * The TCP server *)

(** The calls of the connection callback in what the connections of [w'] added
    to their logs since [w]. *)
Definition new_notifications (before : option TcpServer.conn) (after : TcpConnection.t) : nat :=
  length (List.filter is_connection_cb
    (drop (length (default [] ((fun c => TcpConnection.log (TcpServer.tcp c)) <$> before))) (TcpConnection.log after))).

Definition announced (w w' : TcpServer.world) : list nat :=
  concat ((fun x => repeat x.1 (new_notifications (TcpServer.conns w !! x.1) (TcpServer.tcp x.2))) <$>
          map_to_list (TcpServer.conns w')).

(** A member function of the TCP server on the loop's thread: the connection
    callback is [onConnection], and what it queues goes to the loop. *)
Definition server_call (f : TcpServer.world -> TcpServer.result) (s : t) : result :=
  let* '(thrown, w) := f (world s) in
  let queued := (length (TcpServer.functors w) - length (TcpServer.functors (world s)))%nat in
  let* s := queue_all true (repeat OfServer queued)
              (set_world w (set_rpc (foldl RpcServer.onConnection (rpc s) (announced (world s) w)) s)) in
  Ret (thrown, s).

(** [tcp_server_->stop()]; there are no sub loops to join. *)
Definition stop_server : TcpServer.world -> TcpServer.result :=
  fun w => TcpServer.stop_end connection_callback (TcpServer.stop_begin w).

(** The next of what the TCP server queued. *)
Definition run_functor (w : TcpServer.world) : option (TcpServer.functor * TcpServer.world) :=
  match TcpServer.pop TcpServer.main_loop_ (TcpServer.functors w) with
  | Some (f, l) => Some (f, TcpServer.set_functors l w)
  | None => None
  end.

(** * The connections *)

(** The connection a step of the callbacks' model is about. *)
Definition subject (n : @RpcTcp.t Handler) (e : @RpcTcp.event Handler) (acts : list RpcServer.action) : option nat :=
  match e with
  | RpcTcp.Rpc _ => RpcTcp.target <$> head acts
  | RpcTcp.ReadNext => (fun rd => rd.1.1) <$> RpcTcp.reading n
  | RpcTcp.NextFrame => fst <$> RpcServer.io_frames (RpcTcp.rpc n)
  | RpcTcp.Writable p | RpcTcp.Failing p _ | RpcTcp.CallFunctor p => Some p
  | RpcTcp.Readable _ _ _ | RpcTcp.Connect _ _ _ _ _ | RpcTcp.Destroy _ => None
  end.

(** What was queued with [runInLoop]. *)
Definition new_functors (before after : TcpConnection.t) : nat :=
  length (TcpConnection.pending after) - length (TcpConnection.pending before).

(** The state after a step that left the connection [p] as it is in [n]: what
    the connection queued, and what its close callback did, goes to the loop. *)
Definition store (in_loop : bool) (p : option nat) (n : @RpcTcp.t Handler) (s : t) : outcome t :=
  let w := world s in
  let s := set_rpc (RpcTcp.rpc n) (set_reading (RpcTcp.reading n) s) in
  match p with
  | None => Ret s
  | Some p =>
      match TcpServer.conns w !! p, RpcTcp.conns n !! p with
      | Some c, Some after =>
          queue_all in_loop
            (repeat (OfConnection p) (new_functors (TcpServer.tcp c) after) ++
             repeat OfServer (TcpServer.new_closes (TcpServer.tcp c) after))
            (set_world (TcpServer.close_callback_ p c after (TcpServer.set_tcp p c after w)) s)
      | _, _ => Ret s
      end
  end.

Definition network (in_loop : bool) (e : @RpcTcp.event Handler) (s : t) : option (result * list RpcServer.action) :=
  match RpcTcp.step (net s) e with
  | None => None
  | Some (r, acts) =>
      Some (let* '(thrown, n) := r in
            let* s := store in_loop (subject (net s) e acts) n s in Ret (thrown, s), acts)
  end.

(** * Steps *)

Definition at_phase (p : EventLoop.phase) (s : t) : bool :=
  match loop s with Some l => bool_decide (EventLoop.at_ l = p) | None => false end.

(** The I/O thread is not in a callback. *)
Definition between (s : t) : bool := RpcTcp.idle (net s).

Inductive event :=
  | StartServer (port : Z) (st : IoThread.startup)
  | StopServer
  | Thread (e : @RpcServer.event Handler)
  | Accept (p : nat) (fd : Z) (buffer : Buffer.t) (kernel_write : nat -> TcpConnection.write_result)
      (kernel_shutdown : option Z) (peer_addr : InetAddress.t)
  | Network (e : @RpcTcp.event Handler)
  | Loop (e : EventLoop.event)
  | IoReturn.

(** The steps of the threads other than the I/O thread; [start] and [stop] are
    events of their own. *)
Definition thread_event (e : @RpcServer.event Handler) : bool :=
  match e with
  | RpcServer.Start _ _ | RpcServer.StopBegin => false
  | e => RpcTcp.other_thread e
  end.

(** What a ready connection does to the I/O thread. *)
Definition ready_event (e : @RpcTcp.event Handler) : bool :=
  match e with
  | RpcTcp.Readable _ _ _ | RpcTcp.ReadNext | RpcTcp.NextFrame | RpcTcp.Writable _ | RpcTcp.Failing _ _ => true
  | _ => false
  end.

(** The loop's own steps; functors are queued with [queue]. *)
Definition loop_event (e : EventLoop.event) : bool :=
  match e with
  | EventLoop.LoopEnter | EventLoop.EpollReturn _ | EventLoop.SwapPending | EventLoop.EndFunctors | EventLoop.WakeOther => true
  | _ => false
  end.

(** The loop calls the next functor. *)
Definition call_functor (s : t) : option (result * list RpcServer.action) :=
  match loop s with
  | None => None
  | Some l =>
      match EventLoop.callbacks l, IoThread.loop_event EventLoop.CallFunctor (io s) with
      | f :: _, Some i =>
          let s := set_io i s in
          match f with
          | O => Some (server_call stop_server s, [])
          | S i =>
              match tasks s !! i with
              | Some (OfConnection p) => network true (RpcTcp.CallFunctor p) s
              | Some OfServer =>
                  match run_functor (world s) with
                  | Some (f, w) => Some (server_call (TcpServer.run_functor connection_callback f) (set_world w s), [])
                  | None => None
                  end
              | None => None
              end
          end
      | _, _ => None
      end
  end.

(** A step with the actions of the server; none when no thread can take it.  A
    [start] that is not refused finds no connection of an earlier one. *)
Definition step (s : t) (e : event) : option (result * list RpcServer.action) :=
  match e with
  | StartServer port st =>
      if IoThread.refuses port (io s) then Some (return_ s, [])
      else if bool_decide (TcpServer.conns (world s) = ∅) then
        match IoThread.step (io s) (IoThread.StartServer port st) with
        | Some r =>
            Some (let* i := r in
                  return_ match st with
                          | IoThread.Listens => mk i (TcpServer.init server_name 0) None []
                          | _ => set_io i s
                          end, [])
        | None => None
        end
      else None
  | StopServer =>
      match IoThread.stop_begin (io s) with
      | Some i => Some (return_ (set_io i s), [])
      | None => None
      end
  | Thread e => if thread_event e then network false (RpcTcp.Rpc e) s else None
  | Accept p fd buffer kernel_write kernel_shutdown peer_addr =>
      if at_phase EventLoop.Handling s && between s && TcpServer.acceptor_ (TcpServer.server (world s)) &&
         bool_decide (TcpServer.conns (world s) !! p = None) then
        Some (server_call (TcpServer.onNewConnection connection_callback p
                (TcpConnection.construct fd buffer 0 kernel_write kernel_shutdown) peer_addr) s, [])
      else None
  | Network e => if ready_event e && at_phase EventLoop.Handling s then network true e s else None
  | Loop EventLoop.WakeOther =>
      match IoThread.loop_event EventLoop.WakeOther (io s) with
      | Some i => Some (return_ (set_io i s), [])
      | None => None
      end
  | Loop EventLoop.CallFunctor => if between s then call_functor s else None
  | Loop e =>
      if loop_event e && between s then
        match IoThread.loop_event e (io s) with
        | Some i => Some (return_ (set_io i s), [])
        | None => None
        end
      else None
  | IoReturn =>
      match IoThread.io_return (io s) with
      | Some r => Some (let* i := r in return_ (set_io i s), [])
      | None => None
      end
  end.

(** A run in which nothing throws, with the actions of the server. *)
Fixpoint run (s : t) (es : list event) : option (t * list RpcServer.action) :=
  match es with
  | [] => Some (s, [])
  | e :: es =>
      match step s e with
      | Some (Ret (None, s), a1) =>
          match run s es with
          | Some (s, a2) => Some (s, a1 ++ a2)
          | None => None
          end
      | _ => None
      end
  end.

End reactor.
End RpcReactor.
