(* ===== verification/RpcReactorSteps.v ===== *)
(** Steps of the RPC server on its reactor: each step of the callbacks changes
    one connection, through its members, and what these queue is known. *)
From Stdlib Require Import ZArith Lia.
From Stdlib Require Import Strings.Byte.
From stdpp Require Import base list strings gmap.
From S2P Require Import Prelude Chars NetBuffer EventLoop EventLoopFacts TcpConnection TcpConnectionFacts TcpConnectionLife Socket SocketFacts TcpServer TcpServerFacts RpcMessage RpcServer RpcServerFacts RpcIo RpcIoFacts RpcLedger RpcTcp RpcTcpFacts RpcTcpLive RpcReactor.
#[local] Set Warnings "-clear-no-such-hyp".

(** * One connection *)

Section connection.
Import TcpConnection.
Abbreviation close_callback := RpcTcp.close_callback.

Lemma callbacks_none : callbacks_evolve None None None None.
Proof. by split_and!. Qed.

(** A call on the loop's thread queues nothing for the loop. *)
Definition same_pending (c : t) (r : result) : Prop :=
  match r with Ret (None, c') => pending c' = pending c | _ => True end.

Lemma same_pending_from c c1 r : pending c1 = pending c -> same_pending c1 r -> same_pending c r.
Proof. unfold same_pending. intros E. destruct r as [[[e|] c2]| |]; try done. by rewrite E. Qed.

Lemma same_pending_then c r k :
  same_pending c r -> (forall c', same_pending c' (k c')) -> same_pending c (then_ r k).
Proof.
  destruct r as [[[e|] c1]| |]; try done. cbn. intros E H. by eapply same_pending_from.
Qed.

Lemma handleClose_pending c : same_pending c (handleClose close_callback c).
Proof. unfold handleClose. by case_if. Qed.

Lemma shutdownInLoop_pending c : same_pending c (shutdownInLoop close_callback c).
Proof.
  unfold shutdownInLoop. case_if; [done|]. destruct (kernel_shutdown c); [|done].
  case_if; [apply handleClose_pending|done].
Qed.

Lemma forceCloseInLoop_pending c : same_pending c (forceCloseInLoop close_callback c).
Proof. unfold forceCloseInLoop. case_if; [done|apply handleClose_pending]. Qed.

Lemma drain_pending fuel c b c' : drain fuel c = Ret (b, c') -> pending c' = pending c.
Proof.
  revert c. induction fuel as [|f IH]; intros c; cbn [drain]; case_if; try done; try (by intros [= <- <-]).
  destruct (write_spec (Buffer.readable (output_buffer_ c)) c) as (r & -> & _). destruct r as [n|errno].
  - by intros H%IH.
  - by destruct (errno =? EAGAIN); intros [= <- <-].
Qed.

Lemma handleWrite_pending c : same_pending c (handleWrite None close_callback c).
Proof.
  unfold handleWrite. case_if; [done|].
  destruct (drain _ c) as [[b c1]| |] eqn:Ed; [|done..]. apply drain_pending in Ed. cbn [mbind outcome_bind].
  apply (same_pending_from c c1); [done|]. case_if; [apply handleClose_pending|]. case_if; [|done].
  cbn [fire then_ mbind outcome_bind return_]. apply (same_pending_from c1 (change Channel.DisableWriting c1)); [done|].
  case_if; [apply shutdownInLoop_pending|done].
Qed.

Lemma buffer_rest_pending data n rb c : same_pending c (buffer_rest None data n rb c).
Proof.
  unfold buffer_rest. case_if; [|done]. apply same_pending_then; [by case_if|].
  intros c2. destruct (Buffer.append _ _) as [[[e|] b]| |]; try done. cbn. by destruct (negb _).
Qed.

Lemma sendInLoop_pending data c : same_pending c (sendInLoop None close_callback None data c).
Proof.
  unfold sendInLoop. case_if; [done|]. set (c0 := set_accepted _ c).
  apply (same_pending_from c c0); [done|]. clearbody c0. set (rb := Buffer.readableBytes _).
  assert (Hrest : forall n c1, pending c1 = pending c0 -> same_pending c0
    (then_ (buffer_rest None data n rb c1)
     (fun c => if (0 <? n)%nat && (lenZ data - Z.of_nat n =? 0) && (rb =? 0) then fire None WriteCompleteCb c else return_ c))).
  { intros n c1 Hc1. apply (same_pending_from c0 c1); [done|].
    apply same_pending_then; [apply buffer_rest_pending|]. intros c2. by case_if. }
  case_if; [|by apply (Hrest 0%nat)].
  destruct (write_spec data c0) as (r & -> & _). destruct r as [n|errno]; [by apply Hrest|].
  destruct (errno =? EAGAIN); [by apply (Hrest 0%nat)|]. eapply same_pending_from; [|apply handleClose_pending]. done.
Qed.

(** What a step of the callbacks does to the connection it is about: it goes
    through the connection's members, which leave [queued] more functors. *)
Definition moved (queued : nat) (c c' : t) : Prop := evolves c c' /\ length (pending c') = (length (pending c) + queued)%nat.

Lemma moved_trans j k c c1 c2 : moved j c c1 -> moved k c1 c2 -> moved (j + k) c c2.
Proof. intros [H1 E1] [H2 E2]. split; [exact (transitivity (R := evolves) H1 H2)|lia]. Qed.

(** A member on the loop's thread. *)
Lemma moved_in_loop f c c' :
  evs f -> same_pending c (f c) -> f c = Ret (None, c') -> moved 0 c c'.
Proof.
  intros He Hp Hf. specialize (He c). rewrite Hf in He, Hp. cbn in He, Hp. split; [done|]. rewrite Hp. lia.
Qed.

Lemma act_moved a c c' : RpcTcp.act true a c = Ret (None, c') -> moved 0 c c'.
Proof.
  destruct a as [conn frame|conn|conn]; cbn [RpcTcp.act]; intros Hf.
  - revert Hf. unfold send. case_if; [intros [= <-]; split; [done|lia]|]. cbn [runInLoop].
    apply moved_in_loop; [apply (sendInLoop_evs _ _ _ _ callbacks_none)|apply sendInLoop_pending].
  - eapply (moved_in_loop (shutdown close_callback true)); [apply shutdown_evs| |exact Hf].
    unfold shutdown. case_if; [done|]. apply (same_pending_from c (set_state kDisconnecting c)); [done|].
    apply shutdownInLoop_pending.
  - eapply (moved_in_loop (forceClose close_callback true)); [apply forceCloseInLoop_evs|apply forceCloseInLoop_pending|exact Hf].
Qed.

(** A worker's answer waits for the loop if the connection is up. *)
Definition answer_queued (c : t) : nat := if is_state kConnected c then 1 else 0.

Lemma act_moved_other conn frame c :
  exists c', RpcTcp.act false (RpcServer.Send conn frame) c = Ret (None, c') /\ moved (answer_queued c) c c'.
Proof.
  cbn [RpcTcp.act]. unfold send, answer_queued. destruct (is_state kConnected c); cbn [negb runInLoop]; eexists; (split; [done|]); split.
  - by apply evolves_same.
  - cbn. by rewrite length_app.
  - done.
  - lia.
Qed.

End connection.

(** * Steps of the callbacks *)

Section steps.
Context {Handler : Type}.
Implicit Types n : RpcTcp.t (Handler := Handler).
Import RpcTcp.

(** Only the connection [p] changes, as [R] says. *)
Definition touches (R : TcpConnection.t -> TcpConnection.t -> Prop) (p : nat) n n' : Prop :=
  match conns n !! p with
  | Some c => exists c', conns n' = <[p := c']> (conns n) /\ R c c'
  | None => conns n' = conns n
  end.

Abbreviation on_p p := (Forall (fun a => target a = p)).

Lemma feed_targets r p b r' b' acts next :
  RpcServer.onMessage_feed (Handler := Handler) r p b = Ret (r', b', acts, next) -> on_p p acts.
Proof.
  unfold RpcServer.onMessage_feed. destruct (_ !! _) as [id|]; [|intros [= _ _ <- _]; by repeat constructor].
  destruct (_ !! _) as [cs|]; [|done]. destruct (FrameCodec.FrameParser.feed _ _) as [[fr q]| |]; [|done..].
  cbn [mbind outcome_bind]. case_if; intros [= _ _ <- _]; by repeat constructor.
Qed.

Lemma frame_targets r p id r' acts again :
  RpcServer.onMessage_frame (Handler := Handler) r p id = Ret (r', acts, again) -> on_p p acts.
Proof.
  unfold RpcServer.onMessage_frame. destruct (_ !! _) as [cs|]; [|done].
  case_if; [intros [= _ <- _]; constructor|]. case_if; [intros [= _ <- _]; by repeat constructor|].
  destruct (RpcServer.frame_request _) as [rq|]; [|intros [= _ <- _]; by repeat constructor].
  destruct (RpcServer.admit_request _ _ _ _) as [[r1 a1]| |] eqn:Ea; [|done..]. cbn [mbind outcome_bind].
  assert (Ha : on_p p a1).
  { revert Ea. unfold RpcServer.admit_request. destruct (_ !! _); [|done]. case_if.
    - destruct (RpcServer.fetch_sub _ _); [|done..]. intros [= _ <-]. by repeat constructor.
    - destruct (RpcServer.enqueue _ _) as [b r2]. destruct b; cbn [negb]; [intros [= _ <-]; constructor|].
      destruct (RpcServer.fetch_sub _ _); [|done..]. intros [= _ <-]. by repeat constructor. }
  destruct (_ !! _); [|done]. destruct (FrameCodec.FrameParser.feed _ _) as [[fr q]| |]; [|done..].
  cbn [mbind outcome_bind]. case_if; intros [= _ <- _]; [|done]. apply Forall_app. split; [done|]. by repeat constructor.
Qed.

Lemma on_touches p f n n' (R : TcpConnection.t -> TcpConnection.t -> Prop) :
  on p f n = Ret (None, n') -> (forall c c', f c = Ret (None, c') -> R c c') ->
  is_Some (conns n !! p) /\ touches R p n n' /\ reading n' = reading n.
Proof.
  unfold on, touches. destruct (conns n !! p) as [c|]; [|done]. destruct (f c) as [[x c']| |] eqn:Ef; [|done..].
  cbn [mbind outcome_bind]. intros [= -> <-] HR. split; [by eexists|]. split; [|done]. exists c'. by split; [|apply HR].
Qed.

Lemma touches_trans j k p n n1 n2 :
  touches (moved j) p n n1 -> touches (moved k) p n1 n2 -> touches (moved (j + k)) p n n2.
Proof.
  unfold touches. destruct (conns n !! p) as [c|] eqn:Ec; [|intros E; by rewrite E, Ec].
  intros (c1 & E1 & H1). rewrite E1, lookup_insert_eq. intros (c2 & E2 & H2). exists c2.
  split; [by rewrite E2, insert_insert_eq|]. by eapply moved_trans.
Qed.

Lemma touches_refl p n n' : conns n' = conns n -> touches (moved 0) p n n'.
Proof.
  unfold touches. intros E. destruct (conns n !! p) as [c|] eqn:Ec; [|done].
  exists c. split; [by rewrite E, insert_id|]. split; [done|]. lia.
Qed.

Lemma touches_set n0 n n' p R : conns n0 = conns n -> touches R p n0 n' -> touches R p n n'.
Proof. unfold touches. by intros ->. Qed.

Lemma perform_touches p acts n n' :
  on_p p acts -> perform true acts n = Ret (None, n') -> touches (moved 0) p n n' /\ reading n' = reading n.
Proof.
  intros Ha. revert n. induction Ha as [|a acts Hp _ IH]; intros n; cbn [perform].
  { intros [= <-]. split; [by apply touches_refl|done]. }
  rewrite Hp. unfold then_. destruct (on p _ n) as [[[x|] n1]| |] eqn:E; try done. cbn [mbind outcome_bind].
  apply (on_touches p _ n n1 (moved 0)) in E as (_ & H1 & R1); [|apply act_moved].
  intros [H2 R2]%IH. split; [exact (touches_trans 0 0 _ _ _ _ H1 H2)|congruence].
Qed.

Lemma rpc_step_touches p e n n' acts :
  (forall r acts, RpcServer.step (rpc n) e = Some (Ret (r, acts)) -> on_p p acts) ->
  rpc_step true e n = Some (Ret (None, n'), acts) -> touches (moved 0) p n n' /\ reading n' = reading n.
Proof.
  unfold rpc_step. intros He. destruct (RpcServer.step _ _) as [[[r a]| |]|] eqn:E; try done. intros [= Hp <-].
  destruct (perform_touches p a _ _ (He _ _ eq_refl) Hp) as [H R]. split; [|done]. by eapply touches_set; [|exact H].
Qed.

(** ** The I/O thread *)

Lemma handleClose_moved c c' : TcpConnection.handleClose close_callback c = Ret (None, c') -> moved 0 c c'.
Proof. apply moved_in_loop; [apply handleClose_evs|apply handleClose_pending]. Qed.

Lemma read_next_touches n n' acts :
  read_next n = Some (Ret (None, n'), acts) ->
  exists p, reading n = Some p /\ touches (moved 0) p.1.1 n n'.
Proof.
  unfold read_next. destruct (reading n) as [[[p chunks] last]|]; [|done].
  destruct (conns n !! p) as [c|] eqn:Ec; [|done]. case_if; [|done].
  assert (Hclose : forall n1, conns n1 = conns n ->
    Some (on p (TcpConnection.handleClose close_callback) n1, []) = Some (Ret (None, n'), acts) -> touches (moved 0) p n n').
  { intros n1 E1 [= Hon _]. apply (on_touches p _ n1 n' (moved 0)) in Hon as (_ & Hon & _); [|apply handleClose_moved].
    by eapply touches_set. }
  intros Hs. eexists. split; [done|]. cbn [fst]. destruct chunks as [|chunk chunks].
  { destruct last as [|errno]; [by eapply Hclose; [|exact Hs]|].
    destruct (errno =? _); [|by eapply Hclose; [|exact Hs]]. injection Hs as <- _. by apply touches_refl. }
  destruct (Buffer.readFd _ _) as [[[[k e] thrown] b]| |]; try done.
  destruct thrown as [x|]; [done|].
  assert (Hset : forall c1 n1, moved 0 c c1 -> conns n1 = <[p := c1]> (conns n) -> touches (moved 0) p n n1).
  { intros c1 n1 Hm E1. unfold touches. rewrite Ec. by exists c1. }
  assert (Hin : moved 0 c (TcpConnection.set_input b c)) by (split; [by apply evolves_same|cbn; lia]).
  destruct (0 <? k).
  - unfold message in Hs. destruct (RpcServer.onMessage_feed _ _ _) as [[[[r b'] a] next]| |] eqn:Ef; try done.
    injection Hs as Hp _. apply perform_touches with (p := p) in Hp as [Hp _]; [|by eapply feed_targets].
    eapply (touches_trans 0 0); [|exact Hp].
    apply (Hset (TcpConnection.set_input b' (TcpConnection.logged TcpConnection.MessageCb (TcpConnection.set_input b c)))); [|done].
    apply (moved_trans 0 0 _ _ _ Hin). split; [|cbn; lia].
    etransitivity; [by apply (evolves_logged TcpConnection.MessageCb)|by apply evolves_same].
  - injection Hs as Hon _. apply (on_touches p _ _ n' (moved 0)) in Hon as (_ & Hon & _); [|apply handleClose_moved].
    eapply (touches_trans 0 0); [|exact Hon]. by apply (Hset (TcpConnection.set_input b c)).
Qed.

Lemma tcp_event_touches p f n n' acts (R : TcpConnection.t -> TcpConnection.t -> Prop) :
  (forall c c', f c = Ret (None, c') -> R c c') ->
  tcp_event p f n = Some (Ret (None, n'), acts) -> touches R p n n' /\ reading n' = None.
Proof.
  intros HR. unfold tcp_event. destruct (conns n !! p); [|done]. destruct (idle n) eqn:Hi; [|done]. intros [= Ho _].
  destruct (on_touches p f n n' R Ho HR) as (_ & H & ->). split; [done|]. by apply idle_spec.
Qed.

(** A ready connection. *)
Lemma ready_touches e n n' acts :
  RpcReactor.ready_event e = true -> RpcTcp.step n e = Some (Ret (None, n'), acts) ->
  match RpcReactor.subject n e acts with
  | Some p => touches (moved 0) p n n'
  | None => conns n' = conns n
  end.
Proof.
  destruct e as [e|p fd buffer kw ks|p chunks last| | |p|p input|p|p]; try done; intros _;
    cbn [RpcTcp.step RpcReactor.subject].
  - destruct (conns n !! p); [|done]. case_if; [|done]. by intros [= <- _].
  - intros Hs. destruct (read_next_touches _ _ _ Hs) as (rd & -> & Ht). exact Ht.
  - intros Hs. pose proof Hs as Hs'. unfold rpc_step in Hs'. cbn [RpcServer.step] in Hs'.
    destruct (RpcServer.io_frames (rpc n)) as [[p id]|] eqn:Ef; [|done]. clear Hs'. cbn [fmap option_fmap option_map fst].
    eapply (rpc_step_touches p); [|exact Hs]. intros r a. cbn [RpcServer.step]. rewrite Ef.
    destruct (RpcServer.onMessage_frame _ _ _) as [[[r1 a1] again]| |] eqn:Em; [|done..]. cbn [mbind outcome_bind].
    intros [= _ <-]. by eapply frame_targets.
  - intros Hs. eapply tcp_event_touches; [|exact Hs]. intros c c'.
    apply moved_in_loop; [apply (handleWrite_evs _ _ _ _ callbacks_none)|apply handleWrite_pending].
  - destruct (tcp_event p _ n) as [[r a]|] eqn:Et; [|done]. destruct r as [[[x|] n1]| |]; try done.
    cbn [then_ return_ mbind outcome_bind]. intros [= <- <-].
    eapply (tcp_event_touches p _ n n1 a (moved 0)) in Et as [Et _]; [exact Et|]. apply handleClose_moved.
Qed.

(** A functor of a connection. *)
Definition called (c c' : TcpConnection.t) : Prop :=
  evolves c c' /\ length (TcpConnection.pending c') = pred (length (TcpConnection.pending c)).

Lemma functor_touches p n n' acts :
  RpcTcp.step n (CallFunctor p) = Some (Ret (None, n'), acts) -> touches called p n n' /\ acts = [] /\ rpc n' = rpc n.
Proof.
  cbn [RpcTcp.step]. intros Hs. split.
  - eapply tcp_event_touches; [|exact Hs]. intros c c' Hf. split.
    + pose proof (run_functor_evs _ _ _ _ callbacks_none c) as He. unfold close_callback in Hf. by rewrite Hf in He.
    + revert Hf. unfold TcpConnection.run_functor. destruct (TcpConnection.pending c) as [|k rest] eqn:Ep; [intros [= <-]; by rewrite Ep|].
      intros Hf. assert (Hp : same_pending (TcpConnection.set_pending rest c) (Ret (None, c'))); [|exact (f_equal length Hp)].
      rewrite <- Hf. destruct k; [apply sendInLoop_pending|apply shutdownInLoop_pending|apply forceCloseInLoop_pending].
  - split; [|by apply tcp_event_idle in Hs as [_ ?]]. unfold tcp_event in Hs. destruct (conns n !! p); [|done]. case_if_in Hs; [|done].
    by injection Hs.
Qed.

(** ** The other threads *)

Lemma thread_actions e r r' acts :
  RpcReactor.thread_event e = true -> RpcServer.step (Handler := Handler) r e = Some (Ret (r', acts)) ->
  acts = [] \/ exists p frame, acts = [RpcServer.Send p frame].
Proof.
  destruct e; try done; intros _; cbn [RpcServer.step].
  - intros [= _ <-]. by left.
  - case_if; [|done]. unfold RpcServer.worker_take. destruct (RpcServer.work_queue_ r); [by destruct (RpcServer.stopping_ r)|].
    intros [= _ <-]. by left.
  - case_if; [|done]. unfold RpcServer.worker_finish. destruct (_ !! _) as [q|]; [|done].
    destruct (RpcServer.fetch_sub _ _); [|done..]. intros [= _ <-]. right. by eexists _, _.
  - case_if; [|done]. unfold RpcServer.worker_take. destruct (RpcServer.work_queue_ r); [|done].
    destruct (RpcServer.stopping_ r); [|done]. intros [= _ <-]. by left.
  - case_if; [|done]. intros [= _ <-]. by left.
Qed.

Lemma thread_touches e n n' acts :
  RpcReactor.thread_event e = true -> RpcTcp.step n (Rpc e) = Some (Ret (None, n'), acts) ->
  reading n' = reading n /\
  match RpcReactor.subject n (Rpc e) acts with
  | Some p => touches (fun c c' => moved (answer_queued c) c c') p n n'
  | None => conns n' = conns n
  end.
Proof.
  intros Ht. assert (Hs : RpcTcp.step n (Rpc e) = rpc_step false e n) by (by destruct e). rewrite Hs. unfold rpc_step.
  destruct (RpcServer.step _ _) as [[[r a]| |]|] eqn:E; try done. intros [= Hp <-].
  destruct (thread_actions e _ _ _ Ht E) as [->|(p & frame & ->)]; cbn [perform target RpcReactor.subject head fmap option_fmap option_map] in *.
  - by injection Hp as <-.
  - unfold then_, on in Hp. cbn [conns set_rpc] in Hp. unfold touches.
    destruct (conns n !! p) as [c|]; [|done]. destruct (act_moved_other p frame c) as (c' & Hc' & Hm).
    rewrite Hc' in Hp. cbn [mbind outcome_bind] in Hp. injection Hp as <-. split; [done|]. by exists c'.
Qed.

End steps.
