(* ===== verification/RpcReactorFacts.v ===== *)
(** Theorems about the RPC server on its reactor: a run is one of the I/O thread
    and one of the callbacks on the connections, and with the TCP server the
    three agree on which connections there are and what the loop has to call. *)
From Stdlib Require Import ZArith Lia.
From Stdlib Require Import Strings.Byte.
From stdpp Require Import base list strings gmap.
From S2P Require Import Prelude NetBuffer EventLoop EventLoopFacts TcpConnection TcpConnectionFacts TcpConnectionLife Socket SocketFacts TcpServer TcpServerFacts RpcMessage RpcServer RpcServerFacts RpcIo RpcIoFacts RpcLedger RpcTcp RpcTcpFacts RpcTcpLive RpcReactor RpcReactorSteps.
#[local] Set Warnings "-clear-no-such-hyp".
#[local] Existing Instance EventLoop.phase_eq_dec.

(** * Runs of the I/O thread *)

Section io.
Context {Handler : Type}.
Implicit Types i : IoThread.t (Handler := Handler).

Lemma io_run_app es1 es2 i i1 :
  IoThread.run i es1 = Some (Ret i1) -> IoThread.run i (es1 ++ es2) = IoThread.run i1 es2.
Proof.
  revert i. induction es1 as [|e es IH]; intros i; cbn [IoThread.run app]; [by intros [= <-]|].
  destruct (IoThread.step i e) as [[i2| |]|]; try done. apply IH.
Qed.

(** The steps of the server that are its own in the thread's model. *)
Definition io_event_ok i (e : @RpcServer.event Handler) : Prop :=
  match e with
  | RpcServer.Start _ _ | RpcServer.StopBegin | RpcServer.IoExit => False
  | RpcServer.OnConnection _ | RpcServer.OnMessage _ _ | RpcServer.NextFrame => IoThread.calls_back i = true
  | _ => True
  end.

Definition with_rpc i (r : @RpcServer.Server Handler) : @IoThread.t Handler :=
  IoThread.mk r (IoThread.tcp_server_ i) (IoThread.loop i) (IoThread.entered i).

Lemma io_run_rpc es i r a :
  Forall (io_event_ok i) es -> RpcServerFacts.run (IoThread.rpc i) es = Some (r, a) ->
  IoThread.run i (map IoThread.Rpc es) = Some (Ret (with_rpc i r)).
Proof.
  intros Hes. revert i r a Hes. induction es as [|e es IH]; intros i r a Hes; cbn [RpcServerFacts.run map IoThread.run].
  { intros [= <- _]. by destruct i. }
  inversion Hes as [|? ? He Hes']; subst.
  destruct (RpcServer.step (IoThread.rpc i) e) as [[[r1 a1]| |]|] eqn:E; try done.
  destruct (RpcServerFacts.run r1 es) as [[r2 a2]|] eqn:E2; [|done]. intros [= <- _].
  assert (Hs : IoThread.step i (IoThread.Rpc e) = Some (Ret (with_rpc i r1))).
  { cbn [IoThread.step]. unfold IoThread.rpc_event. rewrite E. cbn [mbind outcome_bind].
    destruct e; cbn [io_event_ok] in He; rewrite ?He; done. }
  rewrite Hs. apply (IH (with_rpc i r1) r2 a2); [|exact E2].
  eapply Forall_impl; [exact Hes'|]. by intros [].
Qed.

(** Functors queued on the loop's thread, or from another. *)
Definition queue_event (in_loop : bool) (f : nat) : EventLoop.event :=
  if in_loop then EventLoop.QueueLoop f else EventLoop.QueueOther f.

Lemma io_queue in_loop f i l :
  IoThread.loop i = Some l -> f <> IoThread.stop_functor ->
  (in_loop = true -> EventLoop.at_ l <> EventLoop.Waiting) ->
  IoThread.step i (IoThread.Loop (queue_event in_loop f)) =
    Some (Ret (IoThread.mk (IoThread.rpc i) (IoThread.tcp_server_ i)
      (Some (if in_loop then EventLoop.queueInLoop f l else EventLoop.queue_other f l)) (IoThread.entered i))).
Proof.
  intros Hl Hf Hat. cbn [IoThread.step]. unfold IoThread.loop_event. rewrite Hl.
  apply Nat.eqb_neq in Hf. destruct in_loop; cbn [queue_event IoThread.allowed]; rewrite Hf; cbn [negb].
  - cbn [EventLoop.step]. destruct (EventLoop.at_ l) eqn:Ea; [| by specialize (Hat eq_refl)| |];
      cbn [IoThread.called]; by rewrite orb_false_r.
  - cbn [EventLoop.step]. destruct (EventLoop.at_ l) eqn:Ea; cbn [IoThread.called]; by rewrite orb_false_r.
Qed.

End io.

(** * The queue of the loop *)

Section reactor.
Context `{Inet} {Handler : Type}.
Implicit Types s : RpcReactor.t (Handler := Handler).
Import RpcReactor.

(** What the queue of functors keeps of the loop. *)
Record enqueued (fs : list nat) (l l' : EventLoop.t) : Prop := mkEnqueued {
  en_callbacks : EventLoop.callbacks l' = EventLoop.callbacks l;
  en_pending : EventLoop.pending_functors_ l' = EventLoop.pending_functors_ l ++ fs;
  en_at : EventLoop.at_ l' = EventLoop.at_ l;
  en_quit : EventLoop.quit_ l' = EventLoop.quit_ l;
}.

Lemma enqueued_refl l : enqueued [] l l.
Proof. constructor; [done| |done|done]. by rewrite app_nil_r. Qed.

Lemma enqueued_trans f g l l1 l2 : enqueued f l l1 -> enqueued g l1 l2 -> enqueued (f ++ g) l l2.
Proof. intros [C1 P1 A1 Q1] [C2 P2 A2 Q2]. constructor; [congruence|by rewrite P2, P1, app_assoc|congruence|congruence]. Qed.

Lemma enqueued_one (in_loop : bool) f l :
  enqueued [f] l (if in_loop then EventLoop.queueInLoop f l else EventLoop.queue_other f l).
Proof. destruct in_loop; [|done]. unfold EventLoop.queueInLoop. by case_if. Qed.

Lemma queue_all_spec in_loop ks s l :
  loop s = Some l -> (in_loop = true -> EventLoop.at_ l <> EventLoop.Waiting) ->
  exists l', queue_all in_loop ks s = Ret (set_tasks (tasks s ++ ks) (set_loop l' s)) /\
    enqueued (S <$> seq (length (tasks s)) (length ks)) l l' /\
    exists ies, IoThread.run (io s) ies = Some (Ret (io (set_loop l' s))).
Proof.
  revert s l. induction ks as [|k ks IH]; intros s l Hl Hat; cbn [queue_all].
  { exists l. split; [|split; [apply enqueued_refl|]].
    - rewrite app_nil_r. unfold set_tasks, set_loop, set_io, rpc. cbn. rewrite <- Hl. by destruct s as [[] ? ? ?].
    - exists []. cbn. unfold rpc. unfold loop in Hl. rewrite <- Hl. by destruct s as [[] ? ? ?]. }
  unfold queue. rewrite Hl. cbn [mbind outcome_bind]. set (f := S (length (tasks s))).
  set (l1 := if in_loop then _ else _). set (s1 := set_tasks (tasks s ++ [k]) (set_loop l1 s)).
  pose proof (enqueued_one in_loop f l : enqueued [f] l l1) as H1.
  destruct (IH s1 l1 eq_refl) as (l2 & -> & H2 & ies & Hrun).
  { intros Hb. rewrite (en_at _ _ _ H1). by apply Hat. }
  exists l2. split; [|split].
  - unfold s1, set_tasks, set_loop, set_io, rpc. cbn. by rewrite <- app_assoc.
  - cbn [tasks s1 set_tasks] in H2. rewrite length_app, Nat.add_comm in H2. exact (enqueued_trans _ _ _ _ _ H1 H2).
  - exists (IoThread.Loop (queue_event in_loop f) :: ies). cbn [IoThread.run].
    rewrite (io_queue in_loop f (io s) l Hl) by done. exact Hrun.
Qed.


(** * What the parts agree on *)

Definition stopped s : bool :=
  match IoThread.tcp_server_ (io s) with IoThread.OnLoop b => b | _ => true end.

(** The server's table has the connections announced up and not down; a closed
    one was reported to the TCP server; the TCP server runs until the loop is
    told to quit. *)
Record agrees s : Prop := mkAgrees {
  ag_world : TcpServerFacts.inv (stopped s) (world s);
  ag_subs : TcpServer.sub_loops_ (TcpServer.server (world s)) = [];
  ag_main : forall p c, TcpServer.conns (world s) !! p = Some c -> TcpServer.loop_ c = TcpServer.main_loop_;
  ag_table : forall p, is_Some (RpcServer.connections_ (rpc s) !! p) <->
    exists c, TcpServer.conns (world s) !! p = Some c /\ notified (TcpServer.tcp c) = [up];
  ag_closed : forall p c, TcpServer.conns (world s) !! p = Some c ->
    TcpConnection.state_ (TcpServer.tcp c) = TcpConnection.kDisconnected -> notified (TcpServer.tcp c) = [up] ->
    TcpConnection.CloseCb ∈ TcpConnection.log (TcpServer.tcp c);
  ag_stop : forall l, loop s = Some l -> IoThread.tcp_server_ (io s) = IoThread.OnLoop (EventLoop.quit_ l);
  ag_reading : is_Some (reading s) -> at_phase EventLoop.Handling s = true;
}.

(** The functors the loop has to call, but for that of [stop]. *)
Definition task_at (ts : list task) (f : nat) : option task := match f with O => None | S i => ts !! i end.
Definition functors_of (l : EventLoop.t) : list nat := EventLoop.callbacks l ++ EventLoop.pending_functors_ l.
Definition outstanding s l : list task := omap (task_at (tasks s)) (functors_of l).
Definition times (k : task) (l : list task) : nat := length (List.filter (fun x => bool_decide (x = k)) l).

(** They are what the connections and the TCP server have queued. *)
Record tasks_ok s (l : EventLoop.t) : Prop := mkTasksOk {
  tk_known : forall f, f ∈ functors_of l -> f = IoThread.stop_functor \/ is_Some (task_at (tasks s) f);
  tk_server : times OfServer (outstanding s l) = length (TcpServer.functors (world s));
  tk_conn : forall p c, TcpServer.conns (world s) !! p = Some c ->
    times (OfConnection p) (outstanding s l) = length (TcpConnection.pending (TcpServer.tcp c));
  tk_subject : forall p, OfConnection p ∈ outstanding s l -> is_Some (TcpServer.conns (world s) !! p);
}.

Record reactor_inv (n : nat) s (acts : list RpcServer.action) : Prop := mkReactorInv {
  ri_io : io_inv n (io s);
  ri_net : tcp_inv (net s) acts;
  ri_agrees : agrees s;
  ri_tasks : forall l, loop s = Some l -> tasks_ok s l;
}.

(** The two stages of a connection of the main loop. *)
Lemma conn_stage s p c :
  agrees s -> TcpServer.conns (world s) !! p = Some c ->
  wf (TcpServer.tcp c) /\ TcpConnection.state_ (TcpServer.tcp c) <> TcpConnection.kConnecting /\
  ((notified (TcpServer.tcp c) = [up] /\ in_table (world s) p c /\ stopped s = false /\
    queued (TcpServer.RemoveConnection p) (TcpServer.functors (world s)) =
      if bool_decide (TcpConnection.state_ (TcpServer.tcp c) = TcpConnection.kDisconnected) then 1%nat else 0%nat) \/
   (notified (TcpServer.tcp c) = [up; down] /\ ~ in_table (world s) p c /\
    TcpConnection.state_ (TcpServer.tcp c) = TcpConnection.kDisconnected)).
Proof.
  intros Ha Hc. pose proof (ag_main s Ha p c Hc) as Hm. destruct (inv_known _ _ (ag_world s Ha) p c Hc) as (Hwf & st & Hs & Ht).
  split; [done|]. destruct (stopped s).
  - destruct Ht as [Hn Hg]. rewrite (Hg Hm) in Hs. destruct Hs as (Hst & Hno & _). rewrite Hst. split; [done|]. by right.
  - destruct st; cbn in Hs.
    + by destruct Hs as (_ & _ & _ & _ & ? & _).
    + destruct Hs as (Hst & Hno & _ & Hr). split; [by destruct Hst as [-> | ->]|]. left. split; [done|].
      split; [by apply Ht|]. split; [done|]. rewrite bool_decide_false; [done|]. by destruct Hst as [-> | ->].
    + destruct Hs as (-> & Hno & _ & Hr). split; [done|]. left. split; [done|]. split; [by apply Ht|]. by split.
    + destruct Hs as (-> & Hno & _ & Hr). split; [done|]. right. split; [done|]. split; [|done].
      intros Hin. by destruct (proj1 Ht Hin).
Qed.

(** Without a loop every connection is gone. *)
Lemma no_loop_gone n s p c :
  io_inv n (io s) -> agrees s -> loop s = None -> TcpServer.conns (world s) !! p = Some c ->
  notified (TcpServer.tcp c) = [up; down] /\ TcpConnection.state_ (TcpServer.tcp c) = TcpConnection.kDisconnected.
Proof.
  intros Hio Ha Hl Hc. destruct (conn_stage s p c Ha Hc) as (_ & _ & [(_ & _ & Hst & _)|(? & _ & ?)]); [|done].
  exfalso. unfold stopped in Hst. destruct (IoThread.tcp_server_ (io s)) as [|b|] eqn:Es; try done.
  assert (Hx : is_Some (IoThread.loop (io s))) by (apply (ii_server _ _ Hio); by exists b).
  unfold loop in Hl. rewrite Hl in Hx. by destruct Hx.
Qed.

(** ** Counting tasks *)

Lemma times_app k l1 l2 : times k (l1 ++ l2) = (times k l1 + times k l2)%nat.
Proof. unfold times. by rewrite List.filter_app, length_app. Qed.

Lemma times_repeat k k' m : times k (repeat k' m) = if bool_decide (k' = k) then m else 0%nat.
Proof.
  unfold times. induction m as [|m IH]; cbn; [by case_bool_decide|].
  case_bool_decide; cbn; by rewrite IH.
Qed.

Lemma times_cons k x l : times k (x :: l) = ((if bool_decide (x = k) then 1 else 0) + times k l)%nat.
Proof. unfold times. cbn. by case_bool_decide. Qed.

Lemma times_in k l : (0 < times k l)%nat <-> k ∈ l.
Proof.
  unfold times. induction l as [|x l IH]; cbn; [split; [lia|by intros ?%elem_of_nil]|].
  rewrite elem_of_cons. case_bool_decide; cbn; rewrite ?IH; split; try tauto; try lia; naive_solver.
Qed.

(** What was queued comes last. *)
Lemma outstanding_queued s s' l l' ks :
  (forall f, f ∈ functors_of l -> f = IoThread.stop_functor \/ is_Some (task_at (tasks s) f)) ->
  tasks s' = tasks s ++ ks -> enqueued (S <$> seq (length (tasks s)) (length ks)) l l' ->
  outstanding s' l' = outstanding s l ++ ks /\
  (forall f, f ∈ functors_of l' -> f = IoThread.stop_functor \/ is_Some (task_at (tasks s') f)).
Proof.
  intros Hk Ht [Hc Hp _ _]. unfold outstanding, functors_of in *. rewrite Ht, Hc, Hp, app_assoc, omap_app.
  set (fs := EventLoop.callbacks l ++ EventLoop.pending_functors_ l) in *.
  assert (Hold : forall f, f ∈ fs -> task_at (tasks s ++ ks) f = task_at (tasks s) f).
  { intros [|i] Hin; [done|]. cbn. destruct (Hk _ Hin) as [|[k E]]; [done|]. cbn in E. rewrite E.
    by apply lookup_app_l_Some. }
  assert (Hnew : forall (ts qs : list task), omap (task_at (ts ++ qs)) (S <$> seq (length ts) (length qs)) = qs).
  { intros ts qs. revert ts. induction qs as [|k qs IH]; intros ts; [done|]. cbn [length seq fmap list_fmap omap list_omap].
    cbn [task_at]. rewrite list_lookup_middle by done. f_equal. specialize (IH (ts ++ [k])).
    rewrite <- app_assoc, length_app, Nat.add_comm in IH. exact IH. }
  split.
  - rewrite Hnew. f_equal. clearbody fs. clear Hk. induction fs as [|f fs IH]; [done|]. cbn.
    rewrite Hold by (by left). rewrite IH; [done|]. intros f' Hin. apply Hold. by right.
  - intros f [Hin|Hin]%elem_of_app.
    + rewrite Hold by done. by apply Hk.
    + right. apply list_elem_of_fmap in Hin as (i & -> & Hin%elem_of_seq). cbn. apply lookup_lt_is_Some.
      rewrite length_app. lia.
Qed.

(** * Steps of a connection *)

Lemma inv_evolves b w p c after :
  TcpServerFacts.inv b w -> TcpServer.conns w !! p = Some c ->
  TcpConnection.state_ (TcpServer.tcp c) <> TcpConnection.kConnecting -> evolves (TcpServer.tcp c) after -> wf after ->
  TcpServerFacts.inv b (updated p c after w).
Proof.
  intros Hi Hc Hst He Hwf.
  destruct (fine_evolves b p (fun _ => Ret (None, after)) w c Hi Hc Hst) as (thrown & w' & Hr & Hw).
  - by exists None, after.
  - exact He.
  - rewrite (on_conn_updated _ _ _ _ Hc) in Hr. cbn [mbind outcome_bind] in Hr. injection Hr as <- <-. by apply Hw.
Qed.

(** The connection that just closed was reported. *)
Lemma evolves_closed c c' :
  evolves c c' ->
  (TcpConnection.state_ c = TcpConnection.kDisconnected -> TcpConnection.CloseCb ∈ TcpConnection.log c) ->
  TcpConnection.state_ c' = TcpConnection.kDisconnected -> TcpConnection.CloseCb ∈ TcpConnection.log c'.
Proof.
  intros [[l Hl] _ _ Hcl _] Hc Hst. destruct (decide (TcpConnection.state_ c = TcpConnection.kDisconnected)) as [E|E].
  - rewrite Hl. apply elem_of_app. left. by apply Hc.
  - unfold TcpConnection.is_state in Hcl. rewrite Hst, bool_decide_true, (bool_decide_false _ E) in Hcl by done. cbn in Hcl.
    unfold close_calls in Hcl. destruct (List.filter _ (TcpConnection.log c')) as [|a k] eqn:Ef; [cbn in Hcl; lia|].
    assert (Hin : In a (a :: k)) by (by left). rewrite <- Ef in Hin.
    apply List.filter_In in Hin as [Hin Ha]. apply bool_decide_eq_true in Ha. subst a. by apply list_elem_of_In.
Qed.

(** A functor that is called, a message or an answer leave a connection and its
    loop as [store] says. *)
Definition stored (p : nat) (c after : TcpConnection.t) s s' : Prop :=
  let ks := repeat (OfConnection p) (new_functors c after) ++ repeat OfServer (TcpServer.new_closes c after) in
  tasks s' = tasks s ++ ks /\
  TcpServer.functors (world s') = TcpServer.functors (world s) ++
    replicate (TcpServer.new_closes c after) (TcpServer.main_loop_, TcpServer.RemoveConnection p) /\
  TcpServer.tcp <$> TcpServer.conns (world s') = <[p := after]> (TcpServer.tcp <$> TcpServer.conns (world s)) /\
  match loop s with
  | Some l => exists l', loop s' = Some l' /\ enqueued (S <$> seq (length (tasks s)) (length ks)) l l'
  | None => loop s' = None
  end.

Lemma new_closes_evolves n s p c after :
  io_inv n (io s) -> agrees s -> TcpServer.conns (world s) !! p = Some c -> loop s = None ->
  evolves (TcpServer.tcp c) after -> TcpServer.new_closes (TcpServer.tcp c) after = 0%nat.
Proof.
  intros Hio Ha Hc Hl He. destruct (no_loop_gone n s p c Hio Ha Hl Hc) as [_ Hst].
  pose proof (new_closes_spec _ _ (ev_log _ _ He)) as Hn. pose proof (ev_closes _ _ He) as Hc'.
  unfold TcpConnection.is_state in Hc'. rewrite Hst, (bool_decide_true (TcpConnection.kDisconnected = _)) in Hc' by done.
  rewrite andb_false_r in Hc'. lia.
Qed.

(** The loop of the state after a connection changed: the same, or with more
    functors queued. *)
Definition loop_queued s (m : RpcTcp.t) (k : nat) s2 : Prop :=
  io s2 = with_rpc (io s) (RpcTcp.rpc m) \/
  exists l l', loop s = Some l /\ enqueued (S <$> seq (length (tasks s)) k) l l' /\
    io s2 = IoThread.mk (RpcTcp.rpc m) (IoThread.tcp_server_ (io s)) (Some l') (IoThread.entered (io s)).

Lemma updated_agrees p (m : RpcTcp.t) k s s2 c after :
  agrees s -> TcpServer.conns (world s) !! p = Some c -> evolves (TcpServer.tcp c) after -> wf after ->
  RpcServer.connections_ (RpcTcp.rpc m) = RpcServer.connections_ (rpc s) ->
  (is_Some (RpcTcp.reading m) -> at_phase EventLoop.Handling s = true) ->
  loop_queued s m k s2 -> world s2 = updated p c after (world s) -> reading s2 = RpcTcp.reading m -> agrees s2.
Proof.
  intros Ha Hc He Hwf Htab Hrd Hio2 Hw2 Hr2.
  assert (Hts : IoThread.tcp_server_ (io s2) = IoThread.tcp_server_ (io s)) by (by destruct Hio2 as [->|(l & l' & _ & _ & ->)]).
  assert (Hrpc : rpc s2 = RpcTcp.rpc m) by (unfold rpc; by destruct Hio2 as [->|(l & l' & _ & _ & ->)]).
  constructor; rewrite ?Hw2, ?updated_server, ?updated_conns, ?Hrpc.
  - unfold stopped. rewrite Hts. apply inv_evolves; try done; [exact (ag_world s Ha)|]. by apply (conn_stage s p c Ha Hc).
  - exact (ag_subs s Ha).
  - intros q d. destruct (decide (q = p)) as [->|Hne]; [|rewrite lookup_insert_ne by done; apply (ag_main s Ha)].
    rewrite lookup_insert_eq. intros [= <-]. cbn. by apply (ag_main s Ha p).
  - intros q. rewrite Htab, (ag_table s Ha q). destruct (decide (q = p)) as [->|Hne].
    + rewrite Hc, lookup_insert_eq. split; intros (d & [= <-] & Hn); eexists; (split; [done|]);
        cbn in *; revert Hn; by rewrite (ev_notified _ _ He).
    + by rewrite lookup_insert_ne.
  - intros q d. destruct (decide (q = p)) as [->|Hne]; [|rewrite lookup_insert_ne by done; apply (ag_closed s Ha)].
    rewrite lookup_insert_eq. intros [= <-] Hst Hn. cbn in *. rewrite (ev_notified _ _ He) in Hn.
    eapply evolves_closed; [exact He| |exact Hst]. intros E. by apply (ag_closed s Ha p c Hc).
  - intros l Hl. rewrite Hts. destruct Hio2 as [E|(l0 & l' & Hl0 & Hen & E)]; unfold loop in Hl; rewrite E in Hl; cbn in Hl.
    + by apply (ag_stop s Ha).
    + injection Hl as <-. rewrite (en_quit _ _ _ Hen). by apply (ag_stop s Ha).
  - rewrite Hr2. intros Hs. specialize (Hrd Hs). unfold at_phase, loop in *.
    destruct Hio2 as [E|(l0 & l' & Hl0 & Hen & E)]; rewrite E; cbn; [done|].
    unfold loop in Hl0. rewrite Hl0 in Hrd. by rewrite (en_at _ _ _ Hen).
Qed.

Lemma store_spec n in_loop p (net' : RpcTcp.t) s c after :
  io_inv n (io s) -> agrees s -> TcpServer.conns (world s) !! p = Some c ->
  evolves (TcpServer.tcp c) after -> wf after ->
  RpcServer.connections_ (RpcTcp.rpc net') = RpcServer.connections_ (rpc s) ->
  RpcTcp.conns net' = <[p := after]> (TcpServer.tcp <$> TcpServer.conns (world s)) ->
  (is_Some (RpcTcp.reading net') -> at_phase EventLoop.Handling s = true) ->
  (loop s = None -> new_functors (TcpServer.tcp c) after = 0%nat) ->
  (forall l, loop s = Some l -> in_loop = true -> EventLoop.at_ l <> EventLoop.Waiting) ->
  exists s', store in_loop (Some p) net' s = Ret s' /\ net s' = net' /\ agrees s' /\
    stored p (TcpServer.tcp c) after s s' /\
    exists ies, IoThread.run (with_rpc (io s) (RpcTcp.rpc net')) ies = Some (Ret (io s')).
Proof.
  intros Hio Ha Hc He Hwf Htab Hconns Hrd Hnone Hat. unfold store. rewrite Hc, Hconns, lookup_insert_eq.
  set (ks := repeat _ _ ++ _). set (w' := TcpServer.close_callback_ p c after _).
  assert (Hw : w' = updated p c after (world s)) by done.
  set (s1 := set_world w' (set_rpc (RpcTcp.rpc net') (set_reading (RpcTcp.reading net') s))).
  assert (Hnet : forall l, net (set_tasks (tasks s1 ++ ks) (set_loop l s1)) = net' /\ net s1 = net').
  { intros l. unfold net; cbn. rewrite Hw, updated_conns, fmap_insert. cbn. rewrite <- Hconns. by destruct net'. }
  assert (Hagrees : forall s2, loop_queued s net' (length ks) s2 -> world s2 = w' -> reading s2 = RpcTcp.reading net' -> agrees s2).
  { intros s2 Hio2 Hw2 Hr2. by apply (updated_agrees p net' (length ks) s s2 c after). }
  assert (Hfun : TcpServer.functors w' = TcpServer.functors (world s) ++
    replicate (TcpServer.new_closes (TcpServer.tcp c) after) (TcpServer.main_loop_, TcpServer.RemoveConnection p)).
  { rewrite Hw, updated_functors. by rewrite (ag_main s Ha p c Hc). }
  assert (Hcs : TcpServer.tcp <$> TcpServer.conns w' = <[p := after]> (TcpServer.tcp <$> TcpServer.conns (world s))).
  { by rewrite Hw, updated_conns, fmap_insert. }
  unfold stored. fold ks. destruct (loop s) as [l|] eqn:El.
  - destruct (queue_all_spec in_loop ks s1 l) as (l' & -> & Hen & ies & Hrun); [done|by apply Hat|].
    eexists. split; [done|]. split; [by apply Hnet|]. split; [apply Hagrees; [right; by exists l, l'|done|done]|].
    split; [|exists ies; exact Hrun]. split_and!; try done. by exists l'.
  - assert (Hks : ks = []).
    { unfold ks. by rewrite Hnone, (new_closes_evolves n s p c after Hio Ha Hc El He). }
    rewrite Hks. cbn [queue_all]. exists s1. split; [done|]. split; [by apply (Hnet (EventLoop.init))|].
    split; [apply Hagrees; [by left|done..]|]. split; [|by exists []].
    split_and!; try done. by rewrite app_nil_r.
Qed.

(** The tasks of all connections but [p] are accounted for. *)
Record tasks_but (p : nat) s (l : EventLoop.t) : Prop := mkTasksBut {
  tb_known : forall f, f ∈ functors_of l -> f = IoThread.stop_functor \/ is_Some (task_at (tasks s) f);
  tb_server : times OfServer (outstanding s l) = length (TcpServer.functors (world s));
  tb_conn : forall q c, q <> p -> TcpServer.conns (world s) !! q = Some c ->
    times (OfConnection q) (outstanding s l) = length (TcpConnection.pending (TcpServer.tcp c));
  tb_subject : forall q, OfConnection q ∈ outstanding s l -> is_Some (TcpServer.conns (world s) !! q);
}.

Lemma tasks_ok_but p s l : tasks_ok s l -> tasks_but p s l.
Proof. intros [H1 H2 H3 H4]. constructor; auto. Qed.

(** A lookup in the connections of a model that has the same. *)
Lemma tcp_lookup (w : TcpServer.world) (m : gmap nat TcpConnection.t) q :
  TcpServer.tcp <$> TcpServer.conns w = m ->
  m !! q = (TcpServer.tcp <$> (TcpServer.conns w !! q)).
Proof. intros <-. apply lookup_fmap. Qed.

Lemma stored_tasks p c after s s' l :
  TcpServer.conns (world s) !! p = Some c -> loop s = Some l -> stored p (TcpServer.tcp c) after s s' ->
  tasks_but p s l ->
  (times (OfConnection p) (outstanding s l) + new_functors (TcpServer.tcp c) after)%nat = length (TcpConnection.pending after) ->
  forall l', loop s' = Some l' -> tasks_ok s' l'.
Proof.
  intros Hc Hl (Ht & Hf & Hm & Hloop) [B1 B2 B3 B4] Hp l' Hl'. rewrite Hl in Hloop. destruct Hloop as (l0 & Hl0 & Hen).
  assert (l0 = l') as -> by congruence. destruct (outstanding_queued s s' l l' _ B1 Ht Hen) as [Ho Hk].
  assert (Hlook : forall q, TcpServer.tcp <$> (TcpServer.conns (world s') !! q) =
      if decide (q = p) then Some after else TcpServer.tcp <$> (TcpServer.conns (world s) !! q)).
  { intros q. rewrite <- (tcp_lookup _ _ q Hm). case_decide as E; [subst; by rewrite lookup_insert_eq|].
    by rewrite lookup_insert_ne, lookup_fmap. }
  constructor; [done|..]; rewrite Ho.
  - rewrite !times_app, !times_repeat, bool_decide_false, bool_decide_true, B2, Hf, length_app, length_replicate by done. lia.
  - intros q d Hq. specialize (Hlook q). rewrite Hq in Hlook. cbn in Hlook.
    rewrite !times_app, !times_repeat, (bool_decide_false (OfServer = _)) by done.
    case_decide as E; [injection Hlook as Hd; subst q; rewrite bool_decide_true by done; rewrite Hd; lia|].
    rewrite bool_decide_false by congruence. destruct (TcpServer.conns (world s) !! q) as [d0|] eqn:Eq; [|done].
    injection Hlook as ->. rewrite (B3 q d0) by done. lia.
  - intros q Hin. specialize (Hlook q). case_decide as E.
    + destruct (TcpServer.conns (world s') !! q); [by eexists|done].
    + assert (Hq : is_Some (TcpServer.conns (world s) !! q)).
      { rewrite !elem_of_app in Hin. destruct Hin as [?|[Hin|Hin]]; [by apply B4|..];
          apply list_elem_of_In, repeat_spec in Hin; [congruence|done]. }
      destruct Hq as [d Hd]. rewrite Hd in Hlook. by destruct (TcpServer.conns (world s') !! q).
Qed.

(** A step of the server's model that is not about a connection of the reactor. *)
Lemma agrees_same s s' :
  agrees s -> world s' = world s -> loop s' = loop s -> IoThread.tcp_server_ (io s') = IoThread.tcp_server_ (io s) ->
  RpcServer.connections_ (rpc s') = RpcServer.connections_ (rpc s) ->
  (is_Some (reading s') -> at_phase EventLoop.Handling s = true) -> agrees s'.
Proof.
  intros [A1 A2 A3 A4 A5 A6 A7] Hw Hl Ht Hc Hr.
  constructor; rewrite ?Hw, ?Hl, ?Ht, ?Hc; try done.
  - unfold stopped. by rewrite Ht.
  - intros Hs. unfold at_phase. rewrite Hl. by apply Hr.
Qed.

Definition unchanged s s' : Prop := tasks s' = tasks s /\ world s' = world s /\ loop s' = loop s.

Lemma unchanged_tasks s s' :
  unchanged s s' -> (forall l, loop s = Some l -> tasks_ok s l) -> forall l, loop s' = Some l -> tasks_ok s' l.
Proof.
  intros (Ht & Hw & Hl) Hok l Hl'. rewrite Hl in Hl'. destruct (Hok l Hl') as [K1 K2 K3 K4].
  unfold outstanding in *. constructor; unfold outstanding; rewrite ?Ht, ?Hw; done.
Qed.

(** ** The callbacks' steps in the reactor *)

Section network.
Context (n : nat) (s : RpcReactor.t (Handler := Handler)) (acts0 : list RpcServer.action).
Context (Hio : io_inv n (io s)) (Hnet : tcp_inv (net s) acts0) (Hag : agrees s).
Context (e : RpcTcp.event (Handler := Handler)) (n' : RpcTcp.t (Handler := Handler)) (acts : list RpcServer.action).
Context (He : event_ok e) (Hstep : RpcTcp.step (net s) e = Some (Ret (None, n'), acts)).
Context (in_loop : bool) (R : TcpConnection.t -> TcpConnection.t -> Prop).
Context (Htouch : match subject (net s) e acts with
                  | Some p => touches R p (net s) n'
                  | None => RpcTcp.conns n' = RpcTcp.conns (net s)
                  end).
Context (HR : forall c c', R c c' -> evolves c c' /\
  (TcpConnection.state_ c = TcpConnection.kDisconnected -> new_functors c c' = 0%nat)).
Context (Htab : RpcServer.connections_ (RpcTcp.rpc n') = RpcServer.connections_ (rpc s)).
Context (Hevents : Forall (io_event_ok (io s)) (RpcTcpFacts.rpc_event (net s) e)).
Context (Hrd : is_Some (RpcTcp.reading n') -> at_phase EventLoop.Handling s = true).
Context (Hat : forall l, loop s = Some l -> in_loop = true -> EventLoop.at_ l <> EventLoop.Waiting).

(** What became of the connection. *)
Definition subject_changes s' : Prop :=
  (unchanged s s' /\ forall p, subject (net s) e acts = Some p -> TcpServer.conns (world s) !! p = None) \/
  exists p c after, subject (net s) e acts = Some p /\ TcpServer.conns (world s) !! p = Some c /\
    R (TcpServer.tcp c) after /\ stored p (TcpServer.tcp c) after s s'.

Lemma network_spec :
  exists s', network in_loop e s = Some (Ret (None, s'), acts) /\ net s' = n' /\ agrees s' /\ subject_changes s' /\
    exists ies, IoThread.run (io s) ies = Some (Ret (io s')).
Proof.
  destruct (tcp_step_good _ _ _ _ _ Hnet He Hstep) as [Hnet' Hrun].
  pose proof (io_run_rpc _ (io s) _ _ Hevents Hrun) as Hio'.
  unfold network. rewrite Hstep. cbn [mbind outcome_bind].
  set (s0 := set_rpc (RpcTcp.rpc n') (set_reading (RpcTcp.reading n') s)).
  assert (Hsame : RpcTcp.conns n' = RpcTcp.conns (net s) ->
      (forall p, subject (net s) e acts = Some p -> TcpServer.conns (world s) !! p = None) -> Ret s0 = Ret s0 /\ net s0 = n' /\ agrees s0 /\
      subject_changes s0 /\ exists ies, IoThread.run (io s) ies = Some (Ret (io s0))).
  { intros Hc Hnone. split; [done|]. split; [unfold net; cbn; change (RpcTcp.mk (RpcTcp.rpc n') (RpcTcp.conns (net s)) (RpcTcp.reading n') = n');
      rewrite <- Hc; by destruct n'|]. split; [by apply (agrees_same s)|]. split; [by left|]. by eexists. }
  unfold store. fold s0. destruct (subject (net s) e acts) as [p|] eqn:Esub.
  2:{ exists s0. split; [done|]. by apply Hsame. }
  unfold touches in Htouch. cbn [net RpcTcp.conns] in Htouch. rewrite lookup_fmap in Htouch.
  destruct (TcpServer.conns (world s) !! p) as [c|] eqn:Ec; cbn [fmap option_fmap option_map] in Htouch.
  2:{ exists s0. split; [done|]. apply Hsame; [done|]. by intros q [= <-]. }
  destruct Htouch as (after & Hc' & HRc). destruct (HR _ _ HRc) as [Hev Hdisc].
  destruct (store_spec n in_loop p n' s c after Hio Hag Ec Hev) as (s' & Hst & Hn' & Ha' & Hs' & ies & Hies); try done.
  - apply (ok_wf (frames_to p (acts0 ++ acts))). eapply (ti_conns _ _ Hnet'). rewrite Hc'. apply lookup_insert_eq.
  - intros Hl. apply Hdisc. by apply (no_loop_gone n s p c).
  - exists s'. unfold store in Hst. fold s0 in Hst. rewrite Ec in Hst. rewrite Hst. cbn [mbind outcome_bind].
    split; [done|]. split; [done|]. split; [done|]. split.
    + right. by exists p, c, after.
    + eexists. erewrite io_run_app; [exact Hies|exact Hio'].
Qed.

End network.

(** * Steps that are runs of the parts *)

(** A step is a run of the callbacks' model, and one of the I/O thread's. *)
Definition projects s s' (acts : list RpcServer.action) : Prop :=
  (exists es, Forall event_ok es /\ RpcTcp.run (net s) es = Some (net s', acts)) /\
  (exists ies, IoThread.run (io s) ies = Some (Ret (io s'))).

Lemma projects_inv n s s' acts0 acts :
  io_inv n (io s) -> tcp_inv (net s) acts0 -> projects s s' acts ->
  io_inv n (io s') /\ tcp_inv (net s') (acts0 ++ acts).
Proof.
  intros Hio Hnet [(es & Hes & Hrun) (ies & Hies)]. split; [by eapply run_io_inv|].
  by destruct (run_good _ _ _ _ _ Hnet Hes Hrun).
Qed.

(** A good step, and what it keeps. *)
Definition good_step n s s' acts0 acts : Prop := projects s s' acts /\ reactor_inv n s' (acts0 ++ acts).

Lemma good_step_intro n s s' acts0 acts :
  reactor_inv n s acts0 -> projects s s' acts -> agrees s' -> (forall l, loop s' = Some l -> tasks_ok s' l) ->
  good_step n s s' acts0 acts.
Proof.
  intros [Hio Hnet _ _] Hp Ha Ht. split; [done|]. destruct (projects_inv n s s' acts0 acts Hio Hnet Hp). by constructor.
Qed.

(** ** Messages, answers and functors *)

Lemma step_connections (r : @RpcServer.Server Handler) e r' a :
  RpcServer.step r e = Some (Ret (r', a)) ->
  match e with
  | RpcServer.OnMessage _ _ | RpcServer.NextFrame | RpcServer.Register _ _ _
  | RpcServer.WorkerTake | RpcServer.WorkerFinish _ _ _ | RpcServer.WorkerExit =>
      RpcServer.connections_ r' = RpcServer.connections_ r
  | _ => True
  end.
Proof.
  destruct e; try done; cbn [RpcServer.step].
  - intros [= <- _]. unfold RpcServer.registerService. repeat (case_match; try done).
  - case_match; [|done]. destruct (RpcServer.onMessage_feed _ _ _) as [[[[r1 b] a1] next]| |] eqn:E1; [|done..].
    apply (feed_untouched RpcServer.connections_) in E1; [|done..]. by intros [= <- _].
  - destruct (RpcServer.io_frames r) as [[c i]|]; [|done].
    destruct (RpcServer.onMessage_frame _ _ _) as [[[r1 a1] again]| |] eqn:E1; [|done..].
    apply (frame_untouched RpcServer.connections_) in E1; [|done..]. cbn [mbind outcome_bind].
    by destruct again; intros [= <- _].
  - case_match; [|done]. unfold RpcServer.worker_take. destruct (RpcServer.work_queue_ r); [by destruct (RpcServer.stopping_ r)|].
    by intros [= <- _].
  - case_match; [|done]. unfold RpcServer.worker_finish. destruct (_ !! _) as [q|]; [|done].
    destruct (RpcServer.fetch_sub _ _) eqn:E1; [|done..]. apply (fetch_sub_untouched RpcServer.connections_) in E1; [|done..].
    by intros [= <- _].
  - case_match; [|done]. unfold RpcServer.worker_take. destruct (RpcServer.work_queue_ r); [|done].
    destruct (RpcServer.stopping_ r); [|done]. by intros [= <- _].
Qed.

Lemma network_good in_loop e s n n' acts0 acts R :
  reactor_inv n s acts0 -> event_ok e -> RpcTcp.step (net s) e = Some (Ret (None, n'), acts) ->
  match subject (net s) e acts with
  | Some p => touches R p (net s) n'
  | None => RpcTcp.conns n' = RpcTcp.conns (net s)
  end ->
  RpcServer.connections_ (RpcTcp.rpc n') = RpcServer.connections_ (rpc s) ->
  (is_Some (RpcTcp.reading n') -> at_phase EventLoop.Handling s = true) ->
  (forall c c', R c c' -> exists k, moved k c c' /\ (TcpConnection.state_ c = TcpConnection.kDisconnected -> k = 0%nat)) ->
  Forall (io_event_ok (io s)) (RpcTcpFacts.rpc_event (net s) e) ->
  (forall l, loop s = Some l -> in_loop = true -> EventLoop.at_ l <> EventLoop.Waiting) ->
  exists s1, network in_loop e s = Some (Ret (None, s1), acts) /\ good_step n s s1 acts0 acts.
Proof.
  intros Hi He Hstep Htouch Htab Hrd HR Hev Hat. pose proof Hi as [Hio Hnet Hag Htk].
  destruct (network_spec n s acts0 Hio Hnet Hag e n' acts He Hstep in_loop R Htouch) as (s' & Hs' & Hn' & Ha' & Hsub & Hies); try done.
  { intros c c' Hc. destruct (HR c c' Hc) as (k & [Hev' Hlen] & Hk). split; [done|]. intros E.
    unfold new_functors. rewrite Hlen, (Hk E). lia. }
  exists s'. split; [done|]. apply good_step_intro; [done| |done|].
  - split; [|done]. exists [e]. split; [by constructor|]. cbn [RpcTcp.run]. by rewrite Hstep, app_nil_r, Hn'.
  - destruct Hsub as [[Hsub _]|(p & c & after & _ & Hc & HRc & Hsub)]; [by eapply unchanged_tasks|].
    destruct (loop s) as [l|] eqn:El; [|destruct Hsub as (_ & _ & _ & Hl'); rewrite El in Hl'; congruence].
    eapply stored_tasks; [done|done|exact Hsub|by apply tasks_ok_but, Htk|].
    destruct (HR _ _ HRc) as (k & [_ Hlen] & _). rewrite (tk_conn _ _ (Htk l eq_refl) p c Hc).
    unfold new_functors. lia.
Qed.

Lemma ready_good e s n n' acts0 acts :
  reactor_inv n s acts0 -> event_ok e -> ready_event e = true -> at_phase EventLoop.Handling s = true ->
  RpcTcp.step (net s) e = Some (Ret (None, n'), acts) ->
  exists s1, network true e s = Some (Ret (None, s1), acts) /\ good_step n s s1 acts0 acts.
Proof.
  intros Hi He Hr Hph Hstep.
  apply (network_good true e s n n' acts0 acts (moved 0)); [done|done|done|exact (ready_touches e _ _ _ Hr Hstep)| |done|by eauto| |].
  - destruct (tcp_step_good _ _ _ _ _ (ri_net _ _ _ Hi) He Hstep) as [_ Hrun].
    destruct e as [e|p fd buffer kw ks|p chunks last| | |p|p input|p|p]; try done; cbn [rpc_event] in Hrun.
    + by injection Hrun as <-.
    + cbn [net RpcTcp.reading RpcTcp.conns] in Hrun. destruct (reading s) as [[[p [|chunk chunks]] last]|]; try (by injection Hrun as <-).
      destruct (_ !! p); [|by injection Hrun as <-].
      destruct (Buffer.readFd _ _) as [[[[k x] [y|]] b]| |]; try (by injection Hrun as <-).
      cbn [RpcServerFacts.run] in Hrun. destruct (RpcServer.step _ _) as [[[r1 a1]| |]|] eqn:E; try done.
      apply step_connections in E. by injection Hrun as <- _.
    + cbn [RpcServerFacts.run] in Hrun. destruct (RpcServer.step _ _) as [[[r1 a1]| |]|] eqn:E; try done.
      apply step_connections in E. by injection Hrun as <- _.
    + by injection Hrun as <-.
    + by injection Hrun as <-.
  - assert (Hcb : IoThread.calls_back (io s) = true).
    { unfold at_phase, loop in Hph. unfold IoThread.calls_back. destruct (IoThread.loop (io s)); [|done]. by rewrite Hph. }
    destruct e as [e|p fd buffer kw ks|p chunks last| | |p|p input|p|p]; try done; cbn [rpc_event]; try constructor; try done.
    cbn [net RpcTcp.reading RpcTcp.conns]. destruct (reading s) as [[[p [|chunk chunks]] last]|]; try constructor.
    destruct (_ !! p); [|constructor]. destruct (Buffer.readFd _ _) as [[[[k x] [y|]] b]| |]; by repeat constructor.
  - intros l Hl _. unfold at_phase in Hph. rewrite Hl in Hph. apply bool_decide_eq_true in Hph. by rewrite Hph.
Qed.

(** After the loop no connection is in the table. *)
Lemma no_loop_table n s : io_inv n (io s) -> agrees s -> loop s = None -> RpcServer.connections_ (rpc s) = ∅.
Proof.
  intros Hio Ha Hl. apply map_empty. intros p. destruct (_ !! p) as [id|] eqn:E; [|done].
  destruct (proj1 (ag_table s Ha p)) as (c & Hc & Hn); [by eexists|].
  destruct (no_loop_gone n s p c Hio Ha Hl Hc) as [Hn' _]. congruence.
Qed.

Lemma thread_good e s n n' acts0 acts :
  reactor_inv n s acts0 -> thread_event e = true -> RpcTcp.step (net s) (RpcTcp.Rpc e) = Some (Ret (None, n'), acts) ->
  exists s1, network false (RpcTcp.Rpc e) s = Some (Ret (None, s1), acts) /\ good_step n s s1 acts0 acts.
Proof.
  intros Hi Ht Hstep. destruct (thread_touches e _ _ _ Ht Hstep) as [Hrd Htouch].
  apply (network_good false (RpcTcp.Rpc e) s n n' acts0 acts (fun c c' => moved (answer_queued c) c c'));
    [done|done|done|done| |rewrite Hrd; apply (ag_reading s (ri_agrees _ _ _ Hi))| | |done].
  - destruct (tcp_step_good _ (RpcTcp.Rpc e) _ _ _ (ri_net _ _ _ Hi) I Hstep) as [_ Hrun]. cbn [rpc_event RpcServerFacts.run] in Hrun.
    destruct (RpcServer.step _ e) as [[[r1 a1]| |]|] eqn:E; try done. injection Hrun as <- _.
    pose proof (step_connections _ _ _ _ E) as Hc. destruct e; try done. cbn [RpcServer.step] in E.
    destruct (_ && _) eqn:Eb; [|done]. injection E as <- _. cbn. symmetry. apply (no_loop_table n s); [apply Hi|apply Hi|].
    breflect. pose proof (ii_io _ _ (ri_io _ _ _ Hi)) as Hl. unfold loop. destruct (IoThread.loop (io s)); [|done].
    cbn [net RpcTcp.rpc] in *. unfold rpc in *. rewrite bool_decide_true in Hl by done. congruence.
  - intros c c' Hm. exists (answer_queued c). split; [done|]. intros E. unfold answer_queued, TcpConnection.is_state.
    by rewrite E.
  - cbn [rpc_event]. constructor; [|constructor]. by destruct e.
Qed.

End reactor.
