(* ===== verification/RpcReactorServer.v ===== *)
(** The TCP server in the reactor: new connections, removals and [stop] are steps
    of the callbacks' model, and leave the tables of both servers the same. *)
From Stdlib Require Import ZArith Lia.
From Stdlib Require Import Strings.Byte.
From stdpp Require Import base list strings gmap.
From S2P Require Import Prelude NetBuffer EventLoop EventLoopFacts TcpConnection TcpConnectionFacts TcpConnectionLife Socket SocketFacts TcpServer TcpServerFacts RpcMessage RpcServer RpcServerFacts RpcIo RpcIoFacts RpcLedger RpcTcp RpcTcpFacts RpcTcpLive RpcReactor RpcReactorSteps RpcReactorFacts.
#[local] Set Warnings "-clear-no-such-hyp".
#[local] Existing Instance EventLoop.phase_eq_dec.

(** The connection callback does nothing to the connection. *)
Lemma none_ok : TcpServerFacts.callbacks_ok TcpConnection.return_ None None None.
Proof.
  split; split_and!; try done; intros f [= <-] c; first [by apply ev_return|intros Hc; by apply good_return].
Qed.

(** * A connection that is opened, and one that is removed *)

Section connection.
Import TcpConnection.

Definition opened (c : t) : t := logged up (change Channel.EnableReading (set_state kConnected c)).

Definition removed (c : t) : t :=
  let c := if negb (is_state kDisconnected c) then change Channel.DisableAll (set_state kDisconnected c) else c in
  set_channel (Channel.set_index Channel.kDeleted (channel_ c)) (logged down c).

Lemma connectEstablished_opened c : connectEstablished RpcReactor.connection_callback c = Ret (None, opened c).
Proof. done. Qed.

Lemma connectDestroyed_removed c : connectDestroyed RpcReactor.connection_callback c = Ret (None, removed c).
Proof.
  unfold connectDestroyed, removed. destruct (is_state kDisconnected c) eqn:E; cbn [negb]; [|done].
  apply is_state_true in E. cbn. by rewrite E.
Qed.

Lemma removed_log c : log (removed c) = log c ++ [down].
Proof. unfold removed. by destruct (is_state kDisconnected c). Qed.

Lemma removed_pending c : pending (removed c) = pending c.
Proof. unfold removed. by destruct (is_state kDisconnected c). Qed.

Lemma removed_state c : state_ (removed c) = kDisconnected.
Proof. unfold removed. destruct (is_state kDisconnected c) eqn:E; [by apply is_state_true in E|done]. Qed.

Lemma removed_notified c : notified (removed c) = notified c ++ [down].
Proof. unfold notified. by rewrite removed_log, List.filter_app. Qed.

#[global] Arguments removed : simpl never.

Lemma new_closes_one a c c' : log c' = log c ++ [a] -> a <> CloseCb -> TcpServer.new_closes c c' = 0%nat.
Proof.
  intros E Ha. unfold TcpServer.new_closes. rewrite E, drop_app_length. cbn. unfold TcpServer.is_close.
  by rewrite bool_decide_false.
Qed.

End connection.

Lemma concat_nil {A B} (f : A -> list B) l : (forall x, x ∈ l -> f x = []) -> concat (f <$> l) = [].
Proof.
  induction l as [|x l IH]; intros H; [done|]. cbn. rewrite H by (by left). apply IH. intros y Hy. apply H. by right.
Qed.

Lemma concat_one {A B} (f : nat * A -> list B) (l : list (nat * A)) p x :
  NoDup l.*1 -> (p, x) ∈ l -> (forall y, y ∈ l -> y.1 <> p -> f y = []) -> concat (f <$> l) = f (p, x).
Proof.
  induction l as [|[q y] l IH]; intros Hnd Hin Hf; [by apply elem_of_nil in Hin|].
  cbn in Hnd. apply NoDup_cons in Hnd as [Hq Hnd]. cbn. apply elem_of_cons in Hin as [[= <- <-]|Hin].
  - rewrite (concat_nil f l), app_nil_r; [done|]. intros [r z] Hr. apply Hf; [by right|]. cbn. intros ->. apply Hq.
    apply list_elem_of_fmap. by exists (p, z).
  - rewrite (Hf (q, y)); [|by left|]. 2:{ cbn. intros ->. apply Hq. apply list_elem_of_fmap. by exists (p, x). }
    apply IH; [done|done|]. intros z Hz. apply Hf. by right.
Qed.

Section server.
Context `{Inet} {Handler : Type}.
Implicit Types s : RpcReactor.t (Handler := Handler).
Implicit Types r : RpcServer.Server (Handler := Handler).
Import RpcReactor.

(** * Announcements *)

Lemma new_notifications_same c : new_notifications (Some c) (TcpServer.tcp c) = 0%nat.
Proof. unfold new_notifications. cbn. by rewrite drop_all. Qed.

Lemma announced_insert w w' p d :
  TcpServer.conns w' = <[p := d]> (TcpServer.conns w) ->
  announced w w' = repeat p (new_notifications (TcpServer.conns w !! p) (TcpServer.tcp d)).
Proof.
  intros E. unfold announced.
  rewrite (concat_one _ _ p d); [done|apply NoDup_fst_map_to_list| |].
  - apply elem_of_map_to_list. by rewrite E, lookup_insert_eq.
  - intros [q c] Hq Hne. cbn in *. apply elem_of_map_to_list in Hq. rewrite E, lookup_insert_ne in Hq by done.
    by rewrite Hq, new_notifications_same.
Qed.

Lemma announced_nothing w w' : TcpServer.conns w' = TcpServer.conns w -> announced w w' = [].
Proof.
  intros E. apply concat_nil. intros [q c] Hq%elem_of_map_to_list. cbn. by rewrite <- E, Hq, new_notifications_same.
Qed.

(** The callbacks of the server for a list of announcements. *)
Lemma onConnections_run r ps :
  RpcServer.io_loop r = true -> RpcServer.io_frames r = None ->
  RpcServerFacts.run r (map RpcServer.OnConnection ps) = Some (foldl RpcServer.onConnection r ps, []) /\
  RpcServer.io_loop (foldl RpcServer.onConnection r ps) = true /\
  RpcServer.io_frames (foldl RpcServer.onConnection r ps) = None.
Proof.
  revert r. induction ps as [|p ps IH]; intros r Hio Hfr; [done|]. cbn [map RpcServerFacts.run RpcServer.step foldl].
  rewrite Hio, Hfr, bool_decide_true by done. cbn [andb].
  assert (H1 : RpcServer.io_loop (RpcServer.onConnection r p) = true /\ RpcServer.io_frames (RpcServer.onConnection r p) = None).
  { unfold RpcServer.onConnection. by destruct (_ !! p). }
  destruct (IH (RpcServer.onConnection r p)) as (-> & Hx); [apply H1..|]. by split.
Qed.

Lemma onConnections_gone r ps q :
  NoDup ps -> (forall p, p ∈ ps -> is_Some (RpcServer.connections_ r !! p)) ->
  RpcServer.connections_ (foldl RpcServer.onConnection r ps) !! q =
    if decide (q ∈ ps) then None else RpcServer.connections_ r !! q.
Proof.
  intros Hnd. revert r. induction Hnd as [|p ps Hp Hnd IH]; intros r Hin; cbn [foldl].
  { rewrite decide_False; [done|]. by intros ?%elem_of_nil. }
  destruct (Hin p) as [id Hid]; [by left|].
  assert (E : RpcServer.connections_ (RpcServer.onConnection r p) = delete p (RpcServer.connections_ r)).
  { unfold RpcServer.onConnection. by rewrite Hid. }
  rewrite IH, E.
  - destruct (decide (q = p)) as [->|Hne].
    + rewrite lookup_delete_eq, (decide_True (P := p ∈ p :: ps)) by (by left). by case_decide.
    + rewrite lookup_delete_ne by done. repeat case_decide; try done; set_solver.
  - intros q' Hq'. rewrite E, lookup_delete_ne by (intros ->; done). apply Hin. by right.
Qed.

(** * Removals in the callbacks' model *)

Lemma alter_insert_id {A} (f : A -> A) (m : gmap nat A) p x : m !! p = Some x -> <[p := f x]> m = alter f p m.
Proof.
  intros Hx. apply map_eq. intros q. destruct (decide (q = p)) as [->|Hne].
  - by rewrite lookup_insert_eq, lookup_alter_eq, Hx.
  - by rewrite lookup_insert_ne, lookup_alter_ne.
Qed.

(** The connections of a list are removed. *)
Definition remove_all (ps : list nat) (m : gmap nat TcpConnection.t) : gmap nat TcpConnection.t :=
  foldl (fun m p => alter removed p m) m ps.

Lemma remove_all_lookup ps m q :
  NoDup ps -> remove_all ps m !! q = if decide (q ∈ ps) then removed <$> m !! q else m !! q.
Proof.
  intros Hnd. revert m. induction Hnd as [|p ps Hp Hnd IH]; intros m; cbn.
  { rewrite decide_False; [done|]. by intros ?%elem_of_nil. }
  unfold remove_all in IH. rewrite IH. destruct (decide (q = p)) as [->|Hne].
  - rewrite (decide_False (P := p ∈ ps)) by done. rewrite decide_True by (by left). by rewrite lookup_alter_eq.
  - rewrite lookup_alter_ne by done. repeat case_decide; try done; set_solver.
Qed.

Lemma destroy_run (n : RpcTcp.t (Handler := Handler)) ps :
  RpcTcp.idle n = true -> NoDup ps ->
  (forall p, p ∈ ps -> exists c, RpcTcp.conns n !! p = Some c /\ notified c = [up] /\
     (TcpConnection.CloseCb ∈ TcpConnection.log c \/ RpcServer.running_ (RpcTcp.rpc n) = false)) ->
  RpcTcp.run n (map RpcTcp.Destroy ps) =
    Some (RpcTcp.mk (foldl RpcServer.onConnection (RpcTcp.rpc n) ps) (remove_all ps (RpcTcp.conns n)) (RpcTcp.reading n), []).
Proof.
  intros Hidle Hnd. revert n Hidle. induction Hnd as [|p ps Hp Hnd IH]; intros n Hidle Hin; [by destruct n|].
  destruct (Hin p) as (c & Hc & Hn & Hwhy); [by left|]. apply idle_spec in Hidle as Hi. destruct Hi as (Hio & Hfr & Hrd).
  assert (Hrem : RpcTcp.removes n c = true).
  { unfold RpcTcp.removes. apply andb_true_iff. split.
    - apply negb_true_iff, bool_decide_eq_false. intros Hd%list_elem_of_In.
      assert (Hx : In down (notified c)) by (by apply List.filter_In). rewrite Hn in Hx. by destruct Hx.
    - apply orb_true_iff. destruct Hwhy as [?|Hr]; [left; by apply bool_decide_eq_true|right; by rewrite Hr]. }
  set (n1 := RpcTcp.mk (RpcServer.onConnection (RpcTcp.rpc n) p) (alter removed p (RpcTcp.conns n)) (RpcTcp.reading n)).
  assert (Hstep : RpcTcp.step n (RpcTcp.Destroy p) = Some (Ret (None, n1), [])).
  { cbn [RpcTcp.step]. rewrite Hc, Hidle, Hrem. cbn [andb]. rewrite connectDestroyed_removed.
    unfold RpcTcp.rpc_step. cbn [RpcTcp.rpc RpcTcp.set_conn RpcServer.step].
    rewrite Hio, Hfr, bool_decide_true by done. cbn [andb RpcTcp.perform].
    unfold n1. rewrite <- (alter_insert_id removed _ _ _ Hc). reflexivity. }
  cbn [map RpcTcp.run]. rewrite Hstep.
  assert (Hr1 : RpcServer.running_ (RpcServer.onConnection (RpcTcp.rpc n) p) = RpcServer.running_ (RpcTcp.rpc n)).
  { unfold RpcServer.onConnection. by destruct (RpcServer.connections_ _ !! p). }
  destruct (onConnections_run (RpcTcp.rpc n) [p] Hio Hfr) as (_ & Hio1 & Hfr1). cbn in Hio1, Hfr1.
  rewrite (IH n1); [done| |].
  - unfold RpcTcp.idle, n1. cbn. rewrite Hio1, Hfr1, Hrd. by rewrite !bool_decide_true.
  - intros q Hq. assert (Hne : q <> p) by (intros ->; done). destruct (Hin q) as (d & Hd & Hdn & Hdw); [by right|].
    exists d. cbn. rewrite lookup_alter_ne by done. rewrite Hr1. done.
Qed.

(** * Calls of the TCP server *)

Lemma server_call_eq f s w :
  f (world s) = Ret (None, w) -> (length (TcpServer.functors w) <= length (TcpServer.functors (world s)))%nat ->
  server_call f s =
    Ret (None, set_world w (set_rpc (foldl RpcServer.onConnection (rpc s) (announced (world s) w)) s)).
Proof.
  intros Hf Hl. unfold server_call. rewrite Hf. cbn [mbind outcome_bind].
  by replace (length (TcpServer.functors w) - length (TcpServer.functors (world s)))%nat with 0%nat by lia.
Qed.

(** The server's callbacks are steps of the I/O thread. *)
Lemma announced_io s ps :
  IoThread.calls_back (io s) = true -> RpcServer.io_loop (rpc s) = true -> RpcServer.io_frames (rpc s) = None ->
  IoThread.run (io s) (map IoThread.Rpc (map RpcServer.OnConnection ps)) =
    Some (Ret (io (set_rpc (foldl RpcServer.onConnection (rpc s) ps) s))).
Proof.
  intros Hcb Hio Hfr. destruct (onConnections_run (rpc s) ps Hio Hfr) as (Hrun & _).
  eapply io_run_rpc; [|exact Hrun]. apply Forall_forall. intros e (p & <- & _)%list_elem_of_In%in_map_iff. exact Hcb.
Qed.

Lemma between_spec s :
  between s = true -> RpcServer.io_loop (rpc s) = true /\ RpcServer.io_frames (rpc s) = None /\ reading s = None.
Proof. apply (idle_spec (net s)). Qed.

Lemma handling_loop ph s : at_phase ph s = true -> exists l, loop s = Some l /\ EventLoop.at_ l = ph.
Proof.
  unfold at_phase. destruct (loop s) as [l|]; [|done]. intros Hp%bool_decide_eq_true. by exists l.
Qed.

Lemma calls_back_spec s l :
  loop s = Some l -> EventLoop.at_ l = EventLoop.Handling \/ EventLoop.at_ l = EventLoop.Running ->
  IoThread.calls_back (io s) = true.
Proof.
  unfold loop. intros Hl Hp. unfold IoThread.calls_back. rewrite Hl. by destruct Hp as [-> | ->].
Qed.

(** ** New connections *)

Lemma onNewConnection_world w p tcp peer :
  TcpServer.sub_loops_ (TcpServer.server w) = [] -> TcpConnection.log tcp = [] ->
  exists nm w', TcpServer.onNewConnection connection_callback p tcp peer w = Ret (None, w') /\
    TcpServer.functors w' = TcpServer.functors w /\
    TcpServer.conns w' = <[p := TcpServer.mkConn TcpServer.main_loop_ nm (opened tcp)]> (TcpServer.conns w) /\
    TcpServer.sub_loops_ (TcpServer.server w') = [].
Proof.
  intros Hs Hlog. unfold TcpServer.onNewConnection, TcpServer.getNextSubLoop. rewrite bool_decide_true by done.
  rewrite Nat.eqb_refl. set (nm := TcpServer.conn_name _ _ _). set (w1 := TcpServer.mkWorld _ _ _).
  set (c := TcpServer.mkConn TcpServer.main_loop_ nm tcp).
  assert (Hc : TcpServer.conns w1 !! p = Some c) by (apply lookup_insert_eq).
  exists nm, (updated p c (opened tcp) w1). split; [|split_and!].
  - unfold TcpServer.connectEstablished. by rewrite (on_conn_updated p _ w1 c Hc).
  - rewrite updated_functors. unfold TcpServer.new_closes. cbn. rewrite Hlog. cbn. by rewrite app_nil_r.
  - rewrite updated_conns. cbn. by rewrite insert_insert_eq.
  - by rewrite updated_server.
Qed.

(** The state after a connection was accepted. *)
Section accepted.
Context (s : RpcReactor.t (Handler := Handler)) (p : nat) (c : TcpServer.conn) (tcp : TcpConnection.t) (w : TcpServer.world).
Context (Ha : agrees s) (Hp : TcpServer.conns (world s) !! p = None).
Context (Hc : TcpServer.conns w = <[p := c]> (TcpServer.conns (world s))).
Context (Htcp : TcpServer.tcp c = opened tcp) (Hlog : TcpConnection.log tcp = []) (Hpend : TcpConnection.pending tcp = []).
Let s1 := set_world w (set_rpc (RpcServer.onConnection (rpc s) p) s).

Lemma accepted_agrees :
  TcpServerFacts.inv (stopped s) w -> TcpServer.sub_loops_ (TcpServer.server w) = [] -> TcpServer.loop_ c = TcpServer.main_loop_ ->
  reading s = None -> agrees s1.
Proof.
  intros Hinv Hsub Hmain Hrd.
  assert (Hnone : RpcServer.connections_ (rpc s) !! p = None).
  { destruct (RpcServer.connections_ (rpc s) !! p) eqn:E; [|done]. destruct (proj1 (ag_table s Ha p)) as (d & Hd & _); [by eexists|congruence]. }
  assert (Hn : notified (opened tcp) = [up]) by (unfold notified; cbn; by rewrite Hlog).
  constructor; try change (world s1) with w; try done.
  - intros q d. rewrite Hc. destruct (decide (q = p)) as [->|Hne]; [rewrite lookup_insert_eq; by intros [= <-]|].
    rewrite lookup_insert_ne by done. by apply (ag_main s Ha).
  - intros q. unfold rpc; cbn. unfold RpcServer.onConnection. fold (rpc s). rewrite Hnone. cbn. rewrite Hc.
    destruct (decide (q = p)) as [->|Hne].
    + rewrite !lookup_insert_eq. split; intros _; [exists c; by rewrite Htcp|by eexists].
    + rewrite !lookup_insert_ne by done. apply (ag_table s Ha).
  - intros q d. rewrite Hc. destruct (decide (q = p)) as [->|Hne]; [rewrite lookup_insert_eq; intros [= <-]; by rewrite Htcp|].
    rewrite lookup_insert_ne by done. by apply (ag_closed s Ha).
  - apply (ag_stop s Ha).
  - change (reading s1) with (reading s). rewrite Hrd. by intros [? ?].
Qed.

Lemma accepted_tasks l :
  TcpServer.functors w = TcpServer.functors (world s) -> tasks_ok s l -> tasks_ok s1 l.
Proof.
  intros Hf [K1 K2 K3 K4]. constructor; change (outstanding s1 l) with (outstanding s l); try change (world s1) with w.
  - exact K1.
  - by rewrite Hf.
  - intros q d. rewrite Hc. destruct (decide (q = p)) as [->|Hne].
    + rewrite lookup_insert_eq. intros [= <-]. rewrite Htcp. cbn. rewrite Hpend.
      destruct (Nat.eq_0_gt_0_cases (times (OfConnection p) (outstanding s l))) as [E|E]; [exact E|].
      destruct (K4 p) as [d Hd]; [by apply times_in|congruence].
    + rewrite lookup_insert_ne by done. apply K3.
  - intros q Hq. rewrite Hc. destruct (decide (q = p)) as [->|Hne]; [by rewrite lookup_insert_eq|].
    rewrite lookup_insert_ne by done. by apply K4.
Qed.

End accepted.

Lemma accept_good n p fd buffer kw ks peer s acts0 :
  reactor_inv n s acts0 -> Buffer.buffer_wf buffer -> Buffer.readable buffer = [] ->
  at_phase EventLoop.Handling s = true -> between s = true -> TcpServer.acceptor_ (TcpServer.server (world s)) = true ->
  TcpServer.conns (world s) !! p = None -> Z.of_nat (size (TcpServer.conns (world s))) < 2 ^ 32 ->
  exists s1, server_call (TcpServer.onNewConnection connection_callback p (TcpConnection.construct fd buffer 0 kw ks) peer) s =
      Ret (None, s1) /\ good_step n s s1 acts0 [].
Proof.
  intros Hi Hb Hr Hph Hbt Hacc Hp Hsize. pose proof Hi as [Hio Hnet Ha Htk].
  destruct (between_spec s Hbt) as (Hil & Hfr & Hrd). destruct (handling_loop _ s Hph) as (l & Hl & Hat).
  set (tcp := TcpConnection.construct fd buffer 0 kw ks).
  destruct (onNewConnection_world (world s) p tcp peer (ag_subs s Ha) eq_refl) as (nm & w & Hw & Hf & Hc & Hsub).
  set (c := TcpServer.mkConn _ nm _) in Hc.
  assert (Hann : announced (world s) w = [p]) by (by rewrite (announced_insert _ _ _ _ Hc), Hp).
  eexists. split; [apply server_call_eq; [exact Hw|by rewrite Hf]|]. rewrite Hann. cbn [foldl].
  set (s1 := set_world w _).
  assert (Hst : stopped s = false).
  { destruct (stopped s) eqn:E; [|done]. pose proof (ag_world s Ha) as Hinv. rewrite E in Hinv.
    destruct (inv_stopped _ _ Hinv eq_refl). congruence. }
  apply good_step_intro; [done| | |].
  - split.
    + exists [RpcTcp.Connect p fd buffer kw ks]. split; [by constructor|]. cbn [RpcTcp.run RpcTcp.step].
      change (RpcTcp.idle (net s)) with (between s). rewrite Hbt. unfold RpcTcp.connect. cbn [net RpcTcp.conns].
      rewrite lookup_fmap, Hp. cbn [fmap option_fmap option_map]. rewrite connectEstablished_opened.
      assert (Hon : RpcServer.step (rpc s) (RpcServer.OnConnection p) = Some (Ret (RpcServer.onConnection (rpc s) p, []))).
      { cbn [RpcServer.step]. by rewrite Hil, Hfr, bool_decide_true. }
      unfold RpcTcp.rpc_step. change (RpcTcp.rpc (RpcTcp.set_conn p _ (net s))) with (rpc s). rewrite Hon.
      cbn [RpcTcp.perform RpcTcp.return_ app].
      unfold net, s1. cbn. by rewrite Hc, fmap_insert.
    + eexists. apply (announced_io s [p]); [by eapply calls_back_spec; [|left]|done|done].
  - apply (accepted_agrees s p c tcp w); try done. rewrite Hst. pose proof (ag_world s Ha) as Hinv. rewrite Hst in Hinv.
    destruct (fine_new_connection TcpConnection.return_ None None None (proj1 none_ok) (proj2 none_ok) p tcp peer (world s)
      Hinv Hp) as (thrown & w' & Hw' & Hok); [by eexists _, _, _, _, _|done|].
    rewrite Hw in Hw'. injection Hw' as <- <-. by apply Hok.
  - intros l' Hl'. apply (accepted_tasks s p c tcp w); try done. by apply Htk.
Qed.

End server.
