(* ===== verification/RpcReactorCalls.v ===== *)
(** The functors the loop of the reactor calls: those of connections, the
    removals, and the functor of [stop]. *)
From Stdlib Require Import ZArith Lia.
From Stdlib Require Import Strings.Byte.
From stdpp Require Import base list strings gmap.
From S2P Require Import Prelude NetBuffer EventLoop EventLoopFacts TcpConnection TcpConnectionFacts TcpConnectionLife Socket SocketFacts TcpServer TcpServerFacts RpcMessage RpcServer RpcServerFacts RpcIo RpcIoFacts RpcLedger RpcTcp RpcTcpFacts RpcTcpLive RpcReactor RpcReactorSteps RpcReactorFacts RpcReactorServer.
#[local] Set Warnings "-clear-no-such-hyp".
#[local] Existing Instance EventLoop.phase_eq_dec.

Section calls.
Context `{Inet} {Handler : Type}.
Implicit Types s : RpcReactor.t (Handler := Handler).
Import RpcReactor.

(** * The loop takes a functor *)

Definition popped (f : nat) (rest : list nat) (l : EventLoop.t) : EventLoop.t :=
  let l := EventLoop.call_functor f rest l in
  if (f =? IoThread.stop_functor)%nat then EventLoop.quit l else l.

Lemma called_spec s l f rest i :
  loop s = Some l -> EventLoop.callbacks l = f :: rest ->
  IoThread.loop_event EventLoop.CallFunctor (io s) = Some i ->
  EventLoop.at_ l = EventLoop.Running /\
  i = IoThread.mk (rpc s)
        (if (f =? IoThread.stop_functor)%nat then IoThread.stop_server (IoThread.tcp_server_ (io s)) else IoThread.tcp_server_ (io s))
        (Some (popped f rest l)) (IoThread.entered (io s)).
Proof.
  unfold loop. intros Hl Hc. unfold IoThread.loop_event. rewrite Hl. case_if; [|done].
  cbn [EventLoop.step IoThread.called]. rewrite Hc. destruct (EventLoop.at_ l) eqn:Ea; try done.
  unfold popped. destruct (f =? _)%nat; intros [= <-]; (split; [done|]); by rewrite orb_false_r.
Qed.

Lemma called_run s i :
  IoThread.loop_event EventLoop.CallFunctor (io s) = Some i ->
  IoThread.run (io s) [IoThread.Loop EventLoop.CallFunctor] = Some (Ret i).
Proof. intros Hi. cbn [IoThread.run IoThread.step]. by rewrite Hi. Qed.

Lemma popped_fields f rest l :
  functors_of (popped f rest l) = rest ++ EventLoop.pending_functors_ l /\
  EventLoop.at_ (popped f rest l) = EventLoop.at_ l /\
  EventLoop.quit_ (popped f rest l) = (f =? IoThread.stop_functor)%nat || EventLoop.quit_ l.
Proof. unfold popped. by destruct (f =? _)%nat. Qed.

(** The functor called is no longer outstanding. *)
Lemma popped_outstanding s s1 l f rest :
  EventLoop.callbacks l = f :: rest -> tasks s1 = tasks s ->
  outstanding s l = match task_at (tasks s) f with Some k => k :: outstanding s1 (popped f rest l)
                    | None => outstanding s1 (popped f rest l) end.
Proof.
  intros Hc Ht. unfold outstanding. rewrite (proj1 (popped_fields f rest l)), Ht. unfold functors_of.
  rewrite Hc. cbn. by destruct (task_at (tasks s) f).
Qed.

Lemma popped_known s l f rest :
  EventLoop.callbacks l = f :: rest -> tasks_ok s l -> forall g, g ∈ functors_of (popped f rest l) ->
  g = IoThread.stop_functor \/ is_Some (task_at (tasks s) g).
Proof.
  intros Hc Hk g. rewrite (proj1 (popped_fields f rest l)). intros Hg. apply (tk_known _ _ Hk).
  unfold functors_of. rewrite Hc. by right.
Qed.

(** What the parts agree on has nothing to do with the functor taken, that of
    [stop] apart; nor have the tasks of the connections it is not about. *)
Lemma popped_agrees s l i rest j :
  agrees s -> reading s = None -> loop s = Some l ->
  j = IoThread.mk (rpc s) (IoThread.tcp_server_ (io s)) (Some (popped (S i) rest l)) (IoThread.entered (io s)) ->
  agrees (set_io j s).
Proof.
  intros [A1 A2 A3 A4 A5 A6 A7] Hrd Hl ->. constructor; try done.
  - intros l' [= <-]. apply (A6 l Hl).
  - intros Hs. change (reading (set_io _ s)) with (reading s) in Hs. rewrite Hrd in Hs. by destruct Hs.
Qed.

Lemma popped_tasks_but s s0 l i rest p :
  EventLoop.callbacks l = S i :: rest -> tasks s !! i = Some (OfConnection p) -> tasks s0 = tasks s -> world s0 = world s ->
  tasks_ok s l -> tasks_but p s0 (popped (S i) rest l) /\
    forall k, times k (outstanding s l) =
      ((if bool_decide (OfConnection p = k) then 1 else 0) + times k (outstanding s0 (popped (S i) rest l)))%nat.
Proof.
  intros Hc Ht Hts Hw Hk. pose proof (popped_outstanding s s0 l _ rest Hc Hts) as Ho. cbn [task_at] in Ho. rewrite Ht in Ho.
  assert (Hcount : forall k, times k (outstanding s l) =
      ((if bool_decide (OfConnection p = k) then 1 else 0) + times k (outstanding s0 (popped (S i) rest l)))%nat).
  { intros k. by rewrite Ho, times_cons. }
  split; [|exact Hcount]. constructor; rewrite ?Hw.
  - intros g. rewrite Hts. by apply popped_known.
  - pose proof (Hcount OfServer) as E. rewrite bool_decide_false, (tk_server _ _ Hk) in E by done. symmetry. exact E.
  - intros q d Hne Hd. pose proof (Hcount (OfConnection q)) as E. rewrite bool_decide_false in E by congruence.
    rewrite <- (tk_conn _ _ Hk q d Hd), E. done.
  - intros q Hq. apply (tk_subject _ _ Hk). rewrite Ho. by right.
Qed.

(** * A functor of a connection *)

Lemma connection_functor_good n s l i rest p j n' acts0 acts :
  reactor_inv n s acts0 -> between s = true -> loop s = Some l -> EventLoop.callbacks l = S i :: rest ->
  IoThread.loop_event EventLoop.CallFunctor (io s) = Some j -> tasks s !! i = Some (OfConnection p) ->
  RpcTcp.step (net s) (RpcTcp.CallFunctor p) = Some (Ret (None, n'), acts) ->
  exists s1, network true (RpcTcp.CallFunctor p) (set_io j s) = Some (Ret (None, s1), acts) /\ good_step n s s1 acts0 acts.
Proof.
  intros Hi Hbt Hl Hc Hj Ht Hstep. pose proof Hi as [Hio Hnet Ha Htk]. destruct (between_spec s Hbt) as (_ & _ & Hrd).
  destruct (called_spec s l (S i) rest j Hl Hc Hj) as [Hat Ej]. cbn [Nat.eqb IoThread.stop_functor] in Ej.
  pose proof (called_run s j Hj) as Hrun1. pose proof (run_io_inv _ _ _ _ Hio Hrun1) as Hio0.
  set (s0 := set_io j s) in *. set (l1 := popped (S i) rest l) in *.
  assert (Hnet0 : net s0 = net s) by (unfold net, s0, rpc; by rewrite Ej).
  assert (Hl0 : loop s0 = Some l1) by (unfold loop, s0; by rewrite Ej).
  assert (Ha0 : agrees s0) by (by apply (popped_agrees s l i rest)).
  rewrite <- Hnet0 in Hstep.
  destruct (functor_touches _ _ _ _ Hstep) as (Htouch & -> & Hr).
  assert (Hnet1 : tcp_inv (net s0) acts0) by (by rewrite Hnet0).
  destruct (network_spec n s0 acts0 Hio0 Hnet1 Ha0 (RpcTcp.CallFunctor p) n' [] I Hstep true called Htouch)
    as (s' & Hs' & Hn' & Ha' & Hsub & ies & Hies).
  - intros c c' [Hev Hp]. split; [done|]. intros _. unfold new_functors. lia.
  - by rewrite Hr.
  - constructor.
  - intros Hx. assert (Hrn : RpcTcp.reading n' = None).
    { eapply (tcp_event_touches p _ (net s0) n' [] (fun _ _ => True)); [done|exact Hstep]. }
    rewrite Hrn in Hx. by destruct Hx.
  - intros l' Hl' _. assert (l' = l1) as -> by congruence. unfold l1. rewrite (proj1 (proj2 (popped_fields _ _ _))). by rewrite Hat.
  - exists s'. split; [done|]. apply good_step_intro; [done| |done|].
    + split.
      * exists [RpcTcp.CallFunctor p]. split; [by constructor|]. cbn [RpcTcp.run]. rewrite Hnet0 in Hstep. by rewrite Hstep, Hn'.
      * eexists. erewrite io_run_app; [exact Hies|exact Hrun1].
    + pose proof (Htk l Hl) as Hk. destruct (popped_tasks_but s s0 l i rest p Hc Ht eq_refl eq_refl Hk) as [Hbut Hcount]. fold l1 in Hbut, Hcount.
      pose proof (Hcount (OfConnection p)) as E. rewrite bool_decide_true in E by done.
      destruct (tk_subject _ _ Hk p) as [c Hp]; [apply times_in; rewrite E; cbn; lia|]. rewrite (tk_conn _ _ Hk p c Hp) in E.
      destruct Hsub as [[_ Hno]|(q & c' & after & Hq & Hc' & [_ Hlen] & Hst)].
      * specialize (Hno p eq_refl). change (world s0) with (world s) in Hno. congruence.
      * injection Hq as <-. change (world s0) with (world s) in Hc'. assert (c' = c) as -> by congruence.
        apply (stored_tasks p c after s0 s' l1 Hc' Hl0 Hst Hbut). unfold new_functors. lia.
Qed.

(** * Removals *)

Definition gone (c : TcpServer.conn) : TcpServer.conn :=
  TcpServer.mkConn (TcpServer.loop_ c) (TcpServer.name c) (removed (TcpServer.tcp c)).

(** The connections of a list are removed in [w']. *)
Definition removes_all (ps : list nat) (w w' : TcpServer.world) : Prop :=
  forall q, TcpServer.conns w' !! q =
    (fun c => if decide (q ∈ ps) then gone c else c) <$> TcpServer.conns w !! q.

Lemma new_notifications_gone c : new_notifications (Some c) (TcpServer.tcp (gone c)) = 1%nat.
Proof.
  change (length (List.filter is_connection_cb (drop (length (TcpConnection.log (TcpServer.tcp c)))
            (TcpConnection.log (removed (TcpServer.tcp c))))) = 1%nat).
  by rewrite removed_log, drop_app_length.
Qed.

Lemma concat_filter (P : nat -> Prop) `{forall p, Decision (P p)} (l : list nat) :
  concat ((fun p => if decide (P p) then [p] else []) <$> l) = filter P l.
Proof. induction l as [|p l IH]; [done|]. cbn. rewrite IH. unfold filter. cbn. by case_decide. Qed.

(** Exactly these are announced. *)
Lemma announced_removed ps w w' :
  removes_all ps w w' ->
  NoDup (announced w w') /\ forall p, p ∈ announced w w' <-> p ∈ ps /\ is_Some (TcpServer.conns w !! p).
Proof.
  intros Hw. assert (E : announced w w' = filter (fun p => p ∈ ps) (map_to_list (TcpServer.conns w')).*1).
  { unfold announced. rewrite <- (concat_filter (fun p => p ∈ ps)). rewrite <- list_fmap_compose. f_equal.
    apply list_fmap_ext. intros i [q c'] Hq%list_elem_of_lookup_2%elem_of_map_to_list. cbn. rewrite Hw in Hq.
    destruct (TcpServer.conns w !! q) as [c|] eqn:Ec; [|done]. cbn in Hq. injection Hq as <-.
    case_decide; [by rewrite new_notifications_gone|by rewrite new_notifications_same]. }
  rewrite E. split; [apply NoDup_filter, NoDup_fst_map_to_list|]. intros p. rewrite list_elem_of_filter.
  assert (Hx : p ∈ (map_to_list (TcpServer.conns w')).*1 <-> is_Some (TcpServer.conns w' !! p)).
  { rewrite list_elem_of_fmap. split.
    - intros ([q c] & -> & Hq%elem_of_map_to_list). cbn. by eexists.
    - intros [c Hc]. exists (p, c). split; [done|]. by apply elem_of_map_to_list. }
  rewrite Hx, Hw, fmap_is_Some. done.
Qed.

(** The callbacks' model removes the same. *)
Lemma removed_net ps w w' :
  NoDup ps -> removes_all ps w w' ->
  TcpServer.tcp <$> TcpServer.conns w' = remove_all ps (TcpServer.tcp <$> TcpServer.conns w).
Proof.
  intros Hnd Hw. apply map_eq. intros q. rewrite remove_all_lookup, !lookup_fmap, Hw by done.
  destruct (TcpServer.conns w !! q); cbn; by case_decide.
Qed.

(** What the parts agree on, once connections that were up are removed. *)
Lemma removed_agrees s s1 ps :
  agrees s -> NoDup ps ->
  (forall p, p ∈ ps -> exists c, TcpServer.conns (world s) !! p = Some c /\ notified (TcpServer.tcp c) = [up]) ->
  rpc s1 = foldl RpcServer.onConnection (rpc s) ps -> removes_all ps (world s) (world s1) ->
  TcpServerFacts.inv (stopped s1) (world s1) -> TcpServer.sub_loops_ (TcpServer.server (world s1)) = [] ->
  (forall l, loop s1 = Some l -> IoThread.tcp_server_ (io s1) = IoThread.OnLoop (EventLoop.quit_ l)) ->
  reading s1 = None -> agrees s1.
Proof.
  intros Ha Hnd Hin Hr Hw Hinv Hsub Hstop Hrd. constructor; [done|done| | | |done|].
  - intros q c'. rewrite Hw. destruct (TcpServer.conns (world s) !! q) as [c|] eqn:Ec; [|done]. cbn. intros [= <-].
    case_decide; exact (ag_main s Ha q c Ec).
  - intros q. rewrite Hr, onConnections_gone; [|done|].
    + rewrite Hw. case_decide as Hq.
      * destruct (Hin q Hq) as (c & Hc & Hn). rewrite Hc. split; [by intros [? ?]|]. intros (d & [= <-] & Hd). cbn in Hd.
        by rewrite removed_notified, Hn in Hd.
      * rewrite (ag_table s Ha q). destruct (TcpServer.conns (world s) !! q); done.
    + intros p Hp. apply (ag_table s Ha). destruct (Hin p Hp) as (c & Hc & Hn). by exists c.
  - intros q c'. rewrite Hw. destruct (TcpServer.conns (world s) !! q) as [c|] eqn:Ec; [|done]. cbn. intros [= <-].
    case_decide as Hq; [|exact (ag_closed s Ha q c Ec)]. destruct (Hin q Hq) as (d & Hd & Hn).
    assert (d = c) as -> by congruence. cbn. rewrite removed_notified, Hn. done.
  - rewrite Hrd. by intros [? ?].
Qed.

(** ** The next functor of the TCP server *)

Lemma connection_not_connecting s p c :
  agrees s -> TcpServer.conns (world s) !! p = Some c ->
  queued (TcpServer.ConnectEstablished p) (TcpServer.functors (world s)) = 0%nat.
Proof.
  intros Ha Hc. destruct (inv_known _ _ (ag_world s Ha) p c Hc) as (_ & st & Hs & _).
  pose proof (ag_main s Ha p c Hc) as Hm. destruct st; cbn in Hs; [by destruct Hs as (_ & _ & _ & _ & ? & _)|by destruct Hs as (_ & _ & -> & _)..].
Qed.

(** It is a removal. *)
Lemma next_removal s k :
  agrees s -> length (TcpServer.functors (world s)) = S k ->
  exists p c l, TcpServer.pop TcpServer.main_loop_ (TcpServer.functors (world s)) = Some (TcpServer.RemoveConnection p, l) /\
    TcpServer.conns (world s) !! p = Some c /\ length l = k.
Proof.
  intros Ha Hlen. destruct (TcpServer.functors (world s)) as [|[lp g] l] eqn:Ef; [done|].
  pose proof (inv_frame _ _ (ag_world s Ha)) as Hfr.
  destruct (fr_functors _ Hfr lp g) as (c & Hc & Hlp); [rewrite Ef; by left|]. rewrite (ag_main s Ha _ c Hc) in Hlp. subst lp.
  destruct g as [p|p]; cbn [TcpServerFacts.subject] in Hc.
  - exfalso. pose proof (connection_not_connecting s p c Ha Hc) as Hq. rewrite Ef in Hq. unfold queued in Hq. cbn in Hq.
    rewrite bool_decide_true in Hq by done. done.
  - exists p, c, l. cbn in Hlen. split; [by rewrite pop_first|]. split; [done|]. by injection Hlen.
Qed.

Lemma removal_world s p c l :
  agrees s -> TcpServer.pop TcpServer.main_loop_ (TcpServer.functors (world s)) = Some (TcpServer.RemoveConnection p, l) ->
  TcpServer.conns (world s) !! p = Some c ->
  exists w ps, TcpServer.run_functor connection_callback (TcpServer.RemoveConnection p) (TcpServer.set_functors l (world s)) = Ret (None, w) /\
    NoDup ps /\ removes_all ps (world s) w /\ TcpServer.functors w = l /\ TcpServer.sub_loops_ (TcpServer.server w) = [] /\
    (forall q, q ∈ ps -> exists d, TcpServer.conns (world s) !! q = Some d /\ notified (TcpServer.tcp d) = [up] /\
       TcpConnection.CloseCb ∈ TcpConnection.log (TcpServer.tcp d)) /\
    TcpServerFacts.inv (stopped s) w.
Proof.
  intros Ha Hpop Hc. pose proof (ag_main s Ha p c Hc) as Hm. set (w0 := TcpServer.set_functors l (world s)).
  assert (Hfine : fine (stopped s) (TcpServer.removeConnectionInLoop connection_callback p w0)).
  { apply (fine_removed TcpConnection.return_ None None None (proj1 none_ok) (proj2 none_ok) (stopped s) TcpServer.main_loop_);
      [exact (ag_world s Ha)|done|exact Hpop]. }
  cbn [TcpServer.run_functor]. unfold TcpServer.removeConnectionInLoop in *.
  assert (Hc0 : TcpServer.conns w0 !! p = Some c) by exact Hc. rewrite Hc0 in *.
  assert (Hnothing : fine (stopped s) (TcpServer.return_ w0) ->
    exists w ps, TcpServer.return_ w0 = Ret (None, w) /\ NoDup ps /\ removes_all ps (world s) w /\ TcpServer.functors w = l /\
      TcpServer.sub_loops_ (TcpServer.server w) = [] /\
      (forall q, q ∈ ps -> exists d, TcpServer.conns (world s) !! q = Some d /\ notified (TcpServer.tcp d) = [up] /\
         TcpConnection.CloseCb ∈ TcpConnection.log (TcpServer.tcp d)) /\ TcpServerFacts.inv (stopped s) w).
  { intros (thrown & w & [= <- <-] & Hok). exists w0, []. split; [done|]. split; [constructor|]. split.
    - intros q. change (TcpServer.conns w0) with (TcpServer.conns (world s)).
      destruct (TcpServer.conns (world s) !! q); cbn; [|done]. rewrite decide_False; [done|]. apply not_elem_of_nil.
    - split; [done|]. split; [exact (ag_subs s Ha)|]. split; [by intros q ?%elem_of_nil|by apply Hok]. }
  destruct (TcpServer.connections_ (TcpServer.server w0) !! TcpServer.name c) as [q|] eqn:Eq; [|by apply Hnothing].
  destruct (q =? p)%nat eqn:Eqp; [|by apply Hnothing]. apply Nat.eqb_eq in Eqp. subst q. clear Hnothing.
  unfold TcpServer.connectDestroyed in *. set (w1 := TcpServer.set_server _ w0) in *.
  assert (Hc1 : TcpServer.conns w1 !! p = Some c) by exact Hc.
  rewrite (on_conn_updated p _ w1 c Hc1), connectDestroyed_removed in *. cbn [mbind outcome_bind] in *.
  destruct Hfine as (thrown & w & [= <- <-] & Hok). exists (updated p c (removed (TcpServer.tcp c)) w1), [p].
  destruct (conn_stage s p c Ha Hc) as (_ & _ & [(Hn & _ & _ & Hq)|(_ & Hno & _)]); [|by destruct Hno].
  split; [done|]. split; [apply NoDup_singleton|]. split; [|split; [|split; [|split]]].
  - intros q. rewrite updated_conns. change (TcpServer.conns w1) with (TcpServer.conns (world s)).
    destruct (decide (q = p)) as [->|Hne].
    + rewrite lookup_insert_eq, Hc. cbn. rewrite decide_True by (by apply list_elem_of_singleton). done.
    + rewrite lookup_insert_ne by done. destruct (TcpServer.conns (world s) !! q); cbn; [|done].
      rewrite decide_False; [done|]. by rewrite list_elem_of_singleton.
  - rewrite updated_functors, (new_closes_one down) by (done || apply removed_log). cbn. by rewrite app_nil_r.
  - rewrite updated_server. exact (ag_subs s Ha).
  - intros q ->%list_elem_of_singleton. exists c. split; [done|]. split; [done|]. apply (ag_closed s Ha p c Hc); [|done].
    destruct (bool_decide (TcpConnection.state_ _ = _)) eqn:Ed; [by apply bool_decide_eq_true in Ed|].
    assert (Hin : (0 < queued (TcpServer.RemoveConnection p) (TcpServer.functors (world s)))%nat); [|lia].
    apply queued_in. exists TcpServer.main_loop_. by apply (pop_spec _ _ _ _ Hpop).
  - by apply Hok.
Qed.

(** ** A functor that removes connections *)

Lemma removes_announced ps w w' :
  removes_all ps w w' -> removes_all (announced w w') w w'.
Proof.
  intros Hw q. rewrite Hw. destruct (announced_removed ps w w' Hw) as [_ Hin].
  destruct (TcpServer.conns w !! q) as [c|] eqn:Ec; [|done]. cbn. f_equal.
  assert (E : q ∈ announced w w' <-> q ∈ ps) by (rewrite Hin, Ec; split; [tauto|intros; split; [done|by eexists]]).
  repeat case_decide; tauto.
Qed.

Section removes.
Context (n : nat) (s : RpcReactor.t (Handler := Handler)) (acts0 : list RpcServer.action).
Context (l : EventLoop.t) (f : nat) (rest : list nat) (j : @IoThread.t Handler).
Context (Hi : reactor_inv n s acts0) (Hbt : between s = true) (Hl : loop s = Some l).
Context (Hc : EventLoop.callbacks l = f :: rest) (Hj : IoThread.loop_event EventLoop.CallFunctor (io s) = Some j).
Context (Hf : forall p, task_at (tasks s) f <> Some (OfConnection p)).
Context (call : TcpServer.world -> TcpServer.result) (w0 w : TcpServer.world) (ps : list nat).
Context (Hconns : TcpServer.conns w0 = TcpServer.conns (world s)) (Hcall : call w0 = Ret (None, w)).
Context (Hlen : (length (TcpServer.functors w) <= length (TcpServer.functors w0))%nat).
Context (Hcount : times OfServer (outstanding s l) =
  ((if bool_decide (task_at (tasks s) f = Some OfServer) then 1 else 0) + length (TcpServer.functors w))%nat).
Context (Hw : removes_all ps (world s) w).
Context (Hps : forall q, q ∈ ps -> exists d, TcpServer.conns (world s) !! q = Some d /\ notified (TcpServer.tcp d) = [up] /\
  (TcpConnection.CloseCb ∈ TcpConnection.log (TcpServer.tcp d) \/ RpcServer.running_ (rpc s) = false)).
Context (Hinv : TcpServerFacts.inv (stopped (set_io j s)) w) (Hsub : TcpServer.sub_loops_ (TcpServer.server w) = []).
Context (Hstop : IoThread.tcp_server_ j = IoThread.OnLoop (EventLoop.quit_ (popped f rest l))).

Lemma removes_tasks s1 :
  tasks s1 = tasks s -> world s1 = w -> tasks_ok s1 (popped f rest l).
Proof.
  intros Ht Hw1. pose proof (ri_tasks _ _ _ Hi l Hl) as Hk. pose proof (popped_outstanding s s1 l f rest Hc Ht) as Ho.
  assert (Hone : forall k, times k (outstanding s l) =
    ((if bool_decide (task_at (tasks s) f = Some k) then 1 else 0) + times k (outstanding s1 (popped f rest l)))%nat).
  { intros k. rewrite Ho. destruct (task_at (tasks s) f) as [k'|]; [|by rewrite bool_decide_false].
    rewrite times_cons. f_equal. by rewrite (bool_decide_ext (k' = k) (Some k' = Some k)) by naive_solver. }
  constructor; rewrite ?Hw1.
  - intros g. rewrite Ht. by apply (popped_known s l f rest Hc Hk).
  - pose proof (Hone OfServer). lia.
  - intros p c. rewrite Hw. destruct (TcpServer.conns (world s) !! p) as [d|] eqn:Ed; [|done]. intros [= <-].
    pose proof (Hone (OfConnection p)) as E. rewrite bool_decide_false, (tk_conn _ _ Hk p d Ed) in E by done. cbn in E.
    rewrite <- E. destruct (decide (p ∈ ps)); [|reflexivity]. cbn [gone TcpServer.tcp]. by rewrite removed_pending.
  - intros p Hp. rewrite Hw, fmap_is_Some. apply (tk_subject _ _ Hk). rewrite Ho. destruct (task_at _ f); [by right|done].
Qed.

Lemma removes_good :
  exists s1, server_call call (set_world w0 (set_io j s)) = Ret (None, s1) /\ good_step n s s1 acts0 [].
Proof.
  pose proof Hi as [Hio Hnet Ha Htk]. destruct (between_spec s Hbt) as (Hil & Hfr & Hrd).
  destruct (called_spec s l f rest j Hl Hc Hj) as [Hat Ej]. pose proof (called_run s j Hj) as Hrun1.
  assert (Hann : announced w0 w = announced (world s) w) by (unfold announced; by rewrite Hconns).
  set (A := announced (world s) w) in *. destruct (announced_removed ps (world s) w Hw) as [HA HinA]. fold A in HA, HinA.
  pose proof (removes_announced ps (world s) w Hw) as HwA. fold A in HwA.
  assert (HA' : forall q, q ∈ A -> exists d, TcpServer.conns (world s) !! q = Some d /\ notified (TcpServer.tcp d) = [up] /\
    (TcpConnection.CloseCb ∈ TcpConnection.log (TcpServer.tcp d) \/ RpcServer.running_ (rpc s) = false)).
  { intros q [Hq _]%HinA. by apply Hps. }
  set (s0 := set_world w0 (set_io j s)).
  eexists. split; [by apply (server_call_eq call s0 w)|]. change (world s0) with w0. rewrite Hann.
  assert (Hr0 : rpc s0 = rpc s) by (unfold rpc, s0; by rewrite Ej). rewrite Hr0.
  set (s1 := set_world w _).
  assert (Hl1 : loop s1 = Some (popped f rest l)) by (unfold loop, s1, s0; by rewrite Ej).
  apply good_step_intro; [done| | |].
  - split.
    + exists (map RpcTcp.Destroy A). split; [apply Forall_forall; by intros e (q & <- & _)%list_elem_of_In%in_map_iff|].
      rewrite (destroy_run (net s) A); [|exact Hbt|done|].
      * unfold net, s1, s0. cbn. rewrite <- (removed_net A (world s) w HA HwA). done.
      * intros q Hq. destruct (HA' q Hq) as (d & Hd & Hn & Hwhy). exists (TcpServer.tcp d). cbn [net RpcTcp.conns].
        by rewrite lookup_fmap, Hd.
    + eexists. erewrite io_run_app; [|exact Hrun1]. change (IoThread.run (io s0) ?x) with (IoThread.run (io s0) x).
      assert (Hcb : IoThread.calls_back (io s0) = true).
      { eapply (calls_back_spec s0 (popped f rest l)); [unfold loop, s0; by rewrite Ej|]. right.
        by rewrite (proj1 (proj2 (popped_fields _ _ _))). }
      pose proof (announced_io s0 A Hcb) as Hx. rewrite Hr0 in Hx. exact (Hx Hil Hfr).
  - apply (removed_agrees s s1 A Ha HA); [|done|exact HwA|exact Hinv|exact Hsub| |done].
    + intros q Hq. destruct (HA' q Hq) as (d & Hd & Hn & _). by exists d.
    + intros l' Hl'. assert (l' = popped f rest l) as -> by congruence. exact Hstop.
  - intros l' Hl'. assert (l' = popped f rest l) as -> by congruence. by apply removes_tasks.
Qed.

End removes.

Lemma server_functor_good n s l i rest j acts0 :
  reactor_inv n s acts0 -> between s = true -> loop s = Some l -> EventLoop.callbacks l = S i :: rest ->
  IoThread.loop_event EventLoop.CallFunctor (io s) = Some j -> tasks s !! i = Some OfServer ->
  exists f w s1, run_functor (world s) = Some (f, w) /\
    server_call (TcpServer.run_functor connection_callback f) (set_world w (set_io j s)) = Ret (None, s1) /\
    good_step n s s1 acts0 [].
Proof.
  intros Hi Hbt Hl Hc Hj Ht. pose proof Hi as [Hio Hnet Ha Htk]. pose proof (Htk l Hl) as Hk.
  destruct (called_spec s l (S i) rest j Hl Hc Hj) as [_ Ej]. cbn [Nat.eqb IoThread.stop_functor] in Ej.
  pose proof (popped_outstanding s s l _ rest Hc eq_refl) as Ho. cbn [task_at] in Ho. rewrite Ht in Ho.
  pose proof (tk_server _ _ Hk) as Hcount. rewrite Ho, times_cons, bool_decide_true in Hcount by done.
  destruct (next_removal s _ Ha (eq_sym Hcount)) as (p & c & lf & Hpop & Hp & Hlf).
  destruct (removal_world s p c lf Ha Hpop Hp) as (w & ps & Hw & Hnd & Hrem & Hfw & Hsub & Hps & Hinv).
  assert (Hst : stopped (set_io j s) = stopped s) by (unfold stopped; by rewrite Ej).
  destruct (removes_good n s acts0 l (S i) rest j Hi Hbt Hl Hc Hj ltac:(cbn; rewrite Ht; congruence)
    (TcpServer.run_functor connection_callback (TcpServer.RemoveConnection p)) (TcpServer.set_functors lf (world s)) w ps)
    as (s1 & Hs1 & Hgood); try done.
  - rewrite Hfw. done.
  - rewrite bool_decide_true by (cbn; by rewrite Ht). rewrite Hfw, Ho, times_cons, bool_decide_true by done. lia.
  - intros q Hq. destruct (Hps q Hq) as (d & ? & ? & ?). exists d. auto.
  - by rewrite Hst.
  - rewrite Ej. cbn [IoThread.tcp_server_]. rewrite (proj2 (proj2 (popped_fields _ _ _))). cbn [Nat.eqb IoThread.stop_functor orb].
    by apply (ag_stop s Ha).
  - exists (TcpServer.RemoveConnection p), (TcpServer.set_functors lf (world s)), s1. unfold run_functor. by rewrite Hpop.
Qed.

(** ** The functor of [stop] *)

Lemma removes_all_nil w : removes_all [] w w.
Proof.
  intros q. destruct (TcpServer.conns w !! q); [|done]. cbn. rewrite decide_False; [done|]. apply not_elem_of_nil.
Qed.

Lemma destroy_main_world ps w :
  NoDup ps -> (forall p, p ∈ ps -> exists c, TcpServer.conns w !! p = Some c /\ TcpServer.loop_ c = TcpServer.main_loop_) ->
  exists w', TcpServer.destroy_main connection_callback ps w = Ret (None, w') /\
    TcpServer.functors w' = TcpServer.functors w /\ TcpServer.server w' = TcpServer.server w /\ removes_all ps w w'.
Proof.
  intros Hnd. revert w. induction Hnd as [|p ps Hp Hnd IH]; intros w Hin; cbn [TcpServer.destroy_main].
  { exists w. split; [done|]. split; [done|]. split; [done|]. apply removes_all_nil. }
  destruct (Hin p) as (c & Hc & Hm); [by left|]. rewrite Hc, Hm, Nat.eqb_refl.
  unfold TcpServer.connectDestroyed. rewrite (on_conn_updated p _ w c Hc), connectDestroyed_removed.
  unfold TcpServer.then_. cbn [mbind outcome_bind]. set (w1 := updated p c (removed (TcpServer.tcp c)) w).
  assert (Hc1 : TcpServer.conns w1 = <[p := gone c]> (TcpServer.conns w)) by apply updated_conns.
  destruct (IH w1) as (w' & -> & Hf & Hs & Hr).
  { intros q Hq. rewrite Hc1, lookup_insert_ne by (intros ->; done). apply Hin. by right. }
  exists w'. split; [done|]. split; [|split].
  - rewrite Hf. unfold w1. rewrite updated_functors, (new_closes_one down) by (done || apply removed_log). apply app_nil_r.
  - rewrite Hs. unfold w1. apply updated_server.
  - intros q. rewrite Hr, Hc1. destruct (decide (q = p)) as [->|Hne].
    + rewrite lookup_insert_eq, Hc. cbn. rewrite decide_False by done. rewrite decide_True by (by left). done.
    + rewrite lookup_insert_ne by done. destruct (TcpServer.conns w !! q); [|done]. cbn.
      repeat case_decide; try done; set_solver.
Qed.

Lemma stop_server_world s :
  agrees s ->
  exists w ps, stop_server (world s) = Ret (None, w) /\ TcpServer.functors w = TcpServer.functors (world s) /\
    TcpServer.sub_loops_ (TcpServer.server w) = [] /\ removes_all ps (world s) w /\ TcpServerFacts.inv true w /\
    (forall q, q ∈ ps -> exists d, TcpServer.conns (world s) !! q = Some d /\ notified (TcpServer.tcp d) = [up]).
Proof.
  intros Ha. pose proof (ag_world s Ha) as Hinv. set (w0 := TcpServer.stop_begin (world s)).
  assert (Hinv0 : TcpServerFacts.inv (stopped s) w0).
  { destruct Hinv as [Hf Hk Hs Hal]. constructor; [by apply frame_set_server|done| |done].
    intros Hb. split; [done|by apply Hs]. }
  destruct (fine_stop TcpConnection.return_ None None None (proj1 none_ok) (proj2 none_ok) (stopped s) w0 Hinv0 eq_refl)
    as (thrown & w & Hw & Hok).
  unfold TcpServer.stop_end in Hw. set (w1 := TcpServer.set_server _ w0) in Hw. set (ps := _.*2) in Hw.
  assert (Hps : forall q, q ∈ ps -> exists d, TcpServer.conns (world s) !! q = Some d /\ in_table (world s) q d).
  { intros q ([nm q'] & -> & Hq%elem_of_map_to_list)%list_elem_of_fmap. cbn.
    destruct (fr_table _ (inv_frame _ _ Hinv) nm q' Hq) as (d & Hd & Hn). exists d. split; [done|]. unfold in_table. by rewrite Hn. }
  destruct (destroy_main_world ps w1) as (w2 & Hd & Hf & Hs & Hr).
  - apply (table_values_nodup w1). apply (frame_set_server _ w0); [done..|]. apply (inv_frame _ _ Hinv0).
  - intros q Hq. destruct (Hps q Hq) as (d & Hd & _). exists d. split; [done|]. by apply (ag_main s Ha q).
  - rewrite Hd in Hw. unfold TcpServer.then_ in Hw. cbn [mbind outcome_bind] in Hw. injection Hw as <- <-.
    eexists _, ps. unfold stop_server, TcpServer.stop_end. fold w0. fold w1. fold ps. rewrite Hd.
    split; [reflexivity|]. split; [exact Hf|]. split; [by cbn; rewrite Hs|]. split; [exact Hr|]. split; [by apply Hok|].
    intros q Hq. destruct (Hps q Hq) as (d & Hdq & Ht). exists d. split; [done|].
    destruct (conn_stage s q d Ha Hdq) as (_ & _ & [(Hn & _)|(_ & Hno & _)]); [done|by destruct Hno].
Qed.

Lemma stop_functor_good n s l rest j acts0 :
  reactor_inv n s acts0 -> between s = true -> loop s = Some l -> EventLoop.callbacks l = IoThread.stop_functor :: rest ->
  IoThread.loop_event EventLoop.CallFunctor (io s) = Some j ->
  exists s1, server_call stop_server (set_io j s) = Ret (None, s1) /\ good_step n s s1 acts0 [].
Proof.
  intros Hi Hbt Hl Hc Hj. pose proof Hi as [Hio Hnet Ha Htk]. pose proof (Htk l Hl) as Hk.
  destruct (called_spec s l _ rest j Hl Hc Hj) as [_ Ej]. cbn [Nat.eqb IoThread.stop_functor] in Ej.
  rewrite (ag_stop s Ha l Hl) in Ej. cbn [IoThread.stop_server] in Ej.
  destruct (stop_server_world s Ha) as (w & ps & Hw & Hfw & Hsub & Hrem & Hinv & Hps).
  assert (Hrun : RpcServer.running_ (rpc s) = false).
  { destruct (RpcServer.running_ (rpc s)) eqn:Er; [|done]. exfalso.
    apply (li_running _ _ _ (ii_loop _ _ Hio l Hl) Er). rewrite !elem_of_app, Hc. right. left. by left. }
  apply (removes_good n s acts0 l IoThread.stop_functor rest j Hi Hbt Hl Hc Hj ltac:(done)
    stop_server (world s) w ps); try done.
  - by rewrite Hfw.
  - rewrite (tk_server _ _ Hk), Hfw. done.
  - intros q Hq. destruct (Hps q Hq) as (d & ? & ?). exists d. auto.
  - unfold stopped. by rewrite Ej.
  - rewrite Ej. by rewrite (proj2 (proj2 (popped_fields _ _ _))).
Qed.

End calls.
