(* ===== verification/RpcReactorRuns.v ===== *)
(** Runs of the RPC server on its reactor: every step keeps what the parts agree
    on, and is a run of each of them. *)
From Stdlib Require Import ZArith Lia.
From Stdlib Require Import Strings.Byte.
From stdpp Require Import base list strings gmap.
From S2P Require Import Prelude NetBuffer EventLoop EventLoopFacts TcpConnection TcpConnectionFacts TcpConnectionLife Socket SocketFacts TcpServer TcpServerFacts RpcMessage RpcServer RpcServerFacts RpcIo RpcIoFacts RpcLedger RpcTcp RpcTcpFacts RpcTcpLive RpcReactor RpcReactorSteps RpcReactorFacts RpcReactorServer RpcReactorCalls.
#[local] Set Warnings "-clear-no-such-hyp".
#[local] Existing Instance EventLoop.phase_eq_dec.

Section runs.
Context `{Inet} {Handler : Type}.
Implicit Types s : RpcReactor.t (Handler := Handler).
Import RpcReactor.

Lemma good_step_refl n s acts0 : reactor_inv n s acts0 -> good_step n s s acts0 [].
Proof.
  intros Hi. split; [|by rewrite app_nil_r]. split; [exists []|exists []]; by split.
Qed.

(** * The loop's own steps *)

Lemma loop_step_functors (l l' : EventLoop.t) e h :
  loop_event e = true -> LoopFacts.ok l h -> EventLoop.step l e = Some l' ->
  functors_of l' = functors_of l /\
  (e = EventLoop.LoopEnter \/ EventLoop.quit_ l' = EventLoop.quit_ l) /\
  (e = EventLoop.WakeOther -> EventLoop.at_ l' = EventLoop.at_ l).
Proof.
  intros He Hok. pose proof (LoopFacts.ok_callbacks _ _ Hok) as Hcb. destruct e; try done; cbn [EventLoop.step].
  - destruct (EventLoop.at_ l); try done. intros [= <-]. unfold EventLoop.loop_enter, EventLoop.loop_condition.
    destruct (EventLoop.looping_ l); split; try done; (split; [by left|done]).
  - destruct (EventLoop.at_ l); try done. destruct (_ && _); [done|]. intros [= <-].
    destruct wakeup_ready; (split; [done|]); (split; [by right|done]).
  - destruct (EventLoop.at_ l) eqn:Ea; try done. intros [= <-]. unfold functors_of. rewrite Hcb by done.
    split; [apply app_nil_r|]. split; [by right|done].
  - destruct (EventLoop.at_ l); try done. destruct (EventLoop.callbacks l) eqn:Ec; [|done]. intros [= <-].
    unfold EventLoop.loop_condition. destruct (EventLoop.quit_ l) eqn:Eq; (split; [done|]); (split; [by right|done]).
  - intros Hs. assert (l' = EventLoop.wake_other l) as ->.
    { destruct (EventLoop.wakers l); [by destruct (EventLoop.at_ l)|]. by destruct (EventLoop.at_ l); injection Hs. }
    split; [done|]. split; [by right|done].
Qed.

Lemma loop_good n s e i acts0 :
  reactor_inv n s acts0 -> loop_event e = true -> (e <> EventLoop.WakeOther -> between s = true) ->
  IoThread.loop_event e (io s) = Some i -> good_step n s (set_io i s) acts0 [].
Proof.
  intros Hi He Hbt Hs. pose proof Hi as [Hio Hnet Ha Htk].
  assert (Hrun : IoThread.run (io s) [IoThread.Loop e] = Some (Ret i)) by (cbn; by rewrite Hs).
  pose proof Hs as Hs'. unfold IoThread.loop_event in Hs'. destruct (IoThread.loop (io s)) as [l|] eqn:El; [|done].
  destruct (IoThread.allowed e (io s)) eqn:Eall; [|done]. destruct (EventLoop.step l e) as [l'|] eqn:Est; [|done].
  assert (Ecalled : IoThread.called e l = false) by (by destruct e). rewrite Ecalled in Hs'. injection Hs' as Ei.
  destruct (li_ok _ _ _ (ii_loop _ _ Hio l El)) as [h Hok].
  destruct (loop_step_functors l l' e h He Hok Est) as (Hf & Hq & Hat).
  assert (Hquit : EventLoop.quit_ l' = EventLoop.quit_ l).
  { destruct Hq as [->|Hq]; [|done]. cbn [IoThread.allowed] in Eall. apply andb_true_iff in Eall as [Een _].
    apply negb_true_iff in Een. destruct (li_new _ _ _ (ii_loop _ _ Hio l El) Een) as (_ & Hq & _).
    cbn [EventLoop.step] in Est. destruct (EventLoop.at_ l); try done. injection Est as <-.
    unfold EventLoop.loop_enter, EventLoop.loop_condition. by destruct (EventLoop.looping_ l). }
  assert (Hl' : loop (set_io i s) = Some l') by (unfold loop; by rewrite <- Ei).
  apply good_step_intro; [done| | |].
  - split; [exists []|by eexists]. split; [done|]. cbn. unfold net, rpc. by rewrite <- Ei.
  - destruct Ha as [A1 A2 A3 A4 A5 A6 A7].
    assert (Hr0 : rpc (set_io i s) = rpc s) by (unfold rpc; by rewrite <- Ei).
    constructor; try done; rewrite ?Hr0; try done.
    + unfold stopped. by rewrite <- Ei.
    + intros l0 Hl0. assert (l0 = l') as -> by congruence. rewrite Hquit, <- Ei. cbn. by apply A6.
    + change (reading (set_io i s)) with (reading s). intros Hr. assert (Hd : e = EventLoop.WakeOther \/ e <> EventLoop.WakeOther) by (destruct e; (by left) || by right).
      destruct Hd as [E|E].
      * specialize (A7 Hr). unfold at_phase in *. rewrite Hl'. unfold loop in A7. rewrite El in A7. by rewrite (Hat E).
      * destruct (between_spec s (Hbt E)) as (_ & _ & Hrd). rewrite Hrd in Hr. by destruct Hr.
  - intros l0 Hl0. assert (l0 = l') as -> by congruence. destruct (Htk l El) as [K1 K2 K3 K4].
    assert (Ho : outstanding (set_io i s) l' = outstanding s l) by (unfold outstanding; by rewrite Hf).
    constructor; rewrite ?Ho; try done. intros f. rewrite Hf. apply K1.
Qed.

(** * Start and stop *)

Lemma stopped_no_loop n s : io_inv n (io s) -> loop s = None -> stopped s = true.
Proof.
  intros Hio Hl. unfold stopped. destruct (IoThread.tcp_server_ (io s)) as [|b|] eqn:E; [done| |done].
  assert (Hx : is_Some (IoThread.loop (io s))) by (apply (ii_server _ _ Hio); by exists b).
  unfold loop in Hl. rewrite Hl in Hx. by destruct Hx.
Qed.

Lemma no_loop n s : io_inv n (io s) -> RpcServer.io_loop (rpc s) = false -> loop s = None.
Proof.
  intros Hio Hl. pose proof (ii_io _ _ Hio) as E. unfold rpc in Hl. rewrite Hl in E. unfold loop.
  destruct (IoThread.loop (io s)); [|done]. by rewrite bool_decide_true in E.
Qed.

Lemma no_loop_reading s : agrees s -> loop s = None -> reading s = None.
Proof.
  intros Ha Hl. destruct (reading s) eqn:E; [|done]. pose proof (ag_reading s Ha) as Hr. rewrite E in Hr.
  unfold at_phase in Hr. rewrite Hl in Hr. by specialize (Hr ltac:(by eexists)).
Qed.

Lemma start_connections (r : @RpcServer.Server Handler) port st :
  RpcServer.connections_ (RpcServer.start r port st).2 = RpcServer.connections_ r.
Proof. unfold RpcServer.start. by repeat case_if. Qed.

(** A start of the server, in the callbacks' model. *)
Lemma start_tcp_step s port status status' r :
  RpcServer.io_loop (rpc s) || negb (RpcServer.workers_ (rpc s) =? 0)%nat = false ->
  RpcServer.start (rpc s) port status = (status', r) -> reading s = None -> TcpServer.conns (world s) = ∅ ->
  RpcTcp.step (net s) (RpcTcp.Rpc (RpcServer.Start port status)) = Some (Ret (None, RpcTcp.mk r ∅ None), []).
Proof.
  intros Eg Er Hrd Hc. cbn [RpcTcp.step RpcTcp.other_thread]. unfold RpcTcp.rpc_step. cbn [RpcServer.step net RpcTcp.rpc]. rewrite Eg, Er.
  cbn [RpcTcp.perform]. unfold RpcTcp.return_, RpcTcp.set_rpc, net. cbn [snd fst mbind outcome_bind RpcTcp.conns RpcTcp.reading RpcTcp.rpc].
  rewrite Hrd, Hc. by rewrite fmap_empty.
Qed.

Lemma start_good n s port st i acts0 :
  reactor_inv n s acts0 -> IoThread.refuses port (io s) = false -> TcpServer.conns (world s) = ∅ ->
  IoThread.step (io s) (IoThread.StartServer port st) = Some (Ret i) ->
  good_step n s (match st with IoThread.Listens => mk i (TcpServer.init server_name 0) None [] | _ => set_io i s end) acts0 [].
Proof.
  intros Hi Href Hc Hs. pose proof Hi as [Hio Hnet Ha Htk].
  assert (Hrun : IoThread.run (io s) [IoThread.StartServer port st] = Some (Ret i)) by (cbn [IoThread.run]; by rewrite Hs).
  cbn [IoThread.step] in Hs. rewrite Href in Hs. cbn [negb andb] in Hs. fold (rpc s) in Hs.
  destruct (RpcServer.io_loop (rpc s) || negb (RpcServer.workers_ (rpc s) =? 0)%nat) eqn:Eg; [done|].
  pose proof Eg as Eg'. apply orb_false_iff in Eg' as [Eio _]. pose proof (no_loop n s Hio Eio) as Hl.
  pose proof (no_loop_reading s Ha Hl) as Hrd. pose proof (stopped_no_loop n s Hio Hl) as Hst.
  pose proof (no_loop_table n s Hio Ha Hl) as Htab.
  unfold IoThread.start in Hs. rewrite Href in Hs.
  destruct (IoThread.io_startup st (IoThread.tcp_server_ (io s))) as [[[status srv] l]| |] eqn:Est; [|done..].
  cbn [mbind outcome_bind] in Hs. fold (rpc s) in Hs.
  destruct (RpcServer.start (rpc s) port status) as [status' r] eqn:Er. cbn in Hs. injection Hs as <-.
  assert (Hrc : RpcServer.connections_ r = ∅).
  { rewrite <- Htab, <- (start_connections (rpc s) port status). by rewrite Er. }
  pose proof (start_tcp_step s port status status' r Eg Er Hrd Hc) as Hstep.
  set (i := IoThread.mk r srv l false) in *. set (s1 := match st with IoThread.Listens => _ | _ => _ end).
  assert (Hio1 : io s1 = i) by (by destruct st). assert (Hrd1 : reading s1 = None) by (by destruct st).
  assert (Hw1 : TcpServer.conns (world s1) = ∅) by (by destruct st).
  assert (Hr1 : rpc s1 = r) by (unfold rpc; by rewrite Hio1).
  assert (Hnet1 : net s1 = RpcTcp.mk r ∅ None) by (unfold net; by rewrite Hr1, Hw1, Hrd1, fmap_empty).
  apply good_step_intro; [done| | |].
  - split.
    + exists [RpcTcp.Rpc (RpcServer.Start port status)]. split; [by constructor|]. cbn [RpcTcp.run]. by rewrite Hstep, Hnet1.
    + exists [IoThread.StartServer port st]. by rewrite Hio1.
  - constructor; rewrite ?Hw1, ?Hr1, ?Hrc, ?Hrd1; try (by intros p c; rewrite lookup_empty); try (by intros [? ?]).
    + destruct st; try (cbn [world s1 set_io]; assert (Est' : stopped (set_io i s) = true) by
        (unfold stopped in *; cbn in Est; try (destruct (IoThread.release _) eqn:Erel; [|done..]; cbn in Est);
         by injection Est as _ <- _);
        unfold s1; rewrite Est'; rewrite <- Hst; exact (ag_world s Ha)).
      cbn in Est. destruct (IoThread.release _); [|done..]. cbn in Est. injection Est as _ <- _. apply inv_init.
    + destruct st; try exact (ag_subs s Ha). done.
    + intros p. rewrite !lookup_empty. split; [by intros [? ?]|]. by intros (c & ? & _).
    + unfold loop. rewrite Hio1. cbn [i IoThread.loop IoThread.tcp_server_].
      destruct st; cbn in Est; try (destruct (IoThread.release _) eqn:Erel; [|done..]; cbn in Est);
        injection Est as _ <- <-; try done. by intros l0 [= <-].
  - unfold loop. rewrite Hio1. cbn [i IoThread.loop]. intros l0 Hl0.
    destruct st; cbn in Est; try (destruct (IoThread.release _) eqn:Erel; [|done..]; cbn in Est);
        injection Est as _ <- <-; try done. injection Hl0 as <-. constructor; try done.
    + intros f Hf. by apply elem_of_nil in Hf.
    + intros p Hp. by apply elem_of_nil in Hp.
Qed.

Lemma stop_good n s i acts0 :
  reactor_inv n s acts0 -> IoThread.stop_begin (io s) = Some i -> good_step n s (set_io i s) acts0 [].
Proof.
  intros Hi Hs. pose proof Hi as [Hio Hnet Ha Htk].
  assert (Hrun : IoThread.run (io s) [IoThread.StopServer] = Some (Ret i)) by (cbn; by rewrite Hs).
  unfold IoThread.stop_begin in Hs. fold (rpc s) in Hs. destruct (RpcServer.stop_begin (rpc s)) as [r|] eqn:Er; [|done].
  injection Hs as <-. set (i := IoThread.mk _ _ _ _) in *.
  assert (Hrc : RpcServer.connections_ r = RpcServer.connections_ (rpc s)).
  { unfold RpcServer.stop_begin in Er. destruct (RpcServer.running_ (rpc s)); [|done]. by injection Er as <-. }
  assert (Hl : loop (set_io i s) = EventLoop.queue_other IoThread.stop_functor <$> loop s) by done.
  apply good_step_intro; [done| | |].
  - split; [|by eexists]. exists [RpcTcp.Rpc RpcServer.StopBegin]. split; [by constructor|].
    cbn [RpcTcp.run RpcTcp.step RpcTcp.other_thread]. unfold RpcTcp.rpc_step. cbn [RpcServer.step net RpcTcp.rpc].
    rewrite Er. done.
  - destruct Ha as [A1 A2 A3 A4 A5 A6 A7]. constructor; try done.
    + change (rpc (set_io i s)) with r. by rewrite Hrc.
    + intros l. rewrite Hl. destruct (loop s) as [l0|] eqn:El; [|done]. intros [= <-]. exact (A6 l0 eq_refl).
    + intros Hr. specialize (A7 Hr). unfold at_phase in *. rewrite Hl. destruct (loop s); [|done]. exact A7.
  - intros l. rewrite Hl. destruct (loop s) as [l0|] eqn:El; [|done]. intros [= <-].
    destruct (Htk l0 eq_refl) as [K1 K2 K3 K4].
    assert (Hf : functors_of (EventLoop.queue_other IoThread.stop_functor l0) = functors_of l0 ++ [IoThread.stop_functor]).
    { unfold functors_of. cbn. by rewrite app_assoc. }
    assert (Ho : outstanding (set_io i s) (EventLoop.queue_other IoThread.stop_functor l0) = outstanding s l0).
    { unfold outstanding. rewrite Hf, omap_app. apply app_nil_r. }
    constructor; rewrite ?Ho; try done. intros f. rewrite Hf.
    intros [Hin|Hin]%elem_of_app; [by apply K1|]. apply list_elem_of_singleton in Hin. by left.
Qed.

Lemma return_good n s i acts0 :
  reactor_inv n s acts0 -> IoThread.io_return (io s) = Some (Ret i) -> good_step n s (set_io i s) acts0 [].
Proof.
  intros Hi Hs. pose proof Hi as [Hio Hnet Ha Htk].
  assert (Hrun : IoThread.run (io s) [IoThread.IoReturn] = Some (Ret i)) by (cbn; by rewrite Hs).
  unfold IoThread.io_return in Hs. destruct (IoThread.loop (io s)) as [l|] eqn:El; [|done].
  destruct (_ && _) eqn:Eg; [|done]. apply andb_true_iff in Eg as [Een Eat%bool_decide_eq_true]. fold (rpc s) in Hs.
  destruct (RpcServer.step (rpc s) RpcServer.IoExit) as [[[r a]| |]|] eqn:Er; [|done..]. cbn [mbind outcome_bind] in Hs.
  destruct (IoThread.release _) as [srv| |] eqn:Erel; [|done..]. injection Hs as <-.
  assert (Esrv : srv = IoThread.NoServer) by (unfold IoThread.release in Erel; destruct (IoThread.tcp_server_ (io s)); congruence).
  assert (Hquit : EventLoop.quit_ l = true) by (by apply (li_left _ _ _ (ii_loop _ _ Hio l El))).
  assert (Hst : stopped s = true) by (unfold stopped; by rewrite (ag_stop s Ha l El)).
  assert (Hrd : reading s = None).
  { destruct (reading s) eqn:E; [|done]. pose proof (ag_reading s Ha) as Hr. rewrite E in Hr.
    specialize (Hr ltac:(by eexists)). unfold at_phase, loop in Hr. rewrite El in Hr. apply bool_decide_eq_true in Hr. congruence. }
  pose proof Er as Er'. cbn [RpcServer.step] in Er'. destruct (_ && _) eqn:Eb; [|done]. breflect.
  injection Er' as <- <-. set (i := IoThread.mk _ _ _ _) in *. apply good_step_intro; [done| | |done].
  - split; [|by eexists]. exists [RpcTcp.Rpc RpcServer.IoExit]. split; [by constructor|]. cbn [RpcTcp.run RpcTcp.step].
    assert (Hidle : RpcTcp.idle (net s) = true).
    { unfold RpcTcp.idle. cbn [net RpcTcp.rpc RpcTcp.reading]. rewrite Hrd.
      repeat (apply andb_true_iff; split); try done; by apply bool_decide_eq_true. }
    rewrite Hidle. unfold RpcTcp.rpc_step. change (RpcTcp.rpc (net s)) with (rpc s). rewrite Er. done.
  - destruct Ha as [A1 A2 A3 A4 A5 A6 A7]. constructor; try done.
    + unfold stopped. cbn. rewrite Esrv. by rewrite <- Hst.
    + intros Hr. change (reading (set_io i s)) with (reading s) in Hr. rewrite Hrd in Hr. by destruct Hr.
Qed.

Lemma io_return_runs n s r acts0 :
  reactor_inv n s acts0 -> IoThread.io_return (io s) = Some r -> exists i, r = Ret i.
Proof.
  intros Hi. unfold IoThread.io_return. destruct (IoThread.loop (io s)) as [l|] eqn:El; [|done].
  destruct (_ && _); [|done]. pose proof (ag_stop s (ri_agrees _ _ _ Hi) l El) as Hst. cbn [RpcServer.step].
  destruct (_ && _); [|done]. intros [= <-]. cbn [mbind outcome_bind IoThread.release]. rewrite Hst. by eexists.
Qed.

(** * Every step *)

(** A new connection has an empty buffer; reads return no more bytes than there
    are. *)
Definition reactor_event_ok (e : event (Handler := Handler)) : Prop :=
  match e with
  | Accept _ _ buffer _ _ _ => Buffer.buffer_wf buffer /\ Buffer.readable buffer = []
  | Network e => event_ok e
  | _ => True
  end.

Definition is_accept (e : event (Handler := Handler)) : bool := match e with Accept _ _ _ _ _ _ => true | _ => false end.
Definition accepts (es : list event) : nat := length (List.filter is_accept es).

(** What the functor called next does, that of [stop] apart. *)
Definition next_task s : option task :=
  match loop s with
  | Some l => match EventLoop.callbacks l with f :: _ => task_at (tasks s) f | [] => None end
  | None => None
  end.

(** The only steps that do not return: a [start] after the thread of an earlier
    one left a TCP server on a loop that is gone, and the steps in which a
    callback does not return. *)
Definition callback_fails s (e : RpcTcp.event (Handler := Handler)) : Prop :=
  exists r acts, RpcTcp.step (net s) e = Some (r, acts) /\ forall n', r <> Ret (None, n').

Definition excused s (e : event (Handler := Handler)) : Prop :=
  match e with
  | StartServer _ (IoThread.ListenThrows _ | IoThread.Listens) => IoThread.tcp_server_ (io s) = IoThread.Dangling
  | Thread e => callback_fails s (RpcTcp.Rpc e)
  | Network e => callback_fails s e
  | Loop EventLoop.CallFunctor => exists p, next_task s = Some (OfConnection p) /\ callback_fails s (RpcTcp.CallFunctor p)
  | _ => False
  end.

Definition returns_well n s (r : outcome (option Buffer.exn * t (Handler := Handler))) acts0 acts (excuse : Prop) : Prop :=
  (exists s1, r = Ret (None, s1) /\ good_step n s s1 acts0 acts) \/ ((forall s1, r <> Ret (None, s1)) /\ excuse).

(** A callback returns, or fails. *)
Lemma network_cases in_loop e s r acts :
  network in_loop e s = Some (r, acts) ->
  (exists n', RpcTcp.step (net s) e = Some (Ret (None, n'), acts)) \/
  ((forall s1, r <> Ret (None, s1)) /\ callback_fails s e).
Proof.
  unfold network, callback_fails. destruct (RpcTcp.step (net s) e) as [[[[thrown n']| |] a]|]; [| | |done]; intros [= <- <-];
    [destruct thrown as [x|]; [|left; by exists n']|..]; right; (split; [|by eexists _, _]); try done.
  cbn [mbind outcome_bind]. by destruct (store _ _ _ _).
Qed.

Lemma network_sound n in_loop s s0 e r acts0 acts (P : Prop) :
  (forall n', RpcTcp.step (net s) e = Some (Ret (None, n'), acts) ->
     exists s1, network in_loop e s0 = Some (Ret (None, s1), acts) /\ good_step n s s1 acts0 acts) ->
  net s0 = net s -> network in_loop e s0 = Some (r, acts) -> (callback_fails s e -> P) ->
  returns_well n s r acts0 acts P.
Proof.
  intros Hgood Hnet Hs Hp. destruct (network_cases _ _ _ _ _ Hs) as [[n' Hstep]|[Hno Hf]].
  - left. rewrite Hnet in Hstep. destruct (Hgood n' Hstep) as (s1 & Hs1 & Hg). rewrite Hs in Hs1. injection Hs1 as ->. by exists s1.
  - right. split; [done|]. apply Hp. unfold callback_fails in *. by rewrite Hnet in Hf.
Qed.

Lemma call_functor_sound n s r acts0 acts :
  reactor_inv n s acts0 -> between s = true -> call_functor s = Some (r, acts) ->
  returns_well n s r acts0 acts (excused s (Loop EventLoop.CallFunctor)).
Proof.
  intros Hi Hbt. unfold call_functor. destruct (loop s) as [l|] eqn:Hl; [|done].
  destruct (EventLoop.callbacks l) as [|[|f] rest] eqn:Hc; [done|..];
    destruct (IoThread.loop_event EventLoop.CallFunctor (io s)) as [j|] eqn:Hj; try done.
  - destruct (stop_functor_good n s l rest j acts0 Hi Hbt Hl Hc Hj) as (s2 & -> & Hg). intros [= <- <-]. left. by exists s2.
  - cbn [tasks set_io]. destruct (tasks s !! f) as [[p|]|] eqn:Ht; [| |done].
    + intros Hs. eapply network_sound; [| |exact Hs|intros Hf; exists p; split; [|done]; unfold next_task; by rewrite Hl, Hc].
      2:{ destruct (called_spec s l (S f) rest j Hl Hc Hj) as [_ ->]. done. }
      intros n' Hstep. by apply (connection_functor_good n s l f rest p j n').
    + destruct (server_functor_good n s l f rest j acts0 Hi Hbt Hl Hc Hj Ht) as (g & w & s2 & Hr & Hs2 & Hg).
      cbn [world set_io]. rewrite Hr, Hs2. intros [= <- <-]. left. by exists s2.
Qed.

Lemma step_sound n s e r acts0 acts :
  reactor_inv n s acts0 -> reactor_event_ok e ->
  Z.of_nat (size (TcpServer.conns (world s))) < 2 ^ 32 \/ is_accept e = false ->
  step s e = Some (r, acts) -> returns_well n s r acts0 acts (excused s e).
Proof.
  intros Hi He Hsize. destruct e as [port st| |e|p fd b kw ks peer|e|e|]; cbn [step]; unfold return_.
  - destruct (IoThread.refuses port (io s)) eqn:Href; [intros [= <- <-]; left; eexists; split; [done|by apply good_step_refl]|].
    case_bool_decide as Hc; [|done]. destruct (IoThread.step _ _) as [r0|] eqn:Es; [|done]. intros [= <- <-].
    destruct r0 as [i| |]; [left; eexists; split; [done|by apply (start_good n s port st i)]|right..];
      cbn [IoThread.step] in Es; unfold IoThread.start, IoThread.io_startup, IoThread.release in Es; rewrite Href in Es;
      cbn [negb andb] in Es; destruct (_ || _); try done; cbn [excused];
      destruct st, (IoThread.tcp_server_ (io s)); cbn [mbind outcome_bind] in Es; try done;
      destruct (RpcServer.start _ _ _); discriminate Es.
  - destruct (IoThread.stop_begin (io s)) as [i|] eqn:Es; [|done]. intros [= <- <-]. left. eexists. split; [done|]. by apply stop_good.
  - destruct (thread_event e) eqn:Et; [|done]. intros Hs. eapply network_sound; [|reflexivity|exact Hs|done].
    intros n'. by apply thread_good.
  - destruct (_ && _) eqn:Eb; [|done]. apply andb_true_iff in Eb as [[[Hph Hbt]%andb_true_iff Hacc]%andb_true_iff Hp%bool_decide_eq_true].
    destruct He as [Hwf Hr]. destruct Hsize as [Hsize|]; [|done].
    destruct (accept_good n p fd b kw ks peer s acts0) as (s2 & -> & Hg); try done.
    intros [= <- <-]. left. by exists s2.
  - destruct (_ && _) eqn:Eb; [|done]. apply andb_true_iff in Eb as [Hr Hph]. intros Hs.
    eapply network_sound; [|reflexivity|exact Hs|done]. intros n'. by apply ready_good.
  - destruct e; try (destruct (_ && _) eqn:Eb; [|done]; apply andb_true_iff in Eb as [Hl Hbt];
      destruct (IoThread.loop_event _ _) as [i|] eqn:Ei; [|done]; intros [= <- <-]; left; eexists; split; [done|]; by eapply loop_good).
    + destruct (between s) eqn:Hbt; [|done]. by apply call_functor_sound.
    + destruct (IoThread.loop_event _ _) as [i|] eqn:Ei; [|done]. intros [= <- <-]. left. eexists. split; [done|].
      by apply (loop_good n s EventLoop.WakeOther).
  - destruct (IoThread.io_return (io s)) as [r0|] eqn:Ei; [|done]. intros [= <- <-]. left.
    destruct (io_return_runs n s r0 acts0 Hi Ei) as [i ->]. eexists. split; [done|]. by apply return_good.
Qed.

Lemma step_good n s e s1 acts0 acts :
  reactor_inv n s acts0 -> reactor_event_ok e ->
  Z.of_nat (size (TcpServer.conns (world s))) < 2 ^ 32 \/ is_accept e = false ->
  step s e = Some (Ret (None, s1), acts) -> good_step n s s1 acts0 acts.
Proof.
  intros Hi He Hsize Hs. destruct (step_sound n s e _ acts0 acts Hi He Hsize Hs) as [(s2 & Heq & Hg)|[Hno _]];
    [by injection Heq as <-|by destruct (Hno s1)].
Qed.

(** * How many connections there are *)

Lemma queue_all_world in_loop ks s s1 : queue_all in_loop ks s = Ret s1 -> world s1 = world s.
Proof.
  revert s. induction ks as [|k ks IH]; intros s; cbn [queue_all]; [by intros [= <-]|]. unfold queue.
  destruct (loop s); [|done]. cbn [mbind outcome_bind]. by intros ->%IH.
Qed.

Lemma server_call_world f s thrown s1 : server_call f s = Ret (thrown, s1) -> f (world s) = Ret (thrown, world s1).
Proof.
  unfold server_call. destruct (f (world s)) as [[t w]| |]; [|done..]. cbn [mbind outcome_bind].
  destruct (queue_all _ _ _) as [s2| |] eqn:Eq; [|done..]. cbn [mbind outcome_bind].
  apply queue_all_world in Eq. by intros [= <- <-]; rewrite Eq.
Qed.

Lemma network_size in_loop e s thrown s1 acts :
  network in_loop e s = Some (Ret (thrown, s1), acts) ->
  size (TcpServer.conns (world s1)) = size (TcpServer.conns (world s)).
Proof.
  unfold network. destruct (RpcTcp.step _ _) as [[[[t n]| |] a]|]; try done. cbn [mbind outcome_bind].
  destruct (store _ _ _ _) as [s2| |] eqn:Es; try done. intros [= _ <- _]. revert Es. unfold store.
  destruct (subject _ _ _) as [p|]; [|by intros [= <-]].
  destruct (TcpServer.conns _ !! p) as [c|] eqn:Hp; [|by intros [= <-]].
  destruct (RpcTcp.conns n !! p) as [after|]; [|by intros [= <-]]. intros ->%queue_all_world. cbn [world set_world].
  change (size (TcpServer.conns (updated p c after (world s))) = size (TcpServer.conns (world s))).
  by rewrite updated_conns, (size_updated _ _ c).
Qed.

(** The steps of the TCP server alone. *)
Lemma server_size w w' e :
  TcpServer.step connection_callback None None None w e = Some (Ret (None, w')) ->
  size (TcpServer.conns w') = (size (TcpServer.conns w) + if TcpServerFacts.is_new e then 1 else 0)%nat.
Proof. apply step_size. Qed.

Lemma call_functor_size s s1 acts :
  call_functor s = Some (Ret (None, s1), acts) -> size (TcpServer.conns (world s1)) = size (TcpServer.conns (world s)).
Proof.
  unfold call_functor. destruct (loop s) as [l|]; [|done].
  destruct (EventLoop.callbacks l) as [|[|f] rest]; [done|..];
    destruct (IoThread.loop_event EventLoop.CallFunctor (io s)) as [j|]; try done.
  - intros [= Hs _]. apply server_call_world in Hs. unfold stop_server, TcpServer.stop_end in Hs. revert Hs.
    destruct (TcpServer.destroy_main _ _ _) as [[[e|] w1]| |] eqn:Ed; try done. cbn. intros [= <-]. cbn.
    by apply destroy_main_size in Ed.
  - destruct (tasks _ !! f) as [[p|]|]; [|  |done]; [by intros ->%network_size|].
    destruct (run_functor (world (set_io j s))) as [[g w]|] eqn:Er; [|done]. intros [= Hs _]. apply server_call_world in Hs.
    unfold run_functor in Er. destruct (TcpServer.pop _ _) as [[g' l']|] eqn:Ep; [|done]. injection Er as <- <-.
    cbn [world set_world] in Hs. rewrite (server_size (world s) (world s1) (TcpServer.RunFunctor TcpServer.main_loop_)); [cbn; lia|].
    cbn [TcpServer.step]. change (TcpServer.alive TcpServer.main_loop_ (world s)) with true. cbn [world set_io] in Ep.
    by rewrite Ep, Hs.
Qed.

Lemma step_size_le s e s1 acts :
  step s e = Some (Ret (None, s1), acts) ->
  (size (TcpServer.conns (world s1)) <= size (TcpServer.conns (world s)) + if is_accept e then 1 else 0)%nat.
Proof.
  destruct e as [port st| |e|p fd b kw ks peer|e|e|]; cbn [step is_accept]; unfold return_.
  - destruct (IoThread.refuses port (io s)); [intros [= <- _]; lia|]. case_bool_decide; [|done].
    destruct (IoThread.step _ _) as [[i| |]|]; try done. cbn [mbind outcome_bind]. intros [= <- _].
    destruct st; cbn [world set_io]; try lia. change (0 <= size (TcpServer.conns (world s)) + 0)%nat. lia.
  - destruct (IoThread.stop_begin _); [|done]. intros [= <- _]. cbn. lia.
  - destruct (thread_event e); [|done]. intros ->%network_size. lia.
  - destruct (_ && _) eqn:Eb; [|done]. apply andb_true_iff in Eb as [[_ Hacc]%andb_true_iff Hp%bool_decide_eq_true].
    intros [= Hs _]. apply server_call_world in Hs.
    rewrite (server_size (world s) (world s1) (TcpServer.NewConnection p (TcpConnection.construct fd b 0 kw ks) peer)); [cbn; lia|].
    cbn [TcpServer.step]. rewrite Hacc, bool_decide_true by done. cbn [andb]. by rewrite Hs.
  - destruct (_ && _); [|done]. intros ->%network_size. lia.
  - destruct e; try (destruct (_ && _); [|done]; destruct (IoThread.loop_event _ _) as [i|]; [|done]; intros [= <- _]; cbn; lia).
    + destruct (between s); [|done]. intros ->%call_functor_size. lia.
    + destruct (IoThread.loop_event _ _) as [i|]; [|done]. intros [= <- _]. cbn. lia.
  - destruct (IoThread.io_return _) as [[i| |]|]; try done. cbn [mbind outcome_bind]. intros [= <- _]. cbn. lia.
Qed.

(** * Runs *)

Lemma projects_trans s s1 s2 a1 a2 : projects s s1 a1 -> projects s1 s2 a2 -> projects s s2 (a1 ++ a2).
Proof.
  intros [(es1 & Hes1 & Hr1) (ies1 & Hi1)] [(es2 & Hes2 & Hr2) (ies2 & Hi2)]. split.
  - exists (es1 ++ es2). split; [by apply Forall_app|]. by rewrite (tcp_run_app _ _ _ _ _ Hr1), Hr2.
  - exists (ies1 ++ ies2). by rewrite (io_run_app ies1 ies2 _ _ Hi1).
Qed.

Lemma reactor_run_good n es s s1 acts0 acts :
  reactor_inv n s acts0 -> Forall reactor_event_ok es ->
  Z.of_nat (size (TcpServer.conns (world s)) + accepts es) <= 2 ^ 32 ->
  run s es = Some (s1, acts) -> good_step n s s1 acts0 acts.
Proof.
  intros Hi Hes. revert s acts0 acts Hi. induction Hes as [|e es He Hes IH]; intros s acts0 acts Hi Hsize; cbn [run].
  { intros [= <- <-]. by apply good_step_refl. }
  destruct (step s e) as [[[[[x|] s2]| |] a1]|] eqn:Es; try done.
  destruct (run s2 es) as [[s3 a2]|] eqn:Er; [|done]. intros [= <- <-].
  assert (Hacc : accepts (e :: es) = ((if is_accept e then 1 else 0) + accepts es)%nat) by
    (unfold accepts; cbn; by destruct (is_accept e)).
  rewrite Hacc in Hsize. pose proof (step_size_le _ _ _ _ Es) as Hle.
  assert (Hone : Z.of_nat (size (TcpServer.conns (world s))) < 2 ^ 32 \/ is_accept e = false)
    by (destruct (is_accept e); [left; lia|by right]).
  destruct (step_good n s e s2 acts0 a1 Hi He Hone Es) as [Hp1 Hi1].
  destruct (IH s2 (acts0 ++ a1) a2 Hi1) as [Hp2 Hi2]; [lia|done|]. split; [by eapply projects_trans|by rewrite app_assoc].
Qed.

Lemma init_reactor_inv n : reactor_inv n (init (Handler := Handler) n) [].
Proof.
  constructor; [apply init_io_inv| | |done].
  - constructor; [apply RpcServerFacts.init_inv|done..].
  - constructor; try done; try (by intros [? ?]).
    + constructor; try done. constructor; try done. by intros ? ? ?%elem_of_nil.
    + intros p. cbn. rewrite !lookup_empty. split; [by intros [? ?]|by intros (? & ? & _)].
Qed.

(** * Concatenations *)

Lemma accepts_app (es1 es2 : list (event (Handler := Handler))) : accepts (es1 ++ es2) = (accepts es1 + accepts es2)%nat.
Proof. unfold accepts. by rewrite List.filter_app, length_app. Qed.

Lemma reactor_run_app es1 es2 s s1 a1 :
  run s es1 = Some (s1, a1) ->
  run s (es1 ++ es2) = match run s1 es2 with Some (s2, a2) => Some (s2, a1 ++ a2) | None => None end.
Proof.
  revert s a1. induction es1 as [|e es IH]; intros s a1; cbn [run app].
  - intros [= <- <-]. by destruct (run s es2) as [[? ?]|].
  - destruct (step s e) as [[[[[x|] s2]| |] a2]|]; try done.
    destruct (run s2 es) as [[s3 a3]|] eqn:E; [|done]. intros [= <- <-].
    rewrite (IH _ _ E). destruct (run s3 es2) as [[s4 a4]|]; [|done]. by rewrite app_assoc.
Qed.

Lemma run_size_le es s s1 acts :
  run s es = Some (s1, acts) -> (size (TcpServer.conns (world s1)) <= size (TcpServer.conns (world s)) + accepts es)%nat.
Proof.
  revert s acts. induction es as [|e es IH]; intros s acts; cbn [run]; [intros [= <- _]; unfold accepts; cbn; lia|].
  destruct (step s e) as [[[[[x|] s2]| |] a2]|] eqn:Es; try done.
  destruct (run s2 es) as [[s3 a3]|] eqn:E; [|done]. intros [= <- _]. apply step_size_le in Es. apply IH in E.
  change (accepts (e :: es)) with (accepts ([e] ++ es)). rewrite accepts_app. unfold accepts at 1. cbn. destruct (is_accept e); cbn; lia.
Qed.

(** The number of connections ever is bounded by the number of accepts. *)
Lemma run_size n es s acts :
  run (init (Handler := Handler) n) es = Some (s, acts) -> (size (TcpServer.conns (world s)) <= accepts es)%nat.
Proof. intros Hr%run_size_le. exact Hr. Qed.

End runs.
