(* ===== verification/RpcReactorLive.v ===== *)
(** [stop] on the reactor: the I/O thread ends, with every connection removed. *)
From Stdlib Require Import ZArith Lia.
From Stdlib Require Import Strings.Byte.
From stdpp Require Import base list strings gmap.
From S2P Require Import Prelude NetBuffer EventLoop EventLoopFacts TcpConnection TcpConnectionFacts TcpConnectionLife Socket SocketFacts TcpServer TcpServerFacts RpcMessage RpcServer RpcServerFacts RpcIo RpcIoFacts RpcLedger RpcTcp RpcTcpFacts RpcTcpLive RpcReactor RpcReactorSteps RpcReactorFacts RpcReactorServer RpcReactorCalls RpcReactorRuns.
#[local] Set Warnings "-clear-no-such-hyp".
#[local] Existing Instance EventLoop.phase_eq_dec.

Section live.
Context `{Inet} {Handler : Type}.
Implicit Types s : RpcReactor.t (Handler := Handler).
Implicit Types r : RpcServer.Server (Handler := Handler).
Import RpcReactor.

(** * What calling a functor leaves *)

Lemma enqueued_stop fs l l' :
  enqueued (S <$> fs) l l' -> IoThread.stop_functor ∉ EventLoop.pending_functors_ l ->
  IoThread.stop_functor ∉ EventLoop.pending_functors_ l'.
Proof.
  intros Hen Hno. rewrite (en_pending _ _ _ Hen). intros [?|Hin]%elem_of_app; [done|].
  by apply list_elem_of_fmap in Hin as (i & Hi & _).
Qed.

(** Functors queued on the loop's thread do not wake a loop that runs. *)
Definition same_wakeups (l l1 : EventLoop.t) : Prop :=
  EventLoop.wakeups l1 = EventLoop.wakeups l /\ EventLoop.wakers l1 = EventLoop.wakers l.

Lemma queue_all_quiet ks s s1 l :
  loop s = Some l -> EventLoop.looping_ l = true -> queue_all true ks s = Ret s1 ->
  exists l1, loop s1 = Some l1 /\ same_wakeups l l1.
Proof.
  revert s l. induction ks as [|k ks IH]; intros s l Hl Hlk; cbn [queue_all]; [intros [= <-]; by exists l|].
  unfold queue. rewrite Hl. cbn [mbind outcome_bind]. set (l1 := EventLoop.queueInLoop _ l). intros Hq.
  assert (Hl1 : EventLoop.looping_ l1 = true /\ same_wakeups l l1) by (unfold l1, EventLoop.queueInLoop; cbn; by rewrite Hlk).
  destruct Hl1 as [Hlk1 [E1 E2]]. destruct (IH (set_tasks (tasks s ++ [k]) (set_loop l1 s)) l1 eq_refl Hlk1 Hq) as (l2 & Hl2 & E3 & E4). exists l2. split; [done|].
  split; congruence.
Qed.

(** The loop after steps that queue functors, and the server's flags. *)
Record after_functors (l : EventLoop.t) s s1 : Prop := mkAfterFunctors {
  af_loop : exists l1, loop s1 = Some l1 /\ EventLoop.callbacks l1 = EventLoop.callbacks l /\
    EventLoop.at_ l1 = EventLoop.at_ l /\
    (IoThread.stop_functor ∉ EventLoop.pending_functors_ l -> IoThread.stop_functor ∉ EventLoop.pending_functors_ l1) /\
    (EventLoop.looping_ l = true -> same_wakeups l l1);
  af_running : RpcServer.running_ (rpc s1) = RpcServer.running_ (rpc s);
  af_between : between s1 = between s;
  af_entered : IoThread.entered (io s1) = IoThread.entered (io s);
}.

Lemma queue_all_after ks s s1 l :
  loop s = Some l -> EventLoop.at_ l = EventLoop.Running -> queue_all true ks s = Ret s1 -> after_functors l s s1.
Proof.
  intros Hl Hat Hq. destruct (queue_all_spec true ks s l Hl) as (l' & Hq' & Hen & _); [by rewrite Hat|].
  pose proof (queue_all_quiet ks s s1 l Hl) as Hquiet.
  rewrite Hq in Hq'. injection Hq' as ->. constructor; [|done..]. exists l'. split; [done|]. split; [apply Hen|]. split; [apply Hen|].
  split; [by apply (enqueued_stop _ _ _ Hen)|]. intros Hlk. destruct (Hquiet Hlk Hq) as (l2 & [= <-] & ?). done.
Qed.

Lemma between_intro s :
  RpcServer.io_loop (rpc s) = true -> RpcServer.io_frames (rpc s) = None -> reading s = None -> between s = true.
Proof. intros H1 H2 H3. unfold between, RpcTcp.idle. cbn. by rewrite H1, H2, H3. Qed.

Lemma onConnections_running r ps : RpcServer.running_ (foldl RpcServer.onConnection r ps) = RpcServer.running_ r.
Proof.
  revert r. induction ps as [|p ps IH]; intros r; [done|]. cbn [foldl]. rewrite IH. unfold RpcServer.onConnection. by destruct (_ !! p).
Qed.

Lemma after_functors_start l s s0 s1 :
  after_functors l s0 s1 -> RpcServer.running_ (rpc s0) = RpcServer.running_ (rpc s) -> between s0 = between s ->
  IoThread.entered (io s0) = IoThread.entered (io s) -> after_functors l s s1.
Proof. intros [A1 A2 A3 A4] E1 E2 E3. constructor; congruence. Qed.

Lemma server_call_after f s s1 l :
  loop s = Some l -> EventLoop.at_ l = EventLoop.Running -> between s = true ->
  server_call f s = Ret (None, s1) -> after_functors l s s1.
Proof.
  intros Hl Hat Hbt. destruct (between_spec s Hbt) as (Hio & Hfr & Hrd). unfold server_call.
  destruct (f (world s)) as [[t w]| |]; [|done..]. cbn [mbind outcome_bind].
  set (s0 := set_world w _). destruct (queue_all true _ s0) as [s2| |] eqn:Eq; [|done..]. cbn [mbind outcome_bind].
  intros [= _ <-]. destruct (onConnections_run (rpc s) (announced (world s) w) Hio Hfr) as (_ & Hio1 & Hfr1).
  apply (after_functors_start l s s0); [by eapply queue_all_after| |rewrite Hbt|done].
  - apply onConnections_running.
  - by apply between_intro.
Qed.

Lemma network_after p s s1 acts l :
  loop s = Some l -> EventLoop.at_ l = EventLoop.Running -> between s = true ->
  network true (RpcTcp.CallFunctor p) s = Some (Ret (None, s1), acts) -> after_functors l s s1 /\ acts = [].
Proof.
  intros Hl Hat Hbt Hs. destruct (network_cases _ _ _ _ _ Hs) as [[n' Hstep]|[Hno _]]; [|by destruct (Hno s1)].
  destruct (functor_touches _ _ _ _ Hstep) as (_ & -> & Hr). split; [|done].
  destruct (between_spec s Hbt) as (Hio & Hfr & _).
  assert (Hrn : RpcTcp.reading n' = None) by exact (proj2 (tcp_event_touches p _ (net s) n' [] (fun _ _ => True) ltac:(done) Hstep)).
  unfold network in Hs. rewrite Hstep in Hs. cbn [mbind outcome_bind] in Hs.
  destruct (store _ _ _ _) as [s2| |] eqn:Est; try done. injection Hs as <-. revert Est.
  unfold store. set (s0 := set_rpc (RpcTcp.rpc n') (set_reading (RpcTcp.reading n') s)).
  assert (Hr0 : rpc s0 = rpc s) by (unfold s0, rpc; cbn; by rewrite Hr).
  assert (Hb0 : between s0 = between s) by (rewrite Hbt; apply between_intro; by rewrite ?Hr0).
  assert (Hs0 : after_functors l s s0) by (constructor; [by exists l|by rewrite Hr0|done|done]).
  destruct (subject _ _ _) as [q|]; [|by intros [= <-]].
  destruct (TcpServer.conns _ !! q) as [c|]; [|by intros [= <-]].
  destruct (RpcTcp.conns n' !! q) as [after|]; [|by intros [= <-]].
  intros Hq%(queue_all_after _ _ _ l); [|done|done].
  eapply after_functors_start; [exact Hq|exact (f_equal _ Hr0)|exact Hb0|done].
Qed.

Lemma call_functor_after s s1 acts l f rest :
  loop s = Some l -> EventLoop.callbacks l = f :: rest -> between s = true ->
  call_functor s = Some (Ret (None, s1), acts) -> after_functors (popped f rest l) s s1 /\ acts = [].
Proof.
  intros Hl Hc Hbt. unfold call_functor. rewrite Hl, Hc.
  destruct (IoThread.loop_event EventLoop.CallFunctor (io s)) as [j|] eqn:Hj; [|done].
  destruct (called_spec s l f rest j Hl Hc Hj) as [Hat Ej]. set (s0 := set_io j s).
  assert (Hl0 : loop s0 = Some (popped f rest l)) by (unfold loop, s0; by rewrite Ej).
  assert (Hat0 : EventLoop.at_ (popped f rest l) = EventLoop.Running) by (by rewrite (proj1 (proj2 (popped_fields _ _ _)))).
  assert (Hr0 : rpc s0 = rpc s) by (unfold s0, rpc; by rewrite Ej).
  assert (Hb0 : between s0 = true) by (rewrite <- Hbt; unfold between, net; by rewrite Hr0).
  assert (Hstart : forall s1, after_functors (popped f rest l) s0 s1 -> after_functors (popped f rest l) s s1).
  { intros s2 Ha. eapply after_functors_start; [exact Ha|by rewrite Hr0|congruence|unfold s0; by rewrite Ej]. }
  destruct f as [|i].
  - intros [= Hs <-]. split; [|done]. apply Hstart. by eapply server_call_after.
  - change (tasks s0) with (tasks s). destruct (tasks s !! i) as [[p|]|]; [| |done].
    + intros Hs. destruct (network_after p s0 s1 acts _ Hl0 Hat0 Hb0 Hs) as [Ha ->]. split; [by apply Hstart|done].
    + destruct (run_functor (world s0)) as [[g w]|]; [|done]. intros [= Hs <-]. split; [|done]. apply Hstart.
      eapply after_functors_start; [exact (server_call_after _ (set_world w s0) s1 _ Hl0 Hat0 Hb0 Hs)|done..].
Qed.

(** * The functors of a stopping server *)

(** A server whose I/O thread is in the loop, between two callbacks. *)
Record turning (running : bool) n s (l : EventLoop.t) (acts : list RpcServer.action) : Prop := mkTurning {
  tn_inv : reactor_inv n s acts;
  tn_loop : loop s = Some l;
  tn_entered : IoThread.entered (io s) = true;
  tn_running : RpcServer.running_ (rpc s) = running;
  tn_between : between s = true;
}.
Abbreviation stopping := (turning false).

Lemma turning_loop_inv b n s l acts : turning b n s l acts -> loop_inv b true l.
Proof.
  intros [Hi Hl He Hr _]. pose proof (ii_loop _ _ (ri_io _ _ _ Hi) l Hl) as Hx. unfold rpc in Hr. by rewrite He, Hr in Hx.
Qed.

(** The I/O thread's own steps. *)
Definition own_event (e : event (Handler := Handler)) : bool :=
  match e with Loop _ | IoReturn => true | _ => false end.

(** The functor called next makes a connection's output buffer too large. *)
Definition overflows s : Prop :=
  exists p n', next_task s = Some (OfConnection p) /\
    RpcTcp.step (net s) (RpcTcp.CallFunctor p) = Some (Ret (Some Buffer.length_error, n'), []).

(** They end the thread, unless a connection's buffer gets too large. *)
Definition ends s : Prop :=
  exists es s', forallb own_event es = true /\ run s es = Some (s', []) /\ (loop s' = None \/ overflows s').

Lemma ends_step s e s1 : own_event e = true -> step s e = Some (Ret (None, s1), []) -> ends s1 -> ends s.
Proof.
  intros He Hs (es & s' & Hes & Hrun & Hend). exists (e :: es), s'. cbn [forallb run]. by rewrite He, Hs, Hrun.
Qed.

(** A step of the loop that calls no functor. *)
Lemma turning_loop b n s l acts e l' :
  turning b n s l acts -> loop_event e = true -> e <> EventLoop.LoopEnter -> EventLoop.step l e = Some l' ->
  exists s', step s (Loop e) = Some (Ret (None, s'), []) /\ turning b n s' l' acts.
Proof.
  intros [Hi Hl He Hr Hbt] Hev Hne Hstep. destruct (between_spec s Hbt) as (Hio & Hfr & Hrd).
  assert (Hall : IoThread.allowed e (io s) = true) by (unfold rpc in Hfr; destruct e; try done; cbn; by rewrite Hfr).
  assert (Hcalled : IoThread.called e l = false) by (by destruct e).
  set (j := IoThread.mk (rpc s) (IoThread.tcp_server_ (io s)) (Some l') true).
  assert (Hj : IoThread.loop_event e (io s) = Some j).
  { unfold loop in Hl. unfold IoThread.loop_event. by rewrite Hl, Hall, Hstep, Hcalled, He. }
  assert (Hs : step s (Loop e) = Some (Ret (None, set_io j s), [])).
  { destruct e; try done; cbn [step loop_event andb]; by rewrite ?Hbt, Hj. }
  exists (set_io j s). split; [done|]. constructor; try done.
  pose proof (step_good n s (Loop e) _ acts [] Hi I (or_intror eq_refl) Hs) as [_ Hinv]. by rewrite app_nil_r in Hinv.
Qed.

(** A functor of a connection returns, or its buffer gets too large. *)
Lemma connection_functor_returns s acts p :
  tcp_inv (net s) acts -> between s = true -> is_Some (TcpServer.conns (world s) !! p) ->
  exists thrown n', RpcTcp.step (net s) (RpcTcp.CallFunctor p) = Some (Ret (thrown, n'), []).
Proof.
  intros Hnet Hbt [c Hc]. assert (Hc' : RpcTcp.conns (net s) !! p = Some (TcpServer.tcp c)) by (cbn; by rewrite lookup_fmap, Hc).
  pose proof (callbacks_ok None (or_introl eq_refl)) as Hcb.
  destruct (run_functor_keeps None None None RpcTcp.close_callback None Hcb _ (ok_wf _ _ (ti_conns _ _ Hnet _ _ Hc')))
    as (thrown & c' & Hf & _).
  cbn [RpcTcp.step]. unfold RpcTcp.tcp_event, RpcTcp.on. unfold between in Hbt. rewrite Hc', Hbt. exists thrown.
  eexists. rewrite Hf. done.
Qed.

(** The next functor is called, or it overflows. *)
Lemma next_called n s l acts f rest :
  reactor_inv n s acts -> loop s = Some l -> between s = true ->
  EventLoop.at_ l = EventLoop.Running -> EventLoop.callbacks l = f :: rest ->
  overflows s \/ exists s1 a, call_functor s = Some (Ret (None, s1), a).
Proof.
  intros Hi Hl Hbt Hat Hc. destruct (between_spec s Hbt) as (Hio & Hfr & Hrd).
  assert (Hj : exists j, IoThread.loop_event EventLoop.CallFunctor (io s) = Some j).
  { unfold IoThread.loop_event. unfold loop in Hl. rewrite Hl. cbn [IoThread.allowed]. unfold rpc in Hfr.
    rewrite Hfr, bool_decide_true by done. cbn [EventLoop.step]. rewrite Hat, Hc. destruct (IoThread.called _ _); by eexists. }
  destruct Hj as [j Hj]. unfold call_functor. rewrite Hl, Hc, Hj. pose proof (ri_tasks _ _ _ Hi l Hl) as Hk.
  destruct f as [|i].
  - right. destruct (stop_functor_good n s l rest j acts Hi Hbt Hl Hc Hj) as (s1 & -> & _). by eexists _, _.
  - destruct (tk_known _ _ Hk (S i)) as [|[k Ht]]; [unfold functors_of; rewrite Hc; by left|done|].
    cbn [task_at] in Ht. change (tasks (set_io j s)) with (tasks s). rewrite Ht. destruct k as [p|].
    + assert (Hp : is_Some (TcpServer.conns (world s) !! p)).
      { apply (tk_subject _ _ Hk). unfold outstanding, functors_of. rewrite Hc. cbn [app omap list_omap task_at]. rewrite Ht. by left. }
      destruct (connection_functor_returns s acts p (ri_net _ _ _ Hi) Hbt Hp) as ([[]|] & n' & Hstep).
      * left. exists p, n'. unfold next_task. rewrite Hl, Hc. by split.
      * right. destruct (connection_functor_good n s l i rest p j n' acts [] Hi Hbt Hl Hc Hj Ht Hstep) as (s1 & -> & _).
        by eexists _, _.
    + right. destruct (server_functor_good n s l i rest j acts Hi Hbt Hl Hc Hj Ht) as (g & w & s1 & Hrf & Hs1 & _).
      change (world (set_io j s)) with (world s). rewrite Hrf, Hs1. by eexists _, _.
Qed.

(** The loop calls the next functor, or it overflows. *)
Lemma turning_call b n s l acts f rest :
  turning b n s l acts -> EventLoop.at_ l = EventLoop.Running -> EventLoop.callbacks l = f :: rest ->
  overflows s \/
  exists s' l', step s (Loop EventLoop.CallFunctor) = Some (Ret (None, s'), []) /\ turning b n s' l' acts /\
    EventLoop.at_ l' = EventLoop.Running /\ EventLoop.callbacks l' = rest /\ same_wakeups l l' /\
    (IoThread.stop_functor ∉ EventLoop.pending_functors_ l -> IoThread.stop_functor ∉ EventLoop.pending_functors_ l').
Proof.
  intros [Hi Hl He Hr Hbt] Hat Hc. destruct (next_called n s l acts f rest Hi Hl Hbt Hat Hc) as [?|(s1 & a & Hcall)]; [by left|right].
  destruct (call_functor_after s s1 a l f rest Hl Hc Hbt Hcall) as [[(l1 & Hl1 & Hc1 & Hat1 & Hp1 & Hq1) Hr1 Hb1 He1] ->].
  assert (Hstep : step s (Loop EventLoop.CallFunctor) = Some (Ret (None, s1), [])) by (cbn [step]; by rewrite Hbt).
  assert (Hlk : EventLoop.looping_ l = true).
  { destruct (li_ok _ _ _ (ii_loop _ _ (ri_io _ _ _ Hi) l Hl)) as [h Hok]. by rewrite (LoopFacts.ok_looping _ _ Hok), Hat. }
  assert (Hpop : EventLoop.callbacks (popped f rest l) = rest /\ EventLoop.pending_functors_ (popped f rest l) = EventLoop.pending_functors_ l /\
      EventLoop.looping_ (popped f rest l) = EventLoop.looping_ l /\ same_wakeups l (popped f rest l))
    by (unfold popped; by destruct (f =? _)%nat).
  destruct Hpop as (Hpc & Hpp & Hpl & [Hpw Hpk]). rewrite <- Hpl in Hlk. destruct (Hq1 Hlk) as [Hw1 Hk1]. exists s1, l1. split; [done|]. split.
  - constructor; [|done|congruence|congruence|congruence].
    pose proof (step_good n s (Loop EventLoop.CallFunctor) s1 acts [] Hi I (or_intror eq_refl) Hstep) as [_ Hinv]. by rewrite app_nil_r in Hinv.
  - rewrite Hat1, (proj1 (proj2 (popped_fields f rest l))), Hc1, <- Hpp. split; [done|]. split; [done|]. split; [split; congruence|done].
Qed.

(** * To the end of the thread *)

Lemma stopping_leaves n s l acts : stopping n s l acts -> EventLoop.at_ l = EventLoop.Outside -> ends s.
Proof.
  intros [Hi Hl He Hr Hbt] Hat. destruct (between_spec s Hbt) as (Hio & Hfr & Hrd).
  assert (Hj : exists o, IoThread.io_return (io s) = Some o).
  { unfold IoThread.io_return. unfold loop in Hl. unfold rpc in *. rewrite Hl, He, Hat. cbn [andb bool_decide].
    rewrite bool_decide_true by done. cbn [RpcServer.step]. rewrite Hio, Hr, Hfr. by eexists. }
  destruct Hj as [o Hj]. destruct (io_return_runs n s o acts Hi Hj) as [i ->].
  exists [IoReturn], (set_io i s). split; [done|]. cbn [run step]. rewrite Hj. split; [done|]. left.
  unfold IoThread.io_return in Hj. destruct (IoThread.loop (io s)); [|done]. destruct (_ && _); [|done].
  destruct (RpcServer.step _ _) as [[[r1 a1]| |]|]; try done. cbn [mbind outcome_bind] in Hj.
  destruct (IoThread.release _); try done. cbn [mbind outcome_bind] in Hj. by injection Hj as <-.
Qed.

(** The functors are called; then the loop is left if [stop]'s was, or waits. *)
Lemma stopping_runs n l s acts :
  stopping n s l acts -> EventLoop.at_ l = EventLoop.Running ->
  (forall s' l', stopping n s' l' acts -> EventLoop.at_ l' = EventLoop.Waiting ->
     (IoThread.stop_functor ∉ EventLoop.pending_functors_ l -> IoThread.stop_functor ∉ EventLoop.pending_functors_ l') -> ends s') ->
  ends s.
Proof.
  remember (EventLoop.callbacks l) as cs eqn:Hc. revert s l Hc. induction cs as [|f rest IH]; intros s l Hc Hs Hat Hwait.
  - destruct (turning_loop false n s l acts EventLoop.EndFunctors (EventLoop.loop_condition l) Hs) as (s1 & Hstep & Hs1);
      [done|done|cbn; by rewrite Hat, <- Hc|].
    eapply ends_step; [|exact Hstep|]; [done|]. unfold EventLoop.loop_condition in Hs1. destruct (EventLoop.quit_ l).
    + by eapply stopping_leaves.
    + by eapply Hwait.
  - destruct (turning_call false n s l acts f rest Hs Hat (eq_sym Hc)) as [Ho|(s1 & l1 & Hstep & Hs1 & Hat1 & Hc1 & _ & Hp1)].
    + exists [], s. split; [done|]. split; [done|by right].
    + eapply ends_step; [|exact Hstep|]; [done|]. apply (IH s1 l1); [done..|].
      intros s' l' Hs' Hat' Hp'. apply (Hwait s' l' Hs' Hat'). tauto.
Qed.

(** Once the functor of [stop] is no longer pending, the loop does not wait. *)
Lemma stopping_last_turn n s l acts :
  stopping n s l acts -> EventLoop.at_ l = EventLoop.Running -> IoThread.stop_functor ∉ EventLoop.pending_functors_ l -> ends s.
Proof.
  intros Hs Hat Hno. apply (stopping_runs n l s acts Hs Hat). intros s' l' Hs' Hat' Hp'. exfalso.
  pose proof (turning_loop_inv _ _ _ _ _ Hs') as [[h Hok] _ _ H4 H5 H6 _ _]. specialize (H4 eq_refl).
  rewrite (LoopFacts.ok_callbacks _ _ Hok), !elem_of_app in H4 by (by rewrite Hat').
  destruct H4 as [H4|[H4%elem_of_nil|H4]]; [|done|by apply (Hp' Hno)]. apply H5, H6 in H4. destruct H4; congruence.
Qed.

Lemma stopping_handles n s l acts : stopping n s l acts -> EventLoop.at_ l = EventLoop.Handling -> ends s.
Proof.
  intros Hs Hat. destruct (turning_loop false n s l acts EventLoop.SwapPending (EventLoop.swap_pending l) Hs) as (s1 & Hstep & Hs1);
    [done|done|cbn; by rewrite Hat|].
  eapply ends_step; [|exact Hstep|]; [done|]. apply (stopping_last_turn n s1 _ acts Hs1); [done|]. apply not_elem_of_nil.
Qed.

(** A loop that waits is woken: the functor of [stop] is pending. *)
Lemma stopping_waits k n s l acts : EventLoop.wakers l = k -> stopping n s l acts -> EventLoop.at_ l = EventLoop.Waiting -> ends s.
Proof.
  revert s l. induction k as [|k IH]; intros s l Hk Hs Hat; pose proof (turning_loop_inv _ _ _ _ _ Hs) as [[h Hok] _ _ H4 H5 H6 _ H8].
  - assert (Hp : IoThread.stop_functor ∈ EventLoop.pending_functors_ l).
    { specialize (H4 eq_refl). rewrite (LoopFacts.ok_callbacks _ _ Hok), !elem_of_app in H4 by (by rewrite Hat).
      destruct H4 as [H4|[H4%elem_of_nil|H4]]; [|done|done]. apply H5, H6 in H4. destruct H4; congruence. }
    destruct (H8 Hp ltac:(by rewrite Hat)) as [Hw|Hw]; [|lia].
    destruct (turning_loop false n s l acts (EventLoop.EpollReturn true) (EventLoop.epoll_return true l) Hs) as (s1 & Hstep & Hs1);
      [done|done|cbn; rewrite Hat, (proj2 (Z.leb_gt _ _) Hw); done|].
    eapply ends_step; [|exact Hstep|]; [done|]. by eapply stopping_handles.
  - destruct (turning_loop false n s l acts EventLoop.WakeOther (EventLoop.wake_other l) Hs) as (s1 & Hstep & Hs1);
      [done|done|cbn [EventLoop.step]; by rewrite Hk|].
    eapply ends_step; [|exact Hstep|]; [done|]. apply (IH s1 (EventLoop.wake_other l)); [cbn; by rewrite Hk|done|done].
Qed.

Lemma stopping_ends n s l acts : stopping n s l acts -> ends s.
Proof.
  intros Hs. destruct (EventLoop.at_ l) eqn:Hat; [by eapply stopping_leaves|by eapply stopping_waits|by eapply stopping_handles|].
  apply (stopping_runs n l s acts Hs Hat). intros s' l' Hs' Hat' _. by eapply stopping_waits.
Qed.

(** The thread enters its loop. *)
Lemma loop_entered b n s acts l :
  reactor_inv n s acts -> loop s = Some l -> IoThread.entered (io s) = false -> RpcServer.running_ (rpc s) = b ->
  between s = true -> exists s1 l1, step s (Loop EventLoop.LoopEnter) = Some (Ret (None, s1), []) /\ turning b n s1 l1 acts.
Proof.
  intros Hi Hl He Hr Hbt. pose proof Hl as Hl'. unfold loop in Hl'. destruct (between_spec s Hbt) as (_ & Hfr & _). unfold rpc in Hfr.
  destruct (li_new _ _ _ (ii_loop _ _ (ri_io _ _ _ Hi) l Hl') He) as (Hat & _).
  assert (Hj : exists j l', IoThread.loop_event EventLoop.LoopEnter (io s) = Some j /\ IoThread.loop j = Some l' /\
      IoThread.entered j = true /\ IoThread.rpc j = rpc s).
  { unfold IoThread.loop_event. rewrite Hl'. cbn [IoThread.allowed]. rewrite He, Hfr. cbn [negb andb].
    rewrite bool_decide_true by done. cbn [EventLoop.step]. rewrite Hat. by eexists _, _. }
  destruct Hj as (j & l' & Hj & Hlj & Hej & Hrj).
  assert (Hs : step s (Loop EventLoop.LoopEnter) = Some (Ret (None, set_io j s), [])) by (cbn [step loop_event andb]; by rewrite Hbt, Hj).
  exists (set_io j s), l'. split; [done|]. pose proof (step_good n s (Loop EventLoop.LoopEnter) _ acts [] Hi I (or_intror eq_refl) Hs) as [_ Hinv].
  rewrite app_nil_r in Hinv. constructor; try done.
  - by unfold rpc; cbn; rewrite Hrj.
  - unfold between, net. change (rpc (set_io j s)) with (IoThread.rpc j). by rewrite Hrj.
Qed.

(** From before [loop] too. *)
Lemma stopped_ends n s acts :
  reactor_inv n s acts -> RpcServer.running_ (rpc s) = false -> between s = true -> ends s.
Proof.
  intros Hi Hr Hbt. destruct (loop s) as [l|] eqn:Hl; [|exists [], s; split; [done|]; split; [done|by left]].
  destruct (IoThread.entered (io s)) eqn:He; [by eapply stopping_ends|].
  destruct (loop_entered false n s acts l Hi Hl He Hr Hbt) as (s1 & l1 & Hs & Hs1).
  eapply ends_step; [|exact Hs|]; [done|]. by eapply stopping_ends.
Qed.

End live.
