(* ===== verification/RpcReactorTurns.v ===== *)
(** The turns of the loop of the reactor: what other threads queue wakes it, so
    that every answer handed to it is sent; only removals wait without a wakeup. *)
From Stdlib Require Import ZArith Lia.
From Stdlib Require Import Strings.Byte.
From stdpp Require Import base list strings gmap.
From S2P Require Import Prelude NetBuffer EventLoop EventLoopFacts TcpConnection TcpConnectionFacts TcpConnectionLife Socket SocketFacts TcpServer TcpServerFacts RpcMessage RpcServer RpcServerFacts RpcIo RpcIoFacts RpcLedger RpcTcp RpcTcpFacts RpcTcpLive RpcReactor RpcReactorSteps RpcReactorFacts RpcReactorServer RpcReactorCalls RpcReactorRuns RpcReactorLive.
#[local] Set Warnings "-clear-no-such-hyp".
#[local] Existing Instance EventLoop.phase_eq_dec.

Section turns.
Context `{Inet} {Handler : Type}.
Implicit Types s : RpcReactor.t (Handler := Handler).
Import RpcReactor.

(** * What a functor queued for a connection does to the loop *)

(** A functor of a connection is pending, to be called in the next turn. *)
Definition connection_waits s (l : EventLoop.t) : Prop :=
  exists f p, f ∈ EventLoop.pending_functors_ l /\ task_at (tasks s) f = Some (OfConnection p).

(** Then the loop is awake, or will be; while it handles events it calls what is
    pending before it waits. *)
Definition answers_wake s : Prop :=
  forall l, loop s = Some l -> EventLoop.at_ l <> EventLoop.Handling -> connection_waits s l -> LoopFacts.will_wake l.

(** What is queued: nothing for a connection without a wakeup, while functors run. *)
Record queued_well (in_loop : bool) (ks : list task) s s1 (l : EventLoop.t) : Prop := mkQueuedWell {
  qw_loop : exists l1, loop s1 = Some l1 /\ EventLoop.at_ l1 = EventLoop.at_ l /\
    (LoopFacts.will_wake l -> LoopFacts.will_wake l1) /\
    (in_loop = false -> ks <> [] -> LoopFacts.will_wake l1) /\
    (connection_waits s1 l1 -> connection_waits s l \/ exists p, OfConnection p ∈ ks);
}.

Lemma queue_all_well in_loop ks s s1 l :
  loop s = Some l -> queue_all in_loop ks s = Ret s1 ->
  (forall f, f ∈ EventLoop.pending_functors_ l -> f = IoThread.stop_functor \/ is_Some (task_at (tasks s) f)) ->
  queued_well in_loop ks s s1 l.
Proof.
  revert s l. induction ks as [|k ks IH]; intros s l Hl; cbn [queue_all].
  { intros [= <-] _. constructor. exists l. split_and!; try done. by left. }
  unfold queue. rewrite Hl. cbn [mbind outcome_bind]. set (f := S (length (tasks s))).
  set (l1 := if in_loop then _ else _). set (s2 := set_tasks (tasks s ++ [k]) (set_loop l1 s)). intros Hq Hk.
  assert (Hp : EventLoop.pending_functors_ l1 = EventLoop.pending_functors_ l ++ [f] /\ EventLoop.at_ l1 = EventLoop.at_ l /\
      (LoopFacts.will_wake l -> LoopFacts.will_wake l1) /\ (in_loop = false -> LoopFacts.will_wake l1)).
  { pose proof (enqueued_one in_loop f l) as [_ Hp Hat _]. fold l1 in Hp, Hat. split; [done|]. split; [done|].
    unfold LoopFacts.will_wake, l1. destruct in_loop; [|cbn; split; [lia|intros _; right; lia]]. split; [|done].
    unfold EventLoop.queueInLoop. case_if; cbn; lia. }
  destruct Hp as (Hp & Hat & Hwake & Hother).
  assert (Hold : forall g, g ∈ EventLoop.pending_functors_ l -> task_at (tasks s ++ [k]) g = task_at (tasks s) g).
  { intros [|g] Hg; [done|]. destruct (Hk _ Hg) as [|[x Hx]]; [done|]. cbn in *. rewrite Hx. by apply lookup_app_l_Some. }
  assert (Hnew : task_at (tasks s ++ [k]) f = Some k) by (cbn; by apply list_lookup_middle).
  destruct (IH s2 l1 eq_refl Hq) as [(l2 & Hl2 & Hat2 & Hw2 & Ho2 & Hc2)].
  { intros g. rewrite Hp. cbn [tasks s2 set_tasks]. intros [Hg|Hg%list_elem_of_singleton]%elem_of_app.
    - rewrite Hold by done. by apply Hk.
    - subst g. right. rewrite Hnew. by eexists. }
  constructor. exists l2. split; [done|]. split; [congruence|]. split; [tauto|]. split; [tauto|].
  intros Hx. destruct (Hc2 Hx) as [(g & p & Hg & Ht)|[p Hin]]; [|right; exists p; by right].
  rewrite Hp in Hg. cbn [tasks s2 set_tasks] in Ht. apply elem_of_app in Hg as [Hg|Hg%list_elem_of_singleton].
  - left. exists g, p. rewrite Hold in Ht by done. done.
  - right. exists p. subst g. rewrite Hnew in Ht. injection Ht as ->. by left.
Qed.

(** * Steps *)

Lemma queued_woken in_loop ks s0 s1 l :
  loop s0 = Some l -> queued_well in_loop ks s0 s1 l ->
  EventLoop.at_ l = EventLoop.Handling \/ (connection_waits s0 l -> LoopFacts.will_wake l) /\
    (in_loop = false \/ forall p, OfConnection p ∉ ks) -> answers_wake s1.
Proof.
  intros Hl [(l1 & Hl1 & Hat & Hw & Ho & Hc)] Hcase l' Hl' Hat' Hwait. assert (l' = l1) as -> by congruence.
  destruct Hcase as [?|[Hold Hks]]; [congruence|]. destruct (Hc Hwait) as [?|[p Hp]]; [tauto|].
  destruct Hks as [Hf|Hno]; [|by destruct (Hno p)]. apply Ho; [done|]. intros ->. by apply elem_of_nil in Hp.
Qed.

Lemma no_conn_servers k : forall p, OfConnection p ∉ repeat OfServer k.
Proof. intros p Hp. apply list_elem_of_In, repeat_spec in Hp. done. Qed.

(** A call of the TCP server queues nothing for a connection. *)
Lemma server_call_wakes f s thrown s1 l :
  loop s = Some l -> (forall g, g ∈ EventLoop.pending_functors_ l -> g = IoThread.stop_functor \/ is_Some (task_at (tasks s) g)) ->
  EventLoop.at_ l = EventLoop.Handling \/ (connection_waits s l -> LoopFacts.will_wake l) ->
  server_call f s = Ret (thrown, s1) -> answers_wake s1.
Proof.
  intros Hl Hk Hcase. unfold server_call. destruct (f (world s)) as [[t w]| |]; [|done..]. cbn [mbind outcome_bind].
  set (s0 := set_world w _). destruct (queue_all true _ s0) as [s2| |] eqn:Eq; [|done..]. cbn [mbind outcome_bind].
  intros [= _ <-]. eapply (queued_woken true _ s0 s2 l); [done|by eapply queue_all_well|].
  destruct Hcase as [?|?]; [by left|right]. split; [done|]. right. apply no_conn_servers.
Qed.

(** Nor does a functor of a connection. *)
Lemma network_wakes in_loop e s s1 acts l :
  loop s = Some l -> (forall g, g ∈ EventLoop.pending_functors_ l -> g = IoThread.stop_functor \/ is_Some (task_at (tasks s) g)) ->
  network in_loop e s = Some (Ret (None, s1), acts) ->
  EventLoop.at_ l = EventLoop.Handling \/ (connection_waits s l -> LoopFacts.will_wake l) /\
    (in_loop = false \/ exists p, e = RpcTcp.CallFunctor p) ->
  answers_wake s1.
Proof.
  intros Hl Hk Hs Hcase. destruct (network_cases _ _ _ _ _ Hs) as [[n' Hstep]|[Hno _]]; [|by destruct (Hno s1)].
  unfold network in Hs. rewrite Hstep in Hs. cbn [mbind outcome_bind] in Hs.
  destruct (store _ _ _ _) as [s2| |] eqn:Est; try done. injection Hs as <-. revert Est.
  unfold store. set (s0 := set_rpc (RpcTcp.rpc n') (set_reading (RpcTcp.reading n') s)).
  assert (Hsame : answers_wake s0).
  { intros l' Hl' Hat. assert (l' = l) as -> by (change (loop s = Some l') in Hl'; congruence).
    destruct Hcase as [?|[? _]]; [congruence|done]. }
  destruct (subject _ _ _) as [q|] eqn:Esub; [|by intros [= <-]].
  destruct (TcpServer.conns _ !! q) as [c|] eqn:Hc; [|by intros [= <-]].
  destruct (RpcTcp.conns n' !! q) as [after|] eqn:Ha; [|by intros [= <-]].
  set (s3 := set_world _ s0). intros Hq. eapply (queued_woken in_loop _ s3 s2 l); [done|by eapply queue_all_well|].
  destruct Hcase as [?|[Hw Hio]]; [by left|right]. split; [exact Hw|]. destruct Hio as [?|[p ->]]; [by left|right].
  destruct (functor_touches _ _ _ _ Hstep) as (Htouch & _). cbn [subject] in Esub. injection Esub as ->.
  unfold touches in Htouch. cbn [net RpcTcp.conns] in Htouch. rewrite lookup_fmap, Hc in Htouch. cbn in Htouch.
  destruct Htouch as (c' & Hc' & [_ Hlen]). rewrite Hc', lookup_insert_eq in Ha. injection Ha as ->.
  unfold new_functors. rewrite Hlen. replace (_ - _)%nat with 0%nat by lia. apply no_conn_servers.
Qed.

(** Without a loop nothing is queued. *)
Lemma queue_all_none in_loop ks s s1 : loop s = None -> queue_all in_loop ks s = Ret s1 -> loop s1 = None.
Proof. intros Hl. destruct ks; cbn [queue_all]; [by intros [= <-]|]. unfold queue. by rewrite Hl. Qed.

Lemma network_none in_loop e s s1 acts :
  loop s = None -> network in_loop e s = Some (Ret (None, s1), acts) -> loop s1 = None.
Proof.
  intros Hl. unfold network. destruct (RpcTcp.step _ _) as [[[[t n']| |] a]|]; try done. cbn [mbind outcome_bind].
  destruct (store _ _ _ _) as [s2| |] eqn:Est; try done. intros [= _ <- _]. revert Est. unfold store.
  destruct (subject _ _ _) as [q|]; [|by intros [= <-]]. destruct (TcpServer.conns _ !! q); [|by intros [= <-]].
  destruct (RpcTcp.conns n' !! q); [|by intros [= <-]]. intros Hq. by eapply queue_all_none in Hq.
Qed.

(** The loop's own steps: only the functors taken are called without a wakeup. *)
Lemma loop_step_wakes s l l' e h :
  loop_event e = true -> LoopFacts.ok l h -> EventLoop.step l e = Some l' ->
  (EventLoop.at_ l <> EventLoop.Handling -> connection_waits s l -> LoopFacts.will_wake l) ->
  EventLoop.at_ l' <> EventLoop.Handling -> connection_waits s l' -> LoopFacts.will_wake l'.
Proof.
  intros He Hok Hs Hw Hat Hwait. destruct e; try done; cbn [EventLoop.step] in Hs.
  - destruct (EventLoop.at_ l) eqn:Ea; try done. injection Hs as <-. unfold EventLoop.loop_enter, EventLoop.loop_condition in *.
    destruct (EventLoop.looping_ l); apply Hw; done.
  - destruct (EventLoop.at_ l); try done. destruct (_ && _); [done|]. injection Hs as <-. by destruct wakeup_ready.
  - destruct (EventLoop.at_ l); try done. injection Hs as <-. destruct Hwait as (f & p & Hf & _). by apply elem_of_nil in Hf.
  - destruct (EventLoop.at_ l) eqn:Ea; try done. destruct (EventLoop.callbacks l); [|done]. injection Hs as <-.
    unfold EventLoop.loop_condition in *. destruct (EventLoop.quit_ l); apply Hw; done.
  - assert (l' = EventLoop.wake_other l) as ->.
    { destruct (EventLoop.wakers l); [by destruct (EventLoop.at_ l)|]. by destruct (EventLoop.at_ l); injection Hs. }
    left. cbn. pose proof (LoopFacts.ok_wakeups _ _ Hok). lia.
Qed.

Lemma loop_wakes n s e i acts0 :
  reactor_inv n s acts0 -> answers_wake s -> loop_event e = true -> IoThread.loop_event e (io s) = Some i ->
  answers_wake (set_io i s).
Proof.
  intros Hi Hw He Hs. unfold IoThread.loop_event in Hs. destruct (IoThread.loop (io s)) as [l|] eqn:El; [|done].
  destruct (IoThread.allowed e (io s)); [|done]. destruct (EventLoop.step l e) as [l'|] eqn:Est; [|done].
  assert (Ecalled : IoThread.called e l = false) by (by destruct e). rewrite Ecalled in Hs. injection Hs as <-.
  destruct (li_ok _ _ _ (ii_loop _ _ (ri_io _ _ _ Hi) l El)) as [h Hok].
  intros l0 [= <-] Hat Hwait. exact (loop_step_wakes s l l' e h He Hok Est (Hw l El) Hat Hwait).
Qed.

Lemma call_functor_wakes n s s1 acts0 acts :
  reactor_inv n s acts0 -> answers_wake s -> call_functor s = Some (Ret (None, s1), acts) -> answers_wake s1.
Proof.
  intros Hi Hw. unfold call_functor. destruct (loop s) as [l|] eqn:Hl; [|done].
  destruct (EventLoop.callbacks l) as [|f rest] eqn:Hc; [done|].
  destruct (IoThread.loop_event EventLoop.CallFunctor (io s)) as [j|] eqn:Hj; [|done].
  destruct (called_spec s l f rest j Hl Hc Hj) as [Hat Ej]. set (s0 := set_io j s).
  assert (Hl0 : loop s0 = Some (popped f rest l)) by (unfold loop, s0; by rewrite Ej).
  assert (Hp : EventLoop.pending_functors_ (popped f rest l) = EventLoop.pending_functors_ l /\
      EventLoop.wakeups (popped f rest l) = EventLoop.wakeups l /\ EventLoop.wakers (popped f rest l) = EventLoop.wakers l)
    by (unfold popped; by destruct (f =? _)%nat).
  destruct Hp as (Hp & Hwu & Hwa).
  assert (Hk : forall g, g ∈ EventLoop.pending_functors_ (popped f rest l) ->
      g = IoThread.stop_functor \/ is_Some (task_at (tasks s) g)).
  { intros g. rewrite Hp. intros Hg. apply (tk_known _ _ (ri_tasks _ _ _ Hi l Hl)). apply elem_of_app. by right. }
  assert (Hw0 : connection_waits s0 (popped f rest l) -> LoopFacts.will_wake (popped f rest l)).
  { unfold connection_waits, LoopFacts.will_wake. rewrite Hp, Hwu, Hwa. apply (Hw l Hl). by rewrite Hat. }
  destruct f as [|i].
  - intros [= Hs _]. by eapply (server_call_wakes _ s0); [exact Hl0|exact Hk|right|exact Hs].
  - change (tasks s0) with (tasks s). destruct (tasks s !! i) as [[p|]|]; [| |done].
    + intros Hs. eapply (network_wakes true _ s0); [exact Hl0|exact Hk|exact Hs|]. right. split; [done|]. right. by exists p.
    + destruct (run_functor (world s0)) as [[g w]|]; [|done]. intros [= Hs _].
      by eapply (server_call_wakes _ (set_world w s0)); [exact Hl0|exact Hk|right; exact Hw0|exact Hs].
Qed.

Lemma step_wakes n s e s1 acts0 acts :
  reactor_inv n s acts0 -> answers_wake s -> step s e = Some (Ret (None, s1), acts) -> answers_wake s1.
Proof.
  intros Hi Hw. assert (Hk : forall l, loop s = Some l -> forall g, g ∈ EventLoop.pending_functors_ l ->
      g = IoThread.stop_functor \/ is_Some (task_at (tasks s) g)).
  { intros l Hl g Hg. apply (tk_known _ _ (ri_tasks _ _ _ Hi l Hl)). apply elem_of_app. by right. }
  assert (Hnone : forall s', loop s' = None -> answers_wake s') by (intros s' Hl' l Hl; congruence).
  destruct e as [port st| |e|p fd b kw ks peer|e|e|]; cbn [step]; unfold return_.
  - destruct (IoThread.refuses port (io s)) eqn:Href; [by intros [= <- _]|]. case_bool_decide; [|done].
    cbn [IoThread.step]. unfold IoThread.start. rewrite Href. destruct (_ && _); [done|].
    destruct (IoThread.io_startup st _) as [[[status srv] l]| |] eqn:Est; try done. cbn [mbind outcome_bind].
    destruct (RpcServer.start _ _ _) as [status' r]. cbn [mbind outcome_bind]. intros [= <- _].
    destruct st; cbn in Est; try (destruct (IoThread.release _); [|done..]; cbn in Est); injection Est as _ _ <-;
      try (by apply Hnone). intros l [= <-] _ (f & p & Hf & _). by apply elem_of_nil in Hf.
  - unfold IoThread.stop_begin. destruct (RpcServer.stop_begin _) as [r|]; [|done]. intros [= <- _].
    destruct (loop s) as [l|] eqn:Hl; [|apply Hnone; unfold loop in *; cbn; by rewrite Hl].
    intros l' Hl' _ _. right. unfold loop in *. cbn in Hl'. rewrite Hl in Hl'. injection Hl' as <-. cbn. lia.
  - destruct (thread_event e); [|done]. intros Hs. destruct (loop s) as [l|] eqn:Hl; [|apply Hnone; by eapply network_none].
    eapply network_wakes; [exact Hl|by apply Hk|exact Hs|].
    destruct (decide (EventLoop.at_ l = EventLoop.Handling)) as [?|Hne]; [by left|right]. split; [by apply Hw|by left].
  - destruct (_ && _) eqn:Eb; [|done]. apply andb_true_iff in Eb as [[[Hph _]%andb_true_iff _]%andb_true_iff _].
    destruct (handling_loop _ s Hph) as (l & Hl & Hat). intros [= Hs _].
    by eapply server_call_wakes; [exact Hl|by apply Hk|left|exact Hs].
  - destruct (_ && _) eqn:Eb; [|done]. apply andb_true_iff in Eb as [_ Hph]. intros Hs.
    destruct (handling_loop _ s Hph) as (l & Hl & Hat). by eapply network_wakes; [exact Hl|by apply Hk|exact Hs|left].
  - destruct e; try (destruct (_ && _) eqn:Eb; [|done]; apply andb_true_iff in Eb as [He _];
      destruct (IoThread.loop_event _ _) as [i|] eqn:Ei; [|done]; intros [= <- _]; by eapply loop_wakes).
    + destruct (between s); [|done]. by eapply call_functor_wakes.
    + destruct (IoThread.loop_event _ _) as [i|] eqn:Ei; [|done]. intros [= <- _]. by apply (loop_wakes n s EventLoop.WakeOther i acts0).
  - destruct (IoThread.io_return (io s)) as [[i| |]|] eqn:Ei; try done. cbn [mbind outcome_bind]. intros [= <- _].
    apply Hnone. unfold IoThread.io_return in Ei. destruct (IoThread.loop _); [|done]. destruct (_ && _); [|done].
    destruct (RpcServer.step _ _) as [[[r1 a1]| |]|]; try done. cbn [mbind outcome_bind] in Ei.
    destruct (IoThread.release _); try done. cbn [mbind outcome_bind] in Ei. by injection Ei as <-.
Qed.

Lemma run_wakes n es s s1 acts0 acts :
  reactor_inv n s acts0 -> answers_wake s -> Forall reactor_event_ok es ->
  Z.of_nat (size (TcpServer.conns (world s)) + accepts es) <= 2 ^ 32 ->
  run s es = Some (s1, acts) -> answers_wake s1.
Proof.
  intros Hi Hw Hes. revert s acts0 acts Hi Hw. induction Hes as [|e es He Hes IH]; intros s acts0 acts Hi Hw Hsize; cbn [run].
  { by intros [= <- _]. }
  destruct (step s e) as [[[[[x|] s2]| |] a1]|] eqn:Es; try done.
  destruct (run s2 es) as [[s3 a2]|] eqn:Er; [|done]. intros [= <- _].
  change (accepts (e :: es)) with (accepts ([e] ++ es)) in Hsize. rewrite accepts_app in Hsize.
  assert (Hone : accepts [e] = if is_accept e then 1%nat else 0%nat) by (unfold accepts; cbn; by destruct (is_accept e)).
  pose proof (step_size_le _ _ _ _ Es) as Hle.
  destruct (step_good n s e s2 acts0 a1 Hi He) as [_ Hi1]; [destruct (is_accept e); [left; lia|by right]|done|].
  eapply IH; [exact Hi1|exact (step_wakes _ _ _ _ _ _ Hi Hw Es)| |exact Er]. destruct (is_accept e); lia.
Qed.

(** * Turns of a running server's loop *)

(** The loop waits, with no wakeup written or on its way. *)
Definition rests s : Prop :=
  exists l, loop s = Some l /\ EventLoop.at_ l = EventLoop.Waiting /\ EventLoop.wakeups l <= 0 /\ EventLoop.wakers l = 0%nat.

(** The I/O thread's own steps bring it there. *)
Definition comes_to_rest s : Prop :=
  exists es s', forallb own_event es = true /\ run s es = Some (s', []) /\ (rests s' \/ overflows s').

Lemma rest_step s e s1 : own_event e = true -> step s e = Some (Ret (None, s1), []) -> comes_to_rest s1 -> comes_to_rest s.
Proof.
  intros He Hs (es & s' & Hes & Hrun & Hend). exists (e :: es), s'. cbn [forallb run]. by rewrite He, Hs, Hrun.
Qed.

Abbreviation serving := (turning true).

Lemma serving_loop n s l acts : serving n s l acts -> exists h, LoopFacts.ok l h /\ EventLoop.quit_ l = false.
Proof.
  intros Hs. pose proof (turning_loop_inv _ _ _ _ _ Hs) as [[h Hok] _ H3 _ H5 _ _ _]. exists h. split; [done|].
  destruct (EventLoop.quit_ l); [|done]. specialize (H3 eq_refl). rewrite !elem_of_app in H3. tauto.
Qed.

(** The functors taken are called, and no wakeup is added. *)
Lemma serving_runs n l s acts :
  serving n s l acts -> EventLoop.at_ l = EventLoop.Running ->
  (forall s' l', serving n s' l' acts -> EventLoop.at_ l' = EventLoop.Waiting -> same_wakeups l l' -> comes_to_rest s') ->
  comes_to_rest s.
Proof.
  remember (EventLoop.callbacks l) as cs eqn:Hc. revert s l Hc. induction cs as [|f rest IH]; intros s l Hc Hs Hat Hwait.
  - destruct (serving_loop _ _ _ _ Hs) as (_ & _ & Hq).
    destruct (turning_loop true n s l acts EventLoop.EndFunctors (EventLoop.loop_condition l) Hs) as (s1 & Hstep & Hs1);
      [done|done|cbn; by rewrite Hat, <- Hc|].
    eapply rest_step; [|exact Hstep|]; [done|]. unfold EventLoop.loop_condition in Hs1. rewrite Hq in Hs1.
    by eapply Hwait.
  - destruct (turning_call true n s l acts f rest Hs Hat (eq_sym Hc)) as [Ho|(s1 & l1 & Hstep & Hs1 & Hat1 & Hc1 & [E1 E2] & _)].
    + exists [], s. split; [done|]. split; [done|by right].
    + eapply rest_step; [|exact Hstep|]; [done|]. apply (IH s1 l1); [done..|].
      intros s' l' Hs' Hat' [E3 E4]. apply (Hwait s' l' Hs' Hat'). split; congruence.
Qed.

Lemma serving_handles n l s acts :
  serving n s l acts -> EventLoop.at_ l = EventLoop.Handling ->
  (forall s' l', serving n s' l' acts -> EventLoop.at_ l' = EventLoop.Waiting -> same_wakeups l l' -> comes_to_rest s') ->
  comes_to_rest s.
Proof.
  intros Hs Hat Hwait.
  destruct (turning_loop true n s l acts EventLoop.SwapPending (EventLoop.swap_pending l) Hs) as (s1 & Hstep & Hs1);
    [done|done|cbn; by rewrite Hat|].
  eapply rest_step; [|exact Hstep|]; [done|]. by apply (serving_runs n (EventLoop.swap_pending l) s1 acts).
Qed.

Lemma serving_waits k n l s acts :
  EventLoop.wakers l = k -> serving n s l acts -> EventLoop.at_ l = EventLoop.Waiting -> comes_to_rest s.
Proof.
  revert s l. induction k as [|k IH]; intros s l Hk Hs Hat.
  - destruct (Z.le_gt_cases (EventLoop.wakeups l) 0) as [Hw|Hw].
    { exists [], s. split; [done|]. split; [done|]. left. exists l. split; [apply (tn_loop _ _ _ _ _ Hs)|done]. }
    destruct (turning_loop true n s l acts (EventLoop.EpollReturn true) (EventLoop.epoll_return true l) Hs) as (s1 & Hstep & Hs1);
      [done|done|cbn; rewrite Hat, (proj2 (Z.leb_gt _ _) Hw); done|].
    eapply rest_step; [|exact Hstep|]; [done|]. apply (serving_handles n _ s1 acts Hs1); [done|].
    intros s' l' Hs' Hat' [E1 E2]. cbn in E1, E2. exists [], s'. split; [done|]. split; [done|]. left. exists l'.
    split; [apply (tn_loop _ _ _ _ _ Hs')|]. split; [done|]. split; [lia|congruence].
  - destruct (turning_loop true n s l acts EventLoop.WakeOther (EventLoop.wake_other l) Hs) as (s1 & Hstep & Hs1);
      [done|done|cbn [EventLoop.step]; by rewrite Hk|].
    eapply rest_step; [|exact Hstep|]; [done|]. apply (IH s1 (EventLoop.wake_other l)); [cbn; by rewrite Hk|done|done].
Qed.

Lemma serving_rests n s l acts : serving n s l acts -> comes_to_rest s.
Proof.
  intros Hs. destruct (EventLoop.at_ l) eqn:Hat.
  - pose proof (turning_loop_inv _ _ _ _ _ Hs) as [_ _ _ _ _ _ H7 _]. destruct (serving_loop _ _ _ _ Hs) as (_ & _ & Hq).
    rewrite H7 in Hq by done. done.
  - by eapply serving_waits.
  - apply (serving_handles n l s acts Hs Hat). intros s' l' Hs' Hat' _. by eapply serving_waits.
  - apply (serving_runs n l s acts Hs Hat). intros s' l' Hs' Hat' _. by eapply serving_waits.
Qed.

(** From before [loop] too. *)
Lemma server_rests n s acts l :
  reactor_inv n s acts -> loop s = Some l -> RpcServer.running_ (rpc s) = true -> between s = true -> comes_to_rest s.
Proof.
  intros Hi Hl Hr Hbt. destruct (IoThread.entered (io s)) eqn:He; [by eapply serving_rests|].
  destruct (loop_entered true n s acts l Hi Hl He Hr Hbt) as (s1 & l1 & Hs & Hs1).
  eapply rest_step; [|exact Hs|]; [done|]. by eapply serving_rests.
Qed.

(** At rest no functor of a connection waits. *)
Lemma rest_sends n s acts p c :
  reactor_inv n s acts -> answers_wake s -> rests s -> TcpServer.conns (world s) !! p = Some c ->
  TcpConnection.pending (TcpServer.tcp c) = [].
Proof.
  intros Hi Hw (l & Hl & Hat & Hwu & Hwk) Hc. pose proof (tk_conn _ _ (ri_tasks _ _ _ Hi l Hl) p c Hc) as Hn.
  destruct (TcpConnection.pending (TcpServer.tcp c)) as [|f fs]; [done|]. exfalso. cbn in Hn.
  assert (Hin : OfConnection p ∈ outstanding s l) by (apply times_in; lia).
  destruct (li_ok _ _ _ (ii_loop _ _ (ri_io _ _ _ Hi) l Hl)) as [h Hok].
  unfold outstanding, functors_of in Hin. rewrite (LoopFacts.ok_callbacks _ _ Hok) in Hin by (by rewrite Hat).
  apply list_elem_of_omap in Hin as (g & Hg & Ht).
  destruct (Hw l Hl) as [Hx|Hx]; [by rewrite Hat|by exists g, p|lia|lia].
Qed.

End turns.
