(* ===== verification/RpcReactorTheorems.v ===== *)
(** What holds of the RPC server on its reactor: its parts agree in every run,
    nothing that is gone is used, and [stop] closes every connection. *)
From Stdlib Require Import ZArith Lia.
From Stdlib Require Import Strings.Byte.
From stdpp Require Import base list strings gmap.
From S2P Require Import Prelude NetBuffer EventLoop EventLoopFacts TcpConnection TcpConnectionFacts TcpConnectionLife Socket SocketFacts TcpServer TcpServerFacts RpcMessage RpcServer RpcServerFacts RpcIo RpcIoFacts RpcLedger RpcTcp RpcTcpFacts RpcTcpLive RpcReactor RpcReactorSteps RpcReactorFacts RpcReactorServer RpcReactorCalls RpcReactorRuns RpcReactorLive RpcReactorTurns.
#[local] Set Warnings "-clear-no-such-hyp".
#[local] Existing Instance EventLoop.phase_eq_dec.

Section theorems.
Context `{Inet} {Handler : Type}.
Implicit Types s : RpcReactor.t (Handler := Handler).
Import RpcReactor.

Lemma reactor_reachable_inv n es s acts :
  Forall reactor_event_ok es -> Z.of_nat (accepts es) <= 2 ^ 32 -> run (init (Handler := Handler) n) es = Some (s, acts) ->
  projects (init n) s acts /\ reactor_inv n s acts.
Proof.
  intros Hes Hacc Hrun.
  exact (reactor_run_good n es (init n) s [] acts (init_reactor_inv n) Hes Hacc Hrun).
Qed.

(** The two tables of a reachable state. *)
Lemma tables_of s p c :
  agrees s -> TcpServer.conns (world s) !! p = Some c ->
  (is_Some (RpcServer.connections_ (rpc s) !! p) <-> notified (TcpServer.tcp c) = [up]) /\
  (in_table (world s) p c <-> notified (TcpServer.tcp c) = [up]).
Proof.
  intros Ha Hc. split.
  - rewrite (ag_table s Ha p). split; [intros (d & Hd & Hn); congruence|]. intros Hn. by exists c.
  - destruct (conn_stage s p c Ha Hc) as (_ & _ & [(Hn & Ht & _)|(Hn & Ht & _)]); [tauto|]. rewrite Hn. by split.
Qed.

(** After the loop neither table has a connection. *)
Lemma no_loop_names n s :
  io_inv n (io s) -> agrees s -> loop s = None -> TcpServer.connections_ (TcpServer.server (world s)) = ∅.
Proof.
  intros Hio Ha Hl. apply map_empty. intros nm. destruct (_ !! nm) as [p|] eqn:Hp; [|done].
  destruct (fr_table _ (inv_frame _ _ (ag_world s Ha)) nm p Hp) as (c & Hc & <-).
  apply (tables_of s p c Ha Hc) in Hp. destruct (no_loop_gone n s p c Hio Ha Hl Hc). congruence.
Qed.

(** A run of the reactor is one of the callbacks' model. *)
Lemma reactor_is_tcp_run n es s acts :
  Forall reactor_event_ok es -> Z.of_nat (accepts es) <= 2 ^ 32 -> run (init (Handler := Handler) n) es = Some (s, acts) ->
  exists tes, Forall RpcTcpFacts.event_ok tes /\ RpcTcp.run (RpcTcp.init n) tes = Some (net s, acts).
Proof.
  intros Hes Hacc Hrun. destruct (reactor_reachable_inv n es s acts Hes Hacc Hrun) as [[(tes & Htes & Htr) _] _].
  exists tes. split; [done|]. unfold net in Htr at 1. cbn in Htr. rewrite fmap_empty in Htr. exact Htr.
Qed.

(** The I/O thread's own steps after a run. *)
Lemma own_run n es s acts es' s' :
  Forall reactor_event_ok es -> Z.of_nat (accepts es) <= 2 ^ 32 -> run (init (Handler := Handler) n) es = Some (s, acts) ->
  forallb own_event es' = true -> run s es' = Some (s', []) ->
  Forall reactor_event_ok (es ++ es') /\ Z.of_nat (accepts (es ++ es')) <= 2 ^ 32 /\
  run (init n) (es ++ es') = Some (s', acts) /\ reactor_inv n s' acts.
Proof.
  intros Hes Hacc Hrun Hown Hrun'. assert (Hes' : Forall reactor_event_ok es' /\ accepts es' = 0%nat).
  { clear -Hown. induction es' as [|e es' IH]; [done|]. cbn in Hown. apply andb_true_iff in Hown as [He Hown].
    destruct (IH Hown) as [? Hacc]. split; [constructor; [by destruct e|done]|]. unfold accepts in *. by destruct e. }
  destruct Hes' as [Hok Hno].
  assert (Hall : run (init n) (es ++ es') = Some (s', acts)) by (rewrite (reactor_run_app _ _ _ _ _ Hrun), Hrun'; by rewrite app_nil_r).
  assert (Hok2 : Forall reactor_event_ok (es ++ es')) by (by apply Forall_app).
  assert (Hacc2 : Z.of_nat (accepts (es ++ es')) <= 2 ^ 32) by (rewrite accepts_app; lia).
  split; [done|]. split; [done|]. split; [done|]. by apply (reactor_reachable_inv n (es ++ es') s' acts).
Qed.

(** C7: the reactor refines its parts: every run of it, under every interleaving
    of its threads, is a run of the server's callbacks on the connections with
    the same answers, and one of the I/O thread with its loop; and the TCP
    server's invariant holds, stopped or not. *)
Theorem reactor_refines_parts n es s acts :
  Forall reactor_event_ok es -> Z.of_nat (accepts es) <= 2 ^ 32 -> run (init (Handler := Handler) n) es = Some (s, acts) ->
  (exists tes, Forall RpcTcpFacts.event_ok tes /\ RpcTcp.run (RpcTcp.init n) tes = Some (net s, acts)) /\
  (exists ies, IoThread.run (IoThread.init n) ies = Some (Ret (io s))) /\
  TcpServerFacts.inv (stopped s) (world s).
Proof.
  intros Hes Hacc Hrun. destruct (reactor_reachable_inv n es s acts Hes Hacc Hrun) as [[_ Hio] Hi].
  split; [by eapply reactor_is_tcp_run|]. split; [exact Hio|apply (ag_world s (ri_agrees _ _ _ Hi))].
Qed.

(** C5: the tables agree.  In every run, the connections in the RPC server's
    table are those in the TCP server's table, which are those announced up and
    not down; one of them that is closed has its removal among what the loop has
    to call; and when the loop is gone both tables are empty. *)
Theorem connection_tables_agree n es s acts :
  Forall reactor_event_ok es -> Z.of_nat (accepts es) <= 2 ^ 32 -> run (init (Handler := Handler) n) es = Some (s, acts) ->
  (forall p, is_Some (RpcServer.connections_ (rpc s) !! p) <->
     exists nm, TcpServer.connections_ (TcpServer.server (world s)) !! nm = Some p) /\
  (forall p, is_Some (RpcServer.connections_ (rpc s) !! p) <->
     exists c, TcpServer.conns (world s) !! p = Some c /\ notified (TcpServer.tcp c) = [up]) /\
  match loop s with
  | Some l => forall p c, TcpServer.conns (world s) !! p = Some c -> is_Some (RpcServer.connections_ (rpc s) !! p) ->
      TcpConnection.state_ (TcpServer.tcp c) = TcpConnection.kDisconnected ->
      OfServer ∈ outstanding s l /\ (TcpServer.main_loop_, TcpServer.RemoveConnection p) ∈ TcpServer.functors (world s)
  | None => RpcServer.connections_ (rpc s) = ∅ /\ TcpServer.connections_ (TcpServer.server (world s)) = ∅
  end.
Proof.
  intros Hes Hacc Hrun. destruct (reactor_reachable_inv n es s acts Hes Hacc Hrun) as [_ [Hio _ Ha Htk]].
  assert (Htab : forall p, is_Some (RpcServer.connections_ (rpc s) !! p) <->
      exists nm, TcpServer.connections_ (TcpServer.server (world s)) !! nm = Some p).
  { intros p. rewrite (ag_table s Ha p). split.
    - intros (c & Hc & Hn). exists (TcpServer.name c). by apply (tables_of s p c Ha Hc).
    - intros [nm Hp]. destruct (fr_table _ (inv_frame _ _ (ag_world s Ha)) nm p Hp) as (c & Hc & <-).
      exists c. split; [done|]. by apply (tables_of s p c Ha Hc). }
  split; [exact Htab|]. split; [exact (ag_table s Ha)|]. destruct (loop s) as [l|] eqn:Hl.
  - intros p c Hc Hin Hst. apply (tables_of s p c Ha Hc) in Hin.
    destruct (conn_stage s p c Ha Hc) as (_ & _ & [(_ & _ & _ & Hq)|(Hn & _)]); [|congruence].
    rewrite bool_decide_true in Hq by done. assert (Hrem : (0 < queued (TcpServer.RemoveConnection p) (TcpServer.functors (world s)))%nat) by lia.
    apply queued_in in Hrem as [lp Hrem]. destruct (fr_functors _ (inv_frame _ _ (ag_world s Ha)) _ _ Hrem) as (d & Hd & Hlp).
    cbn in Hd. assert (d = c) as -> by congruence. rewrite (ag_main s Ha p c Hc) in Hlp. subst lp. split; [|done].
    apply times_in. rewrite (tk_server _ _ (Htk l eq_refl)). destruct (TcpServer.functors (world s)); [by apply elem_of_nil in Hrem|cbn; lia].
  - split; [by eapply no_loop_table|by eapply no_loop_names].
Qed.


(** C4: [stop] closes every connection.  From every state of every run in which
    [stop] was called and the I/O thread is not in a callback, at whatever point
    the loop is, the thread's own steps and the wakeups on their way bring it to
    its end; then both tables are empty and every connection was announced up
    and down, once each.  Only a functor that makes a connection's output buffer
    too large can prevent it. *)
Theorem stop_closes_connections n es s acts :
  Forall reactor_event_ok es -> Z.of_nat (accepts es) <= 2 ^ 32 -> run (init (Handler := Handler) n) es = Some (s, acts) ->
  RpcServer.running_ (rpc s) = false -> between s = true ->
  exists es' s', forallb own_event es' = true /\ run s es' = Some (s', []) /\
    ((loop s' = None /\ RpcServer.connections_ (rpc s') = ∅ /\ TcpServer.connections_ (TcpServer.server (world s')) = ∅ /\
      forall p c, TcpServer.conns (world s') !! p = Some c -> notified (TcpServer.tcp c) = [up; down]) \/
     overflows s').
Proof.
  intros Hes Hacc Hrun Hr Hbt. destruct (reactor_reachable_inv n es s acts Hes Hacc Hrun) as [_ Hi].
  destruct (stopped_ends n s acts Hi Hr Hbt) as (es' & s' & Hown & Hrun' & Hend). exists es', s'. split; [done|]. split; [done|].
  destruct Hend as [Hl|Ho]; [left|by right].
  destruct (own_run n es s acts es' s' Hes Hacc Hrun Hown Hrun') as (_ & _ & _ & [Hio _ Ha _]).
  split; [done|]. split; [by eapply no_loop_table|]. split; [by eapply no_loop_names|].
  intros p c Hc. by destruct (no_loop_gone n s' p c Hio Ha Hl Hc).
Qed.


End theorems.

(** * A run *)

#[local] Existing Instance dotted_quad.

(** A client connects and sends two requests; a worker answers one. *)
Definition reactor_reading (kernel : nat -> TcpConnection.write_result) : list (RpcReactor.event (Handler := unit)) :=
  [RpcReactor.Thread (RpcServer.Register (str "Weather") (str "Get") (Some tt));
   RpcReactor.StartServer 8080 IoThread.Listens;
   RpcReactor.Loop EventLoop.LoopEnter; RpcReactor.Loop (EventLoop.EpollReturn false);
   RpcReactor.Accept 5 7 TcpConnectionFacts.example_buffer kernel None (InetAddress.loopback 4001);
   RpcReactor.Network (RpcTcp.Readable 5 [RpcServerFacts.example_stream] (TcpConnection.ReadFails TcpConnection.EAGAIN));
   RpcReactor.Network RpcTcp.ReadNext; RpcReactor.Network RpcTcp.NextFrame; RpcReactor.Network RpcTcp.NextFrame;
   RpcReactor.Network RpcTcp.NextFrame; RpcReactor.Network RpcTcp.ReadNext].

Definition reactor_answering : list (RpcReactor.event (Handler := unit)) :=
  [RpcReactor.Thread RpcServer.WorkerTake; RpcReactor.Loop EventLoop.SwapPending; RpcReactor.Loop EventLoop.EndFunctors;
   RpcReactor.Thread (RpcServer.WorkerFinish 0 0 (fun _ _ => RpcServer.ThrowsUnknown));
   RpcReactor.Loop EventLoop.WakeOther; RpcReactor.Loop (EventLoop.EpollReturn true);
   RpcReactor.Loop EventLoop.SwapPending; RpcReactor.Loop EventLoop.CallFunctor].

(** The peer has reset the connection: the answer cannot be written. *)
Definition reset_kernel (i : nat) : TcpConnection.write_result := TcpConnection.WriteError 104.

Definition failed_answer : list (RpcReactor.event (Handler := unit)) :=
  reactor_reading reset_kernel ++ reactor_answering ++ [RpcReactor.Loop EventLoop.EndFunctors].

Definition reactor_after (es : list (RpcReactor.event (Handler := unit))) : RpcReactor.t (Handler := unit) :=
  match RpcReactor.run (RpcReactor.init 1) es with Some (s, _) => s | None => RpcReactor.init 1 end.

Lemma runs_to es :
  match RpcReactor.run (RpcReactor.init 1) es with Some _ => true | None => false end = true ->
  exists acts, RpcReactor.run (RpcReactor.init (Handler := unit) 1) es = Some (reactor_after es, acts).
Proof. unfold reactor_after. destruct (RpcReactor.run _ es) as [[s acts]|]; [by exists acts|done]. Qed.

Lemma reactor_reading_ok kernel : Forall reactor_event_ok (reactor_reading kernel).
Proof.
  repeat constructor; try exact example_buffer_wf; try reflexivity; try (vm_compute; congruence).
Qed.

Lemma failed_answer_ok : Forall reactor_event_ok failed_answer.
Proof. apply Forall_app. split; [apply reactor_reading_ok|by repeat constructor]. Qed.

(** [stop] from there, step by step. *)
Example stop_after_failed_answer :
  let s := reactor_after (failed_answer ++
    [RpcReactor.StopServer; RpcReactor.Loop EventLoop.WakeOther; RpcReactor.Loop (EventLoop.EpollReturn true);
     RpcReactor.Loop EventLoop.SwapPending; RpcReactor.Loop EventLoop.CallFunctor; RpcReactor.Loop EventLoop.CallFunctor;
     RpcReactor.Loop EventLoop.EndFunctors; RpcReactor.IoReturn]) in
  RpcReactor.loop s = None /\ size (RpcServer.connections_ (RpcReactor.rpc s)) = 0%nat /\
  size (TcpServer.connections_ (TcpServer.server (RpcReactor.world s))) = 0%nat /\
  (notified ∘ TcpServer.tcp) <$> TcpServer.conns (RpcReactor.world s) !! 5%nat = Some [up; down].
Proof. split_and!; vm_compute; reflexivity. Qed.

(** With a socket that takes the octets, the answer is on the wire. *)
Example answer_on_wire :
  (TcpConnection.wire ∘ TcpServer.tcp) <$>
    TcpServer.conns (RpcReactor.world (reactor_after (reactor_reading (fun _ => TcpConnection.WriteCount 1000) ++ reactor_answering))) !! 5%nat =
  Some (makeResponseFrame 7 (mkResponse (mkStatus kInternal (str "unclassified handler exception")) [] [])).
Proof. vm_compute. reflexivity. Qed.


(** * Witnesses *)

Lemma reactor_refines_parts_witness :
  exists s acts, RpcReactor.run (RpcReactor.init 1) failed_answer = Some (s, acts) /\
    (exists tes, Forall RpcTcpFacts.event_ok tes /\ RpcTcp.run (RpcTcp.init 1) tes = Some (RpcReactor.net s, acts)) /\
    (exists ies, IoThread.run (IoThread.init 1) ies = Some (Ret (RpcReactor.io s))).
Proof.
  destruct (runs_to failed_answer) as [acts Hrun]; [by vm_compute|].
  destruct (reactor_refines_parts 1 failed_answer _ _ failed_answer_ok ltac:(vm_compute; discriminate) Hrun) as (Ht & Hio & _).
  exists (reactor_after failed_answer), acts. split; [exact Hrun|]. split; [exact Ht|exact Hio].
Defined.

Lemma connection_tables_agree_witness :
  let s := reactor_after failed_answer in
  is_Some (RpcServer.connections_ (RpcReactor.rpc s) !! 5%nat) /\
  (forall p, is_Some (RpcServer.connections_ (RpcReactor.rpc s) !! p) <->
     exists nm, TcpServer.connections_ (TcpServer.server (RpcReactor.world s)) !! nm = Some p).
Proof.
  destruct (runs_to failed_answer) as [acts Hrun]; [by vm_compute|]. split; [eexists; by vm_compute|].
  destruct (connection_tables_agree 1 failed_answer _ acts failed_answer_ok ltac:(vm_compute; discriminate) Hrun) as (Ht & _).
  exact Ht.
Defined.


Lemma stop_closes_connections_witness :
  let s := reactor_after (failed_answer ++ [RpcReactor.StopServer]) in
  is_Some (RpcServer.connections_ (RpcReactor.rpc s) !! 5%nat) /\
  exists es' s', forallb own_event es' = true /\ RpcReactor.run s es' = Some (s', []) /\
    ((RpcReactor.loop s' = None /\ RpcServer.connections_ (RpcReactor.rpc s') = ∅) \/ overflows s').
Proof.
  destruct (runs_to (failed_answer ++ [RpcReactor.StopServer])) as [acts Hrun]; [by vm_compute|].
  split; [eexists; by vm_compute|].
  destruct (stop_closes_connections 1 (failed_answer ++ [RpcReactor.StopServer])
    (reactor_after (failed_answer ++ [RpcReactor.StopServer])) acts) as (es' & s' & Hes & Hr & Hend);
    [apply Forall_app; split; [apply failed_answer_ok|by repeat constructor]|vm_compute; discriminate|exact Hrun|by vm_compute|by vm_compute|].
  exists es', s'. split; [exact Hes|]. split; [exact Hr|]. destruct Hend as [(Hl & Htab & _)|Ho];
    [left; split; [exact Hl|exact Htab]|right; exact Ho].
Defined.

