(* ===== verification/RpcClient.v ===== *)
(** The RPC client: src/rpc/rpc_client.cpp.  The kernel is an environment: a
    script of the results of the system calls, in the order the client makes
    them, and a log of what the client did (octets sent, descriptors closed). *)
From Stdlib Require Import ZArith Lia.
From Stdlib Require Import Strings.Byte.
From stdpp Require Import base list strings gmap.
From S2P Require Import Prelude StdMap FrameHeader Metadata FrameCodec Chars RpcMessage.

Module RpcClient.

(** * System calls *)

Definition EINTR : Z := 4.
Definition EAGAIN : Z := 11.
Definition EWOULDBLOCK : Z := 11.
Definition EINPROGRESS : Z := 115.

Definition POLLIN : Z := 0x001.
Definition POLLOUT : Z := 0x004.
Definition POLLERR : Z := 0x008.
Definition POLLHUP : Z := 0x010.
Definition POLLNVAL : Z := 0x020.

Inductive send_result := SendCount (n : Z) | SendError (errno : Z).

(** An empty list is the end of the stream. *)
Inductive recv_result := RecvOctets (l : bytes) | RecvError (errno : Z).

Inductive poll_result := PollReady (revents : Z) | PollTimeout | PollError (errno : Z).

(** An attempt to connect to one address: the descriptor [socket] returned (or
    a negative number), the [errno] of [connect] (or none), and [SO_ERROR] (or
    none when [getsockopt] fails). *)
Record attempt := mkAttempt {
  socket_fd : Z;
  connect_errno : option Z;
  so_error : option Z;
}.

Inductive getaddrinfo_result := GaiError (e : Z) | GaiAddresses (l : list attempt).

(** A poll's entry has the steady clock (in nanoseconds) when its timeout is
    computed, and the kernel's answer to that timeout. *)
Record env := mkEnv {
  steady_now : Z;            (* steady clock at the start of the call, in ns *)
  system_now : Z;            (* system clock, in ns since the epoch *)
  gai : getaddrinfo_result;
  sends : list send_result;
  recvs : list recv_result;
  polls : list (Z * (Z -> poll_result));
  sent : bytes;              (* octets the kernel took from the client *)
  received : bytes;          (* octets the client took from the kernel *)
  closed : list Z;           (* descriptors closed *)
}.

Definition set_sends l e := mkEnv (steady_now e) (system_now e) (gai e) l (recvs e) (polls e) (sent e) (received e) (closed e).
Definition set_recvs l e := mkEnv (steady_now e) (system_now e) (gai e) (sends e) l (polls e) (sent e) (received e) (closed e).
Definition set_polls l e := mkEnv (steady_now e) (system_now e) (gai e) (sends e) (recvs e) l (sent e) (received e) (closed e).
Definition set_sent l e := mkEnv (steady_now e) (system_now e) (gai e) (sends e) (recvs e) (polls e) l (received e) (closed e).
Definition set_received l e := mkEnv (steady_now e) (system_now e) (gai e) (sends e) (recvs e) (polls e) (sent e) l (closed e).
Definition set_closed l e := mkEnv (steady_now e) (system_now e) (gai e) (sends e) (recvs e) (polls e) (sent e) (received e) l.

(** * Request identifiers and timeouts *)

(** [makeInitialRequestId]; [hi] and [lo] are the two draws of the random
    device. *)
Definition makeInitialRequestId (hi lo : Z) : Z :=
  let value := Z.lor (u64 (Z.shiftl hi 32)) lo in
  if value =? 0 then 1 else value.

(** [remainingTimeoutMilliseconds]; times are in nanoseconds. *)
Definition remainingTimeoutMilliseconds (deadline now : Z) : Z :=
  let remaining := deadline - now in
  if remaining <=? 0 then 0
  else
    let milliseconds := Z.quot remaining 1000000 in
    if int_max <? milliseconds then int_max
    else if milliseconds =? 0 then 1 else milliseconds.

Section client.
(** The texts of [strerror] and [gai_strerror]. *)
Context (strerror gai_strerror : Z -> bytes).

(** * waitForEvent, writeAll, readAll *)

Fixpoint waitForEvent_loop (l : list (Z * (Z -> poll_result))) (events deadline : Z) :
    outcome (Status * list (Z * (Z -> poll_result))) :=
  match l with
  | [] => OutOfFuel
  | (now, poll) :: l =>
      match poll (remainingTimeoutMilliseconds deadline now) with
      | PollReady revents =>
          if negb (Z.land revents (Z.lor (Z.lor POLLERR POLLHUP) POLLNVAL) =? 0) then
            Ret (mkStatus kUnavailable (str "connection became unavailable"), l)
          else if negb (Z.land revents events =? 0) then Ret (Ok, l)
          else waitForEvent_loop l events deadline
      | PollTimeout => Ret (mkStatus kDeadlineExceeded (str "RPC deadline exceeded"), l)
      | PollError errno =>
          if negb (errno =? EINTR) then Ret (mkStatus kUnavailable (strerror errno), l)
          else waitForEvent_loop l events deadline
      end
  end.

Definition waitForEvent (events deadline : Z) (e : env) : outcome (Status * env) :=
  let* '(status, l) := waitForEvent_loop (polls e) events deadline in
  Ret (status, set_polls l e).

(** The loop of [writeAll]; [data] is what is left to send. *)
Fixpoint writeAll_loop (fuel : nat) (data : bytes) (deadline : Z) (e : env) :
    outcome (Status * env) :=
  match data, fuel with
  | [], _ => Ret (Ok, e)
  | _, O => OutOfFuel
  | _, S f =>
      match sends e with
      | [] => OutOfFuel
      | SendCount written :: rest =>
          let e := set_sends rest e in
          if 0 <? written then
            if lenZ data <? written then OutOfBounds
            else
              let n := Z.to_nat written in
              writeAll_loop f (drop n data) deadline (set_sent (sent e ++ take n data) e)
          else Ret (mkStatus kUnavailable (str "socket closed"), e)
      | SendError errno :: rest =>
          let e := set_sends rest e in
          if errno =? EINTR then writeAll_loop f data deadline e
          else if (errno =? EAGAIN) || (errno =? EWOULDBLOCK) then
            let* '(status, e) := waitForEvent POLLOUT deadline e in
            if negb (ok status) then Ret (status, e) else writeAll_loop f data deadline e
          else Ret (mkStatus kUnavailable (strerror errno), e)
      end
  end.

Definition writeAll (data : bytes) (deadline : Z) (e : env) : outcome (Status * env) :=
  writeAll_loop (length (sends e)) data deadline e.

(** The loop of [readAll]: [len] octets are missing, [data] are stored. *)
Fixpoint readAll_loop (fuel : nat) (len : Z) (data : bytes) (deadline : Z) (e : env) :
    outcome (Status * bytes * env) :=
  if len <=? 0 then Ret (Ok, data, e)
  else
    match fuel with
    | O => OutOfFuel
    | S f =>
        match recvs e with
        | [] => OutOfFuel
        | RecvOctets l :: rest =>
            let e := set_recvs rest e in
            match l with
            | [] => Ret (mkStatus kUnavailable (str "peer closed the connection"), data, e)
            | _ =>
                if len <? lenZ l then OutOfBounds
                else readAll_loop f (len - lenZ l) (data ++ l) deadline
                       (set_received (received e ++ l) e)
            end
        | RecvError errno :: rest =>
            let e := set_recvs rest e in
            if errno =? EINTR then readAll_loop f len data deadline e
            else if (errno =? EAGAIN) || (errno =? EWOULDBLOCK) then
              let* '(status, e) := waitForEvent POLLIN deadline e in
              if negb (ok status) then Ret (status, data, e)
              else readAll_loop f len data deadline e
            else Ret (mkStatus kUnavailable (strerror errno), data, e)
        end
    end.

Definition readAll (len : Z) (deadline : Z) (e : env) : outcome (Status * bytes * env) :=
  readAll_loop (length (recvs e)) len [] deadline e.

(** * The client object *)

Record Client := mkClient {
  host : bytes;
  port : Z;
  fd_ : Z;
  next_request_id_ : Z;
}.

Definition set_fd (fd : Z) (c : Client) : Client := mkClient (host c) (port c) fd (next_request_id_ c).

(** [Impl(endpoint)]. *)
Definition construct (host : bytes) (port hi lo : Z) : Client :=
  mkClient host port (-1) (makeInitialRequestId hi lo).

Definition nextRequestId (c : Client) : Z * Client :=
  let request_id := next_request_id_ c in
  let next := u64 (request_id + 1) in
  let next := if next =? 0 then u64 (next + 1) else next in
  (request_id, mkClient (host c) (port c) (fd_ c) next).

Definition closeUnlocked (c : Client) (e : env) : Client * env :=
  if 0 <=? fd_ c then (set_fd (-1) c, set_closed (closed e ++ [fd_ c]) e) else (c, e).

(** The loop of [ensureConnected] over the addresses; [status] is the last
    failure. *)
Fixpoint connect_loop (l : list attempt) (status : Status) (deadline : Z) (c : Client) (e : env) :
    outcome (Status * Client * env) :=
  match l with
  | [] => Ret (status, c, e)
  | a :: l =>
      if socket_fd a <? 0 then connect_loop l status deadline c e
      else
        match connect_errno a with
        | None => Ret (Ok, set_fd (socket_fd a) c, e)
        | Some errno =>
            let* '(status, connected, e) :=
              (if errno =? EINPROGRESS then
                 let* '(status, e) := waitForEvent POLLOUT deadline e in
                 if ok status then
                   match so_error a with
                   | Some 0 => Ret (status, true, e)
                   | Some socket_error => Ret (mkStatus kUnavailable (strerror socket_error), false, e)
                   | None => Ret (mkStatus kUnavailable (str "connection failed"), false, e)
                   end
                 else Ret (status, false, e)
               else Ret (mkStatus kUnavailable (strerror errno), false, e)) in
            if connected : bool then Ret (status, set_fd (socket_fd a) c, e)
            else
              let e := set_closed (closed e ++ [socket_fd a]) e in
              if bool_decide (code status = kDeadlineExceeded) then Ret (status, c, e)
              else connect_loop l status deadline c e
        end
  end.

Definition ensureConnected (c : Client) (deadline : Z) (e : env) : outcome (Status * Client * env) :=
  if 0 <=? fd_ c then Ret (Ok, c, e)
  else if bool_decide (host c = []) || (port c =? 0) then
    Ret (mkStatus kInvalidArgument (str "endpoint host and port must be provided"), c, e)
  else
    match gai e with
    | GaiError r => Ret (mkStatus kUnavailable (gai_strerror r), c, e)
    | GaiAddresses l =>
        connect_loop l (mkStatus kUnavailable (str "failed to connect to endpoint")) deadline c e
    end.

(** * call *)

Record RpcCallOptions := mkOptions {
  deadline : Z;              (* milliseconds *)
  metadata : metadata_map;
}.

(** The request's metadata. *)
Definition request_metadata (service method : bytes) (options : RpcCallOptions) (e : env) :
    metadata_map :=
  let metadata := StdMap.insert kServiceMetadataKey service (metadata options) in
  let metadata := StdMap.insert kMethodMetadataKey method metadata in
  let deadline_unix_ms := Z.quot (system_now e + deadline options * 1000000) 1000000 in
  StdMap.insert kDeadlineMetadataKey (Chars.to_string deadline_unix_ms) metadata.

(** A failure after which the connection is closed. *)
Definition fail (status : Status) (c : Client) (e : env) :
    outcome (Result RpcResponse * Client * env) :=
  let '(c, e) := closeUnlocked c e in Ret (of_status status, c, e).

(** The end of [call], when the payload of the response is there. *)
Definition finish_response (header : RpcFrameHeader) (payload : bytes) (c : Client) (e : env) :
    outcome (Result RpcResponse * Client * env) :=
  let* '(meta_result, response_metadata) :=
    if negb (meta_length header =? 0)
    then decodeMetadata payload (Z.to_nat (meta_length header)) []
    else Ret (kOk, []) in
  if negb (bool_decide (meta_result = kOk)) then
    fail (mkStatus kUnavailable (str "invalid response metadata")) c e
  else
    match decodeResponseStatus response_metadata with
    | (status, None) => fail status c e
    | (_, Some response_status) =>
        if negb (ok response_status) then Ret (of_status response_status, c, e)
        else
          let* body :=
            if negb (body_length header =? 0)
            then read_slice payload (Z.to_nat (meta_length header))
                   (Z.to_nat (body_length header))
            else Ret [] in
          Ret (of_value (mkResponse Ok response_metadata body), c, e)
    end.

(** The part of [call] that receives: the response to request [rid]. *)
Definition receive_response (rid deadline : Z) (c : Client) (e : env) :
    outcome (Result RpcResponse * Client * env) :=
  let* '(status, header_bytes, e) := readAll kFixedHeaderSize deadline e in
  if negb (ok status) then fail status c e
  else
    let* '(header_result, header) := decodeHeader header_bytes in
    if negb (bool_decide (header_result = kOk)) ||
       negb (msg_type header =? MessageType_value kResponse) ||
       negb (FrameHeader.request_id header =? rid) then
      fail (mkStatus kUnavailable (str "invalid or mismatched RPC response frame")) c e
    else
      let payload_length := total_length header - kFixedHeaderSize in
      let* '(status, payload, e) :=
        if negb (payload_length =? 0) then readAll payload_length deadline e
        else Ret (Ok, [], e) in
      if negb (ok status) then fail status c e
      else finish_response header payload c e.

Definition call (c : Client) (service method body : bytes) (options : RpcCallOptions) (e : env) :
    outcome (Result RpcResponse * Client * env) :=
  if bool_decide (service = []) || bool_decide (method = []) then
    Ret (of_status (mkStatus kInvalidArgument (str "service and method must be provided")), c, e)
  else if deadline options <=? 0 then
    Ret (of_status (mkStatus kInvalidArgument (str "deadline must be positive")), c, e)
  else
    let deadline := steady_now e + deadline options * 1000000 in
    let* '(status, c, e) := ensureConnected c deadline e in
    if negb (ok status) then fail status c e
    else
      let metadata := request_metadata service method options e in
      if negb (isFrameEncodable metadata body) then
        Ret (of_status (mkStatus kResourceExhausted (str "request frame exceeds protocol limits")), c, e)
      else
        let '(rid, c) := nextRequestId c in
        let frame := encodeFrame rid kRequest metadata body in
        let* '(status, e) := writeAll frame deadline e in
        if negb (ok status) then fail status c e
        else receive_response rid deadline c e.

(** [RpcClient::close]. *)
Definition close (c : Client) (e : env) : Client * env := closeUnlocked c e.

(** The typed [call<Request, Response>]; Protobuf is a library's. *)
Definition typed_call {Request Response : Type} (SerializeToString : Request -> option bytes)
    (ParseFromString : bytes -> option Response) (c : Client) (service method : bytes)
    (request : Request) (options : RpcCallOptions) (e : env) :
    outcome (Result Response * Client * env) :=
  match SerializeToString request with
  | None =>
      Ret (of_status (mkStatus kInvalidArgument (str "failed to serialize Protobuf request")), c, e)
  | Some request_body =>
      let* '(wire_result, c, e) := call c service method request_body options e in
      if negb (result_ok wire_result) then Ret (of_status (r_status wire_result), c, e)
      else
        match r_value wire_result with
        | None => OutOfBounds
        | Some response =>
            match ParseFromString (res_body response) with
            | Some v => Ret (of_value v, c, e)
            | None =>
                Ret (of_status (mkStatus kInternal (str "failed to parse Protobuf response")), c, e)
            end
        end
  end.

End client.
End RpcClient.
