(* ===== verification/RpcClientFacts.v ===== *)
(** Theorems about the RPC client: exact sends and receives under every script
    of system call results, timeouts and request identifiers, the life of the
    descriptor, and the delivery of a server's response. *)
From Stdlib Require Import ZArith Lia.
From Stdlib Require Import Strings.Byte.
From stdpp Require Import base list strings gmap.
From S2P Require Import Prelude StdMap FrameHeader Metadata FrameCodec NetBuffer Chars RpcMessage RpcClient.
Import RpcClient.

#[local] Arguments decodeHeader : simpl never.
#[local] Arguments encodeFrame : simpl never.
#[local] Arguments encodeMetadata : simpl never.

Section facts.
Context (strerror : Z -> bytes).

(** * Any script *)

(** Two environments that differ in scripts only. *)
Definition same_log (e e' : env) : Prop :=
  sent e' = sent e /\ received e' = received e /\ closed e' = closed e /\
  steady_now e' = steady_now e /\ system_now e' = system_now e /\ gai e' = gai e.

Lemma same_log_refl e : same_log e e.
Proof. done. Qed.

Lemma same_log_trans e1 e2 e3 : same_log e1 e2 -> same_log e2 e3 -> same_log e1 e3.
Proof. unfold same_log. intros (-> & -> & -> & -> & -> & ->) ?. tauto. Qed.

Lemma waitForEvent_log events d e st e' :
  waitForEvent strerror events d e = Ret (st, e') ->
  same_log e e' /\ sends e' = sends e /\ recvs e' = recvs e.
Proof.
  unfold waitForEvent. destruct (waitForEvent_loop _ _ _ _) as [[st' l]| |]; [|done..].
  by intros [= <- <-].
Qed.

(** What [writeAll] did to the log when it returned. *)
Definition write_post (data : bytes) (e : env) (st : Status) (e' : env) : Prop :=
  recvs e' = recvs e /\ received e' = received e /\ closed e' = closed e /\
  exists n, sent e' = sent e ++ take n data /\ (n <= length data)%nat /\
    (ok st = true <-> n = length data).

Lemma write_post_stop data e st e' :
  data <> [] -> ok st = false -> same_log e e' -> recvs e' = recvs e -> write_post data e st e'.
Proof.
  intros Hd Hst (H1 & H2 & H3 & _) Hr. unfold write_post. rewrite H1, H2, H3, Hr, Hst.
  repeat split. exists 0%nat. rewrite take_0, app_nil_r. repeat split; [lia|done|].
  destruct data; [done|]. intros H. by apply (f_equal Z.of_nat) in H.
Qed.

Lemma write_post_skip data e e1 st e' :
  same_log e e1 -> recvs e1 = recvs e -> write_post data e1 st e' -> write_post data e st e'.
Proof. unfold write_post. intros (-> & -> & -> & _) ->. tauto. Qed.

Lemma writeAll_loop_post fuel data d e st e' :
  writeAll_loop strerror fuel data d e = Ret (st, e') -> write_post data e st e'.
Proof.
  revert data e. induction fuel as [|f IH]; intros data e.
  - destruct data; [|done]. intros [= <- <-]. repeat split. exists 0%nat. by rewrite app_nil_r.
  - destruct data as [|b data].
    { intros [= <- <-]. repeat split. exists 0%nat. by rewrite app_nil_r. }
    cbn [writeAll_loop]. set (D := b :: data). assert (HD : D <> []) by done.
    destruct (sends e) as [|[n|errno] rest]; [done|..].
    + case_if; [|intros [= <- <-]; by apply write_post_stop].
      case_if; [done|]. intros H. apply IH in H.
      destruct H as (H1 & H2 & H3 & k & H4 & H5 & H6). cbn in *. repeat split; try done.
      rewrite length_drop in H5, H6. unfold lenZ in *.
      exists (Z.to_nat n + k)%nat. rewrite H4, <- app_assoc, take_take_drop.
      split; [done|]. split; [lia|]. rewrite H6. lia.
    + case_if; [intros H; apply IH in H; by eapply write_post_skip|].
      case_if; [|intros [= <- <-]; by apply write_post_stop].
      destruct (waitForEvent _ _ _ _) as [[st1 e1]| |] eqn:Ew; cbn [mbind outcome_bind]; [|done..].
      apply waitForEvent_log in Ew as (Hl & Hs & Hr). destruct (ok st1) eqn:Eok; cbn [negb].
      * intros H. apply IH in H. by eapply write_post_skip.
      * intros [= <- <-]. by apply write_post_stop.
Qed.

(** What [readAll] did to the log when it returned. *)
Definition read_post (len : Z) (data : bytes) (e : env) (st : Status) (data' : bytes) (e' : env) :
    Prop :=
  sent e' = sent e /\ closed e' = closed e /\ sends e' = sends e /\
  exists l, data' = data ++ l /\ received e' = received e ++ l /\ lenZ l <= len /\
    (ok st = true <-> lenZ l = len).

Lemma read_post_stop len data e st e' :
  0 < len -> ok st = false -> same_log e e' -> sends e' = sends e -> read_post len data e st data e'.
Proof.
  intros Hd Hst (H1 & H2 & H3 & _) Hr. unfold read_post. rewrite H1, H2, H3, Hr, Hst.
  repeat split. exists []. rewrite !app_nil_r, lenZ_nil. repeat split; [lia|done|lia].
Qed.

Lemma read_post_skip len data e e1 st data' e' :
  same_log e e1 -> sends e1 = sends e -> read_post len data e1 st data' e' ->
  read_post len data e st data' e'.
Proof. unfold read_post. intros (-> & -> & -> & _) ->. tauto. Qed.

Lemma readAll_loop_post fuel len data d e st data' e' :
  0 <= len -> readAll_loop strerror fuel len data d e = Ret (st, data', e') ->
  read_post len data e st data' e'.
Proof.
  revert len data e. induction fuel as [|f IH]; intros len data e Hlen; cbn [readAll_loop].
  - case_if; [|done]. intros [= <- <- <-]. repeat split. exists []. rewrite !app_nil_r, lenZ_nil.
    split; [done|]. split; [done|]. split; [done|]. split; [intros _; lia|done].
  - case_if.
    { intros [= <- <- <-]. repeat split. exists []. rewrite !app_nil_r, lenZ_nil.
      split; [done|]. split; [done|]. split; [done|]. split; [intros _; lia|done]. }
    destruct (recvs e) as [|[l|errno] rest]; [done|..].
    + destruct l as [|b l]; [intros [= <- <- <-]; by apply read_post_stop|].
      case_if; [done|]. intros H. apply IH in H; [|lia].
      destruct H as (H1 & H2 & H3 & k & H4 & H5 & H6 & H7). cbn in *.
      repeat split; try done. exists ((b :: l) ++ k). rewrite lenZ_app.
      rewrite H4, H5, <- !app_assoc. split; [done|]. split; [done|]. split; [lia|]. rewrite H7. lia.
    + case_if; [intros H; apply IH in H; [|done]; by eapply read_post_skip|].
      case_if; [|intros [= <- <- <-]; by apply read_post_stop].
      destruct (waitForEvent _ _ _ _) as [[st1 e1]| |] eqn:Ew; cbn [mbind outcome_bind]; [|done..].
      apply waitForEvent_log in Ew as (Hl & Hs & Hr). destruct (ok st1) eqn:Eok; cbn [negb].
      * intros H. apply IH in H; [|done]. by eapply read_post_skip.
      * intros [= <- <- <-]. by apply read_post_stop.
Qed.

(** * Scripts of a network that works *)

(** Polls that end with the event being ready before the deadline. *)
Definition poll_ready (events d : Z) (ps : list (Z * (Z -> poll_result))) : Prop :=
  forall rest, waitForEvent_loop strerror (ps ++ rest) events d = Ret (Ok, rest).

(** The kernel takes [l], in any pieces, with interrupted and blocked calls in
    between. *)
Inductive send_script (d : Z) : bytes -> list send_result -> list (Z * (Z -> poll_result)) -> Prop :=
  | send_done : send_script d [] [] []
  | send_part n l rs ps :
      0 < n <= lenZ l -> send_script d (drop (Z.to_nat n) l) rs ps ->
      send_script d l (SendCount n :: rs) ps
  | send_intr l rs ps :
      l <> [] -> send_script d l rs ps -> send_script d l (SendError EINTR :: rs) ps
  | send_again l rs ps1 ps2 :
      l <> [] -> poll_ready POLLOUT d ps1 -> send_script d l rs ps2 ->
      send_script d l (SendError EAGAIN :: rs) (ps1 ++ ps2).

(** The kernel delivers [l], in the same ways. *)
Inductive recv_script (d : Z) : bytes -> list recv_result -> list (Z * (Z -> poll_result)) -> Prop :=
  | recv_done : recv_script d [] [] []
  | recv_part l1 l2 rs ps :
      l1 <> [] -> recv_script d l2 rs ps -> recv_script d (l1 ++ l2) (RecvOctets l1 :: rs) ps
  | recv_intr l rs ps :
      l <> [] -> recv_script d l rs ps -> recv_script d l (RecvError EINTR :: rs) ps
  | recv_again l rs ps1 ps2 :
      l <> [] -> poll_ready POLLIN d ps1 -> recv_script d l rs ps2 ->
      recv_script d l (RecvError EAGAIN :: rs) (ps1 ++ ps2).

Lemma waitForEvent_ready events d ps rest e :
  poll_ready events d ps -> polls e = ps ++ rest ->
  waitForEvent strerror events d e = Ret (Ok, set_polls rest e).
Proof. intros Hp E. unfold waitForEvent. by rewrite E, Hp. Qed.

Lemma writeAll_loop_script d l rs ps srest prest fuel e :
  send_script d l rs ps -> sends e = rs ++ srest -> polls e = ps ++ prest -> (length rs <= fuel)%nat ->
  writeAll_loop strerror fuel l d e =
  Ret (Ok, set_sent (sent e ++ l) (set_sends srest (set_polls prest e))).
Proof.
  intros H. revert fuel e. induction H as [|n l rs ps Hn H IH|l rs ps Hl H IH|l rs ps1 ps2 Hl Hp H IH];
    intros fuel e Es Ep Hf.
  - cbn in Es, Ep. subst. rewrite app_nil_r. destruct fuel; by destruct e.
  - destruct fuel as [|f]; cbn in Hf; [lia|]. destruct l as [|b l]; [unfold lenZ in Hn; cbn in Hn; lia|].
    cbn [writeAll_loop]. rewrite Es; cbn [app]. rewrite (proj2 (Z.ltb_lt _ _)), (proj2 (Z.ltb_ge _ _)) by lia.
    rewrite IH by (done || lia). unfold set_sent, set_sends, set_polls; cbn [sent sends polls recvs received closed steady_now system_now gai].
    by rewrite <- app_assoc, take_drop.
  - destruct fuel as [|f]; cbn in Hf; [lia|]. destruct l as [|b l]; [done|].
    cbn [writeAll_loop]. rewrite Es; cbn [app]. rewrite Z.eqb_refl. by rewrite IH by (done || lia).
  - destruct fuel as [|f]; cbn in Hf; [lia|]. destruct l as [|b l]; [done|].
    cbn [writeAll_loop]. rewrite Es; cbn [app].
    change (EAGAIN =? EINTR) with false. change (EAGAIN =? EAGAIN) with true. cbn [orb].
    rewrite <- app_assoc in Ep. rewrite (waitForEvent_ready POLLOUT d ps1 (ps2 ++ prest) (set_sends (rs ++ srest) e) Hp Ep). cbn [mbind outcome_bind].
    change (ok Ok) with true. cbn [negb]. by rewrite IH by (done || lia).
Qed.

Lemma readAll_loop_script d l rs ps rrest prest fuel data e :
  recv_script d l rs ps -> recvs e = rs ++ rrest -> polls e = ps ++ prest -> (length rs <= fuel)%nat ->
  readAll_loop strerror fuel (lenZ l) data d e =
  Ret (Ok, data ++ l, set_received (received e ++ l) (set_recvs rrest (set_polls prest e))).
Proof.
  intros H. revert fuel data e.
  induction H as [|l1 l2 rs ps Hn H IH|l rs ps Hl H IH|l rs ps1 ps2 Hl Hp H IH];
    intros fuel data e Es Ep Hf.
  - cbn in Es, Ep. subst. rewrite !app_nil_r. destruct fuel; by destruct e.
  - destruct fuel as [|f]; cbn in Hf; [lia|]. destruct l1 as [|b l1]; [done|].
    pose proof (lenZ_nonneg l1). pose proof (lenZ_nonneg l2).
    cbn [readAll_loop]. rewrite Es; cbn [app].
    change (b :: l1 ++ l2) with ((b :: l1) ++ l2). rewrite lenZ_app.
    rewrite (proj2 (Z.leb_gt _ _)) by (rewrite lenZ_cons; lia).
    rewrite (proj2 (Z.ltb_ge _ _)) by lia.
    replace (lenZ (b :: l1) + lenZ l2 - lenZ (b :: l1)) with (lenZ l2) by lia.
    rewrite IH by (done || lia).
    unfold set_received, set_recvs, set_polls; cbn [sent sends polls recvs received closed steady_now system_now gai].
    by rewrite <- !app_assoc.
  - destruct fuel as [|f]; cbn in Hf; [lia|]. destruct l as [|b l]; [done|]. pose proof (lenZ_nonneg l).
    cbn [readAll_loop]. rewrite Es; cbn [app]. rewrite (proj2 (Z.leb_gt _ _)) by (rewrite lenZ_cons; lia).
    rewrite Z.eqb_refl. by rewrite IH by (done || lia).
  - destruct fuel as [|f]; cbn in Hf; [lia|]. destruct l as [|b l]; [done|]. pose proof (lenZ_nonneg l).
    cbn [readAll_loop]. rewrite Es; cbn [app]. rewrite (proj2 (Z.leb_gt _ _)) by (rewrite lenZ_cons; lia).
    change (EAGAIN =? EINTR) with false. change (EAGAIN =? EAGAIN) with true. cbn [orb].
    rewrite <- app_assoc in Ep. rewrite (waitForEvent_ready POLLIN d ps1 (ps2 ++ prest) (set_recvs (rs ++ rrest) e) Hp Ep). cbn [mbind outcome_bind].
    change (ok Ok) with true. cbn [negb]. by rewrite IH by (done || lia).
Qed.

Lemma readAll_script d l rs ps rrest prest e :
  recv_script d l rs ps -> recvs e = rs ++ rrest -> polls e = ps ++ prest ->
  readAll strerror (lenZ l) d e =
  Ret (Ok, l, set_received (received e ++ l) (set_recvs rrest (set_polls prest e))).
Proof.
  intros H Er Ep. unfold readAll. rewrite (readAll_loop_script d l rs ps rrest prest); try done.
  rewrite Er, length_app. lia.
Qed.

Lemma writeAll_script d l rs ps srest prest e :
  send_script d l rs ps -> sends e = rs ++ srest -> polls e = ps ++ prest ->
  writeAll strerror l d e =
  Ret (Ok, set_sent (sent e ++ l) (set_sends srest (set_polls prest e))).
Proof.
  intros H Er Ep. unfold writeAll. rewrite (writeAll_loop_script d l rs ps srest prest); try done.
  rewrite Er, length_app. lia.
Qed.

(** * The response to a request *)

(** What [call] returns for a response the server sent. *)
Definition delivered_result (r : RpcResponse) : Result RpcResponse :=
  if ok (delivered_status r)
  then of_value (mkResponse Ok (response_payload r).1 (response_payload r).2)
  else of_status (delivered_status r).

Lemma response_metadata_nonempty r : lenZ (encodeMetadata (response_payload r).1) <> 0.
Proof.
  intros H. apply FrameParserFacts.encodeMetadata_nil_inv in H.
  pose proof (decode_response_payload r) as Hd. rewrite H in Hd. discriminate (f_equal snd Hd).
Qed.

(** The octets of a response, as the client reads them. *)
Definition response_header_bytes (rid : Z) (r : RpcResponse) : bytes :=
  encodeHeader (message_header (response_message rid r)).
Definition response_payload_bytes (r : RpcResponse) : bytes :=
  encodeMetadata (response_payload r).1 ++ (response_payload r).2.

Lemma makeResponseFrame_split rid r :
  makeResponseFrame rid r = response_header_bytes rid r ++ response_payload_bytes r.
Proof. by rewrite makeResponseFrame_encode, encode_eq. Qed.

(** Decoding the payload of a response the server sent. *)
Lemma finish_response_delivers rid r c e :
  0 <= rid < 2 ^ 64 -> StdMap.map_wf (res_metadata r) ->
  finish_response (message_header (response_message rid r)) (response_payload_bytes r) c e =
  Ret (delivered_result r, c, e).
Proof.
  intros Hrid Hwf. destruct (response_message_encodable rid r Hrid Hwf) as [Hfit Hmwf].
  destruct (message_header_lengths _ Hfit) as (Hml & Hbl & _).
  pose proof (response_metadata_nonempty r) as Hne. pose proof (decode_response_payload r) as Hdec.
  cbn [m_metadata m_body response_message] in Hml, Hbl, Hmwf.
  unfold finish_response. rewrite Hml, Hbl, (proj2 (Z.eqb_neq _ _) Hne). cbn [negb].
  rewrite to_nat_lenZ.
  assert (Hdm : decodeMetadata (response_payload_bytes r)
                  (length (encodeMetadata (response_payload r).1)) [] = Ret (kOk, (response_payload r).1)).
  { apply decodeMetadata_encodeMetadata_app; [done|]. destruct Hfit as (_ & Hm & _).
    unfold kMaxMetadataLength in Hm. cbn [m_metadata response_message] in Hm. lia. }
  rewrite Hdm. cbn [mbind outcome_bind]. rewrite bool_decide_true by done. cbn [negb]. rewrite Hdec.
  unfold delivered_result. destruct (ok (delivered_status r)); cbn [negb]; [|done].
  assert (Hb : (if negb (lenZ (response_payload r).2 =? 0)
                then read_slice (response_payload_bytes r) (length (encodeMetadata (response_payload r).1))
                       (Z.to_nat (lenZ (response_payload r).2))
                else Ret []) = Ret (response_payload r).2).
  { case_if.
    - rewrite to_nat_lenZ. unfold response_payload_bytes.
      pose proof (read_slice_app (encodeMetadata (response_payload r).1) (response_payload r).2 []) as Hs.
      by rewrite app_nil_r in Hs.
    - symmetry. f_equal. by apply FrameParserFacts.lenZ_0_inv. }
  by rewrite Hb.
Qed.

Lemma receive_response_delivers rid r d c e rs1 rs2 rrest ps1 ps2 prest :
  0 <= rid < 2 ^ 64 -> StdMap.map_wf (res_metadata r) ->
  recv_script d (response_header_bytes rid r) rs1 ps1 ->
  recv_script d (response_payload_bytes r) rs2 ps2 ->
  recvs e = rs1 ++ rs2 ++ rrest -> polls e = ps1 ++ ps2 ++ prest ->
  receive_response strerror rid d c e =
  Ret (delivered_result r, c,
       set_received (received e ++ makeResponseFrame rid r)
         (set_recvs rrest (set_polls prest e))).
Proof.
  intros Hrid Hwf H1 H2 Er Ep.
  destruct (response_message_encodable rid r Hrid Hwf) as [Hfit Hmwf].
  destruct (message_header_valid _ Hfit) as [_ Hrange]. pose proof (message_header_ok _ Hfit) as Hok.
  destruct (message_header_lengths _ Hfit) as (Hml & Hbl & Htl).
  unfold receive_response.
  assert (Hh : kFixedHeaderSize = lenZ (response_header_bytes rid r))
    by (unfold response_header_bytes; by rewrite lenZ_encodeHeader).
  rewrite Hh, (readAll_script _ _ _ _ _ _ _ H1 Er Ep). cbn [mbind outcome_bind].
  change (ok Ok) with true. cbn [negb].
  pose proof (decodeHeader_encodeHeader_app (message_header (response_message rid r)) []) as Hd.
  rewrite app_nil_r in Hd. fold (response_header_bytes rid r) in Hd. rewrite Hd by done.
  cbn [mbind outcome_bind].
  rewrite Hok, bool_decide_true by done.
  change (msg_type (message_header (response_message rid r))) with (MessageType_value kResponse).
  change (FrameHeader.request_id (message_header (response_message rid r))) with rid.
  rewrite !Z.eqb_refl. cbn [negb orb].
  cbn [m_metadata m_body response_message] in Hml, Hbl, Htl, Hmwf.
  rewrite <- Hh, Htl.
  replace (kFixedHeaderSize + lenZ (encodeMetadata (response_payload r).1) + lenZ (response_payload r).2 -
           kFixedHeaderSize) with (lenZ (response_payload_bytes r))
    by (unfold response_payload_bytes; rewrite lenZ_app; lia).
  assert (Hpl : lenZ (response_payload_bytes r) <> 0).
  { unfold response_payload_bytes. rewrite lenZ_app. pose proof (response_metadata_nonempty r).
    pose proof (lenZ_nonneg (encodeMetadata (response_payload r).1)).
    pose proof (lenZ_nonneg (response_payload r).2). lia. }
  rewrite (proj2 (Z.eqb_neq _ _) Hpl). cbn [negb].
  set (e1 := set_received _ _).
  rewrite (readAll_script d _ _ _ rrest prest e1 H2 eq_refl eq_refl). cbn [mbind outcome_bind].
  change (ok Ok) with true. cbn [negb].
  rewrite finish_response_delivers by done. subst e1.
  unfold set_received, set_recvs, set_polls; cbn. by rewrite <- app_assoc, <- makeResponseFrame_split.
Qed.

(** A call that reaches the receiving part. *)
Lemma call_receives gai_strerror c svc m body o e c1 e1 ss srest ps prest :
  svc <> [] -> m <> [] -> 0 < deadline o ->
  let d := steady_now e + deadline o * 1000000 in
  ensureConnected strerror gai_strerror c d e = Ret (Ok, c1, e1) ->
  let meta := request_metadata svc m o e1 in
  isFrameEncodable meta body = true ->
  let frame := encodeFrame (next_request_id_ c1) kRequest meta body in
  send_script d frame ss ps -> sends e1 = ss ++ srest -> polls e1 = ps ++ prest ->
  call strerror gai_strerror c svc m body o e =
  receive_response strerror (next_request_id_ c1) d (nextRequestId c1).2
    (set_sent (sent e1 ++ frame) (set_sends srest (set_polls prest e1))).
Proof.
  intros Hs Hm Hd d Hc meta Henc frame Hss Es Ep. unfold call.
  rewrite !bool_decide_false by done. cbn [orb]. rewrite (proj2 (Z.leb_gt _ _)) by done.
  fold d. rewrite Hc. cbn [mbind outcome_bind]. change (ok Ok) with true. cbn [negb].
  fold meta. rewrite Henc. cbn [negb]. unfold nextRequestId.
  fold frame. rewrite (writeAll_script d frame ss ps srest prest e1 Hss Es Ep). cbn [mbind outcome_bind].
  by change (ok Ok) with true.
Qed.

Lemma call_delivers gai_strerror c svc m body o e c1 e1 r ss rs1 rs2 ps0 ps1 ps2 srest rrest prest :
  svc <> [] -> m <> [] -> 0 < deadline o ->
  ensureConnected strerror gai_strerror c (steady_now e + deadline o * 1000000) e = Ret (Ok, c1, e1) ->
  isFrameEncodable (request_metadata svc m o e1) body = true ->
  0 <= next_request_id_ c1 < 2 ^ 64 -> StdMap.map_wf (res_metadata r) ->
  let d := steady_now e + deadline o * 1000000 in
  let frame := encodeFrame (next_request_id_ c1) kRequest (request_metadata svc m o e1) body in
  send_script d frame ss ps0 ->
  recv_script d (response_header_bytes (next_request_id_ c1) r) rs1 ps1 ->
  recv_script d (response_payload_bytes r) rs2 ps2 ->
  sends e1 = ss ++ srest -> recvs e1 = rs1 ++ rs2 ++ rrest -> polls e1 = ps0 ++ ps1 ++ ps2 ++ prest ->
  exists c' e', call strerror gai_strerror c svc m body o e = Ret (delivered_result r, c', e') /\
    fd_ c' = fd_ c1 /\ sent e' = sent e1 ++ frame /\
    received e' = received e1 ++ makeResponseFrame (next_request_id_ c1) r /\ closed e' = closed e1.
Proof.
  intros Hs Hm Hd Hc Henc Hrid Hwf d frame Hss Hr1 Hr2 Es Er Ep.
  rewrite (call_receives gai_strerror c svc m body o e c1 e1 ss srest ps0 (ps1 ++ ps2 ++ prest));
    [|done..].
  erewrite receive_response_delivers; [|done|done|exact Hr1|exact Hr2|exact Er|reflexivity].
  eexists _, _. split; [reflexivity|]. done.
Qed.

(** * The descriptor *)

Definition open_fds (c : Client) : list Z := if 0 <=? fd_ c then [fd_ c] else [].

(** The descriptors of the addresses tried. *)
Definition tried_fds (l : list attempt) : list Z := filter (fun fd => 0 <= fd) (map socket_fd l).

#[local] Arguments tried_fds : simpl never.

Lemma tried_fds_cons a l :
  tried_fds (a :: l) = if 0 <=? socket_fd a then socket_fd a :: tried_fds l else tried_fds l.
Proof.
  unfold tried_fds. rewrite map_cons, filter_cons. case_decide; case_if; done || lia.
Qed.

Lemma connect_loop_fds l st d c e st' c' e' :
  ok st = false -> fd_ c < 0 -> connect_loop strerror l st d c e = Ret (st', c', e') ->
  exists tried, tried `prefix_of` l /\ closed e' ++ open_fds c' = closed e ++ tried_fds tried /\
    ok st' = (0 <=? fd_ c') /\ sent e' = sent e /\ received e' = received e /\
    system_now e' = system_now e /\ next_request_id_ c' = next_request_id_ c.
Proof.
  revert st e. induction l as [|a l IH]; intros st e Hst Hfd; cbn [connect_loop].
  - intros [= <- <- <-]. exists []. unfold open_fds. rewrite (proj2 (Z.leb_gt _ _) Hfd), Hst.
    split; [by apply prefix_nil|]. change (tried_fds []) with (@nil Z). by rewrite app_nil_r.
  - case_if.
    { intros H. destruct (IH _ _ Hst Hfd H) as (tr & Hp & Hc & Hr). exists (a :: tr).
      split; [by apply prefix_cons|]. split; [|done]. rewrite Hc, tried_fds_cons.
      by rewrite (proj2 (Z.leb_gt _ _)). }
    assert (Hone : tried_fds [a] = [socket_fd a]).
    { rewrite tried_fds_cons. by rewrite (proj2 (Z.leb_le _ _)). }
    destruct (connect_errno a) as [errno|].
    2:{ intros [= <- <- <-]. exists [a]. split; [by apply prefix_cons, prefix_nil|].
        rewrite Hone. unfold open_fds, set_fd; cbn. by rewrite (proj2 (Z.leb_le _ _)). }
    set (m := (if errno =? EINPROGRESS then _ else _)).
    assert (Hm : match m with
                 | Ret (s1, b, e1) => ok s1 = b /\ same_log e e1
                 | _ => True
                 end).
    { subst m. case_if; [|done]. destruct (waitForEvent _ _ _ _) as [[s1 e1]| |] eqn:Ew; [|done..].
      apply waitForEvent_log in Ew as (Hl & _). cbn [mbind outcome_bind].
      destruct (ok s1) eqn:Eo; [|done]. by destruct (so_error a) as [[| |]|]. }
    clearbody m. destruct m as [[[s1 b] e1]| |]; cbn [mbind outcome_bind]; [|done..].
    destruct Hm as (Hb & (Hl1 & Hl2 & Hl3 & _ & Hl5 & _)). destruct b.
    + intros [= <- <- <-]. exists [a]. split; [by apply prefix_cons, prefix_nil|].
      rewrite Hone, Hl1, Hl2, Hl3, Hl5. unfold open_fds, set_fd; cbn. by rewrite (proj2 (Z.leb_le _ _)).
    + case_bool_decide.
      * intros [= <- <- <-]. exists [a]. split; [by apply prefix_cons, prefix_nil|].
        cbn. rewrite Hone, Hl1, Hl2, Hl3, Hl5, Hb. unfold open_fds. rewrite (proj2 (Z.leb_gt _ _) Hfd).
        by rewrite app_nil_r.
      * intros Hrec. destruct (IH _ _ Hb Hfd Hrec) as (tr & Hp & Hc & Ho & Hs & Hre & Hsy & Hn).
        exists (a :: tr). split; [by apply prefix_cons|]. cbn in *.
        rewrite Hc, Hs, Hre, Hsy, Hn, Hl1, Hl2, Hl3, Hl5. split; [|done].
        rewrite <- app_assoc. f_equal. rewrite tried_fds_cons. by rewrite (proj2 (Z.leb_le _ _)).
Qed.

(** The status and descriptor [ensureConnected] leaves. *)
Lemma ensureConnected_post gai_strerror c d e st c' e' :
  ensureConnected strerror gai_strerror c d e = Ret (st, c', e') ->
  ok st = (0 <=? fd_ c') /\ sent e' = sent e /\ received e' = received e /\
  system_now e' = system_now e /\ next_request_id_ c' = next_request_id_ c.
Proof.
  unfold ensureConnected. case_if.
  - intros [= <- <- <-]. by rewrite (proj2 (Z.leb_le _ _)).
  - destruct (_ || _); [intros [= <- <- <-]; by rewrite (proj2 (Z.leb_gt _ _)) by lia|].
    destruct (gai e); [intros [= <- <- <-]; by rewrite (proj2 (Z.leb_gt _ _)) by lia|].
    intros H. eapply connect_loop_fds in H as (_ & _ & _ & H); [done|done|lia].
Qed.

Lemma fail_closed st c e r c' e' : fail st c e = Ret (r, c', e') -> fd_ c' < 0.
Proof.
  unfold fail, closeUnlocked. case_if; intros [= <- <- <-]; cbn; lia.
Qed.

(** The octets of one whole response to request [rid]. *)
Definition whole_response (rid : Z) (l : bytes) : Prop :=
  exists h payload, l = encodeHeader h ++ payload /\ header_valid h /\
    msg_type h = MessageType_value kResponse /\ FrameHeader.request_id h = rid /\
    lenZ l = total_length h.

(** A client whose connection survives the end of a call did nothing more on
    it. *)
Lemma finish_response_quiet h payload c e r c' e' :
  finish_response h payload c e = Ret (r, c', e') -> 0 <= fd_ c' -> c' = c /\ e' = e.
Proof.
  unfold finish_response.
  assert (Hfail : forall st e0, fail st c e0 = Ret (r, c', e') -> 0 <= fd_ c' -> c' = c /\ e' = e).
  { intros st e0 Hf Hc. apply fail_closed in Hf; lia. }
  destruct (if negb (meta_length h =? 0) then _ else _) as [[mr meta]| |];
    cbn [mbind outcome_bind]; [|done..].
  destruct (negb _); [apply Hfail|].
  destruct (decodeResponseStatus meta) as [s3 [rs|]]; [|apply Hfail].
  destruct (ok rs); cbn [negb]; [|by intros [= <- <- <-]].
  destruct (if negb (body_length h =? 0) then _ else _) as [body| |]; cbn [mbind outcome_bind]; [|done..].
  by intros [= <- <- <-].
Qed.

(** A response that left the connection open: its octets were taken, no more,
    and the result is what their payload decodes to. *)
Lemma receive_response_reads rid d c e r c' e' :
  receive_response strerror rid d c e = Ret (r, c', e') -> 0 <= fd_ c' ->
  c' = c /\ sent e' = sent e /\ exists h payload,
    received e' = received e ++ encodeHeader h ++ payload /\ header_valid h /\ header_in_range h /\
    msg_type h = MessageType_value kResponse /\ FrameHeader.request_id h = rid /\
    lenZ (encodeHeader h ++ payload) = total_length h /\
    finish_response h payload c e' = Ret (r, c, e').
Proof.
  unfold receive_response.
  destruct (readAll _ _ _ _) as [[[s1 hb] e1]| |] eqn:E1; cbn [mbind outcome_bind]; [|done..].
  apply readAll_loop_post in E1; [|by vm_compute].
  destruct E1 as (Hs1 & _ & _ & l1 & Hl1 & Hr1 & _ & Hok1). cbn in Hl1. subst l1.
  assert (Hfail : forall st e0, fail st c e0 = Ret (r, c', e') -> 0 <= fd_ c' -> False).
  { intros st e0 Hf Hc. apply fail_closed in Hf; lia. }
  destruct (ok s1); cbn [negb]; [|intros; exfalso; by eapply Hfail].
  assert (Hlen : lenZ hb = kFixedHeaderSize) by (by apply Hok1). clear Hok1.
  destruct (decodeHeader_total hb) as (h & Ed & Hr & Ee);
    [unfold lenZ, kFixedHeaderSize in *; lia|].
  rewrite Ed. cbn [mbind outcome_bind].
  destruct (_ || _) eqn:Echk; [intros; exfalso; by eapply Hfail|]. breflect.
  case_bool_decide as Hok; [|done].
  assert (Hb : hb = encodeHeader h).
  { rewrite Ee. rewrite take_ge; [done|]. unfold lenZ, kFixedHeaderSize in *; lia. }
  destruct (FrameParserFacts.valid_lengths h Hr Hok) as (Hv & Hm0 & Hb0 & _ & Htl).
  set (pm := (if negb (total_length h - kFixedHeaderSize =? 0) then _ else _)).
  assert (Hpm : match pm with
                | Ret (s2, payload, e2) => ok s2 = true ->
                    sent e2 = sent e1 /\ received e2 = received e1 ++ payload /\
                    lenZ payload = total_length h - kFixedHeaderSize
                | _ => True
                end).
  { subst pm. case_if.
    - destruct (readAll _ _ _ _) as [[[s2 pl] e2]| |] eqn:E2; [|done..].
      apply readAll_loop_post in E2; [|lia].
      destruct E2 as (Hs2 & _ & _ & l2 & Hl2 & Hr2 & _ & Hok2). cbn in Hl2. subst l2.
      intros Ho. by rewrite <- Hok2.
    - intros _. rewrite app_nil_r, lenZ_nil. by rewrite E. }
  clearbody pm. destruct pm as [[[s2 payload] e2]| |]; cbn [mbind outcome_bind]; [|done..].
  destruct (ok s2); cbn [negb]; [|intros; exfalso; by eapply Hfail].
  destruct (Hpm eq_refl) as (Hs2 & Hr2 & Hpl). clear Hpm.
  intros Hf Hc'. destruct (finish_response_quiet _ _ _ _ _ _ _ Hf Hc') as [-> ->].
  split; [done|]. split; [by rewrite Hs2|]. exists h, payload.
  rewrite lenZ_app, <- Hb, Hlen, Hpl, Hr2, Hr1, app_assoc. split; [done|]. split; [done|]. split; [done|]. repeat split; [done..|lia|done].
Qed.

Lemma receive_response_sync rid d c e r c' e' :
  receive_response strerror rid d c e = Ret (r, c', e') -> 0 <= fd_ c' ->
  sent e' = sent e /\ exists l, received e' = received e ++ l /\ whole_response rid l.
Proof.
  intros H Hc'. destruct (receive_response_reads _ _ _ _ _ _ _ H Hc')
    as (_ & Hs & h & payload & Hr & Hv & _ & Ht & Hi & Hl & _).
  split; [done|]. eexists. split; [exact Hr|]. by exists h, payload.
Qed.

(** A call that leaves the connection open exchanged nothing on it, or its
    request and one whole response, of which the result was decoded. *)
Lemma call_exchange gai_strerror c svc m body o e r c' e' :
  call strerror gai_strerror c svc m body o e = Ret (r, c', e') -> 0 <= fd_ c' ->
  (sent e' = sent e /\ received e' = received e) \/
  (sent e' = sent e ++ encodeFrame (next_request_id_ c) kRequest (request_metadata svc m o e) body /\
   exists h payload,
    received e' = received e ++ encodeHeader h ++ payload /\ header_valid h /\ header_in_range h /\
    msg_type h = MessageType_value kResponse /\ FrameHeader.request_id h = next_request_id_ c /\
    lenZ (encodeHeader h ++ payload) = total_length h /\
    finish_response h payload c' e' = Ret (r, c', e')).
Proof.
  unfold call. destruct (_ || _); [intros [= <- <- <-]; by left|].
  case_if; [intros [= <- <- <-]; by left|].
  destruct (ensureConnected _ _ _ _ _) as [[[st c1] e1]| |] eqn:Ec; cbn [mbind outcome_bind]; [|done..].
  destruct (ensureConnected_post _ _ _ _ _ _ _ Ec) as (Hok & Hs & Hr & Hsys & Hn).
  destruct (ok st); cbn [negb]; [|intros Hf Hc'; apply fail_closed in Hf; lia].
  assert (Hmeta : request_metadata svc m o e1 = request_metadata svc m o e)
    by (unfold request_metadata; by rewrite Hsys).
  rewrite Hmeta. destruct (isFrameEncodable _ body); cbn [negb];
    [|intros [= <- <- <-] _; left; by rewrite Hs, Hr].
  unfold nextRequestId. rewrite Hn. set (c2 := mkClient _ _ _ _). clearbody c2.
  destruct (writeAll _ _ _ _) as [[st2 e2]| |] eqn:Ew; cbn [mbind outcome_bind]; [|done..].
  apply writeAll_loop_post in Ew as (_ & Hr2 & _ & n & Hs2 & _ & Hn2).
  destruct (ok st2); cbn [negb]; [|intros Hf Hc'; apply fail_closed in Hf; lia].
  intros Hrec Hc'. right.
  destruct (receive_response_reads _ _ _ _ _ _ _ Hrec Hc') as (-> & Hs3 & h & pl & Hr3 & H).
  rewrite Hs3, Hs2, Hs, (proj1 Hn2 eq_refl), firstn_all. split; [done|].
  exists h, pl. by rewrite Hr3, Hr2, Hr.
Qed.

(** When those octets are a frame of the server, the result is its response. *)
Lemma exchange_result rid h payload resp c e r :
  0 <= rid < 2 ^ 64 -> StdMap.map_wf (res_metadata resp) -> header_in_range h ->
  encodeHeader h ++ payload = makeResponseFrame rid resp ->
  finish_response h payload c e = Ret (r, c, e) -> r = delivered_result resp.
Proof.
  intros Hrid Hwf Hh E Hf.
  destruct (response_message_encodable rid resp Hrid Hwf) as [Hfit _].
  destruct (message_header_valid _ Hfit) as [_ Hrange].
  rewrite makeResponseFrame_split in E. unfold response_header_bytes in E.
  apply app_inj_1 in E as [Eh ->]; [|by rewrite !length_encodeHeader].
  apply encodeHeader_inj in Eh as ->; [|done..].
  rewrite finish_response_delivers in Hf by done. by injection Hf as <-.
Qed.

End facts.

(** * Request identifiers *)

Fixpoint request_ids (n : nat) (c : Client) : list Z :=
  match n with
  | O => []
  | S n => let '(rid, c) := nextRequestId c in rid :: request_ids n c
  end.

Lemma nextRequestId_spec c :
  1 <= next_request_id_ c < 2 ^ 64 ->
  next_request_id_ (nextRequestId c).2 = next_request_id_ c mod (2 ^ 64 - 1) + 1.
Proof.
  intros H. unfold nextRequestId; cbn [snd next_request_id_].
  destruct (Z.eq_dec (next_request_id_ c) (2 ^ 64 - 1)) as [->|Hne]; [by vm_compute|].
  rewrite Buffer.u64_small by lia. rewrite (proj2 (Z.eqb_neq _ _)) by lia.
  rewrite Z.mod_small; lia.
Qed.

(** The identifiers run through [1 .. 2 ^ 64 - 1] cyclically. *)
Lemma request_ids_eq n c :
  1 <= next_request_id_ c < 2 ^ 64 ->
  request_ids n c =
  map (fun k => (next_request_id_ c - 1 + Z.of_nat k) mod (2 ^ 64 - 1) + 1) (seq 0 n).
Proof.
  revert c. induction n as [|n IH]; intros c H; [done|].
  cbn [request_ids seq map]. pose proof (nextRequestId_spec c H) as Hn.
  assert (E : nextRequestId c = (next_request_id_ c, (nextRequestId c).2)) by done.
  rewrite E. f_equal.
  - rewrite Z.add_0_r, Z.mod_small by lia. lia.
  - rewrite IH.
    + rewrite <- seq_shift, map_map. apply map_ext. intros k. rewrite Hn. f_equal.
      replace (next_request_id_ c mod (2 ^ 64 - 1) + 1 - 1 + Z.of_nat k)
        with (next_request_id_ c mod (2 ^ 64 - 1) + Z.of_nat k) by lia.
      rewrite Z.add_mod_idemp_l by lia. f_equal. lia.
    + rewrite Hn. pose proof (Z.mod_pos_bound (next_request_id_ c) (2 ^ 64 - 1)). lia.
Qed.

Lemma makeInitialRequestId_range hi lo :
  0 <= hi < 2 ^ 32 -> 0 <= lo < 2 ^ 32 -> 1 <= makeInitialRequestId hi lo < 2 ^ 64.
Proof.
  intros Hh Hl. unfold makeInitialRequestId. rewrite Z.shiftl_mul_pow2 by lia.
  rewrite Buffer.u64_small by lia.
  rewrite (lor_add_disjoint 32) by (lia || (rewrite Z.mod_mul; lia)). case_if; lia.
Qed.

(** * Properties *)

(** The identifiers of a client's calls, from the random start on, are
    never zero, fit 64 bits, and do not repeat before all [2 ^ 64 - 1] of them
    have been used. *)
Theorem request_ids_distinct host port hi lo n :
  0 <= hi < 2 ^ 32 -> 0 <= lo < 2 ^ 32 -> Z.of_nat n <= 2 ^ 64 - 1 ->
  let ids := request_ids n (construct host port hi lo) in
  length ids = n /\ NoDup ids /\ Forall (fun rid => 1 <= rid < 2 ^ 64) ids.
Proof.
  intros Hh Hl Hn ids. pose proof (makeInitialRequestId_range hi lo Hh Hl) as Hr.
  subst ids. rewrite request_ids_eq by done. set (x := next_request_id_ _ - 1).
  assert (Hb : forall k, 0 <= (x + Z.of_nat k) mod (2 ^ 64 - 1) < 2 ^ 64 - 1)
    by (intros k; apply Z.mod_pos_bound; lia).
  split; [by rewrite length_map, length_seq|]. split.
  - apply NoDup_fmap_2_strong; [|apply NoDup_seq]. intros i j Hi Hj E.
    apply elem_of_seq in Hi, Hj. apply Z.add_cancel_r in E.
    pose proof (Z.div_mod (x + Z.of_nat i) (2 ^ 64 - 1) ltac:(lia)) as Ei.
    pose proof (Z.div_mod (x + Z.of_nat j) (2 ^ 64 - 1) ltac:(lia)) as Ej.
    rewrite E in Ei.
    set (qi := (x + Z.of_nat i) / _) in *. set (qj := (x + Z.of_nat j) / _) in *.
    assert (Z.of_nat i - Z.of_nat j = (2 ^ 64 - 1) * (qi - qj)) by lia.
    assert (qi = qj) by nia. nia.
  - apply Forall_forall. intros rid Hrid. apply list_elem_of_fmap in Hrid as (k & -> & _).
    specialize (Hb k). lia.
Qed.

Lemma request_ids_distinct_witness :
  let ids := request_ids 3 (construct (str "localhost") 8080 (2 ^ 32 - 1) (2 ^ 32 - 2)) in
  ids = [2 ^ 64 - 2; 2 ^ 64 - 1; 1] /\
  length ids = 3%nat /\ NoDup ids /\ Forall (fun rid => 1 <= rid < 2 ^ 64) ids.
Proof.
  intros ids. split; [by vm_compute|].
  apply (request_ids_distinct (str "localhost") 8080 (2 ^ 32 - 1) (2 ^ 32 - 2) 3); lia.
Defined.

(** The timeout given to [poll] is never negative (it never blocks for
    good), fits an [int], is zero exactly when the deadline has passed, and
    otherwise ends less than a millisecond before the deadline and at most a
    millisecond after it, unless it is cut to the largest [int]. *)
Theorem poll_timeout_bounds d now :
  let t := remainingTimeoutMilliseconds d now in
  0 <= t <= int_max /\ (t = 0 <-> d <= now) /\
  (now < d -> t < int_max -> d - 1000000 < now + t * 1000000 <= d + 1000000).
Proof.
  intros t. subst t. unfold remainingTimeoutMilliseconds, int_max. case_if; [lia|].
  pose proof (Z.quot_rem' (d - now) 1000000) as Hq.
  pose proof (Z.rem_bound_pos (d - now) 1000000 ltac:(lia) ltac:(lia)) as Hr.
  case_if; [lia|]. case_if; lia.
Qed.

Section properties.
Context (strerror gai_strerror : Z -> bytes).

(** Whatever the kernel answers, [writeAll] hands over a prefix of the
    data, in order and without repeating an octet, and reports success exactly
    when all of it was handed over. *)
Theorem writeAll_exact data d e st e' :
  writeAll strerror data d e = Ret (st, e') ->
  exists n, sent e' = sent e ++ take n data /\ (n <= length data)%nat /\
    (ok st = true <-> n = length data).
Proof. intros H. by apply writeAll_loop_post in H as (_ & _ & _ & H). Qed.

(** Whatever the kernel answers, [readAll] stores exactly the octets it
    took from the connection, never more than asked for, and reports success
    exactly when it has all of them: octets of a later frame are never
    consumed. *)
Theorem readAll_exact len d e st data e' :
  0 <= len -> readAll strerror len d e = Ret (st, data, e') ->
  received e' = received e ++ data /\ lenZ data <= len /\ (ok st = true <-> lenZ data = len).
Proof.
  intros Hl H.
  destruct (readAll_loop_post strerror _ _ _ _ _ _ _ _ Hl H) as (_ & _ & _ & l & Hd & Hr).
  cbn in Hd. by subst l.
Qed.

(** Connecting leaks no descriptor: those of the addresses tried are
    closed, except the one the client keeps, and the client keeps one exactly
    when the status is ok. *)
Theorem connect_leaks_nothing c d e l st c' e' :
  fd_ c = -1 -> gai e = GaiAddresses l ->
  ensureConnected strerror gai_strerror c d e = Ret (st, c', e') ->
  ok st = (0 <=? fd_ c') /\
  exists tried, tried `prefix_of` l /\ closed e' ++ open_fds c' = closed e ++ tried_fds tried.
Proof.
  intros Hfd Hg. unfold ensureConnected. rewrite Hfd, Hg; cbn [Z.leb Z.compare].
  destruct (_ || _).
  - intros [= <- <- <-]. unfold open_fds. rewrite Hfd. split; [done|]. exists [].
    split; [by apply prefix_nil|]. done.
  - intros H. apply connect_loop_fds in H as (tr & H1 & H2 & H3 & _); [|reflexivity|lia].
    split; [done|]. by exists tr.
Qed.

(** C24: a connection that survives a call is in step: either nothing was sent
    and nothing received, or exactly the request was sent and exactly one
    whole response with the request's identifier was received.  After any
    other outcome the connection is closed, so a late response cannot be taken
    for the answer to a later call. *)
Theorem call_keeps_connection_in_step c svc m body o e r c' e' :
  -1 <= fd_ c -> call strerror gai_strerror c svc m body o e = Ret (r, c', e') -> 0 <= fd_ c' ->
  (sent e' = sent e /\ received e' = received e) \/
  (sent e' = sent e ++ encodeFrame (next_request_id_ c) kRequest (request_metadata svc m o e) body /\
   exists l, received e' = received e ++ l /\ whole_response (next_request_id_ c) l).
Proof.
  intros _ H Hc'. destruct (call_exchange _ _ _ _ _ _ _ _ _ _ _ H Hc')
    as [?|(Hs & h & pl & Hr & Hv & _ & Ht & Hi & Hl & _)]; [by left|].
  right. split; [done|]. eexists. split; [exact Hr|]. by exists h, pl.
Qed.

(** On a network that works (octets move in any pieces, with interrupted
    and blocked calls in between) a call returns, and returns what the server
    sent: the response with its metadata and body when its status is ok, and
    its status otherwise; the connection stays open. *)
Theorem call_delivers_response c svc m body o e c1 e1 r ss rs1 rs2 ps0 ps1 ps2 srest rrest prest :
  svc <> [] -> m <> [] -> 0 < deadline o ->
  ensureConnected strerror gai_strerror c (steady_now e + deadline o * 1000000) e = Ret (Ok, c1, e1) ->
  isFrameEncodable (request_metadata svc m o e1) body = true ->
  0 <= next_request_id_ c1 < 2 ^ 64 -> StdMap.map_wf (res_metadata r) ->
  let d := steady_now e + deadline o * 1000000 in
  let frame := encodeFrame (next_request_id_ c1) kRequest (request_metadata svc m o e1) body in
  send_script strerror d frame ss ps0 ->
  recv_script strerror d (response_header_bytes (next_request_id_ c1) r) rs1 ps1 ->
  recv_script strerror d (response_payload_bytes r) rs2 ps2 ->
  sends e1 = ss ++ srest -> recvs e1 = rs1 ++ rs2 ++ rrest -> polls e1 = ps0 ++ ps1 ++ ps2 ++ prest ->
  exists c' e', call strerror gai_strerror c svc m body o e = Ret (delivered_result r, c', e') /\
    fd_ c' = fd_ c1 /\ sent e' = sent e1 ++ frame /\
    received e' = received e1 ++ makeResponseFrame (next_request_id_ c1) r /\ closed e' = closed e1.
Proof. apply call_delivers. Qed.

End properties.

(** * Witnesses *)

Definition no_text (errno : Z) : bytes := [].

Definition example_options : RpcCallOptions := mkOptions 5000 [(str "trace", str "1")].

Definition example_result : RpcResponse := mkResponse Ok [(str "k", str "v")] (str "sunny").

Definition writable_poll : Z * (Z -> poll_result) := (0, fun _ => PollReady POLLOUT).
Definition readable_poll : Z * (Z -> poll_result) := (0, fun _ => PollReady POLLIN).

(** A client that is not connected, two addresses, and a server that answers. *)
Definition example_client : Client := construct (str "localhost") 8080 0 41.

Definition example_connected : Client := set_fd 3 example_client.

Definition example_env0 (ss : list send_result) (rs : list recv_result)
    (ps : list (Z * (Z -> poll_result))) (closed : list Z) : env :=
  mkEnv 0 1000000000000
    (GaiAddresses [mkAttempt (-1) None None; mkAttempt 2 (Some 111) None;
                   mkAttempt 3 (Some EINPROGRESS) (Some 0)])
    ss rs ps [] [] closed.

Definition example_frame : bytes :=
  encodeFrame 41 kRequest
    (request_metadata (str "Weather") (str "Get") example_options (example_env0 [] [] [] []))
    (str "Paris").

Definition example_sends : list send_result :=
  [SendError EAGAIN; SendCount 10; SendError EINTR; SendCount (lenZ example_frame - 10)].

Definition example_recvs1 : list recv_result :=
  [RecvError EAGAIN; RecvOctets (take 5 (response_header_bytes 41 example_result));
   RecvOctets (drop 5 (response_header_bytes 41 example_result))].

Definition example_recvs2 : list recv_result := [RecvOctets (response_payload_bytes example_result)].

Definition example_env : env :=
  example_env0 example_sends (example_recvs1 ++ example_recvs2)
    [writable_poll; writable_poll; readable_poll] [].

Definition connected_env : env :=
  example_env0 example_sends (example_recvs1 ++ example_recvs2) [writable_poll; readable_poll] [2].

Lemma example_connects :
  ensureConnected no_text no_text example_client (steady_now example_env + deadline example_options * 1000000)
    example_env = Ret (Ok, example_connected, connected_env).
Proof. reflexivity. Qed.

Lemma recv_part' d l n rs ps :
  (0 < n < length l)%nat -> recv_script no_text d (drop n l) rs ps ->
  recv_script no_text d l (RecvOctets (take n l) :: rs) ps.
Proof.
  intros Hn H. rewrite <- (take_drop n l) at 1. constructor; [|done].
  intros E. apply (f_equal length) in E. rewrite length_take in E. cbn in E. lia.
Qed.

Lemma recv_whole d l : l <> [] -> recv_script no_text d l [RecvOctets l] [].
Proof. intros H. rewrite <- (app_nil_r l) at 1. constructor; [done|constructor]. Qed.

Lemma example_send_script :
  send_script no_text (steady_now example_env + deadline example_options * 1000000) example_frame
    example_sends [writable_poll].
Proof.
  apply (send_again no_text _ _ _ [writable_poll] []); [vm_compute; congruence|intros rest; reflexivity|].
  constructor; [split; vm_compute; congruence|]. constructor; [vm_compute; congruence|].
  constructor; [split; vm_compute; congruence|]. vm_compute. constructor.
Qed.

Lemma example_recv_script1 :
  recv_script no_text (steady_now example_env + deadline example_options * 1000000)
    (response_header_bytes 41 example_result) example_recvs1 [readable_poll].
Proof.
  apply (recv_again no_text _ _ _ [readable_poll] []); [vm_compute; congruence|intros rest; reflexivity|].
  apply recv_part'; [vm_compute; lia|]. apply recv_whole. vm_compute. congruence.
Qed.

Lemma example_recv_script2 :
  recv_script no_text (steady_now example_env + deadline example_options * 1000000)
    (response_payload_bytes example_result) example_recvs2 [].
Proof. apply recv_whole. vm_compute. congruence. Qed.

Lemma call_delivers_response_witness :
  exists c' e', call no_text no_text example_client (str "Weather") (str "Get") (str "Paris")
      example_options example_env = Ret (delivered_result example_result, c', e') /\
    fd_ c' = fd_ example_connected /\ sent e' = sent connected_env ++ example_frame /\
    received e' = received connected_env ++ makeResponseFrame 41 example_result /\
    closed e' = closed connected_env.
Proof.
  apply (call_delivers_response no_text no_text example_client (str "Weather") (str "Get") (str "Paris")
    example_options example_env example_connected connected_env example_result
    example_sends example_recvs1 example_recvs2 [writable_poll] [readable_poll] [] [] [] []).
  - done.
  - done.
  - done.
  - exact example_connects.
  - vm_compute; reflexivity.
  - split; vm_compute; congruence.
  - apply (bool_decide_unpack _); vm_compute; reflexivity.
  - exact example_send_script.
  - exact example_recv_script1.
  - exact example_recv_script2.
  - reflexivity.
  - reflexivity.
  - reflexivity.
Defined.

Lemma writeAll_exact_witness :
  let e := example_env0 [SendCount 2; SendError 32] [] [] [] in
  exists e', writeAll no_text (str "hello") 0 e = Ret (mkStatus kUnavailable [], e') /\
  exists n, sent e' = sent e ++ take n (str "hello") /\ (n <= length (str "hello"))%nat /\
    (ok (mkStatus kUnavailable []) = true <-> n = length (str "hello")).
Proof.
  intros e. eexists. split; [reflexivity|].
  apply (writeAll_exact no_text (str "hello") 0 e). reflexivity.
Defined.

Lemma readAll_exact_witness :
  let e := example_env0 [] [RecvOctets (str "he"); RecvError EINTR; RecvOctets (str "llo"); RecvOctets (str "!")] [] [] in
  exists e', readAll no_text 5 0 e = Ret (Ok, str "hello", e') /\
  received e' = received e ++ str "hello" /\ lenZ (str "hello") <= 5 /\
  (ok Ok = true <-> lenZ (str "hello") = 5).
Proof.
  intros e. eexists. split; [reflexivity|].
  apply (readAll_exact no_text 5 0 e Ok (str "hello")); [lia|reflexivity].
Defined.

Lemma connect_leaks_nothing_witness :
  ok Ok = (0 <=? fd_ example_connected) /\
  exists tried, tried `prefix_of` [mkAttempt (-1) None None; mkAttempt 2 (Some 111) None;
                                   mkAttempt 3 (Some EINPROGRESS) (Some 0)] /\
    closed connected_env ++ open_fds example_connected = closed example_env ++ tried_fds tried.
Proof.
  apply (connect_leaks_nothing no_text no_text example_client 5000000000 example_env); reflexivity.
Defined.

Lemma call_keeps_connection_in_step_witness :
  exists r c' e', call no_text no_text example_client (str "Weather") (str "Get") (str "Paris")
      example_options example_env = Ret (r, c', e') /\
  ((sent e' = sent example_env /\ received e' = received example_env) \/
   (sent e' = sent example_env ++ encodeFrame (next_request_id_ example_client) kRequest
        (request_metadata (str "Weather") (str "Get") example_options example_env) (str "Paris") /\
    exists l, received e' = received example_env ++ l /\ whole_response (next_request_id_ example_client) l)).
Proof.
  eexists _, _, _. split; [vm_compute; reflexivity|].
  eapply (call_keeps_connection_in_step no_text no_text example_client (str "Weather") (str "Get")
    (str "Paris") example_options example_env); [cbn; lia|vm_compute; reflexivity|cbn; lia].
Defined.
