(* ===== verification/RpcClientAsync.v ===== *)
(** The client's asynchronous calls: [callFuture] and [callAsync] of
    src/rpc/rpc_client.cpp, which run [Impl::call] on threads of their own, and
    the mutex that serializes the calls and [close]. *)
From Stdlib Require Import ZArith Lia.
From Stdlib Require Import Strings.Byte.
From stdpp Require Import base list strings gmap.
From S2P Require Import Prelude StdMap FrameHeader Metadata FrameCodec Chars RpcMessage RpcClient RpcClientFacts.
#[local] Set Warnings "-clear-no-such-hyp".

Module RpcClientAsync.
Import RpcClient.

(** How a call was made: [call], [callFuture], or [callAsync] with a callback or
    with an empty one. *)
Inductive kind := Call | CallFuture | CallAsync (has_callback : bool).

Record request := mkRequest {
  service : bytes;
  method : bytes;
  body : bytes;
  options : RpcCallOptions;
}.

(** Where the thread of a call is. *)
Inductive progress :=
  | Started                                   (** it has not taken the mutex yet *)
  | Returned (result : Result RpcResponse)    (** [Impl::call] has released the mutex *)
  | Finished (result : Result RpcResponse).   (** the result was handed over *)

Record task := mkTask {
  how : kind;
  asked : request;
  at_ : progress;
}.

(** The client with its mutex free, the threads, the octets on the current
    connection in both directions, the descriptors closed so far, and the results
    handed to callers, futures and callbacks, in order. *)
Record world := mkWorld {
  client : Client;
  tasks : list task;
  wire_sent : bytes;
  wire_received : bytes;
  closed_fds : list Z;
  answers : list (nat * Result RpcResponse);
}.

Definition init (host : bytes) (port hi lo : Z) : world :=
  mkWorld (construct host port hi lo) [] [] [] [] [].

(** [script] has the answers of the kernel; a new connection has carried
    nothing. *)
Definition call_env (script : env) (w : world) : env :=
  let connected := 0 <=? fd_ (client w) in
  mkEnv (steady_now script) (system_now script) (gai script) (sends script) (recvs script)
    (polls script) (if connected then wire_sent w else [])
    (if connected then wire_received w else []) (closed_fds w).

(** The thread is started; [service], [method], [body] and [options] are its own
    copies. *)
Definition start (how : kind) (q : request) (w : world) : world :=
  mkWorld (client w) (tasks w ++ [mkTask how q Started]) (wire_sent w) (wire_received w)
    (closed_fds w) (answers w).

Section tasks.
Context (strerror gai_strerror : Z -> bytes).

(** [impl->call(...)]: the mutex is held from the start of the call to its end.
    None when it is not possible, or when the call does not return. *)
Definition run_call (i : nat) (script : env) (w : world) : option world :=
  match tasks w !! i with
  | Some (mkTask how q Started) =>
      match call strerror gai_strerror (client w) (service q) (method q) (body q) (options q)
              (call_env script w) with
      | Ret (result, c, e) =>
          Some (mkWorld c (<[i := mkTask how q (Returned result)]> (tasks w)) (sent e) (received e)
                  (closed e) (answers w))
      | _ => None
      end
  | _ => None
  end.

Definition has_receiver (how : kind) : bool :=
  match how with CallAsync has_callback => has_callback | _ => true end.

(** The end of the thread: the caller or the future gets the result, the
    callback is called when there is one; what it throws is caught. *)
Definition finish (i : nat) (w : world) : option world :=
  match tasks w !! i with
  | Some (mkTask how q (Returned result)) =>
      Some (mkWorld (client w) (<[i := mkTask how q (Finished result)]> (tasks w)) (wire_sent w)
              (wire_received w) (closed_fds w)
              (if has_receiver how then answers w ++ [(i, result)] else answers w))
  | _ => None
  end.

(** [RpcClient::close], from any thread. *)
Definition close (w : world) : world :=
  let '(c, e) := closeUnlocked (client w)
    (mkEnv 0 0 (GaiAddresses []) [] [] [] (wire_sent w) (wire_received w) (closed_fds w)) in
  mkWorld c (tasks w) (sent e) (received e) (closed e) (answers w).

Inductive event :=
  | Start (how : kind) (q : request)
  | RunCall (i : nat) (script : env)
  | Finish (i : nat)
  | Close.

Definition step (w : world) (e : event) : option world :=
  match e with
  | Start how q => Some (start how q w)
  | RunCall i script => run_call i script w
  | Finish i => finish i w
  | Close => Some (close w)
  end.

(** Any interleaving of the threads. *)
Fixpoint run (w : world) (es : list event) : option world :=
  match es with
  | [] => Some w
  | e :: es => match step w e with Some w => run w es | None => None end
  end.

(** * Exchanges *)

(** A request and its response on the connection, with the call that made it. *)
Record exchange := mkExchange {
  x_task : nat;
  x_id : Z;
  x_frame : bytes;
  x_reply : bytes;
}.

Definition result_of (t : task) : option (Result RpcResponse) :=
  match at_ t with Started => None | Returned r | Finished r => Some r end.

(** The request is that of the task, the response has its identifier, and when
    the response is a frame of the server, the task's result is what it says. *)
Definition exchange_of (ts : list task) (x : exchange) : Prop :=
  exists t r, ts !! x_task x = Some t /\ result_of t = Some r /\
    (exists e, x_frame x = encodeFrame (x_id x) kRequest
       (request_metadata (service (asked t)) (method (asked t)) (options (asked t)) e) (body (asked t))) /\
    whole_response (x_id x) (x_reply x) /\
    forall resp, StdMap.map_wf (res_metadata resp) ->
      x_reply x = makeResponseFrame (x_id x) resp -> r = delivered_result resp.

(** The connection carried the exchanges [xs], one after the other. *)
Definition carried (w : world) (xs : list exchange) : Prop :=
  wire_sent w = concat (map x_frame xs) /\ wire_received w = concat (map x_reply xs) /\
  NoDup (map x_task xs) /\ Forall (exchange_of (tasks w)) xs.

(** Call [i] is over with result [r], and somebody waited for it. *)
Definition finished_with (ts : list task) (i : nat) (r : Result RpcResponse) : Prop :=
  exists t, ts !! i = Some t /\ at_ t = Finished r /\ has_receiver (how t) = true.

(** The results handed over are those of the finished calls, each once. *)
Definition answers_ok (w : world) : Prop :=
  NoDup (map fst (answers w)) /\ forall i r, (i, r) ∈ answers w <-> finished_with (tasks w) i r.

Definition invariant (w : world) : Prop :=
  answers_ok w /\ (0 <= fd_ (client w) -> exists xs, carried w xs).

(** ** Preservation *)

(** Tasks keep their request and, once they have one, their result. *)
Definition tasks_grow (ts ts' : list task) : Prop :=
  forall i t r, ts !! i = Some t -> result_of t = Some r ->
    exists t', ts' !! i = Some t' /\ asked t' = asked t /\ result_of t' = Some r.

Lemma exchange_grow ts ts' x : tasks_grow ts ts' -> exchange_of ts x -> exchange_of ts' x.
Proof.
  intros Hg (t & r & Ht & Hr & Hf & Hw & Hd). destruct (Hg _ _ _ Ht Hr) as (t' & Ht' & Ha & Hr').
  exists t', r. by rewrite Ha.
Qed.

Lemma carried_grow w w' xs :
  wire_sent w' = wire_sent w -> wire_received w' = wire_received w ->
  tasks_grow (tasks w) (tasks w') -> carried w xs -> carried w' xs.
Proof.
  intros Hs Hr Hg (H1 & H2 & H3 & H4). unfold carried. rewrite Hs, Hr. repeat split; try done.
  eapply Forall_impl; [exact H4|]. intros x. by apply exchange_grow.
Qed.

Lemma tasks_grow_app ts ts2 : tasks_grow ts (ts ++ ts2).
Proof. intros i t r Ht Hr. exists t. split; [by apply lookup_app_l_Some|done]. Qed.

(** A task moves on: it has no result yet, or keeps it. *)
Lemma tasks_grow_insert ts i t t' :
  ts !! i = Some t -> asked t' = asked t ->
  (result_of t = None \/ result_of t' = result_of t) -> tasks_grow ts (<[i := t']> ts).
Proof.
  intros Hi Ha Hr j u r Hu Hres. destruct (decide (i = j)) as [<-|Hne].
  - rewrite Hi in Hu. injection Hu as <-. exists t'. rewrite list_lookup_insert_eq by (by eapply lookup_lt_Some).
    destruct Hr as [Hr|Hr]; [congruence|]. by rewrite Hr.
  - exists u. by rewrite list_lookup_insert_ne.
Qed.

Lemma finished_insert ts i t t' j r :
  ts !! i = Some t -> at_ t <> Finished r ->
  finished_with (<[i := t']> ts) j r <->
  (i = j /\ at_ t' = Finished r /\ has_receiver (how t') = true) \/ finished_with ts j r.
Proof.
  intros Hi Ht. unfold finished_with. destruct (decide (i = j)) as [<-|Hne].
  - rewrite list_lookup_insert_eq by (by eapply lookup_lt_Some). split.
    + intros (u & [= <-] & ? & ?). by left.
    + intros [(_ & ? & ?)|(u & Hu & ? & _)]; [by exists t'|]. congruence.
  - rewrite list_lookup_insert_ne by done. split; [by right|]. by intros [[? _]|?].
Qed.

Lemma finished_app ts t j r :
  at_ t = Started -> finished_with (ts ++ [t]) j r <-> finished_with ts j r.
Proof.
  intros Ht. unfold finished_with. split; intros (u & Hu & Ha & Hh).
  - apply lookup_app_Some in Hu as [Hu|[_ Hu]]; [by exists u|].
    apply list_lookup_singleton_Some in Hu as [_ <-]. congruence.
  - exists u. split; [by apply lookup_app_l_Some|done].
Qed.

Lemma answers_ok_same w w' :
  answers w' = answers w ->
  (forall i r, finished_with (tasks w') i r <-> finished_with (tasks w) i r) ->
  answers_ok w -> answers_ok w'.
Proof. intros Ha Hf [H1 H2]. unfold answers_ok. rewrite Ha. split; [done|]. intros i r. by rewrite Hf. Qed.

Lemma start_invariant how q w : invariant w -> invariant (start how q w).
Proof.
  intros [Ha Hc]. split.
  - apply (answers_ok_same w); [done| |done]. intros i r. by apply finished_app.
  - intros Hfd. destruct (Hc Hfd) as [xs Hxs]. exists xs.
    apply (carried_grow w); [done|done|apply tasks_grow_app|done].
Qed.

(** What the connection carried, as a call finds it. *)
Lemma call_env_carried script w :
  (0 <= fd_ (client w) -> exists xs, carried w xs) ->
  exists xs, sent (call_env script w) = concat (map x_frame xs) /\
    received (call_env script w) = concat (map x_reply xs) /\
    NoDup (map x_task xs) /\ Forall (exchange_of (tasks w)) xs.
Proof.
  unfold call_env. case_if; cbn; intros H; [|exists []; by repeat constructor].
  apply H. lia.
Qed.

Lemma exchange_new ts i q how r c c' e e' h payload :
  ts !! i = Some (mkTask how q (Returned r)) ->
  header_valid h -> header_in_range h -> msg_type h = MessageType_value kResponse ->
  FrameHeader.request_id h = next_request_id_ c ->
  lenZ (encodeHeader h ++ payload) = total_length h -> finish_response h payload c' e' = Ret (r, c', e') ->
  exchange_of ts (mkExchange i (next_request_id_ c)
    (encodeFrame (next_request_id_ c) kRequest (request_metadata (service q) (method q) (options q) e) (body q))
    (encodeHeader h ++ payload)).
Proof.
  intros Hi Hv Hr Ht Hid Hl Hf. exists (mkTask how q (Returned r)), r.
  split; [done|]. split; [done|]. split; [by exists e|]. split; [by exists h, payload|].
  cbn. intros resp Hwf E. eapply exchange_result; [|done|exact Hr|exact E|exact Hf].
  rewrite <- Hid. apply Hr.
Qed.

Lemma run_call_invariant i script w w' :
  run_call i script w = Some w' -> invariant w -> invariant w'.
Proof.
  unfold run_call. destruct (tasks w !! i) as [[how q [| |]]|] eqn:Hi; [|done..].
  destruct (call _ _ _ _ _ _ _ _) as [[[r c] e]| |] eqn:Ec; [|done..]. intros [= <-] [Ha Hc].
  split.
  { apply (answers_ok_same w); [done| |done]. intros j r'. cbn. rewrite (finished_insert _ _ _ _ _ _ Hi) by done.
    cbn. naive_solver. }
  cbn. intros Hfd. destruct (call_env_carried script w Hc) as (xs & Hs & Hr & Hnd & Hall).
  set (ts := <[i := _]> (tasks w)).
  assert (Hg : tasks_grow (tasks w) ts) by (eapply tasks_grow_insert; [done|done|by left]).
  assert (Hall' : Forall (exchange_of ts) xs)
    by (eapply Forall_impl; [exact Hall|intros x; by apply exchange_grow]).
  destruct (call_exchange _ _ _ _ _ _ _ _ _ _ _ Ec Hfd)
    as [[Es Er]|(Es & h & payload & Er & Hv & Hh & Ht & Hid & Hl & Hf)].
  { exists xs. unfold carried; cbn. by rewrite Es, Er. }
  set (x := mkExchange i (next_request_id_ (client w))
    (encodeFrame (next_request_id_ (client w)) kRequest
       (request_metadata (service q) (method q) (options q) (call_env script w)) (body q))
    (encodeHeader h ++ payload)).
  exists (xs ++ [x]). unfold carried; cbn. rewrite Es, Er, Hs, Hr, !map_app, !concat_app; cbn.
  rewrite !app_nil_r. split; [done|]. split; [done|]. split.
  - apply NoDup_app. split; [done|]. split; [|apply NoDup_singleton].
    intros j Hj Hj'. apply list_elem_of_singleton in Hj' as ->.
    apply list_elem_of_fmap in Hj as (y & Hy & Hin). rewrite Forall_forall in Hall.
    destruct (Hall y Hin) as (t & r' & Hlk & Hres & _). rewrite <- Hy, Hi in Hlk. by injection Hlk as <-.
  - apply Forall_app. split; [done|]. constructor; [|constructor].
    eapply exchange_new; try done. unfold ts. rewrite list_lookup_insert_eq; [done|by eapply lookup_lt_Some].
Qed.

Lemma finish_invariant i w w' : finish i w = Some w' -> invariant w -> invariant w'.
Proof.
  unfold finish. destruct (tasks w !! i) as [[how q [|r|]]|] eqn:Hi; [done| |done|done].
  intros [= <-] [[Hnd Ha] Hc]. split.
  - assert (Hnew : forall r', (i, r') ∉ answers w).
    { intros r' Hin. apply Ha in Hin as (t & Ht & He & _). rewrite Hi in Ht. by injection Ht as <-. }
    unfold answers_ok; cbn. split.
    + destruct (has_receiver how); [|done]. rewrite map_app. apply NoDup_app. split; [done|].
      split; [|apply NoDup_singleton]. intros j Hj Hj'. apply list_elem_of_singleton in Hj' as ->.
      apply list_elem_of_fmap in Hj as ([j r'] & Hj & Hin). cbn in Hj. subst. by eapply Hnew.
    + intros j r'. rewrite (finished_insert _ _ _ _ _ _ Hi) by done. cbn. rewrite <- Ha.
      destruct (has_receiver how); [rewrite elem_of_app, list_elem_of_singleton|]; naive_solver.
  - cbn. intros Hfd. destruct (Hc Hfd) as [xs Hxs]. exists xs.
    apply (carried_grow w); [done|done| |done]. eapply tasks_grow_insert; [done|done|by right].
Qed.

Lemma close_invariant w : invariant w -> invariant (close w).
Proof.
  intros [Ha Hc]. unfold close, closeUnlocked. case_if; (split; [done|]); cbn; [lia|].
  intros. by apply Hc.
Qed.

Lemma run_invariant es w w' : run w es = Some w' -> invariant w -> invariant w'.
Proof.
  revert w. induction es as [|e es IH]; intros w; cbn; [by intros [= <-]|].
  destruct (step w e) as [w1|] eqn:E; [|done]. intros H Hi. eapply IH; [exact H|].
  destruct e; cbn in E.
  - injection E as <-. by apply start_invariant.
  - by eapply run_call_invariant.
  - by eapply finish_invariant.
  - injection E as <-. by apply close_invariant.
Qed.

Lemma init_invariant host port hi lo : invariant (init host port hi lo).
Proof.
  split; [|cbn; lia]. split; [constructor|]. intros i r; cbn. split; [intros []%not_elem_of_nil|].
  by intros (t & Ht & _).
Qed.

(** C25: however [call], [callFuture], [callAsync] and [close] of any threads
    interleave, an open connection carried whole exchanges only, one after the
    other: the request of one call and the whole response with its identifier,
    no call twice; each of these calls returned, and returned the response the
    server sent for its own request whenever those octets are a frame of the
    server.  Every future is set and every callback called at most once, with
    the result of its own call, and exactly when the call is over. *)
Theorem concurrent_calls_keep_exchanges host port hi lo es w :
  run (init host port hi lo) es = Some w ->
  answers_ok w /\ (0 <= fd_ (client w) -> exists xs, carried w xs).
Proof. intros H. eapply run_invariant; [exact H|apply init_invariant]. Qed.

End tasks.

(** * Witness *)

(** A future and a callback; the first call connects and is answered, the second
    is refused. *)
Definition example_events : list event :=
  [Start CallFuture (mkRequest (str "Weather") (str "Get") (str "Paris") example_options);
   Start (CallAsync true) (mkRequest (str "Weather") [] (str "Rome") example_options);
   RunCall 0 example_env; RunCall 1 connected_env; Finish 1; Finish 0].

Lemma concurrent_calls_keep_exchanges_witness :
  exists w, run no_text no_text (init (str "localhost") 8080 0 41) example_events = Some w /\
    map fst (answers w) = [1; 0]%nat /\ fd_ (client w) = 3 /\ wire_sent w = example_frame /\
    wire_received w = makeResponseFrame 41 example_result /\
    answers_ok w /\ (0 <= fd_ (client w) -> exists xs, carried w xs).
Proof.
  eexists. split; [vm_compute; reflexivity|].
  split; [reflexivity|]. split; [reflexivity|].
  split; [vm_compute; reflexivity|]. split; [vm_compute; reflexivity|].
  apply (concurrent_calls_keep_exchanges no_text no_text (str "localhost") 8080 0 41 example_events).
  vm_compute. reflexivity.
Defined.

End RpcClientAsync.
