(* ===== verification/RpcEndToEnd.v ===== *)
(** The RPC layer end to end: what [RpcClient::call] puts on the wire is a
    request the server accepts, and what the server's worker answers is what
    [call] returns. *)
From Stdlib Require Import ZArith Lia.
From Stdlib Require Import Strings.Byte.
From stdpp Require Import base list strings gmap.
From S2P Require Import Prelude StdMap FrameHeader Metadata FrameCodec NetBuffer Chars RpcMessage RpcServer RpcServerFacts TcpConnection TcpConnectionFacts RpcTcp RpcTcpFacts RpcTcpLive RpcTcpServes RpcClient RpcClientFacts.

#[local] Arguments encodeFrame : simpl never.
#[local] Arguments encodeMetadata : simpl never.

(** The absolute deadline a call announces, in milliseconds. *)
Definition deadline_unix_ms (o : RpcClient.RpcCallOptions) (e : RpcClient.env) : Z :=
  Z.quot (RpcClient.system_now e + RpcClient.deadline o * 1000000) 1000000.

(** The request the server's handler is to see. *)
Definition call_request (rid : Z) svc m body o e : RpcRequest :=
  mkRequest svc m (RpcClient.request_metadata svc m o e) body rid.

Definition call_message (rid : Z) svc m body o e : Message :=
  mkMessage rid kRequest (RpcClient.request_metadata svc m o e) body.

Lemma keys_distinct :
  kServiceMetadataKey <> kMethodMetadataKey /\ kServiceMetadataKey <> kDeadlineMetadataKey /\
  kMethodMetadataKey <> kDeadlineMetadataKey.
Proof. by vm_compute. Qed.

Lemma request_metadata_lookup svc m o e :
  let meta := RpcClient.request_metadata svc m o e in
  StdMap.lookup kServiceMetadataKey meta = Some svc /\
  StdMap.lookup kMethodMetadataKey meta = Some m /\
  StdMap.lookup kDeadlineMetadataKey meta = Some (Chars.to_string (deadline_unix_ms o e)).
Proof.
  destruct keys_distinct as (H1 & H2 & H3). unfold RpcClient.request_metadata; cbv zeta. split_and!.
  - by rewrite StdMap.lookup_insert_ne, StdMap.lookup_insert_ne, StdMap.lookup_insert_eq.
  - by rewrite StdMap.lookup_insert_ne, StdMap.lookup_insert_eq.
  - by rewrite StdMap.lookup_insert_eq.
Qed.

Lemma request_metadata_wf svc m o e :
  StdMap.map_wf (RpcClient.metadata o) -> StdMap.map_wf (RpcClient.request_metadata svc m o e).
Proof. intros H. unfold RpcClient.request_metadata. by repeat apply StdMap.insert_wf. Qed.

Lemma call_message_is rid svc m body o e :
  svc <> [] -> m <> [] ->
  message_is (call_message rid svc m body o e) (call_request rid svc m body o e).
Proof.
  intros Hs Hm. split; [done|]. unfold RpcServer.frame_request; cbn [message_frame FrameParser.f_metadata
    FrameParser.f_body FrameParser.f_header call_message m_metadata m_body].
  destruct (request_metadata_lookup svc m o e) as (-> & -> & _).
  by rewrite !bool_decide_false by done.
Qed.

Lemma call_message_encodable rid svc m body o e :
  StdMap.map_wf (RpcClient.metadata o) ->
  isFrameEncodable (RpcClient.request_metadata svc m o e) body = true -> 0 <= rid < 2 ^ 64 ->
  encodable (call_message rid svc m body o e).
Proof. intros. split; [by apply isFrameEncodable_spec|by apply request_metadata_wf]. Qed.

Lemma call_stream rid svc m body o e :
  FrameParserFacts.stream [call_message rid svc m body o e] =
  encodeFrame rid kRequest (RpcClient.request_metadata svc m o e) body.
Proof.
  rewrite FrameParserFacts.stream_cons. change (FrameParserFacts.stream []) with (@nil byte). by rewrite app_nil_r.
Qed.

(** What a worker answers a call whose deadline has not passed. *)
Lemma worker_answers_call {Handler} (handlers : gmap bytes Handler) invoke now h resp rid svc m body o e :
  let request := call_request rid svc m body o e in
  handlers !! RpcServer.makeHandlerKey svc m = Some h -> invoke h request = RpcServer.Returns resp ->
  0 <= now -> now < deadline_unix_ms o e < 2 ^ 64 ->
  RpcServer.worker_response handlers now invoke request = resp.
Proof.
  intros request Hh Hinv Hnow Hdl. unfold RpcServer.worker_response.
  change (service request) with svc. change (method request) with m.
  destruct (request_metadata_lookup svc m o e) as (_ & _ & Hdk).
  rewrite (validateRequestDeadline_to_string now (deadline_unix_ms o e) request ltac:(lia) ltac:(lia) Hdk).
  rewrite (proj2 (Z.leb_gt _ _)) by lia. change (ok Ok) with true. cbn [negb]. by rewrite Hh, Hinv.
Qed.

(** * Exchanges *)

(** The network carries a call's request and the response to it: the client is
    connected, and its system calls, however interrupted, take the request's
    octets and give those of the response. *)
Record exchange (strerror gai_strerror : Z -> bytes) (c : RpcClient.Client) (svc m body : bytes)
    (o : RpcClient.RpcCallOptions) (e : RpcClient.env) (c1 : RpcClient.Client) (e1 : RpcClient.env)
    (resp : RpcResponse) : Prop := mkExchange {
  ex_connected : RpcClient.ensureConnected strerror gai_strerror c
    (RpcClient.steady_now e + RpcClient.deadline o * 1000000) e = Ret (Ok, c1, e1);
  ex_encodable : isFrameEncodable (RpcClient.request_metadata svc m o e1) body = true;
  ex_id : 0 <= RpcClient.next_request_id_ c1 < 2 ^ 64;
  ex_scripts : exists ss rs1 rs2 ps0 ps1 ps2 srest rrest prest,
    let d := RpcClient.steady_now e + RpcClient.deadline o * 1000000 in
    let rid := RpcClient.next_request_id_ c1 in
    send_script strerror d (encodeFrame rid kRequest (RpcClient.request_metadata svc m o e1) body) ss ps0 /\
    recv_script strerror d (response_header_bytes rid resp) rs1 ps1 /\
    recv_script strerror d (response_payload_bytes resp) rs2 ps2 /\
    RpcClient.sends e1 = ss ++ srest /\ RpcClient.recvs e1 = rs1 ++ rs2 ++ rrest /\
    RpcClient.polls e1 = ps0 ++ ps1 ++ ps2 ++ prest;
}.

Lemma exchange_delivers strerror gai_strerror c svc m body o e c1 e1 resp :
  svc <> [] -> m <> [] -> 0 < RpcClient.deadline o -> StdMap.map_wf (res_metadata resp) ->
  exchange strerror gai_strerror c svc m body o e c1 e1 resp ->
  let rid := RpcClient.next_request_id_ c1 in
  exists c' e', RpcClient.call strerror gai_strerror c svc m body o e = Ret (delivered_result resp, c', e') /\
    RpcClient.sent e' = RpcClient.sent e1 ++ encodeFrame rid kRequest (RpcClient.request_metadata svc m o e1) body /\
    RpcClient.received e' = RpcClient.received e1 ++ makeResponseFrame rid resp.
Proof.
  intros Hs Hm Hd Hwf [Hc Henc Hrid (ss & rs1 & rs2 & ps0 & ps1 & ps2 & srest & rrest & prest & H0 & H1 & H2 & Es & Er & Ep)].
  destruct (call_delivers strerror gai_strerror c svc m body o e c1 e1 resp ss rs1 rs2 ps0 ps1 ps2
    srest rrest prest Hs Hm Hd Hc Henc Hrid Hwf H0 H1 H2 Es Er Ep) as (c' & e' & Hcall & _ & Hsent & Hrecv & _).
  by exists c', e'.
Qed.

(** A remote call.  On a new connection, however the network cuts the
    request, the server reads exactly the call's service, method, metadata and
    body and its workers send exactly one frame; when the deadline has not
    passed and the handler returns, that frame makes [call] return the
    handler's response (its status, or its metadata and body), over any
    interrupted or blocked system calls. *)
Theorem remote_call_returns_response
    {Handler} strerror gai_strerror n (s : RpcServer.Server (Handler := Handler)) conn id cs bufs now
    (invoke : Handler -> RpcRequest -> RpcServer.HandlerResult) h resp
    c svc m body o e c1 e1 ss rs1 rs2 ps0 ps1 ps2 srest rrest prest :
  let rid := RpcClient.next_request_id_ c1 in
  let request := call_request rid svc m body o e1 in
  let frame := encodeFrame rid kRequest (req_metadata request) body in
  let d := RpcClient.steady_now e + RpcClient.deadline o * 1000000 in
  (* the server *)
  RpcServer.reachable n s -> RpcServer.io_loop s = true -> RpcServer.stopping_ s = false ->
  RpcServer.connections_ s !! conn = Some id -> RpcServer.states s !! id = Some cs ->
  RpcServer.parser cs = FrameParser.init ->
  RpcServer.work_queue_ s = [] -> RpcServer.in_flight s = [] ->
  RpcServer.handlers_ s !! RpcServer.makeHandlerKey svc m = Some h ->
  0 <= now -> now < deadline_unix_ms o e1 < 2 ^ 64 ->
  invoke h request = RpcServer.Returns resp -> StdMap.map_wf (res_metadata resp) ->
  (* the client *)
  svc <> [] -> m <> [] -> 0 < RpcClient.deadline o -> StdMap.map_wf (RpcClient.metadata o) ->
  RpcClient.ensureConnected strerror gai_strerror c d e = Ret (Ok, c1, e1) ->
  isFrameEncodable (req_metadata request) body = true -> 0 <= rid < 2 ^ 64 ->
  (* the network *)
  concat (map Buffer.readable bufs) = frame ->
  send_script strerror d frame ss ps0 ->
  recv_script strerror d (response_header_bytes rid resp) rs1 ps1 ->
  recv_script strerror d (response_payload_bytes resp) rs2 ps2 ->
  RpcClient.sends e1 = ss ++ srest -> RpcClient.recvs e1 = rs1 ++ rs2 ++ rrest ->
  RpcClient.polls e1 = ps0 ++ ps1 ++ ps2 ++ prest ->
  (exists s1 s2 es, onMessages s conn bufs = Ret (s1, []) /\ Forall (worker_event now invoke) es /\
     run s1 es = Some (s2, [RpcServer.Send conn (makeResponseFrame rid resp)])) /\
  (exists c' e', RpcClient.call strerror gai_strerror c svc m body o e = Ret (delivered_result resp, c', e') /\
     RpcClient.sent e' = RpcClient.sent e1 ++ frame /\
     RpcClient.received e' = RpcClient.received e1 ++ makeResponseFrame rid resp).
Proof.
  intros rid request frame d Hr Hio Hst Hconn Hid Hp Hq Hf Hh Hnow Hdl Hinv Hrwf
    Hs Hm Hd Howf Hcon Henc Hrid Hnet Hss H1 H2 Es Er Ep.
  apply reachable_inv in Hr. split.
  - set (ms := [call_message rid svc m body o e1]).
    assert (Hms : Forall encodable ms) by (constructor; [by apply call_message_encodable|constructor]).
    assert (Hrs : Forall2 message_is ms [request]) by (constructor; [by apply call_message_is|constructor]).
    destruct (serve_stream s conn id cs bufs ms [request] now invoke) as (s1 & s2 & es & Hon & Hes & Hrun & _);
      try done; [by rewrite Hnet; unfold ms; rewrite call_stream|].
    exists s1, s2, es. split; [done|]. split; [done|]. rewrite Hrun. cbn [map].
    change (request_id request) with rid. do 5 f_equal. by eapply worker_answers_call.
  - destruct (exchange_delivers strerror gai_strerror c svc m body o e c1 e1 resp Hs Hm Hd Hrwf)
      as (c' & e' & Hcall & Hsent & Hrecv);
      [constructor; [done..|by exists ss, rs1, rs2, ps0, ps1, ps2, srest, rrest, prest]|].
    by exists c', e'.
Qed.

(** The client and the environment of the client's witnesses against the
    server of the server's. *)
Lemma remote_call_returns_response_witness :
  (exists s1 s2 es,
     onMessages started 5 [buffer_of (take 60 example_frame); buffer_of (drop 60 example_frame)] = Ret (s1, []) /\
     Forall (worker_event 17 (fun _ _ => RpcServer.Returns example_result)) es /\
     run s1 es = Some (s2, [RpcServer.Send 5 (makeResponseFrame 41 example_result)])) /\
  (exists c' e', RpcClient.call no_text no_text example_client (str "Weather") (str "Get") (str "Paris")
       example_options example_env = Ret (delivered_result example_result, c', e') /\
     RpcClient.sent e' = RpcClient.sent connected_env ++ example_frame /\
     RpcClient.received e' = RpcClient.received connected_env ++ makeResponseFrame 41 example_result).
Proof.
  apply (remote_call_returns_response no_text no_text 1 started 5 0 (RpcServer.mkState FrameParser.init 0)
    [buffer_of (take 60 example_frame); buffer_of (drop 60 example_frame)] 17
    (fun _ _ => RpcServer.Returns example_result) tt example_result
    example_client (str "Weather") (str "Get") (str "Paris") example_options example_env
    example_connected connected_env
    example_sends example_recvs1 example_recvs2 [writable_poll] [readable_poll] [] [] [] []).
  - exact started_reachable.
  - vm_compute; reflexivity.
  - vm_compute; reflexivity.
  - vm_compute; reflexivity.
  - vm_compute; reflexivity.
  - reflexivity.
  - vm_compute; reflexivity.
  - vm_compute; reflexivity.
  - vm_compute; reflexivity.
  - lia.
  - split; vm_compute; reflexivity.
  - reflexivity.
  - apply (bool_decide_unpack _); vm_compute; reflexivity.
  - done.
  - done.
  - done.
  - apply (bool_decide_unpack _); vm_compute; reflexivity.
  - exact example_connects.
  - vm_compute; reflexivity.
  - split; vm_compute; congruence.
  - vm_compute; reflexivity.
  - exact example_send_script.
  - exact example_recv_script1.
  - exact example_recv_script2.
  - reflexivity.
  - reflexivity.
  - reflexivity.
Defined.

(** * Over TCP *)

(** C2: a remote call over TCP, from octets to octets.  On a connection that
    is up and idle, and however the network cuts the request into pieces, the
    I/O thread, a worker and the functors of the loop together write exactly
    the response frame of what the handler returns to the socket; when those
    octets arrive, [call] returns the handler's response. *)
Theorem remote_call_over_tcp
    {Handler} strerror gai_strerror n es0 (s : RpcTcp.t (Handler := Handler)) acts conn cn chunks now
    (invoke : Handler -> RpcRequest -> RpcServer.HandlerResult) h resp
    c svc m body o e c1 e1 ss rs1 rs2 ps0 ps1 ps2 srest rrest prest :
  let rid := RpcClient.next_request_id_ c1 in
  let request := call_request rid svc m body o e1 in
  let frame := encodeFrame rid kRequest (req_metadata request) body in
  let d := RpcClient.steady_now e + RpcClient.deadline o * 1000000 in
  (* the server *)
  Forall event_ok es0 -> RpcTcp.run (RpcTcp.init n) es0 = Some (s, acts) -> fresh s conn cn (lenZ frame) ->
  RpcServer.handlers_ (RpcTcp.rpc s) !! RpcServer.makeHandlerKey svc m = Some h ->
  0 <= now -> now < deadline_unix_ms o e1 < 2 ^ 64 ->
  invoke h request = RpcServer.Returns resp -> StdMap.map_wf (res_metadata resp) ->
  (* the client *)
  svc <> [] -> m <> [] -> 0 < RpcClient.deadline o -> StdMap.map_wf (RpcClient.metadata o) ->
  RpcClient.ensureConnected strerror gai_strerror c d e = Ret (Ok, c1, e1) ->
  isFrameEncodable (req_metadata request) body = true -> 0 <= rid < 2 ^ 64 ->
  (* the network *)
  Forall chunk_ok chunks -> concat chunks = frame ->
  send_script strerror d frame ss ps0 ->
  recv_script strerror d (response_header_bytes rid resp) rs1 ps1 ->
  recv_script strerror d (response_payload_bytes resp) rs2 ps2 ->
  RpcClient.sends e1 = ss ++ srest -> RpcClient.recvs e1 = rs1 ++ rs2 ++ rrest ->
  RpcClient.polls e1 = ps0 ++ ps1 ++ ps2 ++ prest ->
  (exists es s' acts' cn', Forall (serving now invoke conn) es /\
     RpcTcp.run s (RpcTcp.Readable conn chunks (TcpConnection.ReadFails TcpConnection.EAGAIN) :: es) = Some (s', acts') /\
     RpcTcp.conns s' !! conn = Some cn' /\
     TcpConnection.wire cn' = TcpConnection.wire cn ++ makeResponseFrame rid resp) /\
  (exists c' e', RpcClient.call strerror gai_strerror c svc m body o e = Ret (delivered_result resp, c', e') /\
     RpcClient.sent e' = RpcClient.sent e1 ++ concat chunks /\
     RpcClient.received e' = RpcClient.received e1 ++ makeResponseFrame rid resp).
Proof.
  intros rid request frame d Hes0 Hrun0 Hfresh Hh Hnow Hdl Hinv Hrwf
    Hs Hm Hd Howf Hcon Henc Hrid Hch Hnet Hss H1 H2 Es Er Ep. split.
  - destruct (run_good es0 (RpcTcp.init n) s [] acts (init_tcp_inv n) Hes0 Hrun0) as [Hi _].
    pose proof (run_known es0 (RpcTcp.init n) s [] acts (init_tcp_inv n) (init_known n) Hes0 Hrun0) as Hk.
    destruct (tcp_serves_stream s _ conn cn chunks [call_message rid svc m body o e1] [request] now invoke Hi Hk)
      as (es & s' & acts' & cn' & Hes & Hrun & Hcn' & Hw); [by rewrite Hnet| | |done|done|by rewrite Hnet, call_stream|].
    + constructor; [by apply call_message_encodable|constructor].
    + constructor; [by apply call_message_is|constructor].
    + exists es, s', acts', cn'. split; [done|]. split; [done|]. split; [done|]. rewrite Hw. f_equal.
      unfold responses_wire. cbn [map concat]. rewrite app_nil_r. change (request_id request) with rid. f_equal.
      by eapply worker_answers_call.
  - destruct (exchange_delivers strerror gai_strerror c svc m body o e c1 e1 resp Hs Hm Hd Hrwf)
      as (c' & e' & Hcall & Hsent & Hrecv);
      [constructor; [done..|by exists ss, rs1, rs2, ps0, ps1, ps2, srest, rrest, prest]|].
    exists c', e'. by rewrite Hnet.
Qed.

(** One connection is up. *)
Definition connected_events : list (RpcTcp.event (Handler := unit)) :=
  listening_events ++ [RpcTcp.Connect 5 7 TcpConnectionFacts.example_buffer open_kernel None].

Lemma connected_events_ok : Forall event_ok connected_events.
Proof. by repeat constructor; try exact example_buffer_wf. Qed.

Lemma connected_run :
  RpcTcp.run (RpcTcp.init 1) connected_events = Some (tcp_state_after connected_events, tcp_acts_after connected_events).
Proof. vm_compute. reflexivity. Qed.

Lemma connected_fresh : fresh (tcp_state_after connected_events) 5 (tcp_conn_after connected_events) (lenZ example_frame).
Proof.
  assert (Hc : RpcTcp.conns (tcp_state_after connected_events) !! 5%nat = Some (tcp_conn_after connected_events))
    by (vm_compute; reflexivity).
  destruct (run_good _ _ _ _ _ (init_tcp_inv 1) connected_events_ok connected_run) as [Hi _].
  pose proof (ok_wf _ _ (ti_conns _ _ Hi _ _ Hc)) as Hwf.
  constructor; [exact Hc| |vm_compute; reflexivity| | |vm_compute; reflexivity..].
  - constructor; [vm_compute; reflexivity|vm_compute; reflexivity|exact Hwf|].
    intros i. exists (proj1_sig room). split; [reflexivity|exact (proj2_sig room)].
  - split; [exact example_buffer_wf|]. split; [vm_compute; reflexivity|vm_compute; congruence].
  - exists 0%nat, (RpcServer.mkState FrameParser.init 0). split_and!; vm_compute; reflexivity.
Qed.

Lemma remote_call_over_tcp_witness :
  (exists es s' acts' cn', Forall (serving 17 (fun _ _ => RpcServer.Returns example_result) 5) es /\
     RpcTcp.run (tcp_state_after connected_events)
       (RpcTcp.Readable 5 [take 60 example_frame; drop 60 example_frame]
          (TcpConnection.ReadFails TcpConnection.EAGAIN) :: es) = Some (s', acts') /\
     RpcTcp.conns s' !! 5%nat = Some cn' /\
     TcpConnection.wire cn' = TcpConnection.wire (tcp_conn_after connected_events) ++ makeResponseFrame 41 example_result) /\
  (exists c' e', RpcClient.call no_text no_text example_client (str "Weather") (str "Get") (str "Paris")
       example_options example_env = Ret (delivered_result example_result, c', e') /\
     RpcClient.sent e' = RpcClient.sent connected_env ++ concat [take 60 example_frame; drop 60 example_frame] /\
     RpcClient.received e' = RpcClient.received connected_env ++ makeResponseFrame 41 example_result).
Proof.
  apply (remote_call_over_tcp no_text no_text 1 connected_events (tcp_state_after connected_events)
    (tcp_acts_after connected_events) 5 (tcp_conn_after connected_events) [take 60 example_frame; drop 60 example_frame] 17
    (fun _ _ => RpcServer.Returns example_result) tt example_result
    example_client (str "Weather") (str "Get") (str "Paris") example_options example_env
    example_connected connected_env
    example_sends example_recvs1 example_recvs2 [writable_poll] [readable_poll] [] [] [] []).
  - exact connected_events_ok.
  - exact connected_run.
  - exact connected_fresh.
  - vm_compute; reflexivity.
  - lia.
  - split; vm_compute; reflexivity.
  - reflexivity.
  - apply (bool_decide_unpack _); vm_compute; reflexivity.
  - done.
  - done.
  - done.
  - apply (bool_decide_unpack _); vm_compute; reflexivity.
  - exact example_connects.
  - vm_compute; reflexivity.
  - split; vm_compute; congruence.
  - repeat constructor; vm_compute; congruence.
  - vm_compute; reflexivity.
  - exact example_send_script.
  - exact example_recv_script1.
  - exact example_recv_script2.
  - reflexivity.
  - reflexivity.
  - reflexivity.
Defined.
