(* ===== verification/ServiceMain.v ===== *)
(** The main functions of the example services: src/examples/weather_service
    and src/examples/echo_service, which differ in their texts, their port and
    their handler.  The main thread, the signal handler and the server's threads
    interleave as steps of a process. *)
From Stdlib Require Import ZArith Lia.
From Stdlib Require Import Strings.Byte.
From stdpp Require Import base list strings gmap.
From S2P Require Import Prelude Chars RpcMessage RpcServer TcpConnection RpcTcp.

Module ServiceMain.

(** * Typed registration *)

(** A registered callback is a function of the request. *)
Definition Handler : Type := RpcRequest -> RpcServer.HandlerResult.
Definition invoke (handler : Handler) (request : RpcRequest) : RpcServer.HandlerResult := handler request.

(** [registerService<Request, Response>]; [None] is an empty [std::function]. *)
Definition registerService {Request Response} (ParseFromString : bytes -> option Request)
    (SerializeToString : Response -> option bytes) (s : RpcServer.Server (Handler := Handler))
    (service method : bytes) (handler : option (Request -> @RpcServer.TypedResult Response)) :
    Status * RpcServer.Server :=
  match handler with
  | None => (mkStatus kInvalidArgument (str "handler must be provided"), s)
  | Some handler =>
      RpcServer.registerService s service method
        (Some (RpcServer.protobuf_handler ParseFromString SerializeToString handler))
  end.

(** * The process *)

(** What the two programs differ in. *)
Record Service := mkService {
  label : bytes;
  port : Z;
  service_name : bytes;
  method_name : bytes;
  Request : Type;
  Response : Type;
  parse : bytes -> option Request;
  serialize : Response -> option bytes;
  handler : Request -> @RpcServer.TypedResult Response;
}.

Definition kWorkerThreads : nat := 4.

(** Where the main thread is: before [registerService], before [start], in the
    loop that waits for a signal, in [stop] after its flags are set, or it has
    returned. *)
Inductive Pc := AtRegister | AtStart | AtWait | AtStop | Exited (code : Z).
#[global] Instance Pc_eq_dec : EqDecision Pc.
Proof. solve_decision. Defined.

Record Process := mkProcess {
  net : RpcTcp.t (Handler := Handler);
  g_running : bool;
  pc : Pc;
  cout : bytes;
  cerr : bytes;
}.

(** [g_running] is set and the signal handlers are installed. *)
Definition init : Process := mkProcess (RpcTcp.init kWorkerThreads) true AtRegister [] [].

Definition rpc (p : Process) : RpcServer.Server := RpcTcp.rpc (net p).
Definition set_net s p := mkProcess s (g_running p) (pc p) (cout p) (cerr p).
Definition set_rpc r p := set_net (RpcTcp.set_rpc r (net p)) p.
Definition goto c p := mkProcess (net p) (g_running p) c (cout p) (cerr p).
Definition print (line : bytes) p := mkProcess (net p) (g_running p) (pc p) (cout p ++ line ++ [x0a]) (cerr p).
Definition print_err (line : bytes) p := mkProcess (net p) (g_running p) (pc p) (cout p) (cerr p ++ line ++ [x0a]).

Definition EXIT_SUCCESS : Z := 0.
Definition EXIT_FAILURE : Z := 1.

(** ** The lines *)

Definition register_failure (status : Status) : bytes := str "Failed to register handler: " ++ message status.
Definition start_failure (v : Service) (status : Status) : bytes :=
  str "Failed to start " ++ label v ++ str " server on port " ++ Chars.to_string (port v) ++ str ": " ++ message status.
Definition listening_line (v : Service) : bytes :=
  label v ++ str " service listening on 0.0.0.0:" ++ Chars.to_string (port v).
Definition shutdown_line (v : Service) : bytes := str "Shutting down " ++ label v ++ str " service...".
Definition stopped_line (v : Service) : bytes := label v ++ str " service stopped.".

(** ** The main thread *)

(** A step of [main]; [startup_status] is what the I/O thread reports to
    [start].  In the loop it looks at the flag or sleeps; [stop] waits for the
    threads to return, and does nothing when the server does not run.  On the
    early returns the server is destroyed, which stops it: it does not run. *)
Definition main (v : Service) (startup_status : Status) (p : Process) : option Process :=
  match pc p with
  | AtRegister =>
      let '(register_status, server) :=
        registerService (parse v) (serialize v) (rpc p) (service_name v) (method_name v) (Some (handler v)) in
      let p := set_rpc server p in
      Some (if negb (ok register_status)
            then goto (Exited EXIT_FAILURE) (print_err (register_failure register_status) p)
            else goto AtStart p)
  | AtStart =>
      let '(start_status, server) := RpcServer.start (rpc p) (port v) startup_status in
      let p := set_rpc server p in
      Some (if negb (ok start_status)
            then goto (Exited EXIT_FAILURE) (print_err (start_failure v start_status) p)
            else goto AtWait (print (listening_line v) p))
  | AtWait =>
      if g_running p then Some p
      else
        let p := print (shutdown_line v) p in
        match RpcServer.stop_begin (rpc p) with
        | Some server => Some (goto AtStop (set_rpc server p))
        | None => Some (goto (Exited EXIT_SUCCESS) (print (stopped_line v) p))
        end
  | AtStop =>
      match RpcServer.step (rpc p) RpcServer.StopEnd with
      | Some (Ret (server, _)) =>
          Some (goto (Exited EXIT_SUCCESS) (print (stopped_line v) (set_rpc server p)))
      | _ => None
      end
  | Exited _ => None
  end.

(** ** The threads together *)

(** SIGINT or SIGTERM. *)
Definition signal (p : Process) : Process := mkProcess (net p) false (pc p) (cout p) (cerr p).

(** The events of the server's own threads; a worker calls the handler. *)
Definition thread_event (e : RpcTcp.event (Handler := Handler)) : option RpcTcp.event :=
  match e with
  | RpcTcp.Rpc (RpcServer.WorkerFinish i now _) => Some (RpcTcp.Rpc (RpcServer.WorkerFinish i now invoke))
  | RpcTcp.Rpc (RpcServer.Register _ _ _) | RpcTcp.Rpc (RpcServer.Start _ _)
  | RpcTcp.Rpc RpcServer.StopBegin | RpcTcp.Rpc RpcServer.StopEnd => None
  | e => Some e
  end.

Inductive event :=
  | Main (startup_status : Status)
  | Signal
  | Thread (e : RpcTcp.event (Handler := Handler)).

(** A step in which nothing throws. *)
Definition step (v : Service) (p : Process) (e : event) : option Process :=
  match e with
  | Main startup_status => main v startup_status p
  | Signal => Some (signal p)
  | Thread e =>
      match thread_event e with
      | Some e =>
          match RpcTcp.step (net p) e with
          | Some (Ret (None, s), _) => Some (set_net s p)
          | _ => None
          end
      | None => None
      end
  end.

Fixpoint run (v : Service) (p : Process) (es : list event) : option Process :=
  match es with
  | [] => Some p
  | e :: es =>
      match step v p e with
      | Some p => run v p es
      | None => None
      end
  end.

End ServiceMain.
