(* ===== verification/EchoService.v ===== *)
(** The echo service: src/examples/echo_service/main.cpp with the messages of
    src/proto/examples/echo.proto.  Protobuf's wire format is a library's: the
    functions that parse and serialize messages are parameters. *)
From Stdlib Require Import ZArith.
From Stdlib Require Import Strings.Byte.
From stdpp Require Import base list strings.
From S2P Require Import Prelude RpcMessage RpcServer ServiceMain.

Module EchoService.

Record EchoRequest := mkEchoRequest { message : bytes }.
Record EchoResponse := mkEchoResponse { response_message : bytes }.

Definition kEchoPort : Z := 9602.

Definition echo_handler (request : EchoRequest) : @RpcServer.TypedResult EchoResponse :=
  RpcServer.TReturns Ok (mkEchoResponse (message request)).

Definition service (ParseFromString : bytes -> option EchoRequest)
    (SerializeToString : EchoResponse -> option bytes) : ServiceMain.Service :=
  ServiceMain.mkService (str "Echo") kEchoPort (str "echo") (str "Echo") EchoRequest EchoResponse
    ParseFromString SerializeToString echo_handler.

(** A step of [main]. *)
Definition main (ParseFromString : bytes -> option EchoRequest) (SerializeToString : EchoResponse -> option bytes) :
    Status -> ServiceMain.Process -> option ServiceMain.Process :=
  ServiceMain.main (service ParseFromString SerializeToString).

End EchoService.
