(* ===== verification/ServiceMainFacts.v ===== *)
(** Theorems about the example services' processes: every process is a run of
    the modelled server with one handler, its output says what it does, and a
    signal ends it. *)
From Stdlib Require Import ZArith Lia.
From Stdlib Require Import Strings.Byte.
From stdpp Require Import base list strings gmap.
From S2P Require Import Prelude RpcMessage RpcServer RpcServerFacts RpcIoFacts TcpConnection TcpConnectionFacts RpcTcp RpcTcpFacts RpcTcpLive ServiceMain EchoService.
Import ServiceMain.
#[local] Set Warnings "-clear-no-such-hyp".

(** * Threads leave the control state alone *)

Definition control (r : @RpcServer.Server Handler) : bool * bool * gmap bytes Handler :=
  (RpcServer.running_ r, RpcServer.stopping_ r, RpcServer.handlers_ r).

Definition own_step (e : @RpcServer.event Handler) : bool :=
  thread_step e || match e with RpcServer.IoExit => true | _ => false end.

Lemma step_control r e r' a :
  own_step e = true -> RpcServer.step r e = Some (Ret (r', a)) -> control r' = control r.
Proof.
  intros He Hs. destruct (thread_step e) eqn:Et; [by eapply (step_untouched control)|].
  unfold own_step in He. rewrite Et in He. destruct e; try done. cbn [RpcServer.step] in Hs.
  case_match; [|done]. by injection Hs as <- _.
Qed.

Lemma run_control es r r' a :
  Forall (fun e => own_step e = true) es -> RpcServerFacts.run r es = Some (r', a) -> control r' = control r.
Proof.
  intros Hes. revert r a. induction Hes as [|e es He _ IH]; intros r a; cbn [RpcServerFacts.run]; [by intros [= <- _]|].
  destruct (RpcServer.step r e) as [[[r1 a1]| |]|] eqn:E; try done.
  destruct (RpcServerFacts.run r1 es) as [[r2 a2]|] eqn:E2; [|done]. intros [= <- _].
  rewrite (IH _ _ E2). by eapply step_control.
Qed.

Lemma thread_event_own s e e' :
  thread_event e = Some e' -> is_Some (RpcTcp.step s e') -> Forall (fun e => own_step e = true) (rpc_event s e').
Proof.
  intros Ht [x Hs]. destruct e as [e|conn fd buffer kw ks|conn chunks last| | |conn|conn input|conn|conn]; cbn [thread_event] in Ht.
  - destruct e; try done; injection Ht as <-; cbn [rpc_event]; try (by repeat constructor); done.
  - injection Ht as <-. by repeat constructor.
  - injection Ht as <-. constructor.
  - injection Ht as <-. cbn [rpc_event]. destruct (RpcTcp.reading s) as [[[conn [|chunk chunks]] last]|]; [constructor| |constructor].
    destruct (RpcTcp.conns s !! conn); [|constructor].
    destruct (NetBuffer.Buffer.readFd _ _) as [[[[n errno] [x'|]] b]| |]; by repeat constructor.
  - injection Ht as <-. by repeat constructor.
  - injection Ht as <-. constructor.
  - injection Ht as <-. constructor.
  - injection Ht as <-. constructor.
  - injection Ht as <-. by repeat constructor.
Qed.

(** Neither the I/O thread nor a worker is left. *)
Definition quiet (r : @RpcServer.Server Handler) : Prop := RpcServer.io_loop r = false /\ RpcServer.workers_ r = 0%nat.

Lemma quiet_no_step s acts e e' :
  tcp_inv s acts -> quiet (RpcTcp.rpc s) -> thread_event e = Some e' -> RpcTcp.step s e' = None.
Proof.
  intros Hi [Hio Hw] Ht. assert (Hidle : RpcTcp.idle s = false) by (unfold RpcTcp.idle; by rewrite Hio).
  pose proof (inv_in_flight _ (ti_rpc _ _ Hi)) as Hf. rewrite Hw in Hf.
  assert (Hf0 : RpcServer.in_flight (RpcTcp.rpc s) = []) by (destruct (RpcServer.in_flight _); [done|cbn in Hf; lia]).
  destruct e as [e|conn fd buffer kw ks|conn chunks last| | |conn|conn input|conn|conn]; cbn [thread_event] in Ht.
  - destruct e; try done; injection Ht as <-; cbn [RpcTcp.step RpcTcp.other_thread]; try done;
      try (unfold RpcTcp.rpc_step; cbn [RpcServer.step]; by rewrite Hf0, ?Hw). by rewrite Hidle.
  - injection Ht as <-. cbn [RpcTcp.step]. by rewrite Hidle.
  - injection Ht as <-. cbn [RpcTcp.step]. rewrite Hidle. by case_match.
  - injection Ht as <-. cbn [RpcTcp.step]. unfold RpcTcp.read_next. destruct (RpcTcp.reading s) as [rd|] eqn:Erd; [|done].
    destruct (ti_reading _ _ Hi rd Erd). congruence.
  - injection Ht as <-. cbn [RpcTcp.step]. unfold RpcTcp.rpc_step. cbn [RpcServer.step].
    destruct (RpcServer.io_frames (RpcTcp.rpc s)) as [[c i]|] eqn:Ef; [|done].
    destruct (inv_frames _ (ti_rpc _ _ Hi) _ _ Ef). congruence.
  - injection Ht as <-. cbn [RpcTcp.step]. unfold RpcTcp.tcp_event. rewrite Hidle. by case_match.
  - injection Ht as <-. cbn [RpcTcp.step]. unfold RpcTcp.tcp_event. rewrite Hidle. by destruct (RpcTcp.conns s !! conn).
  - injection Ht as <-. cbn [RpcTcp.step]. unfold RpcTcp.tcp_event. rewrite Hidle. by case_match.
  - injection Ht as <-. cbn [RpcTcp.step]. rewrite Hidle. by case_match.
Qed.

(** * The life of a process *)

Section service.
Context (v : Service).

Definition wire_handler : Handler := RpcServer.protobuf_handler (parse v) (serialize v) (handler v).
Definition key : bytes := RpcServer.makeHandlerKey (service_name v) (method_name v).
Definition registered : gmap bytes Handler := {[ key := wire_handler ]}.

Definition line (text : bytes) : bytes := text ++ [x0a].

(** What holds where the main thread is. *)
Definition stage (p : Process) : Prop :=
  match pc p with
  | AtRegister =>
      quiet (rpc p) /\ RpcServer.running_ (rpc p) = false /\ RpcServer.handlers_ (rpc p) = ∅ /\ cout p = [] /\ cerr p = []
  | AtStart =>
      quiet (rpc p) /\ RpcServer.running_ (rpc p) = false /\ RpcServer.handlers_ (rpc p) = registered /\
      cout p = [] /\ cerr p = []
  | AtWait =>
      control (rpc p) = (true, false, registered) /\ cout p = line (listening_line v) /\ cerr p = []
  | AtStop =>
      control (rpc p) = (false, true, registered) /\ g_running p = false /\
      cout p = line (listening_line v) ++ line (shutdown_line v) /\ cerr p = []
  | Exited code =>
      quiet (rpc p) /\ RpcServer.running_ (rpc p) = false /\ RpcServer.handlers_ (rpc p) = registered /\
      ((code = EXIT_SUCCESS /\ g_running p = false /\
        cout p = line (listening_line v) ++ line (shutdown_line v) ++ line (stopped_line v) /\ cerr p = []) \/
       (code = EXIT_FAILURE /\ cout p = [] /\
        exists st, ok st = false /\ cerr p = line (start_failure v st)))
  end.

Definition process_event_ok (e : event) : Prop :=
  match e with Thread e => event_ok e | _ => True end.

(** The server of the process is the modelled one, after some run. *)
Definition well (p : Process) : Prop :=
  stage p /\ exists es acts, Forall event_ok es /\ RpcTcp.run (RpcTcp.init kWorkerThreads) es = Some (net p, acts).

Lemma init_well : well init.
Proof. split; [by split_and!|]. by exists [], []. Qed.

(** A step of [main] is no step of the TCP server, or one of a thread that owns
    it. *)
Definition net_step (s s' : RpcTcp.t (Handler := Handler)) : Prop :=
  s' = s \/ exists e acts, event_ok e /\ RpcTcp.step s e = Some (Ret (None, s'), acts).

Lemma well_intro p p' : well p -> net_step (net p) (net p') -> stage p' -> well p'.
Proof.
  intros [_ (es & acts & Hes & Hrun)] Hn Hst. split; [done|]. destruct Hn as [->|(e & a & He & Hs)]; [by exists es, acts|].
  exists (es ++ [e]), (acts ++ a). split; [apply Forall_app; split; [done|by repeat constructor]|].
  rewrite (tcp_run_app _ _ _ _ _ Hrun). cbn [RpcTcp.run]. by rewrite Hs, app_nil_r.
Qed.

Lemma well_inv p : well p -> exists acts, tcp_inv (net p) acts.
Proof.
  intros [_ (es & acts & Hes & Hrun)]. exists acts.
  by destruct (run_good es (RpcTcp.init kWorkerThreads) (net p) [] acts (init_tcp_inv _) Hes Hrun).
Qed.

(** A step of the server that does nothing to connections. *)
Lemma rpc_net_step s e r :
  RpcTcp.other_thread e = true -> RpcServer.step (RpcTcp.rpc s) e = Some (Ret (r, [])) -> net_step s (RpcTcp.set_rpc r s).
Proof.
  intros He Hs. right. exists (RpcTcp.Rpc e), []. split; [done|].
  assert (E : RpcTcp.step s (RpcTcp.Rpc e) = RpcTcp.rpc_step false e s) by (by destruct e).
  rewrite E. unfold RpcTcp.rpc_step. by rewrite Hs.
Qed.

Lemma print_net text p : net (print text p) = net p /\ net (print_err text p) = net p.
Proof. done. Qed.

Context (Hservice : service_name v <> []) (Hmethod : method_name v <> []).

Lemma register_step p :
  stage p -> pc p = AtRegister ->
  exists r, registerService (parse v) (serialize v) (rpc p) (service_name v) (method_name v) (Some (handler v)) = (Ok, r) /\
    RpcServer.step (rpc p) (RpcServer.Register (service_name v) (method_name v) (Some wire_handler)) = Some (Ret (r, [])) /\
    quiet r /\ RpcServer.running_ r = false /\ RpcServer.handlers_ r = registered.
Proof.
  unfold stage. intros Hst Hpc. rewrite Hpc in Hst. destruct Hst as (Hq & Hr & Hh & _).
  exists (RpcServer.set_handlers registered (rpc p)).
  assert (E : RpcServer.registerService (rpc p) (service_name v) (method_name v) (Some wire_handler) =
    (Ok, RpcServer.set_handlers registered (rpc p))).
  { unfold RpcServer.registerService. rewrite !bool_decide_false by done. cbn [orb]. rewrite Hr, Hh. done. }
  cbn [RpcServer.step registerService]. fold wire_handler. rewrite E. done.
Qed.

Lemma start_step p st :
  stage p -> pc p = AtStart ->
  let '(status, r) := RpcServer.start (rpc p) (port v) st in
  RpcServer.step (rpc p) (RpcServer.Start (port v) st) = Some (Ret (r, [])) /\
  if ok status then control r = (true, false, registered)
  else quiet r /\ RpcServer.running_ r = false /\ RpcServer.handlers_ r = registered.
Proof.
  unfold stage. intros Hst Hpc. rewrite Hpc in Hst. destruct Hst as ([Hio Hw] & Hr & Hh & _).
  destruct (RpcServer.start (rpc p) (port v) st) as [status r] eqn:E.
  split; [cbn [RpcServer.step]; rewrite Hio, Hw; cbn; by rewrite E|].
  unfold RpcServer.start in E. rewrite Hr in E. destruct (port v =? 0); [by injection E as <- <-|].
  destruct (ok st) eqn:Eok; cbn [negb] in E; injection E as <- <-; rewrite Eok.
  - unfold control. cbn. by rewrite Hh.
  - split_and!; try done.
Qed.

Lemma main_well st p p' : well p -> main v st p = Some p' -> well p'.
Proof.
  intros Hwell. pose proof Hwell as [Hst _]. unfold main. destruct (pc p) eqn:Hpc.
  - destruct (register_step p Hst Hpc) as (r & E & Hs & Hq & Hr & Hh). rewrite E. intros [= <-].
    eapply well_intro; [exact Hwell|by eapply rpc_net_step; [|exact Hs]|]. unfold stage in *. rewrite Hpc in Hst.
    cbn. by destruct Hst as (_ & _ & _ & ? & ?).
  - pose proof (start_step p st Hst Hpc) as Hs. destruct (RpcServer.start (rpc p) (port v) st) as [status r].
    destruct Hs as [Hs Hr]. intros [= <-].
    assert (Hn : net_step (net p) (RpcTcp.set_rpc r (net p))) by (by eapply rpc_net_step; [|exact Hs]).
    unfold stage in Hst. rewrite Hpc in Hst. destruct Hst as (_ & _ & _ & Hco & Hce).
    destruct (ok status) eqn:Eok; cbn [negb]; (eapply well_intro; [exact Hwell|exact Hn|]); unfold stage; cbn.
    + by rewrite Hco.
    + destruct Hr as (Hq & Hr & Hh). split; [done|]. split; [done|]. split; [done|]. right. split; [done|]. split; [done|].
      exists status. by rewrite Hce.
  - unfold stage in Hst. rewrite Hpc in Hst. destruct Hst as ([= Hr Hs Hh] & Hco & Hce).
    destruct (g_running p) eqn:Eg; [by intros [= <-]|].
    change (rpc (print (shutdown_line v) p)) with (rpc p). unfold RpcServer.stop_begin. rewrite Hr. intros [= <-].
    eapply well_intro; [exact Hwell| |].
    + eapply (rpc_net_step (net p) RpcServer.StopBegin); [done|]. cbn [RpcServer.step]. unfold RpcServer.stop_begin.
      change (RpcTcp.rpc (net p)) with (rpc p). by rewrite Hr.
    + unfold stage, control. cbn. by rewrite Eg, Hco, Hce, Hh.
  - destruct (RpcServer.step (rpc p) RpcServer.StopEnd) as [[[r a]| |]|] eqn:E; [|done..]. intros [= <-].
    unfold stage in Hst. rewrite Hpc in Hst. destruct Hst as ([= Hr Hs Hh] & Hg & Hco & Hce).
    pose proof E as E'. cbn [RpcServer.step] in E'. destruct (_ && _) eqn:Eb; [|done]. breflect. injection E' as <- <-.
    eapply well_intro; [exact Hwell|by eapply rpc_net_step; [|exact E]|].
    unfold stage. cbn. rewrite Hg, Hco, Hce. split; [by split|]. split; [done|]. split; [done|].
    left. by rewrite <- app_assoc.
  - done.
Qed.

Lemma thread_well e p p' : event_ok e -> well p -> step v p (Thread e) = Some p' -> well p'.
Proof.
  intros He Hwell. destruct (well_inv p Hwell) as [acts Hi]. pose proof Hwell as [Hst _].
  cbn [step]. destruct (thread_event e) as [e'|] eqn:Et; [|done].
  destruct (RpcTcp.step (net p) e') as [[[[[x|] s]| |] a]|] eqn:E; try done. intros [= <-].
  assert (He' : event_ok e').
  { destruct e as [[]| | | | | | | |]; try done; by injection Et as <-. }
  eapply well_intro; [exact Hwell|right; by exists e', a|].
  assert (Hnq : ~ quiet (rpc p)) by (intros Hq; pose proof (quiet_no_step _ _ _ _ Hi Hq Et); congruence).
  assert (Hc : control (RpcTcp.rpc s) = control (rpc p)).
  { destruct (tcp_step_good _ _ _ _ _ Hi He' E) as [_ Hrun]. eapply run_control; [|exact Hrun].
    eapply thread_event_own; [exact Et|]. by rewrite E. }
  unfold stage in *. cbn [pc set_net]. destruct (pc p); try tauto; rewrite <- Hc in Hst; exact Hst.
Qed.

Lemma signal_well p : well p -> well (signal p).
Proof.
  intros Hwell. eapply well_intro; [exact Hwell|by left|]. destruct Hwell as [Hst _]. unfold stage in *. cbn.
  destruct (pc p); tauto.
Qed.

Lemma run_well es p p' : Forall process_event_ok es -> well p -> run v p es = Some p' -> well p'.
Proof.
  intros Hes. revert p. induction Hes as [|e es He _ IH]; intros p Hp; cbn [run]; [by intros [= <-]|].
  destruct (step v p e) as [p1|] eqn:E; [|done]. apply IH. destruct e as [st| |e].
  - by eapply main_well.
  - injection E as <-. by apply signal_well.
  - by eapply thread_well.
Qed.

(** ** Shutting down *)

Lemma well_known p : well p -> known (net p).
Proof.
  intros [_ (es & acts & Hes & Hrun)].
  exact (run_known es (RpcTcp.init kWorkerThreads) (net p) [] acts (init_tcp_inv _) (init_known _) Hes Hrun).
Qed.

Lemma run_app_process es1 es2 p p1 : run v p es1 = Some p1 -> run v p (es1 ++ es2) = run v p1 es2.
Proof.
  revert p. induction es1 as [|e es IH]; intros p; cbn [run app]; [by intros [= <-]|].
  destruct (step v p e) as [p2|]; [|done]. apply IH.
Qed.

(** A run of the server's threads is a run of the process. *)
Lemma run_threads es p s a :
  Forall (fun e => thread_event e = Some e) es -> RpcTcp.run (net p) es = Some (s, a) ->
  run v p (map Thread es) = Some (set_net s p).
Proof.
  intros Hes. revert p a. induction Hes as [|e es He _ IH]; intros p a; cbn [RpcTcp.run map run].
  { intros [= <- _]. by destruct p. }
  cbn [step]. rewrite He. destruct (RpcTcp.step (net p) e) as [[[[[x|] s1]| |] a1]|]; try done.
  destruct (RpcTcp.run s1 es) as [[s2 a2]|] eqn:E; [|done]. intros [= <- _]. exact (IH (set_net s1 p) a2 E).
Qed.

(** Steps of workers that do nothing to connections. *)
Lemma lift_exits k (s : RpcTcp.t (Handler := Handler)) r' :
  RpcServerFacts.run (RpcTcp.rpc s) (repeat RpcServer.WorkerExit k) = Some (r', []) ->
  RpcTcp.run s (repeat (RpcTcp.Rpc RpcServer.WorkerExit) k) = Some (RpcTcp.set_rpc r' s, []).
Proof.
  revert s. induction k as [|k IH]; intros s; cbn [repeat RpcServerFacts.run RpcTcp.run].
  { intros [= <-]. by destruct s. }
  destruct (RpcServer.step (RpcTcp.rpc s) RpcServer.WorkerExit) as [[[r1 a1]| |]|] eqn:E; try done.
  destruct (RpcServerFacts.run r1 (repeat RpcServer.WorkerExit k)) as [[r2 a2]|] eqn:E2; [|done].
  intros [= <- [-> ->]%app_eq_nil]. cbn [RpcTcp.step RpcTcp.other_thread]. unfold RpcTcp.rpc_step. rewrite E.
  cbn [RpcTcp.perform]. unfold RpcTcp.return_. by rewrite (IH (RpcTcp.set_rpc r1 s) E2).
Qed.

(** What happens until the process ends: no event of the network, and the
    workers finish what they have. *)
Definition ending_event (now : Z) (e : event) : Prop :=
  match e with
  | Main _ => True
  | Signal => False
  | Thread (RpcTcp.Rpc e) => worker_event now invoke e \/ e = RpcServer.IoExit \/ e = RpcServer.WorkerExit
  | Thread _ => False
  end.

Lemma stop_completes p now (st : Status) :
  well p -> pc p = AtStop -> RpcTcp.idle (net p) = true ->
  exists es p', run v p es = Some p' /\ pc p' = Exited EXIT_SUCCESS /\ Forall (ending_event now) es.
Proof.
  intros Hwell Hpc Hidle. pose proof Hwell as [Hst _]. unfold stage in Hst. rewrite Hpc in Hst.
  destruct Hst as ([= Hr Hs Hh] & _).
  apply idle_spec in Hidle as Hid. destruct Hid as (Hio & Hfr & Hrd).
  (* the I/O thread returns *)
  set (s1 := RpcTcp.set_rpc (RpcServer.set_io_loop false (rpc p)) (net p)).
  assert (H1 : RpcTcp.step (net p) (RpcTcp.Rpc RpcServer.IoExit) = Some (Ret (None, s1), [])).
  { cbn [RpcTcp.step]. rewrite Hidle. unfold RpcTcp.rpc_step. cbn [RpcServer.step].
    unfold rpc in *. rewrite Hio, Hr, Hfr. done. }
  assert (Hstep1 : step v p (Thread (RpcTcp.Rpc RpcServer.IoExit)) = Some (set_net s1 p)) by (cbn [step thread_event]; by rewrite H1).
  pose proof (thread_well (RpcTcp.Rpc RpcServer.IoExit) p (set_net s1 p) I Hwell Hstep1) as Hwell1.
  destruct (well_inv _ Hwell1) as [acts1 Hi1]. cbn [net set_net] in Hi1.
  (* the workers finish *)
  destruct (workers_answer_all (RpcTcp.rpc s1) now invoke (ti_rpc _ _ Hi1)) as (r2 & esw & Hrw & Hesw & Hf2 & Hq2).
  destruct (lift_workers now invoke esw s1 acts1 r2 _ Hi1 (well_known _ Hwell1) Hesw Hrw) as (s2 & Hrun2 & Hr2 & _).
  assert (Hown : Forall (fun e => thread_event e = Some e) (map RpcTcp.Rpc esw)).
  { apply Forall_fmap. eapply Forall_impl; [exact Hesw|]. intros [] Hw; try done. by destruct Hw as [_ ->]. }
  pose proof (run_threads _ (set_net s1 p) s2 _ Hown Hrun2) as Hp2.
  assert (Hc2 : control r2 = control (rpc p)).
  { change (control (rpc p)) with (control (RpcTcp.rpc s1)). eapply run_control; [|exact Hrw].
    eapply Forall_impl; [exact Hesw|]. by intros []. }
  assert (Hio2 : RpcServer.io_loop r2 = false).
  { transitivity (RpcServer.io_loop (RpcTcp.rpc s1)); [|done]. eapply (run_untouched RpcServer.io_loop); [done..| |exact Hrw]. eapply Forall_impl; [exact Hesw|]. by intros []. }
  (* and return *)
  assert (Hs2 : RpcServer.stopping_ r2 = true) by (injection Hc2; congruence).
  pose proof (workers_exit (RpcServer.workers_ r2) r2 Hs2 Hq2 Hf2 eq_refl) as Hx. rewrite <- Hr2 in Hx.
  pose proof (lift_exits _ _ _ Hx) as Hrun3. set (s3 := RpcTcp.set_rpc _ s2) in Hrun3.
  assert (Hown3 : Forall (fun e => thread_event e = Some e) (repeat (RpcTcp.Rpc RpcServer.WorkerExit) (RpcServer.workers_ (RpcTcp.rpc s2))))
    by (apply Forall_forall; by intros e ->%list_elem_of_In%repeat_spec).
  pose proof (run_threads _ (set_net s2 p) s3 _ Hown3 Hrun3) as Hp3.
  exists (Thread (RpcTcp.Rpc RpcServer.IoExit) :: map Thread (map RpcTcp.Rpc esw) ++
    map Thread (repeat (RpcTcp.Rpc RpcServer.WorkerExit) (RpcServer.workers_ (RpcTcp.rpc s2))) ++ [Main st]). eexists.
  split; [|split].
  - cbn [run]. rewrite Hstep1. rewrite (run_app_process _ _ _ _ Hp2). change (set_net s2 (set_net s1 p)) with (set_net s2 p).
    rewrite (run_app_process _ _ _ _ Hp3). change (set_net s3 (set_net s2 p)) with (set_net s3 p). cbn [run step].
    assert (Hend : RpcServer.step (RpcTcp.rpc s3) RpcServer.StopEnd = Some (Ret (RpcServer.stop_end (RpcTcp.rpc s3), []))).
    { unfold s3. cbn. rewrite Hr2, Hio2, Hs2. by replace (RpcServer.running_ r2) with false by (injection Hc2; congruence). }
    unfold main. cbn [pc set_net]. rewrite Hpc. change (rpc (set_net s3 p)) with (RpcTcp.rpc s3). by rewrite Hend.
  - done.
  - constructor; [by right; left|]. apply Forall_app. split; [|apply Forall_app; split; [|by repeat constructor]].
    + rewrite map_map. apply Forall_fmap. eapply Forall_impl; [exact Hesw|]. by left.
    + apply Forall_fmap, Forall_forall. intros e ->%list_elem_of_In%repeat_spec. by right; right.
Qed.

End service.

(** * Properties *)

(** C11: the life of an example service.  In every interleaving of the main
    thread, signals and the server's threads, the process is a run of the
    modelled server in which its one handler is the only one registered; what it
    has printed says where it is: it listens exactly when the server runs,
    shuts down only after a signal, and exits with success only after all its
    threads have returned, otherwise with the reason why it could not start;
    and once [main] returns no thread is left to take a step. *)
Theorem service_lifecycle v es p :
  service_name v <> [] -> method_name v <> [] -> Forall process_event_ok es -> run v init es = Some p ->
  (exists tcp_es acts, Forall event_ok tcp_es /\
     RpcTcp.run (RpcTcp.init kWorkerThreads) tcp_es = Some (net p, acts)) /\
  stage v p /\
  (forall code e, pc p = Exited code -> step v p (Thread e) = None).
Proof.
  intros Hs Hm Hes Hrun. pose proof (run_well v Hs Hm es init p Hes (init_well v) Hrun) as Hwell.
  pose proof Hwell as [Hst Hnet]. split; [done|]. split; [done|]. intros code e Hpc.
  destruct (well_inv v p Hwell) as [acts Hi]. unfold stage in Hst. rewrite Hpc in Hst. cbn [step].
  destruct (thread_event e) eqn:Et; [|done]. by rewrite (quiet_no_step _ _ _ _ Hi (proj1 Hst) Et).
Qed.

(** C12: a signal ends the process.  While the service waits, and with its I/O
    thread between events, a signal and then steps of its threads alone, in
    which the workers finish every request they have, bring [main] to its
    return with success, with the three lines on the standard output. *)
Theorem service_shuts_down v es p now (st : Status) :
  service_name v <> [] -> method_name v <> [] -> Forall process_event_ok es -> run v init es = Some p ->
  pc p = AtWait -> RpcTcp.idle (net p) = true ->
  exists es' p', Forall (ending_event now) es' /\ run v p (Signal :: es') = Some p' /\
    pc p' = Exited EXIT_SUCCESS /\ RpcServer.work_queue_ (rpc p') = [] /\ RpcServer.in_flight (rpc p') = [] /\
    cout p' = line (listening_line v) ++ line (shutdown_line v) ++ line (stopped_line v) /\ cerr p' = [].
Proof.
  intros Hs Hm Hes Hrun Hpc Hidle. pose proof (run_well v Hs Hm es init p Hes (init_well v) Hrun) as Hwell.
  pose proof Hwell as [Hst _]. unfold stage in Hst. rewrite Hpc in Hst. destruct Hst as ([= Hr Hst Hh] & _).
  assert (Hmain : exists p1, step v (signal p) (Main st) = Some p1 /\ pc p1 = AtStop /\ RpcTcp.idle (net p1) = true).
  { cbn [step]. unfold main. cbn [pc signal g_running]. rewrite Hpc. unfold RpcServer.stop_begin.
    change (rpc (print (shutdown_line v) (signal p))) with (rpc p). rewrite Hr. by eexists. }
  destruct Hmain as (p1 & H1 & Hpc1 & Hidle1).
  pose proof (main_well v Hs Hm st (signal p) p1 (signal_well v p Hwell) H1) as Hwell1.
  destruct (stop_completes v p1 now st Hwell1 Hpc1 Hidle1) as (es' & p' & Hrun' & Hpc' & Hes').
  assert (Hok : Forall process_event_ok es').
  { eapply Forall_impl; [exact Hes'|]. intros [| |[]]; try done. }
  pose proof (run_well v Hs Hm es' p1 p' Hok Hwell1 Hrun') as Hwell'.
  exists (Main st :: es'), p'. split; [by constructor|]. split; [cbn [run step]; cbn [step] in H1; by rewrite H1|].
  split; [done|]. destruct (well_inv v p' Hwell') as [acts Hi]. destruct Hwell' as [Hst' _]. unfold stage in Hst'. rewrite Hpc' in Hst'.
  destruct Hst' as ([_ Hw] & _ & _ & [(_ & _ & Hco & Hce)|(? & _)]); [|done].
  split; [by apply (inv_drained _ (ti_rpc _ _ Hi))|]. split; [|done].
  pose proof (inv_in_flight _ (ti_rpc _ _ Hi)) as Hf. change (RpcTcp.rpc (net p')) with (rpc p') in Hf. rewrite Hw in Hf.
  by destruct (RpcServer.in_flight (rpc p')); [|cbn in Hf; lia].
Qed.

(** * Witnesses *)

(** The echo service with messages that are their own octets. *)
Definition example_echo : Service :=
  EchoService.service (fun b => Some (EchoService.mkEchoRequest b)) (fun r => Some (EchoService.response_message r)).

(** A connection is open and a signal has come. *)
Definition example_process_events : list event :=
  [Main Ok; Main Ok; Thread (RpcTcp.Connect 5 7 TcpConnectionFacts.example_buffer example_tcp_kernel None); Main Ok].

Definition process_after (es : list event) : Process := default init (run example_echo init es).

Lemma example_process_ok : Forall process_event_ok example_process_events.
Proof. by repeat constructor; try exact example_buffer_wf. Qed.

Example echo_lines_ex :
  cout (process_after example_process_events) = str "Echo service listening on 0.0.0.0:9602" ++ [x0a] /\
  cerr (process_after [Main Ok; Main (mkStatus kUnavailable (str "bind failed"))]) =
    str "Failed to start Echo server on port 9602: bind failed" ++ [x0a].
Proof. by vm_compute. Qed.

Lemma service_lifecycle_witness :
  pc (process_after example_process_events) = AtWait /\
  (exists tcp_es acts, Forall event_ok tcp_es /\
     RpcTcp.run (RpcTcp.init kWorkerThreads) tcp_es = Some (net (process_after example_process_events), acts)) /\
  stage example_echo (process_after example_process_events).
Proof.
  split; [vm_compute; reflexivity|].
  destruct (service_lifecycle example_echo example_process_events (process_after example_process_events))
    as (H1 & H2 & _); [apply (bool_decide_unpack _); vm_compute; reflexivity..|exact example_process_ok|vm_compute; reflexivity|].
  split; [exact H1|exact H2].
Defined.

Lemma service_shuts_down_witness :
  exists es' p', Forall (ending_event 0) es' /\
    run example_echo (process_after example_process_events) (Signal :: es') = Some p' /\
    pc p' = Exited EXIT_SUCCESS /\ RpcServer.work_queue_ (rpc p') = [] /\ RpcServer.in_flight (rpc p') = [] /\
    cout p' = line (listening_line example_echo) ++ line (shutdown_line example_echo) ++ line (stopped_line example_echo) /\
    cerr p' = [].
Proof.
  apply (service_shuts_down example_echo example_process_events (process_after example_process_events) 0 Ok);
    [apply (bool_decide_unpack _); vm_compute; reflexivity..|exact example_process_ok|vm_compute; reflexivity|vm_compute; reflexivity|vm_compute; reflexivity].
Defined.
