(* ===== verification/JsonNumber.v ===== *)
(** Numbers as text for the JSON code: [std::strtoll], [std::strtod] and
    [snprintf("%.17g")] of the C library (C locale, glibc), over IEEE 754
    binary64 values. *)
From Stdlib Require Import ZArith Lia.
From Stdlib Require Import Strings.Byte.
From Stdlib Require Import Floats.SpecFloat.
From stdpp Require Import base list strings.
From S2P Require Import Prelude Chars.

Module JsonNumber.

(** * double *)

Definition prec : Z := 53.
Definition emax : Z := 1024.

(** A number is a [spec_float] that is not a NaN; a NaN keeps its sign. *)
Inductive double :=
  | Number (f : spec_float)
  | NaN (sign : bool).

#[global] Instance spec_float_eq_dec : EqDecision spec_float.
Proof. solve_decision. Defined.
#[global] Instance double_eq_dec : EqDecision double.
Proof. solve_decision. Defined.

(** The binary64 value nearest to [m * 10 ^ e] (ties to even). *)
Definition of_decimal (negative : bool) (m : Z) (e : Z) : spec_float :=
  match m with
  | Zpos p =>
      if 0 <=? e then
        binary_normalize prec emax (if negative then - (m * 10 ^ e) else m * 10 ^ e) 0 negative
      else
        match 10 ^ (- e) with
        | Zpos q => SFdiv prec emax (S754_finite negative p 0) (S754_finite false q 0)
        | _ => S754_zero negative
        end
  | _ => S754_zero negative
  end.

(** Whether the finite value [f] is exactly [m * 10 ^ e], up to sign. *)
Definition is_exact (f : spec_float) (m e : Z) : bool :=
  match f with
  | S754_finite _ fm fe =>
      Zpos fm * 2 ^ (Z.max fe 0) * 10 ^ (Z.max (- e) 0) =? m * 10 ^ (Z.max e 0) * 2 ^ (Z.max (- fe) 0)
  | S754_zero _ => m =? 0
  | _ => false
  end.

(** [errno == ERANGE] after [strtod]: overflow, or a result below the normal
    range that is not exact. *)
Definition out_of_range (f : spec_float) (m e : Z) : bool :=
  match f with
  | S754_infinity _ => true
  | S754_zero _ => negb (m =? 0)
  | S754_finite _ fm _ => (Zpos fm <? 2 ^ 52) && negb (is_exact f m e)
  | S754_nan => false
  end.

(** * strtoll *)

Definition int64_min : Z := - 2 ^ 63.
Definition int64_max : Z := 2 ^ 63 - 1.

Definition split_sign (l : bytes) : bool * nat * bytes :=
  match l with
  | x2d :: l' => (true, 1%nat, l')
  | x2b :: l' => (false, 1%nat, l')
  | _ => (false, 0%nat, l)
  end.

(** Base 10, for text without leading white space: the value, the number of
    octets consumed (0: no conversion), and whether the value is in range. *)
Definition strtoll (l : bytes) : Z * nat * bool :=
  let '(negative, n, rest) := split_sign l in
  let '(v, k) := Chars.scan_digits rest 0 0 in
  let v := if negative then - v else v in
  if (k =? 0)%nat then (0, 0%nat, true)
  else (v, (n + k)%nat, (int64_min <=? v) && (v <=? int64_max)).

(** * strtod *)

Definition to_lower (b : byte) : byte :=
  if (65 <=? b2z b) && (b2z b <=? 90) then z2b (b2z b + 32) else b.

(** Whether [l] starts with [word], whatever the case of its letters. *)
Definition starts_with (word l : bytes) : bool :=
  bool_decide (map to_lower (take (length word) l) = word).

Definition is_nan_char (b : byte) : bool :=
  Chars.is_digit b || ((97 <=? b2z (to_lower b)) && (b2z (to_lower b) <=? 122)) || (b2z b =? 95).

(** The length of a run of [nan(...)] characters closed by a parenthesis. *)
Fixpoint nan_suffix (l : bytes) : option nat :=
  match l with
  | x29 :: _ => Some 1%nat
  | b :: l => if is_nan_char b then option_map S (nan_suffix l) else None
  | [] => None
  end.

(** The exponent part: its value and the octets it takes. *)
Definition scan_exponent (l : bytes) : Z * nat :=
  match l with
  | b :: l' =>
      if (b2z b =? 101) || (b2z b =? 69) then
        let '(negative, n, rest) := split_sign l' in
        let '(v, k) := Chars.scan_digits rest 0 0 in
        if (k =? 0)%nat then (0, 0%nat) else ((if negative then - v else v), (1 + n + k)%nat)
      else (0, 0%nat)
  | [] => (0, 0%nat)
  end.

(** The decimal number at the front: its digits as an integer, the power of
    ten, and the octets it takes (0: none). *)
Definition scan_decimal (l : bytes) : Z * Z * nat :=
  let '(v1, n1) := Chars.scan_digits l 0 0 in
  let '(v2, n2, dot) :=
    match drop n1 l with
    | x2e :: r => let '(v, n) := Chars.scan_digits r v1 0 in (v, n, 1%nat)
    | _ => (v1, 0%nat, 0%nat)
    end in
  if (n1 + n2 =? 0)%nat then (0, 0, 0%nat)
  else
    let consumed := (n1 + dot + n2)%nat in
    let '(e, n3) := scan_exponent (drop consumed l) in
    (v2, e - Z.of_nat n2, (consumed + n3)%nat).

(** The value, the octets consumed, and whether [errno] stays 0.  Hexadecimal
    numbers do not occur: the caller has taken their leading zero for an
    integer. *)
Definition strtod (l : bytes) : double * nat * bool :=
  let '(negative, n, rest) := split_sign l in
  if starts_with (str "infinity") rest then (Number (S754_infinity negative), (n + 8)%nat, true)
  else if starts_with (str "inf") rest then (Number (S754_infinity negative), (n + 3)%nat, true)
  else if starts_with (str "nan") rest then
    match drop 3 rest with
    | x28 :: r =>
        match nan_suffix r with
        | Some k => (NaN negative, (n + 4 + k)%nat, true)
        | None => (NaN negative, (n + 3)%nat, true)
        end
    | _ => (NaN negative, (n + 3)%nat, true)
    end
  else
    let '(m, e, k) := scan_decimal rest in
    if (k =? 0)%nat then (Number (S754_zero false), 0%nat, true)
    else
      let f := of_decimal negative m e in
      (Number f, (n + k)%nat, negb (out_of_range f m e)).

(** * printf("%.17g") *)

(** [num / den] to the nearest integer, ties to even. *)
Definition round_half_even (num den : Z) : Z :=
  let q := num / den in
  let r := num mod den in
  if 2 * r <? den then q
  else if den <? 2 * r then q + 1
  else if Z.even q then q else q + 1.

(** The power of ten of the first significant digit of [num / den > 0]. *)
Definition decimal_exponent (num den : Z) : Z :=
  if den <=? num then lenZ (Chars.digits (num / den)) - 1
  else - lenZ (Chars.digits ((den - 1) / num)).

(** The 17 significant digits of [num / den > 0], as an integer, and the power
    of ten of the first. *)
Definition significant (num den : Z) : Z * Z :=
  let x := decimal_exponent num den in
  let d :=
    if 0 <=? 16 - x then round_half_even (num * 10 ^ (16 - x)) den
    else round_half_even num (den * 10 ^ (x - 16)) in
  if d =? 10 ^ 17 then (10 ^ 16, x + 1) else (d, x).

Fixpoint strip_zeros_rev (l : bytes) : bytes :=
  match l with
  | x30 :: l => strip_zeros_rev l
  | _ => l
  end.

(** Trailing zeros are removed ([%g] without the [#] flag). *)
Definition strip_zeros (l : bytes) : bytes := rev (strip_zeros_rev (rev l)).

Definition with_fraction (int_part frac : bytes) : bytes :=
  match strip_zeros frac with
  | [] => int_part
  | f => int_part ++ x2e :: f
  end.

(** The exponent of scientific notation: a sign and at least two digits. *)
Definition exponent_text (x : Z) : bytes :=
  let d := Chars.digits (Z.abs x) in
  x65 :: (if x <? 0 then x2d else x2b) :: (if (length d <? 2)%nat then x30 :: d else d).

Definition format_digits (d x : Z) : bytes :=
  let ds := Chars.digits d in
  if (x <? -4) || (17 <=? x) then with_fraction (take 1 ds) (drop 1 ds) ++ exponent_text x
  else if 0 <=? x then
    with_fraction (take (Z.to_nat (x + 1)) ds) (drop (Z.to_nat (x + 1)) ds)
  else with_fraction [x30] (repeat x30 (Z.to_nat (- x - 1)) ++ ds).

Definition format_17g (d : double) : bytes :=
  match d with
  | NaN s => (if s then [x2d] else []) ++ str "nan"
  | Number (S754_zero s) => (if s then [x2d] else []) ++ str "0"
  | Number (S754_infinity s) => (if s then [x2d] else []) ++ str "inf"
  | Number S754_nan => str "nan"
  | Number (S754_finite s m e) =>
      let '(ds, x) := significant (Zpos m * 2 ^ (Z.max e 0)) (2 ^ (Z.max (- e) 0)) in
      (if s then [x2d] else []) ++ format_digits ds x
  end.

(** * Examples *)

Example format_ex1 : format_17g (strtod (str "0.1")).1.1 = str "0.10000000000000001".
Proof. by vm_compute. Qed.
Example format_ex2 : format_17g (strtod (str "-2.5e-7")).1.1 = str "-2.4999999999999999e-07".
Proof. by vm_compute. Qed.
Example format_ex3 : format_17g (strtod (str "1e300")).1.1 = str "1.0000000000000001e+300".
Proof. by vm_compute. Qed.
Example format_ex4 : format_17g (strtod (str "123456.75")).1.1 = str "123456.75".
Proof. by vm_compute. Qed.
Example format_ex5 : format_17g (strtod (str "3.0")).1.1 = str "3".
Proof. by vm_compute. Qed.
Example strtod_ex1 : strtod (str "1e400") = (Number (S754_infinity false), 5%nat, false).
Proof. by vm_compute. Qed.
Example strtod_ex2 : (strtod (str "5e-324,")).1.2 = 6%nat /\ (strtod (str "5e-324")).2 = false.
Proof. by vm_compute. Qed.
Example strtod_ex3 : strtod (str "-inf]") = (Number (S754_infinity true), 4%nat, true).
Proof. by vm_compute. Qed.

End JsonNumber.
