(* ===== verification/Json.v ===== *)
(** The JSON document model and its serializer: [JsonValue] and [serializeValue]
    of src/mcp/json_rpc.cpp. *)
From Stdlib Require Import ZArith Lia.
From Stdlib Require Import Strings.Byte.
From stdpp Require Import base list strings.
From S2P Require Import Prelude Chars JsonNumber.

(** * JsonValue *)

(** The type tag with the field it selects; the other fields of the class keep
    their defaults.  Members keep the order of insertion. *)
Unset Elimination Schemes.
Inductive JsonValue :=
  | JNull
  | JBool (b : bool)
  | JInteger (n : Z)
  | JDouble (d : JsonNumber.double)
  | JString (s : bytes)
  | JObject (members : list (bytes * JsonValue))
  | JArray (elements : list JsonValue).
Set Elimination Schemes.

(** Induction with a hypothesis for every member and element. *)
Section JsonValue_ind.
Context (P : JsonValue -> Prop).
Context (Hnull : P JNull) (Hbool : forall b, P (JBool b)) (Hint : forall n, P (JInteger n)).
Context (Hdouble : forall d, P (JDouble d)) (Hstring : forall s, P (JString s)).
Context (Hobject : forall ms, Forall (fun m => P m.2) ms -> P (JObject ms)).
Context (Harray : forall vs, Forall P vs -> P (JArray vs)).

Fixpoint JsonValue_nested_ind (v : JsonValue) : P v :=
  match v with
  | JNull => Hnull
  | JBool b => Hbool b
  | JInteger n => Hint n
  | JDouble d => Hdouble d
  | JString s => Hstring s
  | JObject ms =>
      Hobject ms ((fix go ms : Forall (fun m => P m.2) ms :=
        match ms with
        | [] => Forall_nil_2 _
        | m :: ms => Forall_cons_2 _ m ms (JsonValue_nested_ind m.2) (go ms)
        end) ms)
  | JArray vs =>
      Harray vs ((fix go vs : Forall P vs :=
        match vs with
        | [] => Forall_nil_2 _
        | v :: vs => Forall_cons_2 _ v vs (JsonValue_nested_ind v) (go vs)
        end) vs)
  end.
End JsonValue_ind.

(** [isNull] ... [isArray]. *)
Definition isNull (v : JsonValue) : bool := match v with JNull => true | _ => false end.
Definition isInteger (v : JsonValue) : bool := match v with JInteger _ => true | _ => false end.
Definition isDouble (v : JsonValue) : bool := match v with JDouble _ => true | _ => false end.
Definition isString (v : JsonValue) : bool := match v with JString _ => true | _ => false end.
Definition isObject (v : JsonValue) : bool := match v with JObject _ => true | _ => false end.
Definition isArray (v : JsonValue) : bool := match v with JArray _ => true | _ => false end.

(** [toString] of a value that is not a string is the empty default. *)
Definition toString (v : JsonValue) : bytes := match v with JString s => s | _ => [] end.

Definition members (v : JsonValue) : list (bytes * JsonValue) :=
  match v with JObject ms => ms | _ => [] end.
Definition elements (v : JsonValue) : list JsonValue :=
  match v with JArray vs => vs | _ => [] end.

Definition size (v : JsonValue) : Z :=
  match v with
  | JObject ms => lenZ ms
  | JArray vs => lenZ vs
  | _ => 0
  end.

Fixpoint find_member (key : bytes) (ms : list (bytes * JsonValue)) : option JsonValue :=
  match ms with
  | [] => None
  | (k, v) :: ms => if bool_decide (k = key) then Some v else find_member key ms
  end.

Definition hasMember (key : bytes) (v : JsonValue) : bool :=
  match v with
  | JObject ms => match find_member key ms with Some _ => true | None => false end
  | _ => false
  end.

(** [operator[](key)]: [None] is the [out_of_range] exception. *)
Definition member (key : bytes) (v : JsonValue) : option JsonValue := find_member key (members v).

Fixpoint set_member (key : bytes) (value : JsonValue) (ms : list (bytes * JsonValue)) :
    list (bytes * JsonValue) :=
  match ms with
  | [] => [(key, value)]
  | (k, v) :: ms =>
      if bool_decide (k = key) then (k, value) :: ms else (k, v) :: set_member key value ms
  end.

(** [set] on an object (its assertion). *)
Definition set (v : JsonValue) (key : bytes) (value : JsonValue) : JsonValue :=
  match v with
  | JObject ms => JObject (set_member key value ms)
  | _ => v
  end.

(** [push] on an array (its assertion). *)
Definition push (v : JsonValue) (value : JsonValue) : JsonValue :=
  match v with
  | JArray vs => JArray (vs ++ [value])
  | _ => v
  end.

(** * Serialization *)

Definition hex_digit (n : Z) : byte := if n <? 10 then z2b (48 + n) else z2b (97 + n - 10).

(** One character of a string literal. *)
Definition serializeChar (c : byte) : bytes :=
  match c with
  | x22 => [x5c; x22]
  | x5c => [x5c; x5c]
  | x08 => [x5c; x62]
  | x0c => [x5c; x66]
  | x0a => [x5c; x6e]
  | x0d => [x5c; x72]
  | x09 => [x5c; x74]
  | _ =>
      if b2z c <? 0x20 then
        [x5c; x75; x30; x30; hex_digit (b2z c / 16); hex_digit (b2z c mod 16)]
      else [c]
  end.

Definition serializeString (s : bytes) : bytes :=
  [x22] ++ concat (map serializeChar s) ++ [x22].

(** The members and elements are separated by commas. *)
Fixpoint comma_separated (l : list bytes) : bytes :=
  match l with
  | [] => []
  | [t] => t
  | t :: l => t ++ x2c :: comma_separated l
  end.

Fixpoint serializeValue (v : JsonValue) : bytes :=
  match v with
  | JNull => str "null"
  | JBool b => if b then str "true" else str "false"
  | JInteger n => Chars.to_string n
  | JDouble d => JsonNumber.format_17g d
  | JString s => serializeString s
  | JObject ms =>
      [x7b] ++
      comma_separated (map (fun m => serializeString m.1 ++ [x3a] ++ serializeValue m.2) ms) ++ [x7d]
  | JArray vs => [x5b] ++ comma_separated (map serializeValue vs) ++ [x5d]
  end.

Definition serialize (v : JsonValue) : bytes := serializeValue v.

(** * JSON-RPC messages *)

Module ErrorCode.
Definition kParseError : Z := -32700.
Definition kInvalidRequest : Z := -32600.
Definition kMethodNotFound : Z := -32601.
Definition kInvalidParams : Z := -32602.
Definition kInternalError : Z := -32603.
End ErrorCode.

Record JsonRpcError := mkError {
  e_code : Z;
  e_message : bytes;
  e_data : option JsonValue;
}.

Definition error_object (e : JsonRpcError) : JsonValue :=
  let err := set (JObject []) (str "code") (JInteger (e_code e)) in
  let err := set err (str "message") (JString (e_message e)) in
  match e_data e with
  | Some data => set err (str "data") data
  | None => err
  end.

(** [JsonRpcError::serialize]. *)
Definition error_serialize (e : JsonRpcError) (id : JsonValue) : bytes :=
  let resp := set (JObject []) (str "jsonrpc") (JString (str "2.0")) in
  let resp := set resp (str "id") id in
  serialize (set resp (str "error") (error_object e)).

Record JsonRpcResponse := mkRpcResponse {
  rpc_id : JsonValue;
  rpc_result : option JsonValue;
  rpc_error : option JsonRpcError;
}.

Definition Success (id result : JsonValue) : JsonRpcResponse := mkRpcResponse id (Some result) None.

Definition Error (id : JsonValue) (code : Z) (message : bytes) (data : option JsonValue) :
    JsonRpcResponse :=
  mkRpcResponse id None (Some (mkError code message data)).

Definition response_object (r : JsonRpcResponse) : JsonValue :=
  let resp := set (JObject []) (str "jsonrpc") (JString (str "2.0")) in
  let resp := set resp (str "id") (rpc_id r) in
  let resp :=
    match rpc_result r with
    | Some result => set resp (str "result") result
    | None => resp
    end in
  match rpc_error r with
  | Some e => set resp (str "error") (error_object e)
  | None => resp
  end.

(** [JsonRpcResponse::serialize]. *)
Definition response_serialize (r : JsonRpcResponse) : bytes := serialize (response_object r).

Definition serializeResponse (id result : JsonValue) : bytes := response_serialize (Success id result).

Definition serializeError (id : JsonValue) (code : Z) (message : bytes) (data : option JsonValue) :
    bytes := response_serialize (Error id code message data).

Definition serializeParseError : bytes :=
  response_serialize (Error JNull ErrorCode.kParseError (str "Parse error") None).

Example serializeParseError_ex :
  serializeParseError =
  map (fun b => if bool_decide (b = x27) then x22 else b)
    (str "{'jsonrpc':'2.0','id':null,'error':{'code':-32700,'message':'Parse error'}}").
Proof. by vm_compute. Qed.
