(* ===== verification/JsonParser.v ===== *)
(** The JSON parser and the JSON-RPC request check: [JsonParserImpl] and
    [JsonRpcParser::parseRequest] of src/mcp/json_rpc.cpp. *)
From Stdlib Require Import ZArith Lia.
From Stdlib Require Import Strings.Byte.
From stdpp Require Import base list strings.
From S2P Require Import Prelude Chars JsonNumber Json.

Module JsonParserImpl.

(** [input_] from [pos_] on, the position for messages, and the first error
    (empty: none). *)
Record t := mk {
  rest : bytes;
  line_ : Z;
  col_ : Z;
  error_ : bytes;
}.

Definition init (input : bytes) : t := mk input 1 1 [].

(** * Lexer helpers *)

(** The end of the input reads as a NUL. *)
Definition peek (p : t) : byte := match rest p with [] => x00 | c :: _ => c end.

Definition advance (p : t) : byte * t :=
  match rest p with
  | [] => (x00, p)
  | c :: l =>
      if bool_decide (c = x0a) then (c, mk l (line_ p + 1) 1 (error_ p))
      else (c, mk l (line_ p) (col_ p + 1) (error_ p))
  end.

Definition is_space (c : byte) : bool :=
  bool_decide (c = x20) || bool_decide (c = x09) || bool_decide (c = x0a) || bool_decide (c = x0d).

(** [for (i = 0; i < n; ++i) advance();] *)
Fixpoint advance_n (n : nat) (p : t) : t :=
  match n with
  | O => p
  | S n => advance_n n (advance p).2
  end.

Fixpoint skip_loop (fuel : nat) (p : t) : t :=
  match fuel with
  | O => p
  | S f => if is_space (peek p) then skip_loop f (advance p).2 else p
  end.

(** Every iteration takes a character; a NUL is not white space. *)
Definition skipWhitespace (p : t) : t := skip_loop (length (rest p)) p.

Definition setError (msg : bytes) (p : t) : t :=
  match error_ p with
  | [] =>
      mk (rest p) (line_ p) (col_ p)
         (Chars.to_string (line_ p) ++ [x3a] ++ Chars.to_string (col_ p) ++ str ": " ++ msg)
  | _ => p
  end.

Definition has_error (p : t) : bool := negb (bool_decide (error_ p = [])).

Definition expect (expected : byte) (p : t) : t :=
  if negb (bool_decide (peek p = expected)) then setError (str "expected '" ++ [expected] ++ [x27]) p
  else (advance p).2.

(** A failing parser method: the message and the value [JsonValue()]. *)
Definition fails (msg : bytes) (p : t) : JsonValue * t := (JNull, setError msg p).

(** * Strings *)

Definition hex_value (h : byte) : option Z :=
  let n := b2z h in
  if (48 <=? n) && (n <=? 57) then Some (n - 48)
  else if (97 <=? n) && (n <=? 102) then Some (n - 97 + 10)
  else if (65 <=? n) && (n <=? 70) then Some (n - 65 + 10)
  else None.

(** The [i] digits of a [\u] escape that are left: the code point, or none
    after an error. *)
Fixpoint parseHex (i : nat) (codepoint : Z) (p : t) : option Z * t :=
  match i with
  | O => (Some codepoint, p)
  | S i =>
      match rest p with
      | [] => (None, setError (str "unterminated \u escape") p)
      | _ =>
          let '(hex, p) := advance p in
          let codepoint := u32 (Z.shiftl codepoint 4) in
          match hex_value hex with
          | Some d => parseHex i (Z.lor codepoint d) p
          | None => (None, setError (str "invalid hex digit in \u escape") p)
          end
      end
  end.

Definition encode_utf8 (codepoint : Z) : bytes :=
  if codepoint <=? 0x7F then [z2b codepoint]
  else if codepoint <=? 0x7FF then
    [z2b (Z.lor 0xC0 (Z.shiftr codepoint 6)); z2b (Z.lor 0x80 (Z.land codepoint 0x3F))]
  else
    [z2b (Z.lor 0xE0 (Z.shiftr codepoint 12));
     z2b (Z.lor 0x80 (Z.land (Z.shiftr codepoint 6) 0x3F));
     z2b (Z.lor 0x80 (Z.land codepoint 0x3F))].

(** The character an escape [\c] other than [\u] stands for. *)
Definition simple_escape (c : byte) : option byte :=
  match c with
  | x22 => Some x22
  | x5c => Some x5c
  | x2f => Some x2f
  | x62 => Some x08
  | x66 => Some x0c
  | x6e => Some x0a
  | x72 => Some x0d
  | x74 => Some x09
  | _ => None
  end.

Fixpoint parseString_loop (fuel : nat) (result : bytes) (p : t) : outcome (JsonValue * t) :=
  match rest p, fuel with
  | [], _ => Ret (fails (str "unterminated string") p)
  | _, O => OutOfFuel
  | _, S f =>
      let '(c, p) := advance p in
      if bool_decide (c = x22) then Ret (JString result, p)
      else if bool_decide (c = x5c) then
        match rest p with
        | [] => Ret (fails (str "unterminated string escape") p)
        | _ =>
            let '(c, p) := advance p in
            match simple_escape c with
            | Some b => parseString_loop f (result ++ [b]) p
            | None =>
                if bool_decide (c = x75) then
                  match parseHex 4 0 p with
                  | (None, p) => Ret (JNull, p)
                  | (Some codepoint, p) => parseString_loop f (result ++ encode_utf8 codepoint) p
                  end
                else Ret (fails (str "invalid escape character '\" ++ [c] ++ [x27]) p)
            end
        end
      else if b2z c <? 0x20 then Ret (fails (str "unescaped control character in string") p)
      else parseString_loop f (result ++ [c]) p
  end.

Definition parseString (p : t) : outcome (JsonValue * t) :=
  let p := expect x22 p in parseString_loop (length (rest p)) [] p.

(** * Numbers and literals *)

(** The text is followed by a NUL, where the C functions stop. *)
Definition parseNumber (p : t) : JsonValue * t :=
  let start := rest p in
  let '(int_val, consumed, in_range) := JsonNumber.strtoll start in
  let end_char := default x00 (start !! consumed) in
  if negb (consumed =? 0)%nat && in_range &&
     negb (bool_decide (end_char = x2e)) && negb (bool_decide (end_char = x65)) &&
     negb (bool_decide (end_char = x45))
  then (JInteger int_val, advance_n consumed p)
  else
    let '(dbl_val, consumed, in_range) := JsonNumber.strtod start in
    if (consumed =? 0)%nat || negb in_range then fails (str "invalid number literal") p
    else (JDouble dbl_val, advance_n consumed p).

Definition parseBool (p : t) : JsonValue * t :=
  if bool_decide (peek p = x74) then
    if bool_decide (take 4 (rest p) = str "true") then (JBool true, advance_n 4 p)
    else fails (str "invalid literal (expected true/false)") p
  else
    if bool_decide (take 5 (rest p) = str "false") then (JBool false, advance_n 5 p)
    else fails (str "invalid literal (expected true/false)") p.

Definition parseNull (p : t) : JsonValue * t :=
  if bool_decide (take 4 (rest p) = str "null") then (JNull, advance_n 4 p)
  else fails (str "invalid literal (expected null)") p.

(** * Values *)

Definition starts_number (c : byte) : bool := bool_decide (c = x2d) || Chars.is_digit c.

Fixpoint parseValue (fuel : nat) (p : t) {struct fuel} : outcome (JsonValue * t) :=
  match fuel with
  | O => OutOfFuel
  | S f =>
      let p := skipWhitespace p in
      let c := peek p in
      if bool_decide (c = x7b) then
        (* parseObject *)
        let p := skipWhitespace (expect x7b p) in
        if bool_decide (peek p = x7d) then Ret (JObject [], (advance p).2)
        else parseMembers f (JObject []) p
      else if bool_decide (c = x5b) then
        (* parseArray *)
        let p := skipWhitespace (expect x5b p) in
        if bool_decide (peek p = x5d) then Ret (JArray [], (advance p).2)
        else parseElements f (JArray []) p
      else if bool_decide (c = x22) then parseString p
      else if bool_decide (c = x74) || bool_decide (c = x66) then Ret (parseBool p)
      else if bool_decide (c = x6e) then Ret (parseNull p)
      else if starts_number c then Ret (parseNumber p)
      else Ret (fails (str "unexpected character '" ++ [c] ++ [x27]) p)
  end
with parseMembers (fuel : nat) (obj : JsonValue) (p : t) {struct fuel} : outcome (JsonValue * t) :=
  match fuel with
  | O => OutOfFuel
  | S f =>
      let p := skipWhitespace p in
      if negb (bool_decide (peek p = x22)) then Ret (fails (str "expected string key in object") p)
      else
        let* '(key, p) := parseString p in
        if has_error p then Ret (JNull, p)
        else
          let p := expect x3a (skipWhitespace p) in
          if has_error p then Ret (JNull, p)
          else
            let* '(value, p) := parseValue f (skipWhitespace p) in
            if has_error p then Ret (JNull, p)
            else
              let obj := set obj (toString key) value in
              let p := skipWhitespace p in
              if bool_decide (peek p = x7d) then Ret (obj, (advance p).2)
              else if negb (bool_decide (peek p = x2c)) then
                Ret (fails (str "expected ',' or '}' in object") p)
              else parseMembers f obj (advance p).2
  end
with parseElements (fuel : nat) (arr : JsonValue) (p : t) {struct fuel} : outcome (JsonValue * t) :=
  match fuel with
  | O => OutOfFuel
  | S f =>
      let* '(value, p) := parseValue f (skipWhitespace p) in
      if has_error p then Ret (JNull, p)
      else
        let arr := push arr value in
        let p := skipWhitespace p in
        if bool_decide (peek p = x5d) then Ret (arr, (advance p).2)
        else if negb (bool_decide (peek p = x2c)) then
          Ret (fails (str "expected ',' or ']' in array") p)
        else parseElements f arr (advance p).2
  end.

(** A nested array takes one character and two units of fuel a level. *)
Definition parse_fuel (p : t) : nat := (2 * length (rest p) + 2)%nat.

Definition parse (input : bytes) : outcome (JsonValue * t) :=
  let p := skipWhitespace (init input) in
  match rest p with
  | [] => Ret (fails (str "unexpected end of input") p)
  | _ =>
      let* '(result, p) := parseValue (parse_fuel p) p in
      if has_error p then Ret (JNull, p)
      else
        let p := skipWhitespace p in
        match rest p with
        | [] => Ret (result, p)
        | _ => Ret (fails (str "trailing characters after JSON value") p)
        end
  end.

End JsonParserImpl.

(** * JsonRpcParser::parseRequest *)

Record JsonRpcRequest := mkRpcRequest {
  rpc_method : bytes;
  req_id : JsonValue;
  params : JsonValue;
}.

Definition isNotification (r : JsonRpcRequest) : bool := isNull (req_id r).

(** The request, or the [last_error_]. *)
Definition check_request (root : JsonValue) : JsonRpcRequest + bytes :=
  if negb (isObject root) then inr (str "JSON-RPC request must be a JSON object")
  else if negb (hasMember (str "jsonrpc") root) ||
          negb (isString (default JNull (member (str "jsonrpc") root))) ||
          negb (bool_decide (toString (default JNull (member (str "jsonrpc") root)) = str "2.0")) then
    inr (str "missing or invalid 'jsonrpc' field (expected " ++ [x22] ++ str "2.0" ++ [x22] ++ str ")")
  else if negb (hasMember (str "method") root) ||
          negb (isString (default JNull (member (str "method") root))) then
    inr (str "missing or invalid 'method' field")
  else
    let method := toString (default JNull (member (str "method") root)) in
    let id := if negb (hasMember (str "id") root) then JNull else default JNull (member (str "id") root) in
    if negb (isNull id) && negb (isString id) && negb (isInteger id) && negb (isDouble id) then
      inr (str "'id' must be a string, number, or null (Notification)")
    else if negb (hasMember (str "params") root) then inl (mkRpcRequest method id JNull)
    else
      let params := default JNull (member (str "params") root) in
      if negb (isObject params) && negb (isArray params) then
        inr (str "'params' must be a JSON object or array when present")
      else inl (mkRpcRequest method id params).

Definition parseRequest (json_text : bytes) : outcome (JsonRpcRequest + bytes) :=
  let* '(root, p) := JsonParserImpl.parse json_text in
  if JsonParserImpl.has_error p then Ret (inr (JsonParserImpl.error_ p))
  else Ret (check_request root).

Definition q (s : string) : bytes := map (fun b => if bool_decide (b = x27) then x22 else b) (str s).

Example parse_ex1 :
  parseRequest (q "{'jsonrpc':'2.0', 'method':'ping', 'id': 7}") =
  Ret (inl (mkRpcRequest (str "ping") (JInteger 7) JNull)).
Proof. by vm_compute. Qed.
Example parse_ex2 : parseRequest (q "{'a' 1}") = Ret (inr (str "1:6: expected ':'")).
Proof. by vm_compute. Qed.
