(* ===== verification/JsonFacts.v ===== *)
(** Theorems about the JSON code: the parser terminates on every input, parsing
    what the serializer wrote gives the value back, serialized text is one
    line, and what the parser accepts beyond JSON. *)
From Stdlib Require Import ZArith Lia.
From Stdlib Require Import Strings.Byte.
From stdpp Require Import base list strings.
From S2P Require Import Prelude Chars JsonNumber Json JsonParser.
Import JsonParserImpl.

(** * Progress of the lexer *)

Definition left (p : t) : nat := length (rest p).

Lemma advance_left p : left (advance p).2 = pred (left p).
Proof. unfold advance, left. destruct (rest p) as [|c l] eqn:E; [cbn; by rewrite E|]. by case_bool_decide. Qed.

Lemma skip_loop_left n p : (left (skip_loop n p) <= left p)%nat.
Proof.
  revert p. induction n as [|n IH]; intros p; cbn; [lia|].
  destruct (is_space _); [|lia]. specialize (IH (advance p).2). rewrite advance_left in IH. lia.
Qed.

Lemma skipWhitespace_left p : (left (skipWhitespace p) <= left p)%nat.
Proof. apply skip_loop_left. Qed.

Lemma setError_left msg p : left (setError msg p) = left p.
Proof. unfold setError, left. by destruct (error_ p). Qed.

Lemma expect_left c p : (left (expect c p) <= left p)%nat.
Proof.
  unfold expect. destruct (negb _); [by rewrite setError_left|]. rewrite advance_left. lia.
Qed.

(** A character that is there is taken. *)
Lemma peek_left p : peek p <> x00 -> (0 < left p)%nat.
Proof. unfold peek, left. destruct (rest p); cbn; [done|lia]. Qed.

Lemma expect_takes c p : peek p = c -> c <> x00 -> (left (expect c p) < left p)%nat.
Proof.
  intros H Hc. assert (0 < left p)%nat by (apply peek_left; by rewrite H).
  unfold expect. rewrite H, bool_decide_true by done. cbn [negb]. rewrite advance_left. lia.
Qed.

Lemma advance_n_left n p : (left (advance_n n p) <= left p)%nat.
Proof.
  revert p. induction n as [|n IH]; intros p; cbn; [lia|].
  specialize (IH (advance p).2). rewrite advance_left in IH. lia.
Qed.

Lemma parseHex_left i cp p : (left (parseHex i cp p).2 <= left p)%nat.
Proof.
  revert cp p. induction i as [|i IH]; intros cp p; cbn [parseHex]; [done|].
  destruct (rest p) eqn:E; [by cbn; rewrite setError_left|].
  pose proof (advance_left p) as Ha. destruct (advance p) as [h p1]; cbn [snd] in *.
  destruct (hex_value h).
  - specialize (IH (Z.lor (u32 (Z.shiftl cp 4)) z) p1). lia.
  - cbn. rewrite setError_left. lia.
Qed.

(** The outcome is a return with no more input than [n]. *)
Definition returns_within (n : nat) (m : outcome (JsonValue * t)) : Prop :=
  exists v p, m = Ret (v, p) /\ (left p <= n)%nat.

Lemma fails_within n msg p : (left p <= n)%nat -> returns_within n (Ret (fails msg p)).
Proof. intros H. eexists _, _. split; [done|]. by rewrite setError_left. Qed.

Lemma returns_weaken n m r : (n <= m)%nat -> returns_within n r -> returns_within m r.
Proof. intros H (v & p & -> & Hp). exists v, p. split; [done|lia]. Qed.

Lemma parseString_loop_total n s p :
  (left p <= n)%nat -> returns_within (left p) (parseString_loop n s p).
Proof.
  revert s p. induction n as [|n IH]; intros s p Hn; unfold left in Hn.
  - unfold parseString_loop. destruct (rest p) eqn:E; [by apply fails_within|cbn in Hn; lia].
  - cbn [parseString_loop]. destruct (rest p) as [|c0 l] eqn:E; [by apply fails_within|].
    pose proof (advance_left p) as Ha. unfold left at 2 in Ha. rewrite E in Ha. cbn in Ha, Hn.
    assert (Hp : left p = S (length l)) by (unfold left; by rewrite E). rewrite Hp.
    destruct (advance p) as [c p1]; cbn [snd] in Ha.
    case_bool_decide; [eexists _, _; split; [done|lia]|].
    case_bool_decide.
    + destruct (rest p1) eqn:E1; [apply fails_within; lia|].
      pose proof (advance_left p1) as Ha1. destruct (advance p1) as [c1 p2]; cbn [snd] in Ha1.
      destruct (simple_escape c1).
      * eapply returns_weaken; [|apply IH]; lia.
      * case_bool_decide; [|apply fails_within; lia].
        pose proof (parseHex_left 4 0 p2) as Hh.
        destruct (parseHex 4 0 p2) as [[cp|] p3]; cbn [snd] in Hh.
        -- eapply returns_weaken; [|apply IH]; lia.
        -- eexists _, _. split; [done|lia].
    + case_if; [apply fails_within; lia|]. eapply returns_weaken; [|apply IH]; lia.
Qed.

Lemma parseString_total p : returns_within (left (expect x22 p)) (parseString p).
Proof. unfold parseString. by apply parseString_loop_total. Qed.

Lemma parseNumber_left p : (left (parseNumber p).2 <= left p)%nat.
Proof.
  unfold parseNumber. destruct (JsonNumber.strtoll _) as [[v k] b].
  destruct (_ && _); [apply advance_n_left|]. destruct (JsonNumber.strtod _) as [[d k2] b2].
  destruct (_ || _); cbn; [by rewrite setError_left|apply advance_n_left].
Qed.

Lemma parseBool_left p : (left (parseBool p).2 <= left p)%nat.
Proof.
  unfold parseBool. repeat case_bool_decide; cbn -[advance_n]; rewrite ?setError_left;
    try apply advance_n_left; done.
Qed.

Lemma parseNull_left p : (left (parseNull p).2 <= left p)%nat.
Proof.
  unfold parseNull. case_bool_decide; cbn -[advance_n]; rewrite ?setError_left;
    try apply advance_n_left; done.
Qed.

Lemma pair_within n (r : JsonValue * t) : (left r.2 <= n)%nat -> returns_within n (Ret r).
Proof. destruct r as [v p]. intros H. by exists v, p. Qed.

(** Enough fuel: two units a character. *)
Lemma parse_total_fuel fuel :
  (forall p, (2 * left p + 1 <= fuel)%nat -> returns_within (left p) (parseValue fuel p)) /\
  (forall obj p, (2 * left p + 2 <= fuel)%nat -> returns_within (left p) (parseMembers fuel obj p)) /\
  (forall arr p, (2 * left p + 2 <= fuel)%nat -> returns_within (left p) (parseElements fuel arr p)).
Proof.
  induction fuel as [|f (IHv & IHm & IHe)]; [repeat split; intros; lia|]. split; [|split].
  - intros p Hf. cbn [parseValue]. pose proof (skipWhitespace_left p) as Hs.
    set (p1 := skipWhitespace p) in *. clearbody p1. eapply returns_weaken; [exact Hs|].
    case_bool_decide as Hc; [|clear Hc; case_bool_decide as Hc; [|clear Hc]].
    + pose proof (expect_takes x7b p1 Hc ltac:(done)) as Ht.
      pose proof (skipWhitespace_left (expect x7b p1)) as Hs2.
      case_bool_decide; [apply pair_within; cbn [snd]; rewrite advance_left; lia|].
      eapply returns_weaken; [|apply IHm]; lia.
    + pose proof (expect_takes x5b p1 Hc ltac:(done)) as Ht.
      pose proof (skipWhitespace_left (expect x5b p1)) as Hs2.
      case_bool_decide; [apply pair_within; cbn [snd]; rewrite advance_left; lia|].
      eapply returns_weaken; [|apply IHe]; lia.
    + case_bool_decide; [eapply returns_weaken; [apply (expect_left x22)|apply parseString_total]|].
      destruct (_ || _); [apply pair_within, parseBool_left|].
      case_bool_decide; [apply pair_within, parseNull_left|].
      destruct (starts_number _); [apply pair_within, parseNumber_left|].
      by apply fails_within.
  - intros obj p Hf. cbn [parseMembers]. pose proof (skipWhitespace_left p) as Hs.
    set (p1 := skipWhitespace p) in *. clearbody p1. eapply returns_weaken; [exact Hs|].
    case_bool_decide as Hq; cbn [negb]; [|by apply fails_within].
    pose proof (expect_takes x22 p1 Hq ltac:(done)) as Ht.
    destruct (parseString_total p1) as (key & p2 & -> & H2). cbn [mbind outcome_bind].
    destruct (has_error p2); [apply pair_within; cbn; lia|].
    pose proof (skipWhitespace_left p2) as Hs2. pose proof (expect_left x3a (skipWhitespace p2)) as He.
    set (p3 := expect x3a (skipWhitespace p2)) in *. clearbody p3.
    destruct (has_error p3); [apply pair_within; cbn; lia|].
    pose proof (skipWhitespace_left p3) as Hs3.
    destruct (IHv (skipWhitespace p3) ltac:(lia)) as (v & p4 & -> & H4). cbn [mbind outcome_bind].
    destruct (has_error p4); [apply pair_within; cbn; lia|].
    pose proof (skipWhitespace_left p4) as Hs4. set (p5 := skipWhitespace p4) in *. clearbody p5.
    case_bool_decide; [apply pair_within; cbn [snd]; rewrite advance_left; lia|].
    destruct (negb _); [apply fails_within; lia|].
    eapply returns_weaken; [|apply IHm]; rewrite advance_left; lia.
  - intros arr p Hf. cbn [parseElements]. pose proof (skipWhitespace_left p) as Hs.
    destruct (IHv (skipWhitespace p) ltac:(lia)) as (v & p4 & -> & H4). cbn [mbind outcome_bind].
    destruct (has_error p4); [apply pair_within; cbn; lia|].
    pose proof (skipWhitespace_left p4) as Hs4. set (p5 := skipWhitespace p4) in *. clearbody p5.
    case_bool_decide; [apply pair_within; cbn [snd]; rewrite advance_left; lia|].
    case_bool_decide as Hcm; cbn [negb]; [|apply fails_within; lia].
    assert (0 < left p5)%nat by (apply peek_left; by rewrite Hcm).
    eapply returns_weaken; [|apply IHe]; rewrite advance_left; lia.
Qed.

(** * Text without line feeds *)

Definition plain (b : byte) : Prop := 0x20 <= b2z b.

(** The state after the text [l] in front of [r] was taken. *)
Definition after (l : bytes) (p : t) (r : bytes) : t := mk r (line_ p) (col_ p + lenZ l) (error_ p).

Lemma advance_plain b r l c e :
  plain b -> advance (mk (b :: r) l c e) = (b, mk r l (c + 1) e).
Proof.
  intros H. unfold advance; cbn. rewrite bool_decide_false; [done|]. intros ->. by vm_compute in H.
Qed.

Lemma advance_n_plain t r l c e :
  Forall plain t -> advance_n (length t) (mk (t ++ r) l c e) = mk r l (c + lenZ t) e.
Proof.
  intros H. revert c. induction H as [|b t Hb Ht IH]; intros c; cbn [length advance_n app].
  - by rewrite lenZ_nil, Z.add_0_r.
  - rewrite advance_plain by done. cbn [snd]. rewrite IH, lenZ_cons. f_equal. lia.
Qed.

Lemma skipWhitespace_none p : is_space (peek p) = false -> skipWhitespace p = p.
Proof. intros H. unfold skipWhitespace. destruct (length (rest p)); cbn; by rewrite ?H. Qed.

(** ** Strings *)

Lemma serializeChar_plain b : Forall plain (serializeChar b).
Proof. by destruct b; repeat constructor; vm_compute. Qed.

Lemma serializeString_plain s : Forall plain (serializeString s).
Proof.
  unfold serializeString. apply Forall_app. split; [by repeat constructor|].
  apply Forall_app. split; [|by repeat constructor].
  induction s as [|b s IH]; cbn; [constructor|]. apply Forall_app. split; [apply serializeChar_plain|done].
Qed.

(** The parser undoes the escape of one character. *)
Lemma parseString_char b tail f s l c :
  parseString_loop (S f) s (mk (serializeChar b ++ tail) l c []) =
  parseString_loop f (s ++ [b]) (advance_n (length (serializeChar b)) (mk (serializeChar b ++ tail) l c [])).
Proof. by destruct b. Qed.

Lemma parseString_chars s0 s r f l c :
  (length s < f)%nat ->
  parseString_loop f s0 (mk (concat (map serializeChar s) ++ x22 :: r) l c []) =
  Ret (JString (s0 ++ s), mk r l (c + lenZ (concat (map serializeChar s)) + 1) []).
Proof.
  revert s0 f c. induction s as [|b s IH]; intros s0 f c Hf; (destruct f as [|f]; [cbn in Hf; lia|]).
  - cbn [map concat app]. cbn [parseString_loop rest]. rewrite advance_plain by (by vm_compute).
    rewrite bool_decide_true by done. by rewrite app_nil_r, lenZ_nil, Z.add_0_r.
  - cbn [map concat]. rewrite <- app_assoc, parseString_char.
    rewrite advance_n_plain by apply serializeChar_plain. cbn in Hf. rewrite IH by lia.
    rewrite <- app_assoc, lenZ_app. do 3 f_equal. lia.
Qed.

Lemma length_chars s : (length s <= length (concat (map serializeChar s)))%nat.
Proof.
  induction s as [|b s IH]; cbn; [lia|]. rewrite length_app.
  assert (1 <= length (serializeChar b))%nat by (destruct b; cbn; lia). lia.
Qed.

Lemma parseString_serialize s r l c :
  parseString (mk (serializeString s ++ r) l c []) =
  Ret (JString s, mk r l (c + lenZ (serializeString s)) []).
Proof.
  unfold parseString, serializeString. cbn [app]. unfold expect. cbn [peek rest].
  rewrite bool_decide_true by done. cbn [negb].
  rewrite advance_plain by (by vm_compute). cbn [snd rest]. rewrite <- app_assoc. cbn [app].
  rewrite parseString_chars.
  - rewrite lenZ_cons, lenZ_app, lenZ_cons, lenZ_nil. do 3 f_equal. lia.
  - rewrite length_app; cbn. pose proof (length_chars s). lia.
Qed.

(** ** Numbers *)

(** What follows a value inside a document. *)
Definition delim (r : bytes) : Prop :=
  match r with
  | [] => True
  | b :: _ => b = x2c \/ b = x7d \/ b = x5d
  end.

Lemma delim_not_digit r : delim r -> forall b r', r = b :: r' -> Chars.is_digit b = false.
Proof. intros H b r' ->. by destruct H as [->|[->| ->]]. Qed.

Lemma scan_digits_delim r l acc n :
  delim r -> Chars.scan_digits (l ++ r) acc n = Chars.scan_digits l acc n.
Proof.
  intros Hr. revert acc n. induction l as [|b l IH]; intros acc n; cbn.
  - destruct r as [|b r]; [done|]. cbn. by rewrite (delim_not_digit _ Hr b r).
  - by rewrite !IH.
Qed.

Lemma split_sign_delim r l :
  delim r -> JsonNumber.split_sign (l ++ r) =
  let '(s, n, l') := JsonNumber.split_sign l in (s, n, l' ++ r).
Proof.
  intros Hr. destruct l as [|b l]; [|by destruct b].
  destruct r as [|b r]; [done|]. by destruct Hr as [->|[->| ->]].
Qed.

Lemma strtoll_delim r l : delim r -> JsonNumber.strtoll (l ++ r) = JsonNumber.strtoll l.
Proof.
  intros Hr. unfold JsonNumber.strtoll. rewrite (split_sign_delim r l Hr).
  destruct (JsonNumber.split_sign l) as [[s n] l']. by rewrite scan_digits_delim.
Qed.

Lemma starts_with_delim word r l :
  delim r -> Forall (fun b => JsonNumber.is_nan_char b = true) word ->
  JsonNumber.starts_with word (l ++ r) = JsonNumber.starts_with word l.
Proof.
  intros Hr Hw. unfold JsonNumber.starts_with. apply bool_decide_ext.
  destruct (Nat.le_gt_cases (length word) (length l)) as [Hl|Hl].
  { by rewrite take_app_le. }
  destruct r as [|b r]; [by rewrite app_nil_r|]. split; intros E; exfalso.
  - rewrite take_app_ge in E by lia. rewrite map_app in E.
    replace (length word - length l)%nat with (S (length word - length l - 1)) in E by lia.
    cbn in E. rewrite <- E in Hw. apply Forall_app in Hw as [_ Hw]. inversion Hw as [|? ? Hb _]; subst.
    by destruct Hr as [->|[->| ->]].
  - apply (f_equal length) in E. rewrite length_map, take_ge in E by lia. lia.
Qed.

Lemma nan_suffix_delim r l :
  delim r -> JsonNumber.nan_suffix (l ++ r) = JsonNumber.nan_suffix l.
Proof.
  intros Hr. induction l as [|b l IH].
  - destruct r as [|b r]; [done|]. by destruct Hr as [->|[->| ->]].
  - cbn [app JsonNumber.nan_suffix]. rewrite IH. by destruct b.
Qed.

Lemma scan_exponent_delim r l :
  delim r -> JsonNumber.scan_exponent (l ++ r) = JsonNumber.scan_exponent l.
Proof.
  intros Hr. destruct l as [|b l].
  - destruct r as [|b r]; [done|]. by destruct Hr as [->|[->| ->]].
  - cbn [app JsonNumber.scan_exponent]. destruct (_ || _); [|done].
    rewrite (split_sign_delim r l Hr). destruct (JsonNumber.split_sign l) as [[s n] l'].
    by rewrite scan_digits_delim.
Qed.

Lemma scan_digits_consumed l acc : ((Chars.scan_digits l acc 0).2 <= length l)%nat.
Proof.
  pose proof (Chars.scan_digits_spec l acc 0) as H. destruct (Chars.scan_digits l acc 0) as [v m].
  destruct H as (_ & H & _). cbn. lia.
Qed.

Lemma scan_decimal_delim r l :
  delim r -> JsonNumber.scan_decimal (l ++ r) = JsonNumber.scan_decimal l.
Proof.
  intros Hr. unfold JsonNumber.scan_decimal. rewrite scan_digits_delim by done.
  pose proof (scan_digits_consumed l 0) as H1. destruct (Chars.scan_digits l 0 0) as [v1 n1]; cbn in H1.
  rewrite drop_app_le by done.
  assert (Hd : length (drop n1 l) = (length l - n1)%nat) by apply length_drop.
  assert (Hfrac : match drop n1 l ++ r with
                  | x2e :: r0 => let '(v, n) := Chars.scan_digits r0 v1 0 in (v, n, 1%nat)
                  | _ => (v1, 0%nat, 0%nat)
                  end =
                  match drop n1 l with
                  | x2e :: r0 => let '(v, n) := Chars.scan_digits r0 v1 0 in (v, n, 1%nat)
                  | _ => (v1, 0%nat, 0%nat)
                  end).
  { destruct (drop n1 l) as [|b d].
    - destruct r as [|b r]; [done|]. by destruct Hr as [->|[->| ->]].
    - cbn [app]. destruct b; try done. by rewrite scan_digits_delim. }
  rewrite Hfrac.
  assert (Hcons : (let '(_, n2, dot) := match drop n1 l with
                  | x2e :: r0 => let '(v, n) := Chars.scan_digits r0 v1 0 in (v, n, 1%nat)
                  | _ => (v1, 0%nat, 0%nat)
                  end in n1 + dot + n2 <= length l)%nat).
  { destruct (drop n1 l) as [|b d]; [lia|]. destruct b; try lia.
    pose proof (scan_digits_consumed d v1) as H2. destruct (Chars.scan_digits d v1 0); cbn in *. lia. }
  destruct (match drop n1 l with x2e :: _ => _ | _ => _ end) as [[v2 n2] dot].
  destruct (n1 + n2 =? 0)%nat; [done|]. rewrite drop_app_le by done.
  by rewrite scan_exponent_delim.
Qed.

Lemma strtod_delim r l : delim r -> JsonNumber.strtod (l ++ r) = JsonNumber.strtod l.
Proof.
  intros Hr. unfold JsonNumber.strtod. rewrite (split_sign_delim r l Hr).
  destruct (JsonNumber.split_sign l) as [[s n] l'].
  rewrite !starts_with_delim by (done || (apply Forall_forall; intros b Hb; repeat
    (apply elem_of_cons in Hb as [->|Hb]; [done|]); by apply elem_of_nil in Hb)).
  destruct (JsonNumber.starts_with (str "infinity") l'); [done|].
  destruct (JsonNumber.starts_with (str "inf") l'); [done|].
  destruct (JsonNumber.starts_with (str "nan") l') eqn:En; [|by rewrite scan_decimal_delim].
  assert (Hl : (3 <= length l')%nat).
  { unfold JsonNumber.starts_with in En. apply bool_decide_eq_true in En.
    apply (f_equal length) in En. rewrite length_map, length_take in En.
    change (length (str "nan")) with 3%nat in En. lia. }
  rewrite drop_app_le by done. destruct (drop 3 l') as [|b d].
  - destruct r as [|b r]; [done|]. by destruct Hr as [->|[->| ->]].
  - cbn [app]. destruct b; try done. by rewrite nan_suffix_delim.
Qed.

(** * Values that survive the trip *)

(** The text of a double is not taken for an integer and reads back as that
    double.  This fails for integral doubles below [10 ^ 17] (their text has no
    point or exponent), infinities and NaNs. *)
Definition double_ok (d : JsonNumber.double) : bool :=
  let text := JsonNumber.format_17g d in
  let '(_, k, in_range) := JsonNumber.strtoll text in
  let end_char := default x00 (text !! k) in
  let '(d', k', in_range') := JsonNumber.strtod text in
  starts_number (default x00 (head text)) &&
  ((k =? 0)%nat || negb in_range || bool_decide (end_char = x2e) || bool_decide (end_char = x65) ||
   bool_decide (end_char = x45)) &&
  bool_decide (d' = d) && (k' =? length text)%nat && in_range'.

Fixpoint no_dup_keys (ms : list (bytes * JsonValue)) : bool :=
  match ms with
  | [] => true
  | (k, _) :: ms => negb (bool_decide (k ∈ map fst ms)) && no_dup_keys ms
  end.

(** Values the C++ code can hold (64-bit integers), with distinct keys and
    doubles that read back. *)
Fixpoint json_ok (v : JsonValue) : bool :=
  match v with
  | JInteger n => (JsonNumber.int64_min <=? n) && (n <=? JsonNumber.int64_max)
  | JDouble d => double_ok d
  | JObject ms => no_dup_keys ms && forallb (fun m => json_ok m.2) ms
  | JArray vs => forallb json_ok vs
  | _ => true
  end.

(** ** Numbers in a document *)

Lemma strtoll_to_string n r :
  JsonNumber.int64_min <= n <= JsonNumber.int64_max -> delim r ->
  JsonNumber.strtoll (Chars.to_string n ++ r) = (n, length (Chars.to_string n), true).
Proof.
  intros Hn Hr. rewrite strtoll_delim by done. unfold JsonNumber.strtoll, Chars.to_string.
  unfold JsonNumber.int64_min, JsonNumber.int64_max in *. case_if.
  - cbn [JsonNumber.split_sign].
    pose proof (Chars.scan_digits_digits (- n) [] ltac:(lia) Chars.digits_nil_not_digit) as Es.
    rewrite app_nil_r in Es. rewrite Es.
    destruct (Chars.digits_spec (- n) ltac:(lia)) as (_ & Hne & _).
    rewrite (proj2 (Nat.eqb_neq _ _)) by (by destruct (Chars.digits (- n))).
    rewrite Z.opp_involutive, (proj2 (Z.leb_le _ _)), (proj2 (Z.leb_le _ _)) by lia. done.
  - destruct (Chars.digits_head n ltac:(lia)) as (b & l & El & Hb).
    assert (Hs : JsonNumber.split_sign (Chars.digits n) = (false, 0%nat, Chars.digits n))
      by (rewrite El; by destruct b).
    rewrite Hs.
    pose proof (Chars.scan_digits_digits n [] ltac:(lia) Chars.digits_nil_not_digit) as Es.
    rewrite app_nil_r in Es. rewrite Es.
    destruct (Chars.digits_spec n ltac:(lia)) as (_ & Hne & _).
    rewrite (proj2 (Nat.eqb_neq _ _)) by (by destruct (Chars.digits n)).
    rewrite (proj2 (Z.leb_le _ _)), (proj2 (Z.leb_le _ _)) by lia. done.
Qed.

Lemma delim_end_char (l r : bytes) :
  delim r -> let b := default x00 ((l ++ r) !! length l) in b <> x2e /\ b <> x65 /\ b <> x45.
Proof.
  intros Hr. cbv zeta. rewrite lookup_app_r, Nat.sub_diag by lia.
  destruct r as [|b r]; cbn; [done|]. by destruct Hr as [->|[->| ->]].
Qed.

Lemma is_digit_plain b : Chars.is_digit b = true -> plain b.
Proof. unfold Chars.is_digit, plain. intros H. breflect. lia. Qed.

Lemma digits_plain n : 0 <= n -> Forall plain (Chars.digits n).
Proof.
  intros H. destruct (Chars.digits_spec n H) as (Hd & _). eapply Forall_impl; [exact Hd|].
  intros b. apply is_digit_plain.
Qed.

Lemma to_string_plain n : Forall plain (Chars.to_string n).
Proof.
  unfold Chars.to_string. case_if; [constructor; [by vm_compute|]|]; apply digits_plain; lia.
Qed.

Lemma parseNumber_integer n r l c :
  JsonNumber.int64_min <= n <= JsonNumber.int64_max -> delim r ->
  parseNumber (mk (Chars.to_string n ++ r) l c []) =
  (JInteger n, mk r l (c + lenZ (Chars.to_string n)) []).
Proof.
  intros Hn Hr. unfold parseNumber; cbn [rest]. rewrite strtoll_to_string by done.
  destruct (delim_end_char (Chars.to_string n) r Hr) as (H1 & H2 & H3).
  rewrite !bool_decide_false by done.
  assert (Hl : (length (Chars.to_string n) =? 0)%nat = false).
  { apply Nat.eqb_neq. unfold Chars.to_string. case_if; [done|].
    destruct (Chars.digits_head n ltac:(lia)) as (b & t & -> & _). done. }
  rewrite Hl. cbn [negb andb]. by rewrite advance_n_plain by apply to_string_plain.
Qed.

Lemma starts_number_dispatch b :
  starts_number b = true ->
  is_space b = false /\ b <> x7b /\ b <> x5b /\ b <> x22 /\ b <> x74 /\ b <> x66 /\ b <> x6e.
Proof. by destruct b. Qed.

Lemma advance_n_drop k p : rest (advance_n k p) = drop k (rest p).
Proof.
  revert p. induction k as [|k IH]; intros p; cbn; [done|]. rewrite IH. unfold advance.
  destruct (rest p) as [|b l] eqn:E; cbn; [by rewrite E, drop_nil|]. by case_bool_decide.
Qed.

Lemma strtoll_consumed T : ((JsonNumber.strtoll T).1.2 <= length T)%nat.
Proof.
  unfold JsonNumber.strtoll.
  assert (Hsp : let '(_, n, l') := JsonNumber.split_sign T in (n + length l' = length T)%nat)
    by (destruct T as [|x T']; [done|]; by destruct x).
  destruct (JsonNumber.split_sign T) as [[s n] l'].
  pose proof (scan_digits_consumed l' 0) as Hc. destruct (Chars.scan_digits l' 0 0) as [v0 k0]; cbn in Hc.
  destruct (k0 =? 0)%nat; cbn; lia.
Qed.

(** A delimiter after the text does not change how its end is judged. *)
Lemma end_char_delim T r k x :
  delim r -> (k <= length T)%nat -> x = x2e \/ x = x65 \/ x = x45 ->
  bool_decide (default x00 ((T ++ r) !! k) = x) = bool_decide (default x00 (T !! k) = x).
Proof.
  intros Hr Hk Hx. destruct (Nat.eq_dec k (length T)) as [->|Hne].
  - destruct (delim_end_char T r Hr) as (H1 & H2 & H3).
    rewrite (proj2 (lookup_ge_None T (length T))) by done. cbn.
    rewrite !bool_decide_false; [done|..]; destruct Hx as [->|[->| ->]]; done.
  - by rewrite lookup_app_l by lia.
Qed.

Lemma double_ok_text d : double_ok d = true -> starts_number (default x00 (head (JsonNumber.format_17g d))) = true.
Proof.
  unfold double_ok. destruct (JsonNumber.strtoll _) as [[? ?] ?].
  destruct (JsonNumber.strtod _) as [[? ?] ?]. intros H. by breflect.
Qed.

Lemma parseNumber_double d r l c :
  double_ok d = true -> delim r -> Forall plain (JsonNumber.format_17g d) ->
  parseNumber (mk (JsonNumber.format_17g d ++ r) l c []) =
  (JDouble d, mk r l (c + lenZ (JsonNumber.format_17g d)) []).
Proof.
  unfold double_ok. set (T := JsonNumber.format_17g d). clearbody T. intros Hd Hr Hpl.
  unfold parseNumber; cbn [rest]. rewrite strtoll_delim, strtod_delim by done.
  pose proof (strtoll_consumed T) as Hk.
  destruct (JsonNumber.strtoll T) as [[v k] b]; cbn in Hk.
  rewrite !end_char_delim by (done || tauto).
  destruct (JsonNumber.strtod T) as [[dv k2] b2]. breflect. subst k2 b2.
  match goal with H : bool_decide (dv = d) = true |- _ => apply bool_decide_eq_true in H as -> end.
  assert (Hcond : negb (k =? 0)%nat && b && negb (bool_decide (default x00 (T !! k) = x2e)) &&
    negb (bool_decide (default x00 (T !! k) = x65)) && negb (bool_decide (default x00 (T !! k) = x45)) = false).
  { destruct (k =? 0)%nat, b, (bool_decide (default x00 (T !! k) = x2e)),
      (bool_decide (default x00 (T !! k) = x65)), (bool_decide (default x00 (T !! k) = x45)); done. }
  rewrite Hcond.
  assert (Hne : (length T =? 0)%nat = false).
  { apply Nat.eqb_neq. by destruct T. }
  rewrite Hne. cbn [orb negb]. by rewrite advance_n_plain.
Qed.

(** ** Serialized text is plain *)

Lemma strip_zeros_plain l : Forall plain l -> Forall plain (JsonNumber.strip_zeros l).
Proof.
  intros H. unfold JsonNumber.strip_zeros. apply Forall_rev.
  assert (Hr : Forall plain (rev l)) by (by apply Forall_rev).
  induction Hr as [|b k Hb Hk IH]; cbn; [constructor|]. destruct b; try done; by constructor.
Qed.

Lemma with_fraction_plain a b : Forall plain a -> Forall plain b -> Forall plain (JsonNumber.with_fraction a b).
Proof.
  intros Ha Hb. unfold JsonNumber.with_fraction. apply strip_zeros_plain in Hb.
  destruct (JsonNumber.strip_zeros b); [done|]. apply Forall_app. split; [done|].
  by constructor; [vm_compute|].
Qed.

Lemma exponent_text_plain x : Forall plain (JsonNumber.exponent_text x).
Proof.
  unfold JsonNumber.exponent_text. constructor; [by vm_compute|].
  constructor; [case_if; by vm_compute|].
  pose proof (digits_plain (Z.abs x) ltac:(lia)). case_if; [constructor; [by vm_compute|done]|done].
Qed.

Lemma format_digits_plain d x : 0 <= d -> Forall plain (JsonNumber.format_digits d x).
Proof.
  intros Hd. pose proof (digits_plain d Hd) as H. unfold JsonNumber.format_digits.
  destruct (_ || _); [apply Forall_app; split; [|apply exponent_text_plain]|case_if];
    apply with_fraction_plain; try (by apply Forall_take); try (by apply Forall_drop).
  - by repeat constructor; vm_compute.
  - apply Forall_app. split; [|done]. apply Forall_forall. intros b Hb.
    apply list_elem_of_In, repeat_spec in Hb. subst b. by vm_compute.
Qed.

Lemma round_half_even_nonneg a b : 0 <= a -> 0 < b -> 0 <= JsonNumber.round_half_even a b.
Proof.
  intros Ha Hb. unfold JsonNumber.round_half_even. pose proof (Z.div_pos a b Ha Hb).
  repeat case_if; lia.
Qed.

Lemma significant_nonneg a b : 0 <= a -> 0 < b -> 0 <= (JsonNumber.significant a b).1.
Proof.
  intros Ha Hb. unfold JsonNumber.significant. cbv zeta. set (x := JsonNumber.decimal_exponent a b).
  match goal with |- context [if ?c =? 10 ^ 17 then _ else _] => set (d := c) end.
  assert (Hd : 0 <= d).
  { subst d. case_if; apply round_half_even_nonneg; try done.
    - apply Z.mul_nonneg_nonneg; [done|]. apply Z.pow_nonneg. lia.
    - apply Z.mul_pos_pos; [done|]. apply Z.pow_pos_nonneg; lia. }
  destruct (d =? 10 ^ 17); cbn [fst]; [lia|done].
Qed.

Lemma format_17g_plain d : Forall plain (JsonNumber.format_17g d).
Proof.
  assert (Hs : forall s : bool, Forall plain (if s then [x2d] else []))
    by (intros []; by repeat constructor; vm_compute).
  assert (Hw : forall (s : bool) w, Forall plain w -> Forall plain ((if s then [x2d] else []) ++ w))
    by (intros s w Hw; apply Forall_app; split; [apply Hs|done]).
  destruct d as [[s|s| |s m e]|s]; cbn [JsonNumber.format_17g].
  - apply Hw. by repeat constructor; vm_compute.
  - apply Hw. by repeat constructor; vm_compute.
  - by repeat constructor; vm_compute.
  - pose proof (significant_nonneg (Zpos m * 2 ^ Z.max e 0) (2 ^ Z.max (- e) 0)) as H.
    destruct (JsonNumber.significant _ _) as [ds x]. apply Hw, format_digits_plain, H.
    + apply Z.mul_nonneg_nonneg; [lia|]. apply Z.pow_nonneg. lia.
    + apply Z.pow_pos_nonneg; lia.
  - apply Hw. by repeat constructor; vm_compute.
Qed.

Lemma comma_separated_plain l : Forall (Forall plain) l -> Forall plain (comma_separated l).
Proof.
  induction 1 as [|t l Ht Hl IH]; cbn; [constructor|]. destruct l; [done|].
  apply Forall_app. split; [done|]. constructor; [by vm_compute|done].
Qed.

Lemma serializeValue_plain v : Forall plain (serializeValue v).
Proof.
  induction v as [| | | | |ms IH|vs IH] using JsonValue_nested_ind; cbn [serializeValue].
  - by repeat constructor; vm_compute.
  - destruct b; by repeat constructor; vm_compute.
  - apply to_string_plain.
  - apply format_17g_plain.
  - apply serializeString_plain.
  - constructor; [by vm_compute|]. apply Forall_app. split; [|by repeat constructor; vm_compute].
    apply comma_separated_plain, Forall_map. eapply Forall_impl; [exact IH|]. intros m Hm.
    apply Forall_app. split; [apply serializeString_plain|]. constructor; [by vm_compute|done].
  - constructor; [by vm_compute|]. apply Forall_app. split; [|by repeat constructor; vm_compute].
    by apply comma_separated_plain, Forall_map.
Qed.

(** ** The head of serialized text *)

Definition starts_value (l : bytes) : Prop := exists b l', l = b :: l' /\ is_space b = false.

Lemma serializeValue_head v : json_ok v = true -> starts_value (serializeValue v).
Proof.
  destruct v as [|b|n|d|s|ms|vs]; cbn [serializeValue json_ok]; intros H; try by eexists _, _.
  - destruct b; by eexists _, _.
  - unfold Chars.to_string. case_if; [by eexists _, _|].
    destruct (Chars.digits_head n ltac:(lia)) as (b & l & -> & Hb). exists b, l. split; [done|].
    by destruct b.
  - apply double_ok_text in H. destruct (JsonNumber.format_17g d) as [|b l]; [done|].
    exists b, l. split; [done|]. by apply starts_number_dispatch.
Qed.

(** ** Lists of elements and members *)

Definition parses (v : JsonValue) (t0 : bytes) : Prop :=
  forall fuel r l c, delim r -> (2 * length (t0 ++ r) + 1 <= fuel)%nat ->
  parseValue fuel (mk (t0 ++ r) l c []) = Ret (v, mk r l (c + lenZ t0) []).

Lemma skip_starts t0 r l c :
  starts_value t0 -> skipWhitespace (mk (t0 ++ r) l c []) = mk (t0 ++ r) l c [].
Proof. intros (b & l' & -> & Hb). by apply skipWhitespace_none. Qed.

Lemma skip_delim r l c : delim r -> skipWhitespace (mk r l c []) = mk r l c [].
Proof.
  intros Hr. apply skipWhitespace_none. destruct r as [|b r]; [done|].
  by destruct Hr as [->|[->| ->]].
Qed.

Lemma comma_separated_cons t0 l :
  comma_separated (t0 :: l) = t0 ++ match l with [] => [] | _ => x2c :: comma_separated l end.
Proof. destruct l; cbn; [by rewrite app_nil_r|done]. Qed.

Lemma parseElements_serialized vs acc fuel r l c :
  vs <> [] -> Forall (fun v => parses v (serializeValue v) /\ starts_value (serializeValue v)) vs ->
  (2 * length (comma_separated (map serializeValue vs) ++ x5d :: r) + 2 <= fuel)%nat ->
  parseElements fuel (JArray acc) (mk (comma_separated (map serializeValue vs) ++ x5d :: r) l c []) =
  Ret (JArray (acc ++ vs), mk r l (c + lenZ (comma_separated (map serializeValue vs)) + 1) []).
Proof.
  intros Hne Hvs. revert acc fuel c Hne. induction Hvs as [|v vs [Hv Hst] Hvs IH]; intros acc fuel c Hne Hf; [done|].
  destruct fuel as [|f]; [lia|]. cbn [map]. cbn [map] in Hf.
  rewrite comma_separated_cons in Hf |- *.
  set (tail := match map serializeValue vs with [] => [] | _ => x2c :: comma_separated (map serializeValue vs) end) in *.
  rewrite <- app_assoc in Hf |- *. cbn [parseElements]. rewrite skip_starts by done.
  assert (Hd : delim (tail ++ x5d :: r)) by (subst tail; destruct vs; cbn; tauto).
  rewrite Hv by (done || lia). cbn [mbind outcome_bind]. change (has_error (mk _ _ _ [])) with false. cbn iota.
  rewrite skip_delim by done. cbn [push].
  assert (Hplain : plain x5d) by (by vm_compute). assert (Hplain2 : plain x2c) by (by vm_compute).
  destruct vs as [|v2 vs].
  - subst tail. cbn [map app] in *. cbn [peek rest]. rewrite bool_decide_true by done.
    rewrite advance_plain by done. cbn [snd]. by rewrite app_nil_r.
  - subst tail. cbn [map app] in *. cbn [peek rest]. rewrite bool_decide_false by done.
    rewrite bool_decide_true by done. cbn [negb]. rewrite advance_plain by done. cbn [snd].
    rewrite length_app in Hf. cbn [length] in Hf.
    rewrite IH; [|done|lia]. rewrite <- app_assoc. cbn [app].
    rewrite (lenZ_app (serializeValue v)), (lenZ_cons x2c). do 3 f_equal. lia.
Qed.

Definition member_text (m : bytes * JsonValue) : bytes :=
  serializeString m.1 ++ [x3a] ++ serializeValue m.2.

Lemma lenZ_member_text k v :
  lenZ (member_text (k, v)) = lenZ (serializeString k) + 1 + lenZ (serializeValue v).
Proof. unfold member_text; cbn [fst snd]. rewrite !lenZ_app. change (lenZ [x3a]) with 1. lia. Qed.

Lemma set_member_fresh key v ms :
  key ∉ map fst ms -> set_member key v ms = ms ++ [(key, v)].
Proof.
  induction ms as [|[k w] ms IH]; cbn; [done|]. rewrite not_elem_of_cons. intros [H1 H2].
  rewrite bool_decide_false by (intros ->; done). by rewrite IH.
Qed.

Lemma parseMembers_serialized ms acc fuel r l c :
  ms <> [] -> Forall (fun m => parses m.2 (serializeValue m.2) /\ starts_value (serializeValue m.2)) ms ->
  no_dup_keys ms = true -> (forall k, k ∈ map fst acc -> k ∉ map fst ms) ->
  (2 * length (comma_separated (map member_text ms) ++ x7d :: r) + 2 <= fuel)%nat ->
  parseMembers fuel (JObject acc) (mk (comma_separated (map member_text ms) ++ x7d :: r) l c []) =
  Ret (JObject (acc ++ ms), mk r l (c + lenZ (comma_separated (map member_text ms)) + 1) []).
Proof.
  intros Hne Hms. revert acc fuel c Hne.
  induction Hms as [|[k v] ms [Hv Hst] Hms IH]; intros acc fuel c Hne Hnd Hacc Hf; [done|].
  destruct fuel as [|f]; [lia|]. cbn [map]. cbn [map] in Hf. cbn [fst snd] in *.
  rewrite comma_separated_cons in Hf |- *.
  set (tail := match map member_text ms with [] => [] | _ => x2c :: comma_separated (map member_text ms) end) in *.
  unfold member_text at 1. unfold member_text at 1 in Hf. cbn [fst snd] in *.
  rewrite <- !app_assoc in Hf |- *.
  assert (Hd : delim (tail ++ x7d :: r)) by (subst tail; destruct ms; cbn; tauto).
  cbn [parseMembers].
  assert (Hss : starts_value (serializeString k)) by (by eexists _, _).
  rewrite skip_starts by done.
  assert (Hpk : peek (mk (serializeString k ++ [x3a] ++ serializeValue v ++ tail ++ x7d :: r) l c []) = x22) by done.
  rewrite Hpk, bool_decide_true by done. cbn [negb]. rewrite parseString_serialize. cbn [mbind outcome_bind].
  change (has_error (mk _ _ _ [])) with false. cbn iota.
  cbn [app]. rewrite skipWhitespace_none by done. unfold expect. cbn [peek rest].
  rewrite bool_decide_true by done. cbn [negb]. rewrite advance_plain by (by vm_compute). cbn [snd].
  change (has_error (mk _ _ _ [])) with false. cbn iota.
  rewrite skip_starts by done.
  repeat (rewrite ?length_app in Hf; cbn [length] in Hf).
  assert (Hlk : (2 <= length (serializeString k))%nat) by (unfold serializeString; rewrite !length_app; cbn; lia).
  rewrite Hv by (done || (rewrite !length_app; cbn [length]; lia)). cbn [mbind outcome_bind].
  change (has_error (mk _ _ _ [])) with false. cbn iota. rewrite skip_delim by done.
  cbn [toString set]. cbn [no_dup_keys] in Hnd. apply andb_true_iff in Hnd as [Hk Hnd].
  apply negb_true_iff, bool_decide_eq_false in Hk.
  rewrite set_member_fresh by (intros Hin; apply Hacc in Hin; apply Hin; constructor).
  assert (Hplain : plain x7d) by (by vm_compute). assert (Hplain2 : plain x2c) by (by vm_compute).
  destruct ms as [|m2 ms].
  - subst tail. cbn [map app] in *. cbn [peek rest]. rewrite bool_decide_true by done.
    rewrite advance_plain by done. cbn [snd]. rewrite app_nil_r, lenZ_member_text. do 3 f_equal. lia.
  - subst tail. cbn [map app] in *. cbn [peek rest]. rewrite bool_decide_false by done.
    rewrite bool_decide_true by done. cbn [negb]. rewrite advance_plain by done. cbn [snd].
    rewrite IH; [|done|done| |].
    + rewrite <- !app_assoc. cbn [app].
      rewrite (lenZ_app (member_text (k, v))), lenZ_member_text, (lenZ_cons x2c). do 3 f_equal. lia.
    + intros k' Hk'. rewrite map_app in Hk'. apply elem_of_app in Hk' as [Hk'|Hk'].
      * apply Hacc in Hk'. rewrite not_elem_of_cons in Hk'. tauto.
      * apply list_elem_of_singleton in Hk' as ->. done.
    + rewrite length_app. cbn [length] in *. lia.
Qed.

(** The choice [parseValue] makes at a character that is not white space. *)
Definition dispatch (f : nat) (p : t) : outcome (JsonValue * t) :=
  let c := peek p in
  if bool_decide (c = x7b) then
    let p := skipWhitespace (expect x7b p) in
    if bool_decide (peek p = x7d) then Ret (JObject [], (advance p).2)
    else parseMembers f (JObject []) p
  else if bool_decide (c = x5b) then
    let p := skipWhitespace (expect x5b p) in
    if bool_decide (peek p = x5d) then Ret (JArray [], (advance p).2)
    else parseElements f (JArray []) p
  else if bool_decide (c = x22) then parseString p
  else if bool_decide (c = x74) || bool_decide (c = x66) then Ret (parseBool p)
  else if bool_decide (c = x6e) then Ret (parseNull p)
  else if starts_number c then Ret (parseNumber p)
  else Ret (fails (str "unexpected character '" ++ [c] ++ [x27]) p).

Lemma parseValue_dispatch f t0 r l c :
  starts_value t0 -> parseValue (S f) (mk (t0 ++ r) l c []) = dispatch f (mk (t0 ++ r) l c []).
Proof. intros H. cbn [parseValue]. by rewrite skip_starts. Qed.

Lemma dispatch_number f b l' r l c :
  starts_number b = true ->
  dispatch f (mk ((b :: l') ++ r) l c []) = Ret (parseNumber (mk ((b :: l') ++ r) l c [])).
Proof.
  intros Hb. destruct (starts_number_dispatch b Hb) as (_ & H1 & H2 & H3 & H4 & H5 & H6).
  unfold dispatch. cbn [peek rest app]. rewrite !bool_decide_false by done. by rewrite Hb.
Qed.

Lemma literal_plain w : forallb (fun b => 0x20 <=? b2z b) w = true -> Forall plain w.
Proof.
  intros H. rewrite forallb_forall in H. apply Forall_forall. intros b Hb.
  apply list_elem_of_In, H in Hb. unfold plain. lia.
Qed.

Lemma parses_literal w v :
  starts_value w -> forallb (fun b => 0x20 <=? b2z b) w = true ->
  (forall f r l c, dispatch f (mk (w ++ r) l c []) = Ret (v, advance_n (length w) (mk (w ++ r) l c []))) ->
  parses v w.
Proof.
  intros Hs Hp Hd fuel r l c _ Hf. destruct fuel as [|f]; [lia|].
  rewrite parseValue_dispatch, Hd, advance_n_plain by (done || by apply literal_plain). done.
Qed.

Lemma parses_number v w :
  starts_number (default x00 (head w)) = true ->
  (forall r l c, delim r -> parseNumber (mk (w ++ r) l c []) = (v, mk r l (c + lenZ w) [])) ->
  parses v w.
Proof.
  intros Hs Hn fuel r l c Hr Hf. destruct fuel as [|f]; [lia|].
  destruct w as [|b w]; [done|]. cbn in Hs.
  rewrite parseValue_dispatch by (exists b, w; split; [done|by apply starts_number_dispatch]).
  by rewrite dispatch_number, Hn.
Qed.

Lemma to_string_head n : starts_number (default x00 (head (Chars.to_string n))) = true.
Proof.
  unfold Chars.to_string. case_if; [done|].
  destruct (Chars.digits_head n ltac:(lia)) as (b & l & -> & Hb). cbn. unfold starts_number.
  by rewrite Hb, orb_true_r.
Qed.

Lemma parses_string s : parses (JString s) (serializeString s).
Proof.
  intros fuel r l c _ Hf. destruct fuel as [|f]; [lia|].
  rewrite parseValue_dispatch by (by eexists _, _).
  assert (Hd : dispatch f (mk (serializeString s ++ r) l c []) = parseString (mk (serializeString s ++ r) l c [])) by done.
  by rewrite Hd, parseString_serialize.
Qed.

Lemma comma_starts (l : list bytes) : l <> [] -> Forall starts_value l -> starts_value (comma_separated l).
Proof.
  intros Hne H. destruct H as [|w l (b & w' & -> & Hb) _]; [done|].
  rewrite comma_separated_cons. by eexists b, _.
Qed.

Lemma parses_array vs :
  Forall (fun v => parses v (serializeValue v) /\ starts_value (serializeValue v) /\
                   head (serializeValue v) <> Some x5d) vs ->
  parses (JArray vs) (serializeValue (JArray vs)).
Proof.
  intros Hvs fuel r l c Hr Hf. destruct fuel as [|f]; [lia|].
  rewrite parseValue_dispatch by (by eexists _, _). cbn [serializeValue] in *. rewrite <- !app_assoc in *.
  cbn [app] in *. unfold dispatch. cbn [peek rest]. rewrite bool_decide_false, bool_decide_true by done.
  unfold expect. cbn [peek rest]. rewrite (bool_decide_true (x5b = x5b)) by done. cbn [negb].
  rewrite advance_plain by (by vm_compute). cbn [snd].
  destruct vs as [|v vs].
  - cbn [map comma_separated app] in *. rewrite skip_delim by (cbn; tauto). cbn [peek rest].
    rewrite bool_decide_true by done. rewrite advance_plain by (by vm_compute). cbn [snd].
    change (lenZ [x5b; x5d]) with 2. do 3 f_equal. lia.
  - assert (Hst : starts_value (comma_separated (map serializeValue (v :: vs)))).
    { apply comma_starts; [done|]. apply Forall_map. eapply Forall_impl; [exact Hvs|]. cbn. tauto. }
    rewrite skip_starts by done.
    assert (Hpk : peek (mk (comma_separated (map serializeValue (v :: vs)) ++ x5d :: r) l (c + 1) []) <> x5d).
    { inversion Hvs as [|? ? (_ & (b & w & E & _) & Hb) _]; subst. cbn [map]. rewrite comma_separated_cons.
      rewrite E in *. cbn in *. congruence. }
    rewrite bool_decide_false by done. cbn [length] in Hf.
    rewrite parseElements_serialized; [|done| |lia].
    + rewrite app_nil_l, lenZ_cons, lenZ_app. change (lenZ [x5d]) with 1. do 3 f_equal. lia.
    + eapply Forall_impl; [exact Hvs|]. cbn. tauto.
Qed.

Lemma parses_object ms :
  Forall (fun m => parses m.2 (serializeValue m.2) /\ starts_value (serializeValue m.2)) ms ->
  no_dup_keys ms = true -> parses (JObject ms) (serializeValue (JObject ms)).
Proof.
  intros Hms Hnd fuel r l c Hr Hf. destruct fuel as [|f]; [lia|].
  rewrite parseValue_dispatch by (by eexists _, _). cbn [serializeValue] in *.
  change (map (fun m => serializeString m.1 ++ [x3a] ++ serializeValue m.2) ms) with (map member_text ms) in *.
  rewrite <- !app_assoc in *.
  cbn [app] in *. unfold dispatch. cbn [peek rest]. rewrite bool_decide_true by done.
  unfold expect. cbn [peek rest]. rewrite (bool_decide_true (x7b = x7b)) by done. cbn [negb].
  rewrite advance_plain by (by vm_compute). cbn [snd].
  destruct ms as [|m ms].
  - cbn [map comma_separated app] in *. rewrite skip_delim by (cbn; tauto). cbn [peek rest].
    rewrite bool_decide_true by done. rewrite advance_plain by (by vm_compute). cbn [snd].
    change (lenZ [x7b; x7d]) with 2. do 3 f_equal. lia.
  - assert (Hst : starts_value (comma_separated (map member_text (m :: ms)))).
    { apply comma_starts; [done|]. apply Forall_map. apply Forall_forall. intros m' _. by eexists _, _. }
    rewrite skip_starts by done.
    assert (Hpk : peek (mk (comma_separated (map member_text (m :: ms)) ++ x7d :: r) l (c + 1) []) <> x7d).
    { cbn [map]. rewrite comma_separated_cons. done. }
    rewrite bool_decide_false by done. cbn [length] in Hf.
    rewrite parseMembers_serialized; [|done|done|done| |lia].
    + rewrite app_nil_l, lenZ_cons, lenZ_app. change (lenZ [x7d]) with 1. do 3 f_equal. lia.
    + intros k Hk. by apply elem_of_nil in Hk.
Qed.

Lemma serializeValue_not_close v : json_ok v = true -> head (serializeValue v) <> Some x5d.
Proof.
  destruct v as [|b|n|d|s|ms|vs]; cbn [serializeValue json_ok]; intros H; try done.
  - by destruct b.
  - pose proof (to_string_head n) as Hh. intros E. by rewrite E in Hh.
  - apply double_ok_text in H. intros E. by rewrite E in H.
Qed.

(** The parser reads every value the serializer wrote, in any context. *)
Lemma parseValue_serialized v : json_ok v = true -> parses v (serializeValue v).
Proof.
  induction v as [|b|n|d|s|ms IH|vs IH] using JsonValue_nested_ind; intros Hok.
  - by apply parses_literal; [eexists _, _| |].
  - destruct b; by apply parses_literal; [eexists _, _| |].
  - cbn [json_ok] in Hok. breflect. apply parses_number; [apply to_string_head|].
    intros r l c Hr. by apply parseNumber_integer.
  - apply parses_number; [by apply double_ok_text|]. intros r l c Hr.
    apply parseNumber_double; [done|done|apply format_17g_plain].
  - apply parses_string.
  - cbn [json_ok] in Hok. apply andb_true_iff in Hok as [Hnd Hok]. apply parses_object; [|done].
    rewrite forallb_forall in Hok. apply Forall_forall. intros m Hm. rewrite Forall_forall in IH.
    specialize (IH m Hm). apply list_elem_of_In, Hok in Hm. split; [by apply IH|by apply serializeValue_head].
  - cbn [json_ok] in Hok. apply parses_array.
    rewrite forallb_forall in Hok. apply Forall_forall. intros v Hv. rewrite Forall_forall in IH.
    specialize (IH v Hv). apply list_elem_of_In, Hok in Hv.
    split; [by apply IH|]. split; [by apply serializeValue_head|by apply serializeValue_not_close].
Qed.

Lemma parse_serialized v :
  json_ok v = true -> exists p, parse (serialize v) = Ret (v, p) /\ has_error p = false.
Proof.
  intros Hok. pose proof (serializeValue_head v Hok) as Hst.
  pose proof (parseValue_serialized v Hok (parse_fuel (mk (serialize v ++ []) 1 1 [])) [] 1 1 I) as Hp.
  unfold parse, init. unfold serialize in *.
  assert (Hsk : skipWhitespace (mk (serializeValue v) 1 1 []) = mk (serializeValue v) 1 1 []).
  { rewrite <- (app_nil_r (serializeValue v)). by apply skip_starts. }
  rewrite Hsk. cbn [rest]. rewrite app_nil_r in Hp. unfold parse_fuel in *. cbn [rest] in *.
  destruct (serializeValue v) as [|b w] eqn:E; [by destruct Hst as (? & ? & ? & _)|].
  rewrite Hp by lia. cbn [mbind outcome_bind]. change (has_error (mk _ _ _ [])) with false. cbn iota.
  rewrite (skip_delim [] _ _ I). cbn [rest]. by eexists.
Qed.

(** * Requests and responses *)

(** A request as a client writes it. *)
Definition request_object (r : JsonRpcRequest) : JsonValue :=
  JObject ([(str "jsonrpc", JString (str "2.0")); (str "method", JString (rpc_method r));
            (str "id", req_id r)] ++
           match params r with JNull => [] | ps => [(str "params", ps)] end).

Definition id_valid (v : JsonValue) : bool :=
  match v with JNull | JString _ | JInteger _ | JDouble _ => true | _ => false end.

Definition params_valid (v : JsonValue) : bool :=
  match v with JNull | JObject _ | JArray _ => true | _ => false end.

Lemma request_object_ok r :
  json_ok (req_id r) = true -> json_ok (params r) = true -> json_ok (request_object r) = true.
Proof.
  intros Hi Hp. unfold request_object. cbn [json_ok].
  destruct (params r) eqn:E; cbn -[json_ok str]; rewrite Hi; try rewrite Hp; done.
Qed.

Lemma check_request_object r :
  id_valid (req_id r) = true -> params_valid (params r) = true ->
  check_request (request_object r) = inl r.
Proof. destruct r as [m i ps]; cbn. intros Hi Hp. by destruct i, ps. Qed.

Lemma parseRequest_cases text :
  exists r, parseRequest text = Ret r /\
  match r with
  | inl req => id_valid (req_id req) = true /\ params_valid (params req) = true
  | inr msg => msg <> []
  end.
Proof.
  unfold parseRequest.
  assert (Ht : exists v p, parse text = Ret (v, p)).
  { unfold parse. destruct (rest (skipWhitespace (init text))) eqn:E; [by eexists _, _|].
    destruct (parse_total_fuel (parse_fuel (skipWhitespace (init text)))) as (Hv & _).
    destruct (Hv (skipWhitespace (init text))) as (v & p' & -> & _); [unfold parse_fuel, left; lia|].
    cbn [mbind outcome_bind]. destruct (has_error p'); [by eexists _, _|].
    destruct (rest (skipWhitespace p')); by eexists _, _. }
  destruct Ht as (v & p & ->). cbn [mbind outcome_bind].
  destruct (has_error p) eqn:Ep.
  { eexists. split; [done|]. cbn. unfold has_error in Ep. by case_bool_decide. }
  eexists. split; [done|]. unfold check_request.
  destruct (isObject v); cbn [negb]; [|done].
  destruct (_ || _ || _); [done|]. destruct (_ || _); [done|].
  set (id := if negb (hasMember (str "id") v) then JNull else _). clearbody id.
  set (ps := default JNull (member (str "params") v)). clearbody ps.
  destruct (_ && _ && _ && _) eqn:Ei; [done|].
  assert (Hid : id_valid id = true) by (by destruct id).
  destruct (negb (hasMember _ _)); [done|].
  destruct (negb (isObject ps) && _) eqn:Eps; [done|]. cbn. split; [done|]. by destruct ps.
Qed.

Lemma response_object_ok id result :
  json_ok id = true -> json_ok result = true -> json_ok (response_object (Success id result)) = true.
Proof.
  intros Hi Hr.
  change (no_dup_keys (members (response_object (Success id result))) &&
          (json_ok (JString (str "2.0")) && (json_ok id && (json_ok result && true))) = true).
  rewrite Hi, Hr. by vm_compute.
Qed.

Lemma error_object_ok id code msg :
  json_ok id = true -> JsonNumber.int64_min <= code <= JsonNumber.int64_max ->
  json_ok (response_object (Error id code msg None)) = true.
Proof.
  intros Hi Hc.
  change (no_dup_keys (members (response_object (Error id code msg None))) &&
          (json_ok (JString (str "2.0")) &&
           (json_ok id && (json_ok (error_object (mkError code msg None)) && true))) = true).
  rewrite Hi.
  assert (He : json_ok (error_object (mkError code msg None)) = true).
  { change (no_dup_keys (members (error_object (mkError code msg None))) &&
            (json_ok (JInteger code) && (json_ok (JString msg) && true)) = true).
    cbn [json_ok]. rewrite (proj2 (Z.leb_le _ _)), (proj2 (Z.leb_le _ _)) by lia. by vm_compute. }
  rewrite He. by vm_compute.
Qed.

(** * Properties *)

(** C38: the parser terminates on every text, within two steps a character: it
    returns a value with all of the text consumed, or null with an error. *)
Theorem json_parse_total text :
  exists v p, parse text = Ret (v, p) /\
    (has_error p = true /\ v = JNull \/ has_error p = false /\ rest p = []).
Proof.
  unfold parse. set (p := skipWhitespace (init text)). clearbody p.
  assert (Hfail : forall msg q, has_error q = false ->
    exists v p', Ret (fails msg q) = Ret (v, p') /\
      (has_error p' = true /\ v = JNull \/ has_error p' = false /\ rest p' = [])).
  { intros msg q Hq. eexists _, _. split; [reflexivity|]. left. split; [|done].
    unfold has_error in *. apply negb_false_iff, bool_decide_eq_true in Hq.
    unfold fails, setError; cbn [snd]. rewrite Hq. cbn [error_]. apply negb_true_iff, bool_decide_eq_false.
    intros E. apply app_nil in E as [_ E]. done. }
  destruct (rest p) eqn:E.
  - destruct (has_error p) eqn:Ep; [|by apply Hfail].
    eexists _, _. split; [reflexivity|]. left. split; [|done]. unfold setError.
    destruct (error_ p) eqn:Ee; [|done]. unfold has_error in Ep. rewrite Ee in Ep. done.
  - destruct (parse_total_fuel (parse_fuel p)) as (Hv & _).
    destruct (Hv p) as (v & p' & -> & _); [unfold parse_fuel, left; lia|]. cbn [mbind outcome_bind].
    destruct (has_error p') eqn:Ep; [eexists _, _; by split; [reflexivity|left]|].
    assert (Hsk : has_error (skipWhitespace p') = false).
    { unfold skipWhitespace. generalize (length (rest p')) as n. revert Ep. generalize p' as q.
      intros q Hq n. revert q Hq. induction n as [|n IH]; intros q Hq; cbn; [done|].
      destruct (is_space _); [|done]. apply IH. unfold advance. destruct (rest q); [done|].
      by case_bool_decide. }
    destruct (rest (skipWhitespace p')) eqn:Er; [eexists _, _; by split; [reflexivity|right]|].
    by apply Hfail.
Qed.


Definition example_json : JsonValue :=
  JObject [(str "name", JString [x22; x0a; xc3; xa9; x00]);
           (str "list", JArray [JInteger (-9223372036854775808); JDouble (JsonNumber.strtod (str "0.1")).1.1;
                                JNull; JArray []; JObject []; JBool true])].


(** Serialized text has no control character, whatever the strings and
    numbers in the value: a message is exactly one line of the stdio
    transport. *)
Theorem serialize_single_line v : Forall (fun b => 0x20 <= b2z b) (serialize v) /\ x0a ∉ serialize v.
Proof.
  pose proof (serializeValue_plain v) as H. split; [exact H|].
  intros Hin. rewrite Forall_forall in H. apply H in Hin. by vm_compute in Hin.
Qed.

(** A request written as JSON is accepted and read back: method, id and
    parameters, with a missing parameter object read as null. *)
Theorem request_roundtrip r :
  id_valid (req_id r) = true -> params_valid (params r) = true ->
  json_ok (req_id r) = true -> json_ok (params r) = true ->
  parseRequest (serialize (request_object r)) = Ret (inl r).
Proof.
  intros Hi Hp Hi2 Hp2. unfold parseRequest.
  destruct (parse_serialized _ (request_object_ok r Hi2 Hp2)) as (p & -> & He).
  cbn [mbind outcome_bind]. rewrite He. by rewrite check_request_object.
Qed.

Definition example_rpc_request : JsonRpcRequest :=
  mkRpcRequest (str "tools/call") (JString (str "abc"))
    (JObject [(str "name", JString (str "weather_get")); (str "arguments", JObject [])]).

Lemma request_roundtrip_witness :
  parseRequest (serialize (request_object example_rpc_request)) = Ret (inl example_rpc_request).
Proof. apply (request_roundtrip example_rpc_request); vm_compute; reflexivity. Defined.

(** Whatever the text, [parseRequest] returns: a request whose id is a
    string, a number or null and whose parameters are an object, an array or
    null, or a message that is not empty. *)
Theorem parseRequest_sound text :
  exists r, parseRequest text = Ret r /\
  match r with
  | inl req => id_valid (req_id req) = true /\ params_valid (params req) = true
  | inr msg => msg <> []
  end.
Proof. apply parseRequest_cases. Qed.

(** A response on the wire reads back as an object with the version, the
    id, and exactly one of a result (for [Success]) and an error (for
    [Error]). *)
Theorem response_wellformed id result code msg :
  json_ok id = true -> json_ok result = true ->
  JsonNumber.int64_min <= code <= JsonNumber.int64_max ->
  (exists o p, parse (serializeResponse id result) = Ret (o, p) /\ has_error p = false /\
     member (str "jsonrpc") o = Some (JString (str "2.0")) /\ member (str "id") o = Some id /\
     member (str "result") o = Some result /\ member (str "error") o = None) /\
  (exists o e p, parse (serializeError id code msg None) = Ret (o, p) /\ has_error p = false /\
     member (str "id") o = Some id /\ member (str "result") o = None /\
     member (str "error") o = Some e /\ member (str "code") e = Some (JInteger code) /\
     member (str "message") e = Some (JString msg)).
Proof.
  intros Hi Hr Hc. split.
  - destruct (parse_serialized _ (response_object_ok id result Hi Hr)) as (p & Hp & He).
    eexists _, p. split; [exact Hp|]. split; [done|]. by repeat split.
  - destruct (parse_serialized _ (error_object_ok id code msg Hi Hc)) as (p & Hp & He).
    eexists _, _, p. split; [exact Hp|]. split; [done|]. by repeat split.
Qed.

Lemma response_wellformed_witness :
  (exists o p, parse (serializeResponse (JInteger 7) example_json) = Ret (o, p) /\ has_error p = false /\
     member (str "jsonrpc") o = Some (JString (str "2.0")) /\ member (str "id") o = Some (JInteger 7) /\
     member (str "result") o = Some example_json /\ member (str "error") o = None) /\
  (exists o e p, parse (serializeError (JInteger 7) ErrorCode.kMethodNotFound (str "no") None) = Ret (o, p) /\
     has_error p = false /\
     member (str "id") o = Some (JInteger 7) /\ member (str "result") o = None /\
     member (str "error") o = Some e /\ member (str "code") e = Some (JInteger ErrorCode.kMethodNotFound) /\
     member (str "message") e = Some (JString (str "no"))).
Proof.
  apply (response_wellformed (JInteger 7) example_json ErrorCode.kMethodNotFound (str "no"));
    [vm_compute; reflexivity|vm_compute; reflexivity|vm_compute; split; congruence].
Defined.

(** Duplicate keys are not rejected: the last value replaces the earlier
    ones at the position of the first. *)
Theorem duplicate_keys_overwrite :
  exists p, parse (q "{'a':1,'b':2,'a':3}") =
    Ret (JObject [(str "a", JInteger 3); (str "b", JInteger 2)], p) /\ has_error p = false.
Proof. eexists. split; [vm_compute; reflexivity|done]. Qed.

(** Texts that are not JSON are accepted as numbers (a leading zero, a
    point without digits, a negative infinity), the value -inf is written as
    text that is again accepted, and an integral double comes back as an
    integer. *)
Theorem number_leniency :
  (exists p, parse (str "007") = Ret (JInteger 7, p) /\ has_error p = false) /\
  (exists d p, parse (str "-1.") = Ret (JDouble d, p) /\ has_error p = false) /\
  (exists d p, parse (str "-inf") = Ret (JDouble d, p) /\ has_error p = false /\
     serialize (JDouble d) = str "-inf") /\
  (exists d p, parse (str "3.0") = Ret (JDouble d, p) /\
     exists p', parse (serialize (JDouble d)) = Ret (JInteger 3, p') /\ has_error p' = false).
Proof.
  split_and!.
  - eexists. split; [vm_compute; reflexivity|done].
  - eexists _, _. split; [vm_compute; reflexivity|done].
  - eexists _, _. split; [vm_compute; reflexivity|]. split; [done|by vm_compute].
  - eexists _, _. split; [vm_compute; reflexivity|]. eexists. split; [vm_compute; reflexivity|done].
Qed.
