(* ===== verification/JsonTypes.v ===== *)
(** The values the JSON parser of src/mcp/json_rpc.cpp makes are well formed,
    whatever the text: what the serializer's theorems ask for, but for the
    precision of doubles. *)
From Stdlib Require Import ZArith Lia.
From Stdlib Require Import Strings.Byte.
From stdpp Require Import base list strings.
From S2P Require Import Prelude Chars JsonNumber Json JsonParser JsonFacts.
Import JsonParserImpl.

(** Integers fit [std::int64_t], and no object has a key twice. *)
Fixpoint value_wf (v : JsonValue) : bool :=
  match v with
  | JInteger n => (JsonNumber.int64_min <=? n) && (n <=? JsonNumber.int64_max)
  | JObject ms => no_dup_keys ms && forallb (fun m => value_wf m.2) ms
  | JArray vs => forallb value_wf vs
  | _ => true
  end.

(** All doubles of a value read back from their 17 digits. *)
Fixpoint doubles_ok (v : JsonValue) : bool :=
  match v with
  | JDouble d => double_ok d
  | JObject ms => forallb (fun m => doubles_ok m.2) ms
  | JArray vs => forallb doubles_ok vs
  | _ => true
  end.

Lemma forallb_and {A} (f g h : A -> bool) l :
  (forall x, x ∈ l -> f x = g x && h x) -> forallb f l = forallb g l && forallb h l.
Proof.
  induction l as [|x l IH]; intros Hx; [done|]. cbn. rewrite (Hx x), IH by (by left || (intros; apply Hx; by right)).
  by destruct (g x), (h x), (forallb g l).
Qed.

(** Induction on a value through the elements and the members. *)
Lemma value_ind (P : JsonValue -> Prop) :
  P JNull -> (forall b, P (JBool b)) -> (forall n, P (JInteger n)) -> (forall d, P (JDouble d)) -> (forall s, P (JString s)) ->
  (forall ms, (forall m, m ∈ ms -> P m.2) -> P (JObject ms)) -> (forall vs, (forall v, v ∈ vs -> P v) -> P (JArray vs)) ->
  forall v, P v.
Proof.
  intros H1 H2 H3 H4 H5 H6 H7. fix IH 1. intros [|b|n|d|s|ms|vs]; [exact H1|apply H2|apply H3|apply H4|apply H5|apply H6|apply H7].
  - induction ms as [|m ms IHms]; intros x Hx; [exact (match not_elem_of_nil _ Hx with end)|].
    apply elem_of_cons in Hx as [->|Hx]; [apply IH|exact (IHms x Hx)].
  - induction vs as [|w vs IHvs]; intros x Hx; [exact (match not_elem_of_nil _ Hx with end)|].
    apply elem_of_cons in Hx as [->|Hx]; [apply IH|exact (IHvs x Hx)].
Qed.

Lemma json_ok_split v : json_ok v = value_wf v && doubles_ok v.
Proof.
  induction v as [| | | | |ms IH|vs IH] using value_ind; cbn [json_ok value_wf doubles_ok]; rewrite ?andb_true_r; try done.
  - rewrite (forallb_and _ (fun m => value_wf m.2) (fun m => doubles_ok m.2)) by exact IH. by rewrite andb_assoc.
  - by apply forallb_and.
Qed.

(** * Building objects and arrays *)

Lemma map_fst_set_member key v ms :
  map fst (set_member key v ms) = if bool_decide (key ∈ map fst ms) then map fst ms else map fst ms ++ [key].
Proof.
  induction ms as [|[k w] ms IH]; [done|]. cbn [set_member map fst].
  destruct (bool_decide_reflect (k = key)) as [->|Hne]; cbn [map fst].
  - rewrite bool_decide_true; [done|]. by left.
  - rewrite IH. destruct (decide (key ∈ map fst ms)) as [Hin|Hin].
    + rewrite (bool_decide_true _ Hin), bool_decide_true; [done|]. by right.
    + rewrite (bool_decide_false _ Hin), bool_decide_false; [done|]. by intros [?|?]%elem_of_cons.
Qed.

Lemma no_dup_keys_iff ms : no_dup_keys ms = true <-> NoDup (map fst ms).
Proof.
  induction ms as [|[k w] ms IH]; cbn [no_dup_keys map fst]; [split; [constructor|done]|].
  rewrite andb_true_iff, negb_true_iff, bool_decide_eq_false, IH. by rewrite NoDup_cons.
Qed.

Lemma set_wf obj key v : value_wf obj = true -> value_wf v = true -> value_wf (set obj key v) = true.
Proof.
  destruct obj as [| | | | |ms|]; try done. cbn [value_wf set]. rewrite !andb_true_iff, !no_dup_keys_iff.
  intros [Hnd Hall] Hv. split.
  - rewrite map_fst_set_member. case_bool_decide as Hin; [done|]. apply NoDup_app. split; [done|]. split; [|by apply NoDup_singleton].
    by intros x Hx ->%list_elem_of_singleton.
  - clear Hnd. induction ms as [|[k w] ms IH]; cbn in *; [by rewrite Hv|]. apply andb_true_iff in Hall as [Hw Hall].
    case_bool_decide; cbn; [by rewrite Hv|]. rewrite Hw. by apply IH.
Qed.

Lemma push_wf arr v : value_wf arr = true -> value_wf v = true -> value_wf (push arr v) = true.
Proof.
  destruct arr; try done. cbn [value_wf push]. intros H1 H2. rewrite forallb_app, H1. cbn. by rewrite H2.
Qed.

(** * The parser *)

(** A result that is well formed, if there is one. *)
Definition makes_wf (r : outcome (JsonValue * t)) : Prop :=
  match r with Ret (v, _) => value_wf v = true | _ => True end.

Lemma parseString_loop_wf fuel s p : makes_wf (parseString_loop fuel s p).
Proof.
  revert s p. induction fuel as [|f IH]; intros s p; cbn [parseString_loop]; destruct (rest p) eqn:Er; try done.
  destruct (advance p) as [c p1]. case_bool_decide; [done|]. case_bool_decide; [|by case_if].
  destruct (rest p1); [done|]. destruct (advance p1) as [c2 p2]. destruct (simple_escape c2); [apply IH|].
  case_bool_decide; [|done]. by destruct (parseHex 4 0 p2) as [[cp|] p3].
Qed.

Lemma parseNumber_wf p : value_wf (parseNumber p).1 = true.
Proof.
  unfold parseNumber. destruct (JsonNumber.strtoll (rest p)) as [[n k] in_range] eqn:E.
  destruct (_ && _) eqn:Ec; cbn [fst].
  - breflect. subst in_range. unfold JsonNumber.strtoll in E. destruct (JsonNumber.split_sign _) as [[neg m] r].
    destruct (Chars.scan_digits r 0 0) as [v k']. destruct (k' =? 0)%nat; [by injection E as <- <-|].
    injection E as <- <- <-. done.
  - destruct (JsonNumber.strtod _) as [[d k2] r2]. by destruct (_ || _).
Qed.

Lemma parse_wf_fuel fuel :
  (forall p, makes_wf (parseValue fuel p)) /\
  (forall obj p, value_wf obj = true -> makes_wf (parseMembers fuel obj p)) /\
  (forall arr p, value_wf arr = true -> makes_wf (parseElements fuel arr p)).
Proof.
  induction fuel as [|f (IHv & IHm & IHe)]; [done|]. split; [|split].
  - intros p. cbn [parseValue]. case_bool_decide; [case_bool_decide; [done|by apply IHm]|].
    case_bool_decide; [case_bool_decide; [done|by apply IHe]|]. case_bool_decide; [apply parseString_loop_wf|].
    destruct (_ || _); [unfold parseBool; cbn; by repeat case_bool_decide|].
    case_bool_decide; [unfold parseNull; cbn; by case_bool_decide|].
    destruct (starts_number _); [|done]. pose proof (parseNumber_wf (skipWhitespace p)) as Hn.
    by destruct (parseNumber _).
  - intros obj p Ho. cbn [parseMembers]. destruct (negb _); [done|].
    destruct (parseString _) as [[key p1]| |]; try done. cbn [mbind outcome_bind].
    destruct (has_error p1); [done|]. destruct (has_error (expect _ _)); [done|].
    specialize (IHv (skipWhitespace (expect x3a (skipWhitespace p1)))).
    destruct (parseValue f _) as [[v p2]| |]; try done. cbn [mbind outcome_bind]. destruct (has_error p2); [done|].
    pose proof (set_wf obj (toString key) v Ho IHv) as Hs. case_bool_decide; [exact Hs|]. destruct (negb _); [done|]. by apply IHm.
  - intros arr p Ha. cbn [parseElements]. specialize (IHv (skipWhitespace p)).
    destruct (parseValue f _) as [[v p2]| |]; try done. cbn [mbind outcome_bind]. destruct (has_error p2); [done|].
    pose proof (push_wf arr v Ha IHv) as Hs. case_bool_decide; [exact Hs|]. destruct (negb _); [done|]. by apply IHe.
Qed.

Lemma parse_wf text : makes_wf (parse text).
Proof.
  unfold parse. destruct (rest _); [done|]. set (p := skipWhitespace (init text)).
  pose proof (proj1 (parse_wf_fuel (parse_fuel p)) p) as Hv. destruct (parseValue _ p) as [[v p1]| |]; try done.
  cbn [mbind outcome_bind]. destruct (has_error p1); [done|]. by destruct (rest _).
Qed.

(** * Properties *)


