(* ===== verification/ToolRegistry.v ===== *)
(** The tool registry: src/mcp/tool_registry.cpp.  Protobuf descriptors are a
    library's; the accessors the code calls are parameters, and what holds of
    them is a hypothesis of the theorems that need it. *)
From Stdlib Require Import ZArith Lia.
From Stdlib Require Import Strings.Byte.
From stdpp Require Import base list strings.
From S2P Require Import Prelude StdMap RpcMessage.

Module ToolRegistry.

(** * toSnakeCase *)

Definition is_upper (b : byte) : bool := (65 <=? b2z b) && (b2z b <=? 90).
Definition islower (b : byte) : bool := (97 <=? b2z b) && (b2z b <=? 122).
Definition isdigit (b : byte) : bool := (48 <=? b2z b) && (b2z b <=? 57).
Definition tolower (b : byte) : byte := z2b (b2z b + 32).

(** The loop, with the character before the current one. *)
Fixpoint snake_loop (previous : option byte) (input : bytes) : bytes :=
  match input with
  | [] => []
  | c :: input =>
      let out :=
        if is_upper c then
          let preceded_by_lower :=
            match previous with Some p => islower p || isdigit p | None => false end in
          let followed_by_lower :=
            match input with n :: _ => islower n | [] => false end in
          (if bool_decide (is_Some previous) && (preceded_by_lower || followed_by_lower)
           then [x5f] else []) ++ [tolower c]
        else [c] in
      out ++ snake_loop (Some c) input
  end.

Definition toSnakeCase (input : bytes) : bytes := snake_loop None input.

Example toSnakeCase_ex :
  toSnakeCase (str "GetCurrent") = str "get_current" /\ toSnakeCase (str "HTTPServer2Go") = str "http_server2_go".
Proof. by vm_compute. Qed.

(** * ToolParameter and ToolDescriptor *)

(** The field [default_value] is never assigned or read, and is left out. *)
Unset Elimination Schemes.
Inductive ToolParameter := mkParameter {
  p_name : bytes;
  p_type : bytes;
  p_description : bytes;
  p_required : bool;
  p_properties : list ToolParameter;
  p_items : option ToolParameter;
  p_enum_values : option (list bytes);
  p_content_encoding : bytes;
}.
Set Elimination Schemes.

(** [FieldDescriptor::Type]. *)
Inductive FieldType :=
  | TYPE_DOUBLE | TYPE_FLOAT | TYPE_INT64 | TYPE_UINT64 | TYPE_INT32 | TYPE_FIXED64 | TYPE_FIXED32
  | TYPE_BOOL | TYPE_STRING | TYPE_GROUP | TYPE_MESSAGE | TYPE_BYTES | TYPE_UINT32 | TYPE_ENUM
  | TYPE_SFIXED32 | TYPE_SFIXED64 | TYPE_SINT32 | TYPE_SINT64.
#[global] Instance FieldType_eq_dec : EqDecision FieldType.
Proof. solve_decision. Defined.

(** The descriptors of Protobuf and the accessors the code calls; the four
    options are [None] where [HasExtension] is false. *)
Class Descriptors := {
  Descriptor : Type;
  FieldDescriptor : Type;
  MethodDescriptor : Type;
  ServiceDescriptor : Type;
  full_name : Descriptor -> bytes;
  fields : Descriptor -> list FieldDescriptor;
  json_name : FieldDescriptor -> bytes;
  field_type : FieldDescriptor -> FieldType;
  is_map : FieldDescriptor -> bool;
  is_repeated : FieldDescriptor -> bool;
  message_type : FieldDescriptor -> Descriptor;
  enum_names : FieldDescriptor -> list bytes;
  param_description : FieldDescriptor -> option bytes;
  param_required : FieldDescriptor -> option bool;
  service_name : ServiceDescriptor -> bytes;
  method_name : MethodDescriptor -> bytes;
  method_service : MethodDescriptor -> ServiceDescriptor;
  input_type : MethodDescriptor -> Descriptor;
  output_type : MethodDescriptor -> Descriptor;
  tool_description : MethodDescriptor -> option bytes;
  tool_enabled : MethodDescriptor -> option bool;
}.

Section registry.
Context `{Descriptors}.

Record ToolDescriptor := mkTool {
  t_name : bytes;
  t_service_name : bytes;
  t_method_name : bytes;
  t_description : bytes;
  t_input_schema : list ToolParameter;
  t_request_descriptor : option Descriptor;
  t_response_descriptor : option Descriptor;
}.

(** ** Options *)

Definition getToolDescription (m : MethodDescriptor) : bytes :=
  match tool_description m with
  | Some d => d
  | None => service_name (method_service m) ++ str "." ++ method_name m
  end.

Definition isToolEnabled (m : MethodDescriptor) : bool :=
  match tool_enabled m with Some b => b | None => true end.

Definition getParamDescription (f : FieldDescriptor) : bytes :=
  match param_description f with Some d => d | None => [] end.

Definition isParamRequired (f : FieldDescriptor) : bool :=
  match param_required f with Some b => b | None => false end.

(** ** JSON Schema types *)

Definition is_name (f : FieldDescriptor) (s : string) : bool :=
  bool_decide (full_name (message_type f) = str s).

Definition mapScalarType (f : FieldDescriptor) : bytes :=
  match field_type f with
  | TYPE_DOUBLE | TYPE_FLOAT => str "number"
  | TYPE_INT64 | TYPE_UINT64 | TYPE_INT32 | TYPE_FIXED64 | TYPE_FIXED32 | TYPE_UINT32
  | TYPE_SFIXED32 | TYPE_SFIXED64 | TYPE_SINT32 | TYPE_SINT64 => str "integer"
  | TYPE_BOOL => str "boolean"
  | TYPE_STRING => str "string"
  | TYPE_BYTES => str "string"
  | TYPE_ENUM => str "string"
  | TYPE_MESSAGE =>
      if is_name f "google.protobuf.Timestamp" then str "string"
      else if is_name f "google.protobuf.Duration" then str "string"
      else if is_name f "google.protobuf.DoubleValue" || is_name f "google.protobuf.FloatValue"
      then str "number"
      else if is_name f "google.protobuf.Int64Value" || is_name f "google.protobuf.UInt64Value" ||
              is_name f "google.protobuf.Int32Value" || is_name f "google.protobuf.UInt32Value"
      then str "integer"
      else if is_name f "google.protobuf.BoolValue" then str "boolean"
      else if is_name f "google.protobuf.StringValue" || is_name f "google.protobuf.BytesValue"
      then str "string"
      else str "object"
  | TYPE_GROUP => str "string"
  end.

Definition mapFieldType (f : FieldDescriptor) : bytes :=
  if is_map f then str "object"
  else if is_repeated f then str "array"
  else mapScalarType f.

Definition is_type (f : FieldDescriptor) (t : FieldType) : bool := bool_decide (field_type f = t).

(** [buildParameter], given the function that builds the schema of a nested
    message. *)
Definition buildParameter (buildSchema : Descriptor -> outcome (list ToolParameter))
    (f : FieldDescriptor) : outcome ToolParameter :=
  let is_container := is_repeated f || is_map f in
  let is_message := is_type f TYPE_MESSAGE in
  let enum_values := if negb is_container && is_type f TYPE_ENUM then Some (enum_names f) else None in
  let content_encoding := if negb is_container && is_type f TYPE_BYTES then str "base64" else [] in
  let* '(type, description, properties) :=
    if negb is_container && is_message then
      if is_name f "google.protobuf.Timestamp" then
        Ret (str "string", getParamDescription f ++ str " (RFC 3339)", [])
      else if is_name f "google.protobuf.Duration" then
        Ret (str "string", getParamDescription f ++ str " (duration in seconds)", [])
      else
        let* properties :=
          if bool_decide (mapScalarType f = str "object") then buildSchema (message_type f) else Ret [] in
        Ret (mapScalarType f, getParamDescription f, properties)
    else Ret (mapFieldType f, getParamDescription f, []) in
  let type := if is_map f then str "object" else type in
  let* items :=
    if is_repeated f && negb (is_map f) then
      let* item_properties :=
        if is_message && bool_decide (mapScalarType f = str "object") then buildSchema (message_type f)
        else Ret [] in
      Ret (Some (mkParameter [] (mapScalarType f) (getParamDescription f) false item_properties None
                   (if is_type f TYPE_ENUM then Some (enum_names f) else None) []))
    else Ret None in
  Ret (mkParameter (json_name f) type description (isParamRequired f) properties items enum_values
         content_encoding).

(** [fuel] bounds the nesting of messages, which the code does not. *)
Fixpoint buildSchema (fuel : nat) (d : Descriptor) : outcome (list ToolParameter) :=
  match fuel with
  | O => OutOfFuel
  | S n => mapM (buildParameter (buildSchema n)) (fields d)
  end.

(** ** The registry *)

Abbreviation tools := (list (bytes * ToolDescriptor)).

(** [registerTool(ToolDescriptor)]. *)
Definition registerTool (ts : tools) (desc : ToolDescriptor) : Status * tools :=
  if bool_decide (t_name desc = []) then
    (mkStatus kInvalidArgument (str "tool name must be non-empty"), ts)
  else
    match StdMap.lookup (t_name desc) ts with
    | Some _ =>
        (mkStatus kInvalidArgument (str "tool '" ++ t_name desc ++ str "' is already registered"), ts)
    | None => (Ok, StdMap.insert (t_name desc) desc ts)
    end.

(** [registerTool(service, method)]; [None] is a null pointer. *)
Definition registerTool_method (fuel : nat) (ts : tools) (service : option ServiceDescriptor)
    (method : option MethodDescriptor) : outcome (Status * tools) :=
  match service, method with
  | Some s, Some m =>
      if negb (isToolEnabled m) then Ret (Ok, ts)
      else
        let* schema := buildSchema fuel (input_type m) in
        Ret (registerTool ts
          (mkTool (toSnakeCase (service_name s) ++ str "." ++ toSnakeCase (method_name m))
                  (toSnakeCase (service_name s)) (method_name m) (getToolDescription m) schema
                  (Some (input_type m)) (Some (output_type m))))
  | _, _ => Ret (mkStatus kInvalidArgument (str "descriptors must not be null"), ts)
  end.

Definition listTools (ts : tools) : list ToolDescriptor := map snd ts.
Definition findTool (ts : tools) (name : bytes) : option ToolDescriptor := StdMap.lookup name ts.
Definition tools_size (ts : tools) : Z := lenZ ts.

End registry.
Arguments ToolDescriptor {_}.
Abbreviation tools := (list (bytes * ToolDescriptor)).
End ToolRegistry.
