(* ===== verification/ToolRegistryFacts.v ===== *)
(** Theorems about the tool registry: the schema of a message, its termination
    and its failure to terminate, snake_case names, and the map of tools. *)
From Stdlib Require Import ZArith Lia.
From Stdlib Require Import Strings.Byte.
From stdpp Require Import base list strings.
From S2P Require Import Prelude StdMap RpcMessage ToolRegistry.
Import ToolRegistry.

(** * Identifiers *)

(** The lower-case form of an octet of an identifier. *)
Definition lower (b : byte) : byte := if is_upper b then tolower b else b.

Definition not_underscore (b : byte) : bool := negb (bool_decide (b = x5f)).

Lemma is_upper_lower b : is_upper (lower b) = false.
Proof. by destruct b. Qed.

Lemma lower_not_upper b : is_upper b = false -> lower b = b.
Proof. unfold lower. by intros ->. Qed.

Lemma snake_loop_no_upper previous l : Forall (fun b => is_upper b = false) (snake_loop previous l).
Proof.
  revert previous. induction l as [|c l IH]; intros previous; cbn [snake_loop]; [constructor|].
  apply Forall_app. split; [|apply IH].
  pose proof (is_upper_lower c) as Hl. unfold lower in Hl.
  destruct (is_upper c) eqn:E; [|by repeat constructor].
  apply Forall_app. split; [|by repeat constructor]. by destruct (_ && _); repeat constructor.
Qed.

Lemma snake_loop_lower previous l :
  Forall (fun b => is_upper b = false) l -> snake_loop previous l = l.
Proof.
  intros Hl. revert previous. induction Hl as [|c l Hc _ IH]; intros previous; cbn [snake_loop]; [done|].
  rewrite Hc. cbn. by rewrite IH.
Qed.

Lemma snake_loop_letters previous l :
  List.filter not_underscore (snake_loop previous l) = List.filter not_underscore (map lower l).
Proof.
  revert previous. induction l as [|c l IH]; intros previous; cbn [snake_loop map]; [done|].
  rewrite List.filter_app, IH. change (lower c :: map lower l) with ([lower c] ++ map lower l).
  rewrite List.filter_app. f_equal. unfold lower. destruct (is_upper c); [|done].
  rewrite List.filter_app. by destruct (_ && _).
Qed.

(** * The schema of a message *)

Section schema.
Context `{Descriptors}.

(** A field whose message type is expanded into a nested schema. *)
Definition expands (f : FieldDescriptor) : bool :=
  negb (is_map f) && bool_decide (mapScalarType f = str "object").

(** The JSON Schema types. *)
Definition schema_types : list bytes :=
  [str "number"; str "integer"; str "boolean"; str "string"; str "object"; str "array"].

(** A parameter that is a JSON Schema: a known type; an element schema exactly
    for an array; properties only for an object; enumerated values and an
    encoding only for a string; and the same of its properties and elements. *)
Fixpoint param_wf (p : ToolParameter) : bool :=
  match p with
  | mkParameter _ type _ _ properties items enum_values content_encoding =>
      bool_decide (type ∈ schema_types) &&
      Bool.eqb (bool_decide (type = str "array")) (match items with Some _ => true | None => false end) &&
      (match properties with [] => true | _ => bool_decide (type = str "object") end) &&
      (match enum_values with None => true | Some _ => bool_decide (type = str "string") end) &&
      (match content_encoding with [] => true | _ => bool_decide (type = str "string") end) &&
      forallb param_wf properties &&
      (match items with None => true | Some item => param_wf item end)
  end.

(** What the schema has for each field. *)
Definition describes (f : FieldDescriptor) (p : ToolParameter) : Prop :=
  p_name p = json_name f /\ p_required p = isParamRequired f /\ param_wf p = true.

Lemma mapScalarType_cases f :
  (mapScalarType f = str "object" /\ is_type f TYPE_MESSAGE = true /\
   is_name f "google.protobuf.Timestamp" = false /\ is_name f "google.protobuf.Duration" = false) \/
  (mapScalarType f ∈ [str "number"; str "integer"; str "boolean"; str "string"] /\
   bool_decide (mapScalarType f = str "object") = false).
Proof.
  assert (Hscalar : forall s, s ∈ [str "number"; str "integer"; str "boolean"; str "string"] ->
    s ∈ [str "number"; str "integer"; str "boolean"; str "string"] /\
    bool_decide (s = str "object") = false).
  { intros s Hs. split; [done|]. apply bool_decide_eq_false. intros ->.
    rewrite !elem_of_cons in Hs. destruct Hs as [Hs|[Hs|[Hs|[Hs|Hs]]]]; by inversion Hs. }
  unfold mapScalarType, is_type.
  destruct (field_type f); try (right; apply Hscalar; rewrite !elem_of_cons; tauto).
  destruct (is_name f "google.protobuf.Timestamp"); [right; apply Hscalar; rewrite !elem_of_cons; tauto|].
  destruct (is_name f "google.protobuf.Duration"); [right; apply Hscalar; rewrite !elem_of_cons; tauto|].
  repeat (case_if; [right; apply Hscalar; rewrite !elem_of_cons; tauto|]). by left.
Qed.

Lemma mapScalarType_string f :
  is_type f TYPE_ENUM || is_type f TYPE_BYTES = true -> mapScalarType f = str "string".
Proof. unfold is_type, mapScalarType. by destruct (field_type f). Qed.

(** A parameter of a scalar type, without properties or elements. *)
Lemma param_wf_scalar n t d r ev ce :
  t ∈ [str "number"; str "integer"; str "boolean"; str "string"] ->
  (ev = None \/ t = str "string") -> (ce = [] \/ t = str "string") ->
  param_wf (mkParameter n t d r [] None ev ce) = true.
Proof.
  intros Ht Hev Hce. rewrite !elem_of_cons in Ht.
  destruct Ht as [->|[->|[->|[->|Ht]]]]; [| | | |by inversion Ht];
    (destruct Hev as [->|Hev]; [|try by inversion Hev]);
    (destruct Hce as [->|Hce]; [|try by inversion Hce]); try destruct ev; try destruct ce; done.
Qed.

Lemma param_wf_object n d r ps :
  Forall (fun p => param_wf p = true) ps ->
  param_wf (mkParameter n (str "object") d r ps None None []) = true.
Proof.
  intros Hps. assert (forallb param_wf ps = true) as E.
  { apply forallb_forall. intros p Hp. rewrite Forall_forall in Hps. by apply Hps, list_elem_of_In. }
  cbn -[str schema_types]. rewrite E. by destruct ps.
Qed.

Lemma param_wf_array n d r item :
  param_wf item = true -> param_wf (mkParameter n (str "array") d r [] (Some item) None []) = true.
Proof. intros Hi. cbn -[str schema_types]. by rewrite Hi. Qed.

Lemma buildParameter_describes bs f :
  (expands f = true -> exists ps, bs (message_type f) = Ret ps /\ Forall (fun p => param_wf p = true) ps) ->
  exists p, buildParameter bs f = Ret p /\ describes f p.
Proof.
  intros Hbs. unfold buildParameter, expands, describes, mapFieldType in *.
  destruct (mapScalarType_cases f) as [(Hs & Hm & Hts & Hd)|(Hin & Hs)].
  - assert (He : is_type f TYPE_ENUM = false /\ is_type f TYPE_BYTES = false).
    { unfold is_type in *. by destruct (field_type f). }
    destruct He as [He1 He2]. rewrite Hm, Hts, Hd, He1, He2, Hs in *. rewrite !andb_false_r.
    rewrite bool_decide_true in * by done.
    destruct (is_map f) eqn:Emap.
    + rewrite orb_true_r, andb_false_r. cbn -[str param_wf]. eexists. split; [done|].
      split_and!; [done|done|by apply param_wf_object].
    + destruct Hbs as (ps & -> & Hps); [done|].
      destruct (is_repeated f); cbn -[str param_wf]; (eexists; split; [done|]);
        split_and!; try done; [|by apply param_wf_object].
      by apply param_wf_array, param_wf_object.
  - rewrite Hs, !andb_false_r. pose proof (mapScalarType_string f) as Hstr.
    destruct (is_map f) eqn:Emap.
    + rewrite orb_true_r, andb_false_r. cbn -[str param_wf]. eexists. split; [done|].
      split_and!; [done|done|by apply param_wf_object].
    + destruct (is_repeated f); cbn -[str param_wf].
      * eexists. split; [done|]. split_and!; [done|done|]. apply param_wf_array, param_wf_scalar; [done| |by left].
        destruct (is_type f TYPE_ENUM); [right; by apply Hstr|by left].
      * assert (Hev : (if is_type f TYPE_ENUM then Some (enum_names f) else None) = None \/
                      mapScalarType f = str "string").
        { destruct (is_type f TYPE_ENUM); [right; by apply Hstr|by left]. }
        assert (Hce : (if is_type f TYPE_BYTES then str "base64" else []) = [] \/
                      mapScalarType f = str "string").
        { destruct (is_type f TYPE_BYTES); [right; apply Hstr, orb_true_r|by left]. }
        destruct (is_type f TYPE_MESSAGE); [|by eexists; split; [done|]; split_and!; [| |apply param_wf_scalar]].
        destruct (is_name f "google.protobuf.Timestamp"); [|destruct (is_name f "google.protobuf.Duration")];
          (eexists; split; [done|]; split_and!; [done|done|]; apply param_wf_scalar;
           first [done|by right|rewrite !elem_of_cons; tauto]).
Qed.

(** A set of messages closed under expansion, in which each expanded message is
    nested less deeply than the one it is in. *)
Definition acyclic (P : Descriptor -> Prop) (rank : Descriptor -> nat) : Prop :=
  forall d f, P d -> f ∈ fields d -> expands f = true ->
    P (message_type f) /\ (rank (message_type f) < rank d)%nat.

Lemma buildSchema_acyclic P rank n d :
  acyclic P rank -> P d -> (rank d < n)%nat ->
  exists schema, buildSchema n d = Ret schema /\ Forall2 describes (fields d) schema.
Proof.
  intros Hrank. revert d. induction n as [|n IH]; intros d HP Hd; [lia|]. cbn [buildSchema].
  apply mapM_ret. intros f Hf. apply buildParameter_describes. intros He.
  destruct (IH (message_type f)) as (schema & -> & Hs); try (destruct (Hrank d f HP Hf He); first [done|lia]).
  exists schema. split; [done|]. clear -Hs.
  induction Hs as [|f' p fs ps Hp _ IHs]; constructor; [|done]. apply Hp.
Qed.

Lemma buildParameter_in_bounds bs f :
  (forall d, bs d <> OutOfBounds) -> buildParameter bs f <> OutOfBounds.
Proof.
  intros Hbs. unfold buildParameter.
  set (props := if bool_decide _ then bs (message_type f) else Ret []).
  set (items := if is_type f TYPE_MESSAGE && _ then bs (message_type f) else Ret []).
  assert (Hp : props <> OutOfBounds) by (unfold props; case_bool_decide; done).
  assert (Hi : items <> OutOfBounds) by (unfold items; case_if; done).
  clearbody props items.
  repeat (case_if; cbn -[str mapScalarType mapFieldType]); destruct props, items; done.
Qed.

Lemma buildSchema_in_bounds n d : buildSchema n d <> OutOfBounds.
Proof.
  revert d. induction n as [|n IH]; intros d; [done|]. cbn [buildSchema].
  apply mapM_in_bounds. intros f. by apply buildParameter_in_bounds.
Qed.

(** A set of messages each of which has a field expanded into the set. *)
Definition recursive (P : Descriptor -> Prop) : Prop :=
  forall d, P d -> exists f, f ∈ fields d /\ expands f = true /\ P (message_type f).

Lemma buildParameter_diverges bs f :
  expands f = true -> bs (message_type f) = OutOfFuel -> buildParameter bs f = OutOfFuel.
Proof.
  unfold expands. intros [Hm Hs]%andb_true_iff Hbs. apply bool_decide_eq_true in Hs.
  apply negb_true_iff in Hm.
  destruct (mapScalarType_cases f) as [(_ & Ht & Hts & Hd)|(_ & E)]; [|by rewrite bool_decide_true in E].
  unfold buildParameter. rewrite Hm, Ht, Hts, Hd, Hbs, bool_decide_true by done.
  by destruct (is_repeated f).
Qed.

Lemma buildSchema_diverges P n d : recursive P -> P d -> buildSchema n d = OutOfFuel.
Proof.
  intros HP. revert d. induction n as [|n IH]; intros d Hd; [done|]. cbn [buildSchema].
  destruct (HP d Hd) as (f & Hf & He & Hm). eapply mapM_no_fuel; [|exact Hf|].
  - intros g. apply buildParameter_in_bounds, buildSchema_in_bounds.
  - apply buildParameter_diverges; [done|by apply IH].
Qed.

(** * The map of tools *)

(** The registry after a sequence of registrations, from an empty one. *)
Definition register_all (ds : list ToolDescriptor) : tools :=
  fold_left (fun ts d => (registerTool ts d).2) ds [].

Definition first_named (name : bytes) (ds : list ToolDescriptor) : option ToolDescriptor :=
  List.find (fun d => bool_decide (t_name d = name)) ds.

Lemma registerTool_effect ts d :
  (registerTool ts d).2 = ts \/
  (t_name d <> [] /\ StdMap.lookup (t_name d) ts = None /\
   (registerTool ts d).2 = StdMap.insert (t_name d) d ts).
Proof.
  unfold registerTool. case_bool_decide; [by left|].
  destruct (StdMap.lookup (t_name d) ts) eqn:E; [by left|by right].
Qed.

(** The invariant of the registry: a sorted map whose keys are the names. *)
Definition registry_wf (ts : tools) : Prop :=
  StdMap.map_wf ts /\ forall k d, StdMap.lookup k ts = Some d -> t_name d = k /\ k <> [].

Lemma registerTool_wf ts d : registry_wf ts -> registry_wf (registerTool ts d).2.
Proof.
  intros [Hw Hk]. destruct (registerTool_effect ts d) as [->|(Hne & Hl & ->)]; [done|].
  split; [by apply StdMap.insert_wf|]. intros k d'.
  destruct (decide (k = t_name d)) as [->|Hkd].
  - rewrite StdMap.lookup_insert_eq. by intros [= <-].
  - rewrite StdMap.lookup_insert_ne by done. apply Hk.
Qed.

Lemma registerTool_lookup ts d name :
  name <> [] ->
  StdMap.lookup name (registerTool ts d).2 =
  match StdMap.lookup name ts with
  | Some d' => Some d'
  | None => if bool_decide (t_name d = name) then Some d else None
  end.
Proof.
  intros Hn. unfold registerTool. case_bool_decide as Hd.
  { rewrite Hd. rewrite bool_decide_false by done. cbn. by destruct (StdMap.lookup name ts). }
  destruct (StdMap.lookup (t_name d) ts) eqn:E; cbn.
  - case_bool_decide as Hdn; [subst; by rewrite E|by destruct (StdMap.lookup name ts)].
  - case_bool_decide as Hdn; [subst; by rewrite E, StdMap.lookup_insert_eq|].
    rewrite StdMap.lookup_insert_ne by done. by destruct (StdMap.lookup name ts).
Qed.

Lemma register_fold ds ts :
  registry_wf ts ->
  let ts' := fold_left (fun ts d => (registerTool ts d).2) ds ts in
  registry_wf ts' /\
  forall name, name <> [] ->
    StdMap.lookup name ts' =
    match StdMap.lookup name ts with Some d => Some d | None => first_named name ds end.
Proof.
  revert ts. induction ds as [|d ds IH]; intros ts Hw; cbn.
  { split; [done|]. intros name _. by destruct (StdMap.lookup name ts). }
  destruct (IH _ (registerTool_wf ts d Hw)) as [Hw' Hl]. split; [done|].
  intros name Hn. rewrite Hl, registerTool_lookup by done.
  destruct (StdMap.lookup name ts); [done|]. by case_bool_decide.
Qed.

Lemma registry_wf_nil : registry_wf [].
Proof. by split. Qed.

End schema.

(** * Properties *)

(** A tool's schema is complete and is JSON Schema: when no message type
    contains itself, [buildSchema] returns, with a parameter for every field in
    order, each with the field's JSON name and required flag, and with types,
    properties, elements and enumerations that fit together at every depth. *)
Theorem schema_complete `{Descriptors} P rank n d :
  acyclic P rank -> P d -> (rank d < n)%nat ->
  exists schema, buildSchema n d = Ret schema /\ Forall2 describes (fields d) schema.
Proof. apply buildSchema_acyclic. Qed.

(** A message type that contains itself, through any cycle of message
    fields, makes [buildSchema] recurse without end: no amount of fuel gives a
    schema, and the registration of a tool that takes it never returns. *)
Theorem recursive_message_never_registers `{Descriptors} P ts s m n :
  recursive P -> P (input_type m) -> isToolEnabled m = true ->
  registerTool_method n ts (Some s) (Some m) = OutOfFuel.
Proof.
  intros HP Hm He. unfold registerTool_method. rewrite He. cbn [negb].
  by rewrite (buildSchema_diverges P).
Qed.

(** Tool names are lower case and only gain underscores: [toSnakeCase]
    leaves no capital, keeps the letters in order up to case, and changes
    nothing when applied again. *)
Theorem toSnakeCase_spec input :
  Forall (fun b => is_upper b = false) (toSnakeCase input) /\
  List.filter not_underscore (toSnakeCase input) = List.filter not_underscore (map lower input) /\
  toSnakeCase (toSnakeCase input) = toSnakeCase input.
Proof.
  unfold toSnakeCase. split; [apply snake_loop_no_upper|]. split; [apply snake_loop_letters|].
  apply snake_loop_lower, snake_loop_no_upper.
Qed.

(** After any sequence of registrations the registry finds, under every
    name, the first tool registered with it (later ones are refused and the
    empty name finds nothing); the list has each tool once, in the order of the
    names. *)
Theorem registry_first_wins `{Descriptors} (ds : list ToolDescriptor) :
  (forall name, findTool (register_all ds) name = if bool_decide (name = []) then None else first_named name ds) /\
  StdMap.map_wf (register_all ds) /\
  (forall d, d ∈ listTools (register_all ds) <-> findTool (register_all ds) (t_name d) = Some d) /\
  tools_size (register_all ds) = lenZ (listTools (register_all ds)).
Proof.
  destruct (register_fold ds [] registry_wf_nil) as [[Hw Hk] Hl]. fold (register_all ds) in *.
  unfold findTool, listTools, tools_size. split_and!; [|done| |by unfold lenZ; rewrite length_map].
  - intros name. case_bool_decide as Hn; [|by rewrite Hl].
    destruct (StdMap.lookup name _) eqn:E; [|done]. by apply Hk in E as [_ E].
  - intros d. split.
    + intros ([k d'] & -> & Hin)%list_elem_of_fmap. cbn. apply StdMap.In_lookup in Hin; [|done].
      by destruct (Hk _ _ Hin) as [-> _].
    + intros Hin%StdMap.lookup_Some_In. apply list_elem_of_fmap. by exists (t_name d, d).
Qed.

(** ** Witnesses *)

(** Two message types: [0] has a string, an enumeration list and a field of
    type [1]; [2] is a tree whose children are [2]. *)
#[global] Instance example_descriptors : Descriptors := {|
  Descriptor := nat; FieldDescriptor := nat; MethodDescriptor := nat; ServiceDescriptor := nat;
  full_name d := match d with 0%nat => str "demo.Order" | 1%nat => str "demo.Item" | _ => str "demo.Tree" end;
  fields d := match d with 0%nat => [0; 1; 2]%nat | 1%nat => [3]%nat | _ => [4]%nat end;
  json_name f :=
    match f with 0%nat => str "id" | 1%nat => str "flags" | 2%nat => str "item" | 3%nat => str "sku"
    | _ => str "children" end;
  field_type f := match f with 0%nat => TYPE_STRING | 1%nat => TYPE_ENUM | 3%nat => TYPE_BYTES | _ => TYPE_MESSAGE end;
  is_map _ := false;
  is_repeated f := match f with 1%nat | 4%nat => true | _ => false end;
  message_type f := match f with 4%nat => 2%nat | _ => 1%nat end;
  enum_names _ := [str "FAST"];
  param_description _ := None;
  param_required f := match f with 0%nat => Some true | _ => None end;
  service_name _ := str "Shop"; method_name _ := str "PlaceOrder"; method_service m := m;
  input_type m := m; output_type _ := 1%nat; tool_description _ := None; tool_enabled _ := None |}.

Lemma schema_complete_witness :
  exists schema, buildSchema 2 (0%nat : Descriptor) = Ret schema /\
    Forall2 describes (fields (0%nat : Descriptor)) schema.
Proof.
  apply (@schema_complete example_descriptors (fun d : nat => d < 2)%nat (fun d : nat => 1 - d)%nat).
  - unfold acyclic. cbn [Descriptor FieldDescriptor example_descriptors].
    intros d f Hd Hf He. destruct d as [|[|d]]; [| |lia]; cbn in Hf; rewrite !elem_of_cons in Hf.
    + destruct Hf as [->|[->|[->|Hf]]]; [done|done|cbn; lia|by inversion Hf].
    + destruct Hf as [->|Hf]; [done|by inversion Hf].
  - lia.
  - cbn. lia.
Defined.

Lemma recursive_message_never_registers_witness :
  registerTool_method 100 [] (Some (2%nat : ServiceDescriptor)) (Some (2%nat : MethodDescriptor)) = OutOfFuel.
Proof.
  apply (@recursive_message_never_registers example_descriptors (fun d : nat => d = 2%nat)); [|done|done].
  intros d ->. exists 4%nat. split; [by left|done].
Defined.

Example schema_ex :
  (let* schema := buildSchema 2 (0%nat : Descriptor) in Ret (map (fun p => (p_name p, p_type p, p_required p)) schema)) =
  Ret [(str "id", str "string", true); (str "flags", str "array", false); (str "item", str "object", false)].
Proof. by vm_compute. Qed.
