(* ===== verification/McpServer.v ===== *)
(** The MCP stdio gateway: src/mcp/mcp_server.cpp.  The RPC client is an
    interface, [RpcBackend], with the one law the gateway relies on; Protobuf's
    messages are a library's and their functions are parameters. *)
From Stdlib Require Import ZArith Lia.
From Stdlib Require Import Strings.Byte.
From stdpp Require Import base list strings.
From S2P Require Import Prelude StdMap Metadata Chars RpcMessage RpcClient Json JsonParser ToolRegistry.
Import ToolRegistry.

(** * Interfaces *)

(** What the gateway uses of [rpc::RpcClient]: [call] with default options,
    whose result has a value when its status is OK. *)
Class RpcBackend (B : Type) := {
  backend_call : B -> bytes -> bytes -> bytes -> outcome (Result RpcResponse * B);
  backend_value : forall b service method body r b',
    backend_call b service method body = Ret (r, b') -> result_ok r = true ->
    exists v, r_value r = Some v;
}.

(** Protobuf's dynamic messages; an [inr] is the text of a status that is not
    OK. *)
Class Messages `{Descriptors} := {
  Message : Type;
  JsonStringToMessage : Descriptor -> bytes -> Message + bytes;
  SerializeToString : Message -> option bytes;
  ParseFromString : Descriptor -> bytes -> option Message;
  MessageToJsonString : Message -> bytes + bytes;
}.

Module McpServer.

(** * State *)

Inductive State := kUninitialized | kInitialized | kShutdown.
#[global] Instance State_eq_dec : EqDecision State.
Proof. solve_decision. Defined.

Section server.
Context `{Messages} {B : Type} `{RpcBackend B}.

(** [Impl], and what the process has written to its two streams. *)
Record Impl := mkImpl {
  rpc_client : B;
  registry : tools;
  server_name : bytes;
  server_version : bytes;
  session_state : State;
  stopped : bool;
  cout : bytes;
  cerr : bytes;
}.

(** The constructor. *)
Definition construct (client : B) (registry : tools) (name version : bytes) : Impl :=
  mkImpl client registry name version kUninitialized false [] [].

Definition set_client (b : B) (s : Impl) : Impl :=
  mkImpl b (registry s) (server_name s) (server_version s) (session_state s) (stopped s) (cout s) (cerr s).
Definition set_state (st : State) (s : Impl) : Impl :=
  mkImpl (rpc_client s) (registry s) (server_name s) (server_version s) st (stopped s) (cout s) (cerr s).
Definition stop (s : Impl) : Impl :=
  mkImpl (rpc_client s) (registry s) (server_name s) (server_version s) (session_state s) true (cout s) (cerr s).
Definition isStopped (s : Impl) : bool := stopped s.

(** [std::cout << line << std::endl] and the same of [std::cerr]. *)
Definition print_out (line : bytes) (s : Impl) : Impl :=
  mkImpl (rpc_client s) (registry s) (server_name s) (server_version s) (session_state s) (stopped s)
         (cout s ++ line ++ [x0a]) (cerr s).
Definition print_err (line : bytes) (s : Impl) : Impl :=
  mkImpl (rpc_client s) (registry s) (server_name s) (server_version s) (session_state s) (stopped s)
         (cout s) (cerr s ++ line ++ [x0a]).

(** * buildPropertySchema and buildToolSchema *)

Definition json_string (s : string) : JsonValue := JString (str s).

(** The loop over parameters: the properties and the required names. *)
Definition properties_loop (build : ToolParameter -> JsonValue) :
    list ToolParameter -> JsonValue -> JsonValue -> JsonValue * JsonValue :=
  fix loop ps props req :=
    match ps with
    | [] => (props, req)
    | p :: ps =>
        loop ps (set props (p_name p) (build p))
             (if p_required p then push req (JString (p_name p)) else req)
    end.

Definition push_all (l : list JsonValue) : JsonValue := fold_left push l (JArray []).

Fixpoint buildPropertySchema (param : ToolParameter) : JsonValue :=
  match param with
  | mkParameter name type description required properties items enum_values content_encoding =>
      let prop := set (JObject []) (str "type") (JString type) in
      let prop :=
        match description with [] => prop | _ => set prop (str "description") (JString description) end in
      let prop :=
        match content_encoding with
        | [] => prop
        | _ => set prop (str "contentEncoding") (JString content_encoding)
        end in
      let prop :=
        match enum_values with
        | Some vs => set prop (str "enum") (push_all (map JString vs))
        | None => prop
        end in
      let prop :=
        match properties with
        | [] => prop
        | _ =>
            let '(nested_props, nested_req) :=
              properties_loop buildPropertySchema properties (JObject []) (JArray []) in
            let prop := set prop (str "properties") nested_props in
            if 0 <? size nested_req then set prop (str "required") nested_req else prop
        end in
      match items with
      | Some item => set prop (str "items") (buildPropertySchema item)
      | None => prop
      end
  end.

Definition buildToolSchema (desc : ToolDescriptor) : JsonValue :=
  let tool := set (JObject []) (str "name") (JString (t_name desc)) in
  let tool := set tool (str "description") (JString (t_description desc)) in
  let schema := set (JObject []) (str "type") (json_string "object") in
  let '(properties, required_arr) :=
    properties_loop buildPropertySchema (t_input_schema desc) (JObject []) (JArray []) in
  let schema := set schema (str "properties") properties in
  let schema := if 0 <? size required_arr then set schema (str "required") required_arr else schema in
  set tool (str "inputSchema") schema.

(** * JSON and Protobuf *)

(** [None] is a null descriptor. *)
Definition jsonToProtobuf (json : JsonValue) (descriptor : option Descriptor) : Result bytes :=
  match descriptor with
  | None => of_status (mkStatus kInvalidArgument (str "descriptor must not be null"))
  | Some d =>
      match JsonStringToMessage d (serialize json) with
      | inr text => of_status (mkStatus kInvalidArgument text)
      | inl message =>
          match SerializeToString message with
          | None => of_status (mkStatus kInternal (str "failed to serialize Protobuf message"))
          | Some binary => of_value binary
          end
      end
  end.

Definition wrap (json_text : bytes) : bytes :=
  q "{'jsonrpc':'2.0','method':'_','id':1,'params':" ++ json_text ++ [x7d].

Definition protobufToJson (binary : bytes) (descriptor : option Descriptor) : outcome (Result JsonValue) :=
  match descriptor with
  | None => Ret (of_status (mkStatus kInvalidArgument (str "descriptor must not be null")))
  | Some d =>
      match ParseFromString d binary with
      | None => Ret (of_status (mkStatus kInternal (str "failed to parse Protobuf response")))
      | Some message =>
          match MessageToJsonString message with
          | inr text => Ret (of_status (mkStatus kInternal text))
          | inl json_text =>
              let* parsed := parseRequest (wrap json_text) in
              match parsed with
              | inl r =>
                  if negb (isObject (params r)) then
                    Ret (of_status (mkStatus kInternal (str "failed to parse JSON response from Protobuf")))
                  else Ret (of_value (params r))
              | inr _ =>
                  Ret (of_status (mkStatus kInternal (str "failed to parse JSON response from Protobuf")))
              end
          end
      end
  end.

(** * Handlers: the response and the state *)

Definition handleInitialize (request : JsonRpcRequest) (s : Impl) : bytes * Impl :=
  if negb (bool_decide (session_state s = kUninitialized)) then
    (serializeError (req_id request) ErrorCode.kInvalidRequest (str "Server is already initialized") None, s)
  else
    let s := set_state kInitialized s in
    let tools_cap := set (JObject []) (str "listChanged") (JBool false) in
    let capabilities := set (JObject []) (str "tools") tools_cap in
    let result := set (JObject []) (str "protocolVersion") (json_string "2024-11-05") in
    let result :=
      set result (str "serverInfo")
        (set (set (JObject []) (str "name") (JString (server_name s)))
             (str "version") (JString (server_version s))) in
    let result := set result (str "capabilities") capabilities in
    (serializeResponse (req_id request) result, s).

Definition handleInitialized (request : JsonRpcRequest) (s : Impl) : bytes * Impl :=
  ([], print_err (str "[mcp] client sent initialized notification") s).

Definition handlePing (request : JsonRpcRequest) (s : Impl) : bytes * Impl :=
  (serializeResponse (req_id request) (JObject []), s).

Definition handleToolsList (request : JsonRpcRequest) (s : Impl) : bytes * Impl :=
  let tools_array := fold_left (fun arr desc => push arr (buildToolSchema desc))
                       (listTools (registry s)) (JArray []) in
  (serializeResponse (req_id request) (set (JObject []) (str "tools") tools_array), s).

(** The [switch] on the status of a failed call. *)
Definition mcp_code (c : StatusCode) : Z :=
  match c with
  | kNotFound => ErrorCode.kMethodNotFound
  | kInvalidArgument => ErrorCode.kInvalidParams
  | kDeadlineExceeded => -32001
  | kUnavailable => -32002
  | _ => ErrorCode.kInternalError
  end.

(** The status a handler put into the metadata, when it is not OK. *)
Definition embedded_error (meta : metadata_map) : option bytes :=
  match StdMap.lookup (str "nexus.status_code") meta with
  | Some code_text =>
      if negb (bool_decide (code_text = str "0")) then
        Some (match StdMap.lookup (str "nexus.status_message") meta with
              | Some msg => msg
              | None => str "handler returned an error"
              end)
      else None
  | None => None
  end.

Definition tool_result (json : JsonValue) : JsonValue :=
  let text_item := set (JObject []) (str "type") (json_string "text") in
  let text_item := set text_item (str "text") (JString (serialize json)) in
  let content := push (JArray []) text_item in
  let result := set (JObject []) (str "content") content in
  set result (str "structuredContent") json.

(** The arguments of the call, an empty object when they are not an object. *)
Definition call_arguments (params : JsonValue) : JsonValue :=
  let arguments := default JNull (member (str "arguments") params) in
  if hasMember (str "arguments") params && isObject arguments then arguments else JObject [].

Definition handleToolsCall (request : JsonRpcRequest) (s : Impl) : outcome (bytes * Impl) :=
  let error code msg s := Ret (serializeError (req_id request) code msg None, s) in
  if negb (isObject (params request)) || negb (hasMember (str "name") (params request)) then
    error ErrorCode.kInvalidParams (str "params must include 'name'") s
  else
    let tool_name := toString (default JNull (member (str "name") (params request))) in
    match findTool (registry s) tool_name with
    | None => error ErrorCode.kMethodNotFound (str "Tool not found: " ++ tool_name) s
    | Some tool =>
        let proto_body := jsonToProtobuf (call_arguments (params request)) (t_request_descriptor tool) in
        if negb (result_ok proto_body) then
          error ErrorCode.kInvalidParams
            (str "Failed to convert arguments: " ++ message (r_status proto_body)) s
        else
        match r_value proto_body with
        | None => OutOfBounds
        | Some body =>
            let* '(rpc_result, client) :=
              backend_call (rpc_client s) (t_service_name tool) (t_method_name tool) body in
            let s := set_client client s in
            if negb (result_ok rpc_result) then
              error (mcp_code (code (r_status rpc_result)))
                (str "RPC call failed: " ++ message (r_status rpc_result)) s
            else
              match r_value rpc_result with
              | None => OutOfBounds
              | Some response =>
                  match embedded_error (res_metadata response) with
                  | Some detail => error ErrorCode.kInternalError detail s
                  | None =>
                      let* json_result := protobufToJson (res_body response) (t_response_descriptor tool) in
                      if negb (result_ok json_result) then
                        error ErrorCode.kInternalError
                          (str "Failed to convert response: " ++ message (r_status json_result)) s
                      else
                      match r_value json_result with
                      | None => OutOfBounds
                      | Some json => Ret (serializeResponse (req_id request) (tool_result json), s)
                      end
                  end
              end
        end
    end.

(** * dispatch *)

Definition is_method (request : JsonRpcRequest) (name : string) : bool :=
  bool_decide (rpc_method request = str name).

Definition dispatch (request : JsonRpcRequest) (s : Impl) : outcome (bytes * Impl) :=
  if negb (is_method request "initialize") && negb (is_method request "notifications/initialized") &&
     negb (bool_decide (session_state s = kInitialized)) then
    Ret (serializeError (req_id request) (-32002) (str "Server not initialized") None, s)
  else if is_method request "initialize" then Ret (handleInitialize request s)
  else if is_method request "notifications/initialized" then Ret (handleInitialized request s)
  else if is_method request "ping" then Ret (handlePing request s)
  else if is_method request "tools/list" then Ret (handleToolsList request s)
  else if is_method request "tools/call" then handleToolsCall request s
  else
    Ret (serializeError (req_id request) ErrorCode.kMethodNotFound
           (str "Unknown method: " ++ rpc_method request) None,
         print_err (str "[mcp] unknown method: " ++ rpc_method request) s).

(** * run *)

Fixpoint split_line (input : bytes) : bytes * bytes :=
  match input with
  | [] => ([], [])
  | c :: input =>
      if bool_decide (c = x0a) then ([], input)
      else let '(line, rest) := split_line input in (c :: line, rest)
  end.

(** [std::getline]: none at the end of the input; a last line needs no line
    feed. *)
Definition getline (input : bytes) : option (bytes * bytes) :=
  match input with
  | [] => None
  | _ => Some (split_line input)
  end.

(** [stops] says of each evaluation of the loop condition whether another
    thread called [stop] since the one before (when it ends: not); the body
    does not read the flag. *)
Fixpoint run_loop (fuel : nat) (stops : list bool) (input : bytes) (s : Impl) : outcome (Impl * bytes) :=
  let s := match stops with true :: _ => stop s | _ => s end in
  if stopped s then Ret (s, input)
  else
    match getline input with
    | None => Ret (s, input)
    | Some (line, input) =>
        match fuel with
        | O => OutOfFuel
        | S f =>
            match line with
            | [] => run_loop f (tail stops) input s
            | _ =>
                let* parsed := parseRequest line in
                match parsed with
                | inr last_error =>
                    let s := print_err (str "[mcp] parse error: " ++ last_error) s in
                    run_loop f (tail stops) input (print_out serializeParseError s)
                | inl request =>
                    let* '(response, s) := dispatch request s in
                    run_loop f (tail stops) input
                      (match response with [] => s | _ => print_out response s end)
                end
            end
        end
    end.

(** Every line takes an octet of the input. *)
Definition run (stops : list bool) (input : bytes) (s : Impl) : outcome (Impl * bytes) :=
  let* '(s, rest) := run_loop (length input) stops input s in
  Ret (stop s, rest).

End server.
Arguments Impl {_} B.
End McpServer.

(** * The RPC client as a backend *)

(** The client and, for each of its calls in turn, the environment of system
    calls it meets. *)
Record client_backend := mkBackend {
  b_client : RpcClient.Client;
  b_envs : nat -> RpcClient.env;
  b_calls : nat;                  (* calls made so far *)
}.

Definition default_options : RpcClient.RpcCallOptions := RpcClient.mkOptions 5000 [].

Definition client_call (strerror gai_strerror : Z -> bytes) (b : client_backend)
    (service method body : bytes) : outcome (Result RpcResponse * client_backend) :=
  let* '(r, c, _) :=
    RpcClient.call strerror gai_strerror (b_client b) service method body default_options
      (b_envs b (b_calls b)) in
  Ret (r, mkBackend c (b_envs b) (S (b_calls b))).

Lemma decodeResponseStatus_none metadata st :
  decodeResponseStatus metadata = (st, None) -> ok st = false.
Proof.
  unfold decodeResponseStatus. destruct (StdMap.lookup _ metadata); [|by intros [= <-]].
  destruct (_ || _); [by intros [= <-]|done].
Qed.

(** A result is a value, or a status that is not OK. *)
Definition has_value {T} (r : Result T) : Prop := result_ok r = true -> exists v, r_value r = Some v.

Lemma has_value_status {T} st : ok st = false -> has_value (@of_status T st).
Proof. intros H E. unfold result_ok in E. cbn in E. congruence. Qed.

Lemma fail_has_value st c e r c' e' :
  ok st = false -> RpcClient.fail st c e = Ret (r, c', e') -> has_value r.
Proof.
  unfold RpcClient.fail. destruct (RpcClient.closeUnlocked c e). intros H [= <- _ _].
  by apply has_value_status.
Qed.

(** Splits the [let*]s, conditions and matches of a hypothesis one by one. *)
Ltac step_result E :=
  match type of E with
  | mbind _ ?m = Ret _ =>
      let x := fresh "x" in let Ex := fresh "Ex" in
      destruct m as [x| |] eqn:Ex; [|discriminate E|discriminate E]; cbn [mbind outcome_bind] in E
  | (let '(_, _) := ?x in _) = _ => let Ex := fresh "Ex" in destruct x eqn:Ex
  | (if ?b then _ else _) = _ => let Eb := fresh "Eb" in destruct b eqn:Eb
  end.

Lemma finish_response_has_value h payload c e r c' e' :
  RpcClient.finish_response h payload c e = Ret (r, c', e') -> has_value r.
Proof.
  unfold RpcClient.finish_response. intros E. repeat step_result E;
    try (eapply fail_has_value; [|exact E]; first [by apply negb_true_iff|done]).
  match goal with Ed : decodeResponseStatus _ = (_, ?o) |- _ => destruct o; [clear Ed|] end.
  - repeat step_result E; injection E as <- _ _; [|by intros _; eexists].
    by apply has_value_status, negb_true_iff.
  - eapply fail_has_value; [|exact E]. by eapply decodeResponseStatus_none.
Qed.

Lemma receive_response_has_value strerror rid d c e r c' e' :
  RpcClient.receive_response strerror rid d c e = Ret (r, c', e') -> has_value r.
Proof.
  unfold RpcClient.receive_response. intros E. repeat step_result E;
    try (eapply fail_has_value; [|exact E]; first [by apply negb_true_iff|done]).
  by apply finish_response_has_value in E.
Qed.

Lemma call_has_value strerror gai_strerror c service method body o e r c' e' :
  RpcClient.call strerror gai_strerror c service method body o e = Ret (r, c', e') -> has_value r.
Proof.
  unfold RpcClient.call. intros E. repeat step_result E;
    try (eapply fail_has_value; [|exact E]; by apply negb_true_iff);
    try (injection E as <- _ _; by apply has_value_status).
  by apply receive_response_has_value in E.
Qed.

#[global] Program Instance client_RpcBackend (strerror gai_strerror : Z -> bytes) :
  RpcBackend client_backend := {| backend_call := client_call strerror gai_strerror |}.
Next Obligation.
  intros strerror gai_strerror b service method body r b'. unfold client_call. intros E.
  repeat step_result E. injection E as <- _. subst. by apply call_has_value in Ex.
Qed.
