(* ===== verification/McpServerFacts.v ===== *)
(** Theorems about the MCP gateway: one reply per request and in order, the
    session's lifecycle, and what tools/call and tools/list answer. *)
From Stdlib Require Import ZArith Lia.
From Stdlib Require Import Strings.Byte.
From stdpp Require Import base list strings.
From S2P Require Import Prelude StdMap Metadata Chars RpcMessage RpcClient JsonNumber Json JsonParser JsonFacts ToolRegistry ToolRegistryFacts McpServer.
Import ToolRegistry McpServer.

(** * Lines *)

Definition unlines (ls : list bytes) : bytes := concat (map (fun l => l ++ [x0a]) ls).

Definition no_lf (l : bytes) : Prop := x0a ∉ l.

(** The lines a reader gets from a stream. *)
Fixpoint read_lines (fuel : nat) (input : bytes) : list bytes :=
  match fuel, getline input with
  | S f, Some (line, rest) => line :: read_lines f rest
  | _, _ => []
  end.

Lemma split_line_app l rest : no_lf l -> split_line (l ++ x0a :: rest) = (l, rest).
Proof.
  unfold no_lf. induction l as [|c l IH]; intros Hl; cbn; [done|].
  rewrite not_elem_of_cons in Hl. destruct Hl as [Hc Hl].
  rewrite bool_decide_false by congruence. by rewrite IH.
Qed.

Lemma getline_unlines l ls : no_lf l -> getline (unlines (l :: ls)) = Some (l, unlines ls).
Proof.
  intros Hl. unfold unlines. cbn. rewrite <- app_assoc. cbn.
  pose proof (split_line_app l (concat (map (fun l => l ++ [x0a]) ls)) Hl) as E.
  unfold getline. rewrite E. by destruct l.
Qed.

Lemma unlines_length ls : (length ls <= length (unlines ls))%nat.
Proof.
  induction ls as [|l ls IH]; [done|]. unfold unlines in *. cbn. rewrite !length_app. cbn. lia.
Qed.

Lemma read_lines_unlines fuel ls :
  Forall no_lf ls -> (length ls <= fuel)%nat -> read_lines fuel (unlines ls) = ls.
Proof.
  intros Hls. revert fuel. induction Hls as [|l ls Hl Hls IH]; intros fuel Hf; [by destruct fuel|].
  destruct fuel as [|fuel]; cbn in Hf; [lia|]. cbn [read_lines]. rewrite getline_unlines by done.
  by rewrite IH by lia.
Qed.

Lemma unlines_app a b : unlines (a ++ b) = unlines a ++ unlines b.
Proof. unfold unlines. by rewrite map_app, concat_app. Qed.

(** * Replies *)

(** A reply to a request: a result, or an error with a reserved code. *)
Definition is_reply (id : JsonValue) (text : bytes) : Prop :=
  (exists result, text = serializeResponse id result) \/
  (exists code msg, text = serializeError id code msg None /\ -32768 <= code <= -32000).

Lemma serialize_no_lf v : no_lf (serialize v).
Proof.
  intros Hin. pose proof (serializeValue_plain v) as H. rewrite Forall_forall in H.
  apply H in Hin. by vm_compute in Hin.
Qed.

Lemma is_reply_line id text : is_reply id text -> no_lf text /\ text <> [].
Proof. intros [[result ->]|(code & msg & -> & _)]; (split; [apply serialize_no_lf|done]). Qed.

Lemma is_reply_error id code msg :
  -32768 <= code <= -32000 -> is_reply id (serializeError id code msg None).
Proof. right. by eexists _, _. Qed.

Lemma is_reply_result id result : is_reply id (serializeResponse id result).
Proof. left. by eexists. Qed.

Lemma mcp_code_range c : -32768 <= mcp_code c <= -32000.
Proof. destruct c; cbn; unfold ErrorCode.kMethodNotFound, ErrorCode.kInvalidParams, ErrorCode.kInternalError; lia. Qed.

Lemma hasMember_member k v x : member k v = Some x -> hasMember k v = true.
Proof. unfold member. destruct v; cbn; try done. by intros ->. Qed.

(** * JSON Schema objects *)

(** Induction on parameters, with hypotheses for properties and elements. *)
Section ToolParameter_ind.
Context (P : ToolParameter -> Prop).
Context (Hparam : forall n t d r ps it ev ce,
  Forall P ps -> (forall i, it = Some i -> P i) -> P (mkParameter n t d r ps it ev ce)).

Fixpoint ToolParameter_nested_ind (p : ToolParameter) : P p :=
  match p with
  | mkParameter n t d r ps it ev ce =>
      Hparam n t d r ps it ev ce
        ((fix go ps : Forall P ps :=
            match ps with
            | [] => Forall_nil_2 _
            | p :: ps => Forall_cons_2 _ p ps (ToolParameter_nested_ind p) (go ps)
            end) ps)
        (match it with
         | Some i => fun j E => eq_ind i P (ToolParameter_nested_ind i) j (f_equal (default i) E)
         | None => fun j E => match E with eq_refl => I end
         end)
  end.
End ToolParameter_ind.

(** An object, resp. an array, that the serializer and the parser agree on. *)
Definition object_ok (v : JsonValue) : Prop := isObject v = true /\ json_ok v = true.
Definition array_ok (v : JsonValue) : Prop := isArray v = true /\ json_ok v = true.

Lemma set_member_keys k x ms k' :
  k' ∈ map fst (set_member k x ms) <-> k' = k \/ k' ∈ map fst ms.
Proof.
  induction ms as [|[k1 v1] ms IH]; cbn.
  { rewrite elem_of_cons, elem_of_nil. tauto. }
  case_bool_decide; subst; cbn; rewrite !elem_of_cons, ?IH; tauto.
Qed.

Lemma set_member_ok k x ms :
  json_ok x = true -> json_ok (JObject ms) = true -> json_ok (JObject (set_member k x ms)) = true.
Proof.
  intros Hx. cbn [json_ok]. induction ms as [|[k1 v1] ms IH]; cbn; [by rewrite Hx|].
  intros [[Hk1 Hd]%andb_true_iff [Hv Hms]%andb_true_iff]%andb_true_iff.
  destruct (bool_decide (k1 = k)) eqn:Ek; cbn [no_dup_keys forallb fst snd map].
  - by rewrite Hk1, Hd, Hx, Hms.
  - rewrite Hd, Hms in IH. destruct (proj1 (andb_true_iff _ _) (IH eq_refl)) as [Hd' Hf'].
    rewrite Hd', Hf', Hv, andb_true_r. apply andb_true_iff. split; [|done].
    apply negb_true_iff, bool_decide_eq_false. rewrite set_member_keys.
    apply negb_true_iff, bool_decide_eq_false in Hk1. apply bool_decide_eq_false in Ek.
    intros [E|Hin]; done.
Qed.

Lemma set_ok v k x : object_ok v -> json_ok x = true -> object_ok (set v k x).
Proof.
  intros [Ho Hv] Hx. destruct v as [| | | | |ms|]; try done. split; [done|]. by apply set_member_ok.
Qed.

Lemma push_ok v x : array_ok v -> json_ok x = true -> array_ok (push v x).
Proof.
  intros [Ho Hv] Hx. destruct v as [| | | | | |vs]; try done. split; [done|].
  cbn in *. by rewrite forallb_app, Hv; cbn; rewrite Hx.
Qed.

Lemma properties_loop_ok build ps props req :
  Forall (fun p => object_ok (build p)) ps -> object_ok props -> array_ok req ->
  let '(props', req') := properties_loop build ps props req in object_ok props' /\ array_ok req'.
Proof.
  intros Hps. revert props req. induction Hps as [|p ps Hp Hps IH]; intros props req Ho Ha; cbn; [done|].
  apply IH; [by apply set_ok, Hp|]. destruct (p_required p); [by apply push_ok|done].
Qed.

Lemma push_all_ok l : Forall (fun v => json_ok v = true) l -> array_ok (push_all l).
Proof.
  unfold push_all. assert (Ha : array_ok (JArray [])) by done. revert Ha. generalize (JArray []).
  intros a Ha Hl. revert a Ha. induction Hl as [|v l Hv _ IH]; intros a Ha; cbn; [done|].
  by apply IH, push_ok.
Qed.

Lemma buildPropertySchema_ok p : object_ok (buildPropertySchema p).
Proof.
  induction p as [n t d r ps it ev ce Hps Hit] using ToolParameter_nested_ind. cbn [buildPropertySchema].
  assert (Hempty : object_ok (JObject [])) by done.
  set (p1 := set (JObject []) _ _). assert (H1 : object_ok p1) by (by apply set_ok). clearbody p1.
  set (p2 := match d with [] => p1 | _ => _ end).
  assert (H2 : object_ok p2) by (unfold p2; destruct d; [done|by apply set_ok]). clearbody p2.
  set (p3 := match ce with [] => p2 | _ => _ end).
  assert (H3 : object_ok p3) by (unfold p3; destruct ce; [done|by apply set_ok]). clearbody p3.
  set (p4 := match ev with Some _ => _ | None => p3 end).
  assert (H4 : object_ok p4).
  { unfold p4. destruct ev as [vs|]; [|done]. apply set_ok; [done|]. apply push_all_ok.
    apply Forall_map, Forall_forall. done. }
  clearbody p4. set (p5 := match ps with [] => p4 | _ => _ end).
  assert (H5 : object_ok p5).
  { unfold p5. pose proof (properties_loop_ok buildPropertySchema ps _ _ Hps Hempty (conj eq_refl eq_refl : array_ok (JArray []))) as Hl.
    destruct ps; [done|]. destruct (properties_loop _ _ _ _) as [props req]. destruct Hl as [Hp Hr].
    assert (Hs : object_ok (set p4 (str "properties") props)) by (apply set_ok, Hp; done).
    destruct (0 <? size req); [|done]. apply set_ok, Hr. done. }
  clearbody p5. destruct it as [i|]; [|done]. apply set_ok; [done|]. by apply Hit.
Qed.

Definition required_names (ps : list ToolParameter) : list JsonValue :=
  map (fun p => JString (p_name p)) (List.filter p_required ps).

Lemma properties_loop_distinct build ps ms req :
  NoDup (map fst ms ++ map p_name ps) ->
  properties_loop build ps (JObject ms) (JArray req) =
  (JObject (ms ++ map (fun p => (p_name p, build p)) ps), JArray (req ++ required_names ps)).
Proof.
  revert ms req. induction ps as [|p ps IH]; intros ms req Hnd; cbn; [by rewrite !app_nil_r|].
  assert (Hf : p_name p ∉ map fst ms).
  { apply NoDup_app in Hnd as (_ & Hnd & _). intros Hin. apply (Hnd _ Hin). by left. }
  rewrite set_member_fresh by done. unfold required_names. cbn.
  assert (Hnd' : NoDup (map fst (ms ++ [(p_name p, build p)]) ++ map p_name ps)).
  { by rewrite map_app, <- app_assoc. }
  destruct (p_required p); cbn [push]; rewrite IH by done; by rewrite <- !app_assoc.
Qed.

Section facts.
Context `{Messages} {B : Type} `{RpcBackend B}.

(** A set of backend states in which every call returns. *)
Definition live (P : B -> Prop) : Prop :=
  forall b service method body, P b ->
    exists r b', backend_call b service method body = Ret (r, b') /\ P b'.

(** The part of the state no handler changes. *)
Definition same_server (s s' : Impl B) : Prop :=
  registry s' = registry s /\ server_name s' = server_name s /\ server_version s' = server_version s /\
  stopped s' = stopped s /\ cout s' = cout s.

Lemma protobufToJson_returns binary d :
  exists r, protobufToJson binary d = Ret r /\ (result_ok r = true -> exists v, r_value r = Some v).
Proof.
  unfold protobufToJson. destruct d as [d|]; [|by eexists].
  destruct (ParseFromString d binary) as [m|]; [|by eexists].
  destruct (MessageToJsonString m) as [text|]; [|by eexists].
  destruct (parseRequest_cases (wrap text)) as (r & -> & _). cbn [mbind outcome_bind].
  destruct r; [|by eexists]. destruct (isObject _); cbn; eexists; (split; [done|]); [|done].
  intros _. by eexists.
Qed.

Lemma jsonToProtobuf_value json d :
  result_ok (jsonToProtobuf json d) = true -> exists v, r_value (jsonToProtobuf json d) = Some v.
Proof.
  unfold jsonToProtobuf. destruct d as [d|]; [|done]. destruct (JsonStringToMessage _ _); [|done].
  destruct (SerializeToString _); [|done]. intros _. by eexists.
Qed.

Lemma handleToolsCall_replies P request s :
  live P -> P (rpc_client s) ->
  exists text s', handleToolsCall request s = Ret (text, s') /\ P (rpc_client s') /\
    same_server s s' /\ session_state s' = session_state s /\ is_reply (req_id request) text.
Proof.
  intros Hlive HP.
  assert (Herr : forall code msg s', P (rpc_client s') -> same_server s s' ->
    session_state s' = session_state s -> -32768 <= code <= -32000 ->
    exists text s'', Ret (serializeError (req_id request) code msg None, s') = Ret (text, s'') /\
      P (rpc_client s'') /\ same_server s s'' /\ session_state s'' = session_state s /\
      is_reply (req_id request) text).
  { intros code msg s' ????. eexists _, _. split; [done|]. split_and!; try done. by apply is_reply_error. }
  unfold handleToolsCall. destruct (_ || _); [by apply Herr|].
  destruct (findTool _ _) as [tool|]; [|by apply Herr].
  set (pb := jsonToProtobuf _ _). pose proof (jsonToProtobuf_value _ _ : result_ok pb = true -> _) as Hpb.
  fold pb in Hpb. clearbody pb. destruct (result_ok pb); cbn [negb]; [|by apply Herr].
  destruct Hpb as [body ->]; [done|].
  destruct (Hlive (rpc_client s) (t_service_name tool) (t_method_name tool) body HP) as (r & b' & Hc & HP').
  rewrite Hc. cbn [mbind outcome_bind]. pose proof (backend_value _ _ _ _ _ _ Hc) as Hv.
  destruct (result_ok r); cbn [negb]; [|by apply Herr; [| | |apply mcp_code_range]].
  destruct Hv as [response ->]; [done|].
  destruct (embedded_error _); [by apply Herr|].
  destruct (protobufToJson_returns (res_body response) (t_response_descriptor tool)) as (jr & -> & Hj).
  cbn [mbind outcome_bind]. destruct (result_ok jr); cbn [negb]; [|by apply Herr].
  destruct Hj as [v ->]; [done|]. eexists _, _. split; [done|]. split_and!; try done. apply is_reply_result.
Qed.

(** [dispatch] returns, and answers every request but the notification. *)
Definition answered (request : JsonRpcRequest) (text : bytes) : Prop :=
  if is_method request "notifications/initialized" then text = [] else is_reply (req_id request) text.

Lemma dispatch_replies P request s :
  live P -> P (rpc_client s) ->
  exists text s', dispatch request s = Ret (text, s') /\ P (rpc_client s') /\
    same_server s s' /\ answered request text /\
    (session_state s = kInitialized -> session_state s' = kInitialized).
Proof.
  intros Hlive HP. unfold dispatch, answered.
  destruct (is_method request "initialize") eqn:Einit.
  { assert (is_method request "notifications/initialized" = false) as ->.
    { unfold is_method in *. apply bool_decide_eq_true in Einit. rewrite Einit. by vm_compute. }
    cbn [negb andb]. unfold handleInitialize.
    destruct (negb _); (eexists _, _; split; [done|]); split_and!; try done;
      [by apply is_reply_error|apply is_reply_result]. }
  destruct (is_method request "notifications/initialized"); cbn [negb andb].
  { eexists _, _. split; [done|]. by split_and!. }
  destruct (negb _); [eexists _, _; split; [done|]; split_and!; try done; by apply is_reply_error|].
  destruct (is_method request "ping").
  { eexists _, _. split; [done|]. split_and!; try done. apply is_reply_result. }
  destruct (is_method request "tools/list").
  { eexists _, _. split; [done|]. split_and!; try done. apply is_reply_result. }
  destruct (is_method request "tools/call").
  { destruct (handleToolsCall_replies P request s Hlive HP) as (text & s' & -> & ? & ? & Hst & ?).
    eexists _, _. split; [done|]. split_and!; try done. by rewrite Hst. }
  eexists _, _. split; [done|]. split_and!; try done. by apply is_reply_error.
Qed.

(** ** The loop *)

(** What the gateway answers to a line, if anything, when [ans] says what it
    answers to a request (nothing is the empty text). *)
Definition answers (ans : JsonRpcRequest -> bytes -> Prop) (line : bytes) (reply : option bytes) : Prop :=
  match reply with
  | None => line = [] \/ exists request, parseRequest line = Ret (inl request) /\ ans request []
  | Some text =>
      line <> [] /\ text <> [] /\
      ((exists err, parseRequest line = Ret (inr err) /\ text = serializeParseError) \/
       (exists request, parseRequest line = Ret (inl request) /\ ans request text))
  end.

Definition reply_lines (replies : list (option bytes)) : list bytes :=
  concat (map (fun r => match r with Some text => [text] | None => [] end) replies).

(** One iteration on a line, as the loop runs it. *)
Lemma run_loop_line fuel stops line input s :
  no_lf line -> stopped s = false -> head stops <> Some true ->
  run_loop (S fuel) stops (line ++ x0a :: input) s =
  match line with
  | [] => run_loop fuel (tail stops) input s
  | _ =>
      let* parsed := parseRequest line in
      match parsed with
      | inr last_error =>
          run_loop fuel (tail stops) input
            (print_out serializeParseError (print_err (str "[mcp] parse error: " ++ last_error) s))
      | inl request =>
          let* '(response, s) := dispatch request s in
          run_loop fuel (tail stops) input (match response with [] => s | _ => print_out response s end)
      end
  end.
Proof.
  intros Hl Hs Hst. cbn [run_loop].
  assert (match stops with true :: _ => stop s | _ => s end = s) as ->.
  { destruct stops as [|[|] stops]; done. }
  rewrite Hs. unfold getline. rewrite split_line_app by done. by destruct line.
Qed.

Lemma unlines_cons l ls : unlines (l :: ls) = l ++ x0a :: unlines ls.
Proof. unfold unlines. cbn. by rewrite <- app_assoc. Qed.

(** The loop under an invariant [J] that [dispatch] keeps, on the requests that
    [allowed] holds of, while it answers as [ans] says. *)
Section loop.
Context (J : Impl B -> Prop) (allowed : JsonRpcRequest -> Prop) (ans : JsonRpcRequest -> bytes -> Prop).
Context (J_print : forall text s, J s -> J (print_out text s) /\ J (print_err text s)).
Context (J_stop : forall s, J s -> J (stop s)).
Context (J_dispatch : forall request s, J s -> allowed request ->
  exists text s', dispatch request s = Ret (text, s') /\ J s' /\ same_server s s' /\
    ans request text /\ no_lf text).

Definition allowed_line (line : bytes) : Prop :=
  no_lf line /\ forall request, parseRequest line = Ret (inl request) -> allowed request.

Lemma run_loop_step fuel stops line input s :
  J s -> stopped s = false -> allowed_line line -> head stops <> Some true ->
  exists reply s', run_loop (S fuel) stops (line ++ x0a :: input) s = run_loop fuel (tail stops) input s' /\
    answers ans line reply /\ J s' /\ stopped s' = false /\
    cout s' = cout s ++ unlines (reply_lines [reply]) /\ Forall no_lf (reply_lines [reply]).
Proof.
  intros HJ Hs [Hl Hallow] Hst. rewrite run_loop_line by done.
  assert (Hnil : forall x : bytes, x = x ++ unlines (reply_lines [None])) by (intros; by rewrite app_nil_r).
  assert (Hone : forall text (s' : Impl B), cout s' = cout s ->
    cout (print_out text s') = cout s ++ unlines (reply_lines [Some text])).
  { intros text s' E. cbn. by rewrite E, app_nil_r. }
  destruct line as [|c line].
  { exists None, s. split_and!; try done; first [by left|apply Hnil|constructor]. }
  destruct (parseRequest_cases (c :: line)) as (r & Hr & _). rewrite Hr. cbn [mbind outcome_bind].
  destruct r as [request|err].
  2:{ exists (Some serializeParseError). eexists. split; [done|]. split; [|split; [by apply J_print, J_print|]].
      - split; [done|]. split; [done|]. left. by exists err.
      - split; [done|]. split; [by apply Hone|]. constructor; [apply serialize_no_lf|constructor]. }
  destruct (J_dispatch request s HJ (Hallow _ Hr)) as (text & s' & -> & HJ' & Hsame & Hans & Hlf).
  cbn [mbind outcome_bind]. destruct Hsame as (_ & _ & _ & Hs' & Hc). destruct text as [|t text].
  - exists None, s'. split; [done|].
    split_and!; [right; by exists request|done|by rewrite Hs'|by rewrite Hc; apply Hnil|constructor].
  - exists (Some (t :: text)). eexists. split; [done|].
    split_and!; [|by apply J_print|by cbn; rewrite Hs'|by apply Hone|by constructor].
    split; [done|]. split; [done|]. right. by exists request.
Qed.

(** [n] lines are read: all, or those before the first call of [stop]. *)
Definition reads_until_stop (stops : list bool) (lines : list bytes) (n : nat) : Prop :=
  (n <= length lines)%nat /\ (forall i, (i < n)%nat -> stops !! i <> Some true) /\
  (n = length lines \/ stops !! n = Some true).

Lemma run_loop_answers fuel stops lines s :
  J s -> stopped s = false -> Forall allowed_line lines -> (length lines <= fuel)%nat ->
  exists n replies s', run_loop fuel stops (unlines lines) s = Ret (s', unlines (drop n lines)) /\
    reads_until_stop stops lines n /\ J s' /\
    Forall2 (answers ans) (take n lines) replies /\ cout s' = cout s ++ unlines (reply_lines replies) /\
    Forall no_lf (reply_lines replies).
Proof.
  intros HJ Hs Hls. revert fuel stops s HJ Hs.
  induction Hls as [|l ls Hl Hls IH]; intros fuel stops s HJ Hs Hf.
  { exists 0%nat, [], (match stops with true :: _ => stop s | _ => s end).
    assert (Hend : reads_until_stop stops [] 0) by (split; [done|split; [lia|by left]]).
    destruct fuel, stops as [|[|] stops]; cbn; rewrite ?Hs; split_and!; try done;
      first [by apply J_stop|by rewrite app_nil_r|constructor]. }
  destruct fuel as [|fuel]; cbn in Hf; [lia|].
  destruct (decide (head stops = Some true)) as [Hst|Hst].
  { exists 0%nat, [], (stop s). destruct stops as [|b stops]; [done|]. injection Hst as ->. cbn [run_loop stop stopped].
    split; [done|]. split; [split; [lia|split; [lia|by right]]|]. split; [by apply J_stop|].
    split; [constructor|]. split; [by cbn; rewrite app_nil_r|constructor]. }
  rewrite unlines_cons.
  destruct (run_loop_step fuel stops l (unlines ls) s HJ Hs Hl Hst)
    as (reply & s1 & -> & Ha & HJ1 & Hs1 & Hc1 & Hlf1).
  destruct (IH fuel (tail stops) s1 HJ1 Hs1)
    as (n & replies & s2 & -> & (Hn & Hi & Hend) & HJ2 & Hans & Hc2 & Hlf2); [lia|].
  exists (S n), (reply :: replies), s2. split; [done|].
  assert (Hshift : forall i, stops !! S i = tail stops !! i) by (by destruct stops).
  assert (Happ : reply_lines (reply :: replies) = reply_lines [reply] ++ reply_lines replies).
  { unfold reply_lines. cbn. by rewrite app_nil_r. }
  rewrite Happ. split_and!; [|done|by constructor| |by apply Forall_app].
  - split_and!; cbn [length]; [lia| |].
    + intros [|i] Hlt; [by destruct stops|]. rewrite Hshift. apply Hi. lia.
    + rewrite Hshift. destruct Hend as [->|Hend]; [by left|by right].
  - by rewrite Hc2, Hc1, <- app_assoc, <- unlines_app.
Qed.

Lemma run_answers stops lines s :
  J s -> stopped s = false -> Forall allowed_line lines ->
  exists n replies s', run stops (unlines lines) s = Ret (s', unlines (drop n lines)) /\
    reads_until_stop stops lines n /\ J s' /\ isStopped s' = true /\
    Forall2 (answers ans) (take n lines) replies /\ cout s' = cout s ++ unlines (reply_lines replies) /\
    read_lines (length (reply_lines replies)) (unlines (reply_lines replies)) = reply_lines replies.
Proof.
  intros HJ Hs Hls. unfold run.
  destruct (run_loop_answers (length (unlines lines)) stops lines s HJ Hs Hls)
    as (n & replies & s' & -> & Hn & HJ' & Hans & Hc & Hlf); [apply unlines_length|].
  cbn [mbind outcome_bind]. exists n, replies, (stop s'). split_and!; try done; [by apply J_stop|].
  by apply read_lines_unlines.
Qed.

End loop.

(** ** The lifecycle *)

(** The refusal of every request before [initialize]. *)
Definition refused (request : JsonRpcRequest) (text : bytes) : Prop :=
  text = if is_method request "notifications/initialized" then []
         else serializeError (req_id request) (-32002) (str "Server not initialized") None.

Lemma dispatch_uninitialized request s :
  session_state s = kUninitialized -> is_method request "initialize" = false ->
  exists text s', dispatch request s = Ret (text, s') /\ session_state s' = kUninitialized /\
    rpc_client s' = rpc_client s /\ same_server s s' /\ refused request text /\ no_lf text.
Proof.
  intros Hs Hm. unfold dispatch, refused. rewrite Hm, Hs. cbn [negb andb].
  destruct (is_method request "notifications/initialized"); cbn [negb andb].
  - eexists _, _. split; [done|]. split_and!; try done. by intros ?%elem_of_nil.
  - rewrite bool_decide_false by done. eexists _, _. split; [done|]. split_and!; try done.
    apply serialize_no_lf.
Qed.

Lemma dispatch_initialized request s text s' :
  session_state s = kInitialized -> dispatch request s = Ret (text, s') -> session_state s' = kInitialized.
Proof.
  intros Hs. unfold dispatch, handleInitialize. rewrite Hs. rewrite !bool_decide_true by done.
  rewrite (bool_decide_false (kInitialized = kUninitialized)) by done. cbn [negb].
  rewrite andb_false_r. destruct (is_method request "initialize"); [by intros [= _ <-]|].
  do 3 (destruct (is_method _ _); [by intros [= _ <-]|]).
  destruct (is_method request "tools/call"); [|by intros [= _ <-]].
  unfold handleToolsCall. intros E.
  repeat first [step_result E | match type of E with match ?x with _ => _ end = _ => destruct x end | discriminate E];
    by injection E as _ <-.
Qed.

(** ** Tool calls *)

Lemma wrap_serialize v :
  isObject v = true -> wrap (serialize v) = serialize (request_object (mkRpcRequest (str "_") (JInteger 1) v)).
Proof. by destruct v. Qed.

Lemma parse_wrapped v :
  isObject v = true -> json_ok v = true ->
  parseRequest (wrap (serialize v)) = Ret (inl (mkRpcRequest (str "_") (JInteger 1) v)).
Proof.
  intros Ho Hok. rewrite wrap_serialize by done. unfold parseRequest.
  assert (Hr : json_ok (request_object (mkRpcRequest (str "_") (JInteger 1) v)) = true)
    by (by apply request_object_ok).
  destruct (parse_serialized _ Hr) as (p & -> & He). cbn [mbind outcome_bind]. rewrite He.
  by rewrite check_request_object; [|done|by destruct v].
Qed.

Lemma protobufToJson_object d binary m v :
  ParseFromString d binary = Some m -> MessageToJsonString m = inl (serialize v) ->
  isObject v = true -> json_ok v = true -> protobufToJson binary (Some d) = Ret (of_value v).
Proof.
  intros Hm Ht Ho Hok. unfold protobufToJson. rewrite Hm, Ht, parse_wrapped by done.
  cbn [mbind outcome_bind params]. by rewrite Ho.
Qed.

Lemma tool_result_ok v : json_ok v = true -> json_ok (tool_result v) = true.
Proof.
  intros Hv. change (no_dup_keys (members (tool_result v)) &&
    (json_ok (JArray [JObject [(str "type", json_string "text"); (str "text", JString (serialize v))]]) &&
     (json_ok v && true)) = true).
  rewrite Hv. by vm_compute.
Qed.

(** ** Tool lists *)

(** An entry of the list: the tool's name and description, and the schema of
    its parameters with the names of those that are required. *)
Definition describes_tool (desc : ToolDescriptor) (tool : JsonValue) : Prop :=
  member (str "name") tool = Some (JString (t_name desc)) /\
  member (str "description") tool = Some (JString (t_description desc)) /\
  exists schema, member (str "inputSchema") tool = Some schema /\
    member (str "type") schema = Some (JString (str "object")) /\
    (NoDup (map p_name (t_input_schema desc)) ->
     member (str "properties") schema =
       Some (JObject (map (fun p => (p_name p, buildPropertySchema p)) (t_input_schema desc))) /\
     member (str "required") schema =
       match required_names (t_input_schema desc) with [] => None | names => Some (JArray names) end).

Lemma buildToolSchema_describes desc : describes_tool desc (buildToolSchema desc).
Proof.
  unfold describes_tool, buildToolSchema.
  pose proof (properties_loop_distinct buildPropertySchema (t_input_schema desc) [] []) as Hl.
  destruct (properties_loop _ _ _ _) as [props req]. split; [done|]. split; [done|].
  eexists. split; [done|]. split; [by destruct (0 <? size req)|].
  intros Hnd. injection (Hl Hnd) as -> ->. cbn [app]. by destruct (required_names _).
Qed.

Lemma buildToolSchema_ok desc : json_ok (buildToolSchema desc) = true.
Proof.
  unfold buildToolSchema.
  pose proof (properties_loop_ok buildPropertySchema (t_input_schema desc) (JObject []) (JArray [])) as Hl.
  destruct (properties_loop _ _ _ _) as [props req].
  destruct Hl as [Hp Hr]; [apply Forall_forall; intros; apply buildPropertySchema_ok|done|done|].
  assert (Hempty : object_ok (JObject [])) by done.
  apply set_ok; [by apply set_ok; [apply set_ok|]|].
  assert (Hs : object_ok (set (set (JObject []) (str "type") (json_string "object")) (str "properties") props))
    by (apply set_ok, Hp; by apply set_ok).
  destruct (0 <? size req); [|apply Hs]. apply set_ok, Hr. done.
Qed.

Lemma tools_array_eq (l : list ToolDescriptor) acc :
  fold_left (fun arr desc => push arr (buildToolSchema desc)) l (JArray acc) =
  JArray (acc ++ map buildToolSchema l).
Proof.
  revert acc. induction l as [|d l IH]; intros acc; cbn; [by rewrite app_nil_r|].
  by rewrite IH, <- app_assoc.
Qed.

Lemma dispatch_tools_call request s :
  session_state s = kInitialized -> rpc_method request = str "tools/call" ->
  dispatch request s = handleToolsCall request s.
Proof.
  intros Hs Hm. unfold dispatch, is_method. rewrite Hm, Hs.
  rewrite (bool_decide_true (kInitialized = kInitialized)) by done. by rewrite andb_false_r.
Qed.

Lemma dispatch_tools_list request s :
  session_state s = kInitialized -> rpc_method request = str "tools/list" ->
  dispatch request s = Ret (handleToolsList request s).
Proof.
  intros Hs Hm. unfold dispatch, is_method. rewrite Hm, Hs.
  rewrite (bool_decide_true (kInitialized = kInitialized)) by done. by rewrite andb_false_r.
Qed.

(** The reply to a call whose RPC succeeds. *)
Lemma tools_call_reply request s name tool body client' response v :
  session_state s = kInitialized -> rpc_method request = str "tools/call" ->
  isObject (params request) = true -> member (str "name") (params request) = Some (JString name) ->
  findTool (registry s) name = Some tool ->
  jsonToProtobuf (call_arguments (params request)) (t_request_descriptor tool) = of_value body ->
  backend_call (rpc_client s) (t_service_name tool) (t_method_name tool) body = Ret (of_value response, client') ->
  StdMap.lookup kStatusCodeMetadataKey (res_metadata response) = Some (statusCodeToString scOk) ->
  protobufToJson (res_body response) (t_response_descriptor tool) = Ret (of_value v) ->
  dispatch request s = Ret (serializeResponse (req_id request) (tool_result v), set_client client' s).
Proof.
  intros Hs Hm Ho Hname Htool Hbody Hcall Hcode Hjson.
  rewrite dispatch_tools_call by done. unfold handleToolsCall. rewrite Ho.
  assert (hasMember (str "name") (params request) = true) as -> by (by eapply hasMember_member).
  cbn [negb orb]. rewrite Hname. change (toString (default JNull (Some (JString name)))) with name.
  rewrite Htool, Hbody. change (result_ok (of_value body)) with true. cbn [negb r_value of_value].
  rewrite Hcall. cbn [mbind outcome_bind]. change (result_ok (of_value response)) with true.
  cbn [negb r_value of_value].
  assert (embedded_error (res_metadata response) = None) as ->.
  { unfold embedded_error. change (str "nexus.status_code") with kStatusCodeMetadataKey. by rewrite Hcode. }
  by rewrite Hjson.
Qed.

Lemma protobufToJson_parsed d binary m text r :
  ParseFromString d binary = Some m -> MessageToJsonString m = inl text -> parseRequest (wrap text) = Ret (inl r) ->
  isObject (params r) = true -> protobufToJson binary (Some d) = Ret (of_value (params r)).
Proof.
  intros Hparse Htext Hr Ho. unfold protobufToJson. rewrite Hparse, Htext, Hr. cbn [mbind outcome_bind]. by rewrite Ho.
Qed.

(** The reply to a call whose RPC fails. *)
Lemma tools_call_rpc_fails request s tool octets r client' :
  session_state s = kInitialized -> rpc_method request = str "tools/call" ->
  hasMember (str "name") (params request) = true ->
  findTool (registry s) (toString (default JNull (member (str "name") (params request)))) = Some tool ->
  jsonToProtobuf (call_arguments (params request)) (t_request_descriptor tool) = of_value octets ->
  backend_call (rpc_client s) (t_service_name tool) (t_method_name tool) octets = Ret (r, client') ->
  result_ok r = false ->
  dispatch request s =
    Ret (serializeError (req_id request) (mcp_code (code (r_status r)))
           (str "RPC call failed: " ++ message (r_status r)) None, set_client client' s).
Proof.
  intros Hs Hm Hn Ht Hb Hcall Hr. rewrite dispatch_tools_call by done. unfold handleToolsCall.
  assert (isObject (params request) = true) as -> by (by destruct (params request)).
  rewrite Hn, Ht, Hb. cbn [negb orb]. change (result_ok (of_value octets)) with true.
  cbn [negb r_value of_value]. rewrite Hcall. cbn [mbind outcome_bind]. by rewrite Hr.
Qed.

End facts.

(** A client that reads the reply gets the value, as structured content and as
    text. *)
Lemma tool_reply_parses id v :
  json_ok id = true -> json_ok v = true ->
  exists o p result item item_text p',
    JsonParserImpl.parse (serializeResponse id (tool_result v)) = Ret (o, p) /\ JsonParserImpl.has_error p = false /\
    member (str "id") o = Some id /\ member (str "result") o = Some result /\
    member (str "structuredContent") result = Some v /\
    member (str "content") result = Some (JArray [item]) /\
    member (str "text") item = Some (JString item_text) /\
    JsonParserImpl.parse item_text = Ret (v, p') /\ JsonParserImpl.has_error p' = false.
Proof.
  intros Hid Hok. destruct (parse_serialized _ (response_object_ok _ _ Hid (tool_result_ok _ Hok))) as (p & Hp & He).
  destruct (parse_serialized _ Hok) as (p' & Hp' & He').
  eexists _, p, _, _, _, p'. split; [exact Hp|]. by split_and!.
Qed.

(** * Properties *)


(** Before a client sends [initialize], whatever else it sends (in any
    number of lines, with or without a stop), the gateway makes no RPC call and
    stays uninitialized, and answers every request with the error -32002. *)
Theorem no_call_before_initialize `{Messages} {B} `{RpcBackend B} stops lines (s : Impl B) :
  session_state s = kUninitialized -> stopped s = false ->
  Forall (allowed_line (fun request => rpc_method request <> str "initialize")) lines ->
  exists n replies s', run stops (unlines lines) s = Ret (s', unlines (drop n lines)) /\
    reads_until_stop stops lines n /\
    session_state s' = kUninitialized /\ rpc_client s' = rpc_client s /\
    Forall2 (answers refused) (take n lines) replies /\
    cout s' = cout s ++ unlines (reply_lines replies).
Proof.
  intros Hu Hs Hls.
  destruct (run_answers (fun s' => session_state s' = kUninitialized /\ rpc_client s' = rpc_client s)
    (fun request => rpc_method request <> str "initialize") refused) with (stops := stops) (lines := lines) (s := s)
    as (n & replies & s' & Hr & Hn & [Hu' Hc'] & _ & Hans & Hcout & _); try done.
  - intros request s0 [Hu0 Hc0] Hm.
    destruct (dispatch_uninitialized request s0 Hu0) as (text & s' & Hd & Hu' & Hc' & Hsame & Href & Hlf).
    { by apply bool_decide_eq_false. }
    exists text, s'. split_and!; try done. by rewrite Hc'.
  - by exists n, replies, s'.
Qed.

(** The handshake happens once: [initialize] on a new session reports the
    protocol version, the server and its capabilities and opens the session; a
    second one is an invalid request; and no request closes the session
    again. *)
Theorem initialize_once `{Messages} {B} `{RpcBackend B} request (s : Impl B) :
  (rpc_method request = str "initialize" -> session_state s = kUninitialized ->
   exists result, dispatch request s = Ret (serializeResponse (req_id request) result, set_state kInitialized s) /\
     member (str "protocolVersion") result = Some (JString (str "2024-11-05")) /\
     member (str "serverInfo") result =
       Some (JObject [(str "name", JString (server_name s)); (str "version", JString (server_version s))]) /\
     (exists caps, member (str "capabilities") result = Some caps /\ hasMember (str "tools") caps = true)) /\
  (rpc_method request = str "initialize" -> session_state s <> kUninitialized ->
   dispatch request s =
     Ret (serializeError (req_id request) ErrorCode.kInvalidRequest (str "Server is already initialized") None, s)) /\
  (forall text s', session_state s = kInitialized -> dispatch request s = Ret (text, s') ->
     session_state s' = kInitialized).
Proof.
  split_and!.
  - intros Hm Hs. unfold dispatch, handleInitialize, is_method. rewrite Hm, Hs.
    rewrite (bool_decide_true (kUninitialized = kUninitialized)) by done.
    eexists. split; [done|]. split_and!; try done. by eexists.
  - intros Hm Hs. unfold dispatch, handleInitialize, is_method. rewrite Hm.
    by rewrite (bool_decide_false (session_state s = kUninitialized)).
  - intros text s'. apply dispatch_initialized.
Qed.



(** The reply to tools/list parses to one entry per registered tool, in the
    order of their names, each with the tool's name, its description and the
    JSON Schema of its parameters, required ones listed. *)
Theorem tools_list_describes_tools `{Messages} {B} `{RpcBackend B} request (s : Impl B) :
  session_state s = kInitialized -> rpc_method request = str "tools/list" -> json_ok (req_id request) = true ->
  exists reply o p result entries,
    dispatch request s = Ret (reply, s) /\
    JsonParserImpl.parse reply = Ret (o, p) /\ JsonParserImpl.has_error p = false /\
    member (str "id") o = Some (req_id request) /\ member (str "result") o = Some result /\
    member (str "tools") result = Some (JArray entries) /\
    Forall2 describes_tool (listTools (registry s)) entries.
Proof.
  intros Hs Hm Hid. rewrite dispatch_tools_list by done. unfold handleToolsList. rewrite tools_array_eq. cbn [app].
  set (entries := map buildToolSchema (listTools (registry s))).
  assert (Hok : json_ok (set (JObject []) (str "tools") (JArray entries)) = true).
  { apply set_ok; [done|]. cbn [json_ok]. apply forallb_forall. intros v Hv.
    apply in_map_iff in Hv as (desc & <- & _). apply buildToolSchema_ok. }
  destruct (parse_serialized _ (response_object_ok _ _ Hid Hok)) as (p & Hp & He).
  eexists _, _, p, _, entries. split; [done|]. split; [exact Hp|]. split; [done|].
  split; [done|]. split; [done|]. split; [done|]. unfold entries. clear.
  induction (listTools (registry s)) as [|d l IH]; constructor; [apply buildToolSchema_describes|done].
Qed.

(** ** Witnesses *)

(** Messages that are their own JSON text. *)
#[global] Instance example_messages : Messages := {|
  Message := bytes;
  JsonStringToMessage _ text := inl text;
  SerializeToString m := Some m;
  ParseFromString _ b := Some b;
  MessageToJsonString m := inl m |}.

(** A backend that returns the request's body, and one that is down. *)
Definition echo_call (b : nat) (service method body : bytes) : outcome (Result RpcResponse * nat) :=
  Ret (of_value (mkResponse Ok [(str "nexus.status_code", str "0")] body), S b).
#[global] Program Instance echo_backend : RpcBackend nat := {| backend_call := echo_call |}.
Next Obligation. intros b service method body r b' [= <- _] _. by eexists. Qed.

Definition example_tool : ToolDescriptor :=
  mkTool (str "shop.place_order") (str "shop") (str "PlaceOrder") (str "Orders an item")
    [mkParameter (str "id") (str "string") [] true [] None None []]
    (Some (0%nat : Descriptor)) (Some (1%nat : Descriptor)).

Definition example_impl (st : State) : Impl nat :=
  mkImpl 0%nat [(t_name example_tool, example_tool)] (str "nexus") (str "1.0") st false [] [].

Definition tool_request (method : string) : JsonRpcRequest :=
  mkRpcRequest (str method) (JInteger 7)
    (JObject [(str "name", JString (str "shop.place_order"));
              (str "arguments", JObject [(str "id", JString (str "x"))])]).

Definition request_line (method : string) : bytes := serialize (request_object (tool_request method)).

Example run_ex :
  (let* '(s, _) := run [] (unlines [request_line "initialize"; request_line "tools/call"; str "?"; []])
                     (example_impl kUninitialized) in
   Ret (drop 1 (read_lines 10 (cout s)), rpc_client s)) =
  Ret ([q "{'jsonrpc':'2.0','id':7,'result':{'content':[{'type':'text','text':'{\'id\':\'x\'}'}],'structuredContent':{'id':'x'}}}";
        serializeParseError], 1%nat).
Proof. vm_compute. reflexivity. Qed.

(** An RPC client whose server's name does not resolve. *)
Definition down_env : RpcClient.env :=
  RpcClient.mkEnv 0 0 (RpcClient.GaiError (-2)) [] [] [] [] [] [].
Definition down_client : RpcClient.Client := RpcClient.construct (str "backend") 9000 0 7.
Definition no_text (_ : Z) : bytes := [].
Definition is_down (b : client_backend) : Prop := b_client b = down_client /\ forall i, b_envs b i = down_env.

Definition gateway_down : Impl client_backend :=
  mkImpl (mkBackend down_client (fun _ => down_env) 0) [(t_name example_tool, example_tool)]
    (str "nexus") (str "1.0") kUninitialized false [] [].

Lemma down_live : @live _ (client_RpcBackend no_text no_text) is_down.
Proof.
  intros [c envs n] service method body [Hc He]. cbn in Hc, He. subst c.
  cbn [backend_call client_RpcBackend]. unfold client_call. cbn [b_client b_envs b_calls].
  rewrite He. unfold RpcClient.call.
  destruct (_ || _); [by eexists _, _|]. change (RpcClient.deadline default_options <=? 0) with false. cbn iota.
  unfold RpcClient.ensureConnected. change (0 <=? RpcClient.fd_ down_client) with false. cbn iota.
  rewrite (bool_decide_false (RpcClient.host down_client = [])) by done. by eexists _, _.
Qed.

Definition gateway_lines : list bytes :=
  [request_line "initialize"; request_line "tools/call"; str "{"; []; request_line "ping"].

Lemma gateway_lines_no_lf : Forall no_lf gateway_lines.
Proof.
  assert (Hb : forallb (fun l => forallb (fun b => negb (bool_decide (b = x0a))) l) gateway_lines = true)
    by (vm_compute; reflexivity).
  rewrite forallb_forall in Hb. apply Forall_forall. intros l Hl%list_elem_of_In Hin.
  specialize (Hb l Hl). rewrite forallb_forall in Hb. apply list_elem_of_In, Hb in Hin.
  by rewrite bool_decide_true in Hin.
Qed.


Lemma no_call_before_initialize_witness :
  exists n replies s',
    run [] (unlines [request_line "tools/call"; str "{"]) (example_impl kUninitialized) =
      Ret (s', unlines (drop n [request_line "tools/call"; str "{"])) /\
    reads_until_stop [] [request_line "tools/call"; str "{"] n /\
    session_state s' = kUninitialized /\ rpc_client s' = rpc_client (example_impl kUninitialized) /\
    Forall2 (answers refused) (take n [request_line "tools/call"; str "{"]) replies /\
    cout s' = cout (example_impl kUninitialized) ++ unlines (reply_lines replies).
Proof.
  apply (no_call_before_initialize [] [request_line "tools/call"; str "{"] (example_impl kUninitialized));
    [reflexivity|reflexivity|].
  pose proof gateway_lines_no_lf as Hn. unfold gateway_lines in Hn. rewrite !Forall_cons in Hn.
  destruct Hn as (_ & Hn1 & Hn2 & _).
  apply Forall_cons_2; [split; [exact Hn1|]|apply Forall_cons_2; [split; [exact Hn2|]|apply Forall_nil_2]];
    intros request E.
  - assert (Hr : parseRequest (request_line "tools/call") = Ret (inl (tool_request "tools/call")))
      by (vm_compute; reflexivity).
    rewrite Hr in E. injection E as <-. by vm_compute.
  - assert (Hr : exists err, parseRequest (str "{") = Ret (inr err)) by (eexists; vm_compute; reflexivity).
    destruct Hr as [err Hr]. by rewrite Hr in E.
Defined.

Lemma initialize_once_witness :
  exists result, dispatch (tool_request "initialize") (example_impl kUninitialized) =
    Ret (serializeResponse (JInteger 7) result, set_state kInitialized (example_impl kUninitialized)) /\
    member (str "protocolVersion") result = Some (JString (str "2024-11-05")).
Proof.
  destruct (proj1 (initialize_once (tool_request "initialize") (example_impl kUninitialized)) eq_refl eq_refl)
    as (result & Hd & Hv & _).
  exists result. split; [exact Hd|exact Hv].
Defined.



Lemma tools_list_describes_tools_witness :
  exists reply o p result entries,
    dispatch (tool_request "tools/list") (example_impl kInitialized) = Ret (reply, example_impl kInitialized) /\
    JsonParserImpl.parse reply = Ret (o, p) /\ JsonParserImpl.has_error p = false /\
    member (str "id") o = Some (JInteger 7) /\ member (str "result") o = Some result /\
    member (str "tools") result = Some (JArray entries) /\
    Forall2 describes_tool [example_tool] entries.
Proof.
  apply (tools_list_describes_tools (tool_request "tools/list") (example_impl kInitialized)); reflexivity.
Defined.

(** A request without an id, a notification, is answered all the same. *)
Lemma notification_gets_reply :
  isNotification (mkRpcRequest (str "ping") JNull JNull) = true /\
  dispatch (mkRpcRequest (str "ping") JNull JNull) (example_impl kInitialized) =
    Ret (q "{'jsonrpc':'2.0','id':null,'result':{}}", example_impl kInitialized).
Proof. split; [reflexivity|]. vm_compute. reflexivity. Qed.
