(* ===== verification/WeatherService.v ===== *)
(** The weather service: src/examples/weather_service/main.cpp with the
    messages of src/proto/examples/weather.proto, and the descriptors Protobuf
    builds of that file, as the tool registry reads them. *)
From Stdlib Require Import ZArith.
From Stdlib Require Import Strings.Byte.
From stdpp Require Import base list strings.
From S2P Require Import Prelude RpcMessage RpcServer ServiceMain JsonNumber JsonParser ToolRegistry.

Module WeatherService.

(** * Messages *)

Record GetCurrentRequest := mkRequest { request_city : bytes }.

Record GetCurrentResponse := mkResponse {
  city : bytes;
  temperature_celsius : JsonNumber.double;
  humidity_percent : JsonNumber.double;
  condition : bytes;
}.

Definition double_zero : JsonNumber.double := JsonNumber.Number (JsonNumber.of_decimal false 0 0).

(** A new message, and the setters the handler calls. *)
Definition default_response : GetCurrentResponse := mkResponse [] double_zero double_zero [].
Definition set_city x r := mkResponse x (temperature_celsius r) (humidity_percent r) (condition r).
Definition set_temperature_celsius x r := mkResponse (city r) x (humidity_percent r) (condition r).
Definition set_humidity_percent x r := mkResponse (city r) (temperature_celsius r) x (condition r).
Definition set_condition x r := mkResponse (city r) (temperature_celsius r) (humidity_percent r) x.

(** A literal of the source with one decimal, given in tenths. *)
Definition tenths (n : Z) : JsonNumber.double := JsonNumber.Number (JsonNumber.of_decimal false n (-1)).

(** * The handler *)

Definition kWeatherPort : Z := 9601.

Definition weather_handler (request : GetCurrentRequest) : @RpcServer.TypedResult GetCurrentResponse :=
  if bool_decide (request_city request = []) then
    RpcServer.TReturns (mkStatus kInvalidArgument (str "city must be non-empty")) default_response
  else
    let response := set_city (request_city request) default_response in
    let response :=
      if bool_decide (request_city request = str "Beijing") then
        set_condition (str "Sunny") (set_humidity_percent (tenths 550) (set_temperature_celsius (tenths 285) response))
      else if bool_decide (request_city request = str "London") then
        set_condition (str "Cloudy") (set_humidity_percent (tenths 780) (set_temperature_celsius (tenths 152) response))
      else if bool_decide (request_city request = str "Tokyo") then
        set_condition (str "Rain") (set_humidity_percent (tenths 680) (set_temperature_celsius (tenths 220) response))
      else
        set_condition (str "Unknown") (set_humidity_percent (tenths 600) (set_temperature_celsius (tenths 200) response)) in
    RpcServer.TReturns Ok response.

Definition service (ParseFromString : bytes -> option GetCurrentRequest)
    (SerializeToString : GetCurrentResponse -> option bytes) : ServiceMain.Service :=
  ServiceMain.mkService (str "Weather") kWeatherPort (str "weather") (str "GetCurrent")
    GetCurrentRequest GetCurrentResponse ParseFromString SerializeToString weather_handler.

(** A step of [main]. *)
Definition main (ParseFromString : bytes -> option GetCurrentRequest)
    (SerializeToString : GetCurrentResponse -> option bytes) :
    Status -> ServiceMain.Process -> option ServiceMain.Process :=
  ServiceMain.main (service ParseFromString SerializeToString).

End WeatherService.

(** * weather.proto *)

Module WeatherProto.

Inductive message := GetCurrentRequest | GetCurrentResponse.

Inductive field := request_city | response_city | temperature_celsius | humidity_percent | condition.

(** One service with one method. *)
Inductive service := Weather.
Inductive method := GetCurrent.

Definition message_full_name (m : message) : bytes :=
  match m with
  | GetCurrentRequest => str "nexus.examples.weather.GetCurrentRequest"
  | GetCurrentResponse => str "nexus.examples.weather.GetCurrentResponse"
  end.

Definition message_fields (m : message) : list field :=
  match m with
  | GetCurrentRequest => [request_city]
  | GetCurrentResponse => [response_city; temperature_celsius; humidity_percent; condition]
  end.

Definition field_json_name (f : field) : bytes :=
  match f with
  | request_city | response_city => str "city"
  | temperature_celsius => str "temperatureCelsius"
  | humidity_percent => str "humidityPercent"
  | condition => str "condition"
  end.

Definition field_types (f : field) : ToolRegistry.FieldType :=
  match f with
  | temperature_celsius | humidity_percent => ToolRegistry.TYPE_DOUBLE
  | _ => ToolRegistry.TYPE_STRING
  end.

Definition field_description (f : field) : option bytes :=
  match f with
  | request_city => Some (q "City name (e.g. 'Beijing', 'London', 'Tokyo')")
  | _ => None
  end.

Definition field_required (f : field) : option bool :=
  match f with request_city => Some true | _ => None end.

Definition method_description : bytes := str "Returns the current weather for the requested city.".

(** No field is a message, an enumeration, a map or repeated; the type of the
    message of such a field is a null pointer, which no code reads. *)
Definition descriptors : ToolRegistry.Descriptors := {|
  ToolRegistry.Descriptor := message;
  ToolRegistry.FieldDescriptor := field;
  ToolRegistry.MethodDescriptor := method;
  ToolRegistry.ServiceDescriptor := service;
  ToolRegistry.full_name := message_full_name;
  ToolRegistry.fields := message_fields;
  ToolRegistry.json_name := field_json_name;
  ToolRegistry.field_type := field_types;
  ToolRegistry.is_map _ := false;
  ToolRegistry.is_repeated _ := false;
  ToolRegistry.message_type _ := GetCurrentRequest;
  ToolRegistry.enum_names _ := [];
  ToolRegistry.param_description := field_description;
  ToolRegistry.param_required := field_required;
  ToolRegistry.service_name _ := str "Weather";
  ToolRegistry.method_name _ := str "GetCurrent";
  ToolRegistry.method_service _ := Weather;
  ToolRegistry.input_type _ := GetCurrentRequest;
  ToolRegistry.output_type _ := GetCurrentResponse;
  ToolRegistry.tool_description _ := Some method_description;
  ToolRegistry.tool_enabled _ := None;
|}.
#[global] Existing Instance descriptors.

(** [FindServiceByName] of the file, and the methods of the service. *)
Definition FindServiceByName (name : bytes) : option service :=
  if bool_decide (name = str "Weather") then Some Weather else None.
Definition methods (s : service) : list method := [GetCurrent].

End WeatherProto.
