(* ===== verification/McpGateway.v ===== *)
(** The gateway example: src/examples/mcp_gateway/main.cpp. *)
From Stdlib Require Import ZArith.
From Stdlib Require Import Strings.Byte.
From stdpp Require Import base list strings.
From S2P Require Import Prelude RpcMessage RpcClient ToolRegistry McpServer.
Import ToolRegistry.

Module McpGateway.
Section gateway.
Context `{Messages}.

(** The loop over the methods of the service; the status is the first that is
    not OK. *)
Fixpoint register_methods (fuel : nat) (service : ServiceDescriptor) (methods : list MethodDescriptor)
    (registry : tools) : outcome (Status * tools) :=
  match methods with
  | [] => Ret (Ok, registry)
  | method :: methods =>
      let* '(status, registry) := registerTool_method fuel registry (Some service) (Some method) in
      if negb (ok status) then Ret (status, registry) else register_methods fuel service methods registry
  end.

(** What the process leaves behind: its exit code and its two streams, and the
    gateway when it ran. *)
Record Exit := mkExit {
  exit_code : Z;
  out : bytes;
  err : bytes;
  ran : option (McpServer.Impl client_backend);
}.

Definition EXIT_SUCCESS : Z := 0.
Definition EXIT_FAILURE : Z := 1.

(** The client of the weather service on this host; [hi] and [lo] are what the
    random device gives its constructor. *)
Definition client (hi lo : Z) : RpcClient.Client := RpcClient.construct (str "127.0.0.1") 9601 hi lo.

(** [main].  [FindServiceByName] and [methods] read Protobuf's descriptors;
    [envs] gives the system calls each call of the client meets, [stops] and
    [input] are the gateway's. *)
Definition main (strerror gai_strerror : Z -> bytes)
    (FindServiceByName : bytes -> option ServiceDescriptor) (methods : ServiceDescriptor -> list MethodDescriptor)
    (fuel : nat) (hi lo : Z) (envs : nat -> RpcClient.env) (stops : list bool) (input : bytes) : outcome Exit :=
  match FindServiceByName (str "Weather") with
  | None => Ret (mkExit EXIT_FAILURE [] (str "Failed to load Weather service descriptor" ++ [x0a]) None)
  | Some service =>
      let* '(status, registry) := register_methods fuel service (methods service) [] in
      if negb (ok status) then
        Ret (mkExit EXIT_FAILURE [] (str "Failed to register tool: " ++ message status ++ [x0a]) None)
      else
        let server := McpServer.construct (mkBackend (client hi lo) envs 0) registry
                        (str "NexusRPC Weather Gateway") (str "0.1.0") in
        let* '(server, _) := McpServer.run (H1 := client_RpcBackend strerror gai_strerror) stops input server in
        Ret (mkExit EXIT_SUCCESS (McpServer.cout server) (McpServer.cerr server) (Some server))
  end.

End gateway.
End McpGateway.
