(* ===== verification/WeatherEndToEnd.v ===== *)
(** The example system end to end: a line on the gateway's standard input, the
    call it makes of the weather service over TCP, and the line it prints. *)
From Stdlib Require Import ZArith Lia.
From Stdlib Require Import Strings.Byte.
From stdpp Require Import base list strings gmap.
From S2P Require Import Prelude StdMap FrameHeader Metadata FrameCodec RpcMessage RpcServer TcpConnection TcpConnectionFacts RpcTcp RpcTcpFacts RpcTcpLive RpcTcpServes RpcClient RpcClientFacts RpcEndToEnd JsonNumber Json JsonParser JsonFacts ToolRegistry McpServer McpServerFacts ServiceMain ServiceMainFacts WeatherService McpGateway.
Import ToolRegistry.

(** * The service's answer *)

(** The database of the service, in tenths of the units. *)
Definition database : list (bytes * (Z * Z * bytes)) :=
  [(str "Beijing", (285, 550, str "Sunny")); (str "London", (152, 780, str "Cloudy"));
   (str "Tokyo", (220, 680, str "Rain"))].

Fixpoint find_reading (city : bytes) (db : list (bytes * (Z * Z * bytes))) : Z * Z * bytes :=
  match db with
  | [] => (200, 600, str "Unknown")
  | (c, reading) :: db => if bool_decide (city = c) then reading else find_reading city db
  end.

Definition weather_of (city : bytes) : WeatherService.GetCurrentResponse :=
  let '(temperature, humidity, condition) := find_reading city database in
  WeatherService.mkResponse city (WeatherService.tenths temperature) (WeatherService.tenths humidity) condition.

Lemma weather_handler_spec city :
  city <> [] -> WeatherService.weather_handler (WeatherService.mkRequest city) = RpcServer.TReturns Ok (weather_of city).
Proof.
  intros Hc. unfold WeatherService.weather_handler, weather_of. cbn [WeatherService.request_city find_reading database].
  rewrite bool_decide_false by done. by repeat case_bool_decide.
Qed.

(** * The gateway's registry *)

Definition weather_tool : ToolDescriptor :=
  mkTool (str "weather.get_current") (str "weather") (str "GetCurrent") WeatherProto.method_description
    [mkParameter (str "city") (str "string") (q "City name (e.g. 'Beijing', 'London', 'Tokyo')") true [] None None []]
    (Some WeatherProto.GetCurrentRequest) (Some WeatherProto.GetCurrentResponse).

Definition weather_registry : tools := [(str "weather.get_current", weather_tool)].

Lemma gateway_registers `{!Messages} fuel :
  McpGateway.register_methods (S fuel) WeatherProto.Weather (WeatherProto.methods WeatherProto.Weather) [] =
  Ret (Ok, weather_registry).
Proof. by vm_compute. Qed.

Example weather_tool_ex :
  serialize (McpServer.buildToolSchema weather_tool) =
  q "{'name':'weather.get_current','description':'Returns the current weather for the requested city.','inputSchema':{'type':'object','properties':{'city':{'type':'string','description':'City name (e.g. \'Beijing\', \'London\', \'Tokyo\')'}},'required':['city']}}".
Proof. vm_compute. reflexivity. Qed.

(** * Protobuf *)

(** Text that both of Protobuf's formats carry as it is. *)
Definition ascii (text : bytes) : Prop := Forall (fun b => b2z b < 128) text.

(** A JSON number of the value of a double. *)
Definition is_number (d : JsonNumber.double) (v : JsonValue) : Prop :=
  v = JDouble d \/ exists n, v = JInteger n /\ d = JsonNumber.Number (JsonNumber.of_decimal (n <? 0) (Z.abs n) 0).

(** The JSON of a response. *)
Record weather_json (r : WeatherService.GetCurrentResponse) (v : JsonValue) : Prop := mkWeatherJson {
  wj_object : isObject v = true;
  wj_city : member (str "city") v = Some (JString (WeatherService.city r));
  wj_temperature : exists n, member (str "temperatureCelsius") v = Some n /\ is_number (WeatherService.temperature_celsius r) n;
  wj_humidity : exists n, member (str "humidityPercent") v = Some n /\ is_number (WeatherService.humidity_percent r) n;
  wj_condition : member (str "condition") v = Some (JString (WeatherService.condition r));
}.

Definition city_argument (city : bytes) : JsonValue := JObject [(str "city", JString city)].

(** The two programs' views of Protobuf: the service has generated classes, the
    gateway dynamic messages of the same descriptors.  The octets of a message
    are the same for both, and its JSON names the fields, where an integral
    number has no fraction. *)
Record protobuf `{!Messages} (encode_request : WeatherService.GetCurrentRequest -> bytes)
    (parse_request : bytes -> option WeatherService.GetCurrentRequest)
    (encode_response : WeatherService.GetCurrentResponse -> bytes)
    (serialize_response : WeatherService.GetCurrentResponse -> option bytes) : Prop := mkProtobuf {
  pb_from_json : forall city, ascii city -> exists m,
    JsonStringToMessage WeatherProto.GetCurrentRequest (serialize (city_argument city)) = inl m /\
    SerializeToString m = Some (encode_request (WeatherService.mkRequest city));
  pb_request : forall city, ascii city ->
    parse_request (encode_request (WeatherService.mkRequest city)) = Some (WeatherService.mkRequest city);
  pb_response : forall r, ascii (WeatherService.city r) -> ascii (WeatherService.condition r) ->
    serialize_response r = Some (encode_response r);
  pb_to_json : forall city, ascii city -> city <> [] ->
    let r := weather_of city in
    exists m text request,
      ParseFromString WeatherProto.GetCurrentResponse (encode_response r) = Some m /\
      MessageToJsonString m = inl text /\ parseRequest (McpServer.wrap text) = Ret (inl request) /\
      json_ok (params request) = true /\ weather_json r (params request);
}.

(** * A tool call *)

Section tool_call.
Context `{!Messages} {encode_request : WeatherService.GetCurrentRequest -> bytes}
  {parse_request : bytes -> option WeatherService.GetCurrentRequest}
  {encode_response : WeatherService.GetCurrentResponse -> bytes}
  {serialize_response : WeatherService.GetCurrentResponse -> option bytes}.
Context (Hpb : protobuf encode_request parse_request encode_response serialize_response).
Context (strerror gai_strerror : Z -> bytes).
#[local] Existing Instance client_RpcBackend.

#[local] Abbreviation service := (WeatherService.service parse_request serialize_response).
#[local] Abbreviation backend := (client_RpcBackend strerror gai_strerror).

Definition empty_city : RpcResponse :=
  mkResponse (mkStatus kInvalidArgument (str "city must be non-empty")) [] [].

(** What the service answers for a city. *)
Definition service_answer (city : bytes) : RpcResponse :=
  if bool_decide (city = []) then empty_city else mkResponse Ok [] (encode_response (weather_of city)).

Definition request_body (city : bytes) : bytes := encode_request (WeatherService.mkRequest city).

Lemma weather_of_city city : WeatherService.city (weather_of city) = city.
Proof. unfold weather_of. by destruct (find_reading city database) as [[t h] c]. Qed.

Lemma weather_of_condition city :
  ascii (WeatherService.condition (weather_of city)) /\ WeatherService.condition (weather_of city) <> [].
Proof.
  unfold weather_of, ascii. cbn [find_reading database]. repeat case_bool_decide; cbn [WeatherService.condition];
    (split; [by apply (bool_decide_unpack _); vm_compute|done]).
Qed.

Lemma service_answers city rid o e :
  ascii city ->
  ServiceMain.invoke (wire_handler service) (call_request rid (str "weather") (str "GetCurrent") (request_body city) o e) =
  RpcServer.Returns (service_answer city).
Proof.
  intros Hc. unfold ServiceMain.invoke, wire_handler, RpcServer.protobuf_handler.
  cbn [ServiceMain.parse ServiceMain.serialize ServiceMain.handler WeatherService.service req_body call_request]. unfold request_body.
  rewrite (pb_request _ _ _ _ Hpb city Hc). unfold service_answer. case_bool_decide as Hne.
  - unfold WeatherService.weather_handler. by rewrite bool_decide_true by done.
  - rewrite weather_handler_spec by done. change (ok Ok) with true. cbn [negb].
    rewrite (pb_response _ _ _ _ Hpb); [done| |apply weather_of_condition]. by rewrite weather_of_city.
Qed.

(** The service process serves the request. *)
Lemma service_serves es p conn cn chunks city now c e1 :
  let rid := RpcClient.next_request_id_ c in
  let frame := encodeFrame rid kRequest
    (RpcClient.request_metadata (str "weather") (str "GetCurrent") default_options e1) (request_body city) in
  Forall process_event_ok es -> ServiceMain.run service ServiceMain.init es = Some p -> ServiceMain.pc p = ServiceMain.AtWait -> fresh (ServiceMain.net p) conn cn (lenZ frame) ->
  ascii city -> 0 <= now -> now < deadline_unix_ms default_options e1 < 2 ^ 64 ->
  isFrameEncodable (RpcClient.request_metadata (str "weather") (str "GetCurrent") default_options e1) (request_body city) = true ->
  0 <= rid < 2 ^ 64 -> Forall chunk_ok chunks -> concat chunks = frame ->
  exists es' p' cn', Forall (serving now ServiceMain.invoke conn) es' /\
    ServiceMain.run service p (map ServiceMain.Thread (RpcTcp.Readable conn chunks (TcpConnection.ReadFails TcpConnection.EAGAIN) :: es')) = Some p' /\
    RpcTcp.conns (ServiceMain.net p') !! conn = Some cn' /\
    TcpConnection.wire cn' = TcpConnection.wire cn ++ makeResponseFrame rid (service_answer city).
Proof.
  intros rid frame Hes Hrun Hpc Hfresh Hcity Hnow Hdl Henc Hrid Hch Hnet.
  pose proof (run_well service ltac:(done) ltac:(done) es ServiceMain.init p Hes (init_well service) Hrun) as Hwell.
  destruct (well_inv service p Hwell) as [acts Hi]. pose proof (well_known service p Hwell) as Hk.
  destruct Hwell as [Hst _]. unfold stage in Hst. rewrite Hpc in Hst. destruct Hst as ([= _ _ Hh] & _).
  set (msg := call_message rid (str "weather") (str "GetCurrent") (request_body city) default_options e1).
  set (request := call_request rid (str "weather") (str "GetCurrent") (request_body city) default_options e1).
  destruct (tcp_serves_stream (ServiceMain.net p) acts conn cn chunks [msg] [request] now ServiceMain.invoke Hi Hk)
    as (es' & s' & acts' & cn' & Hes' & Hrun' & Hcn' & Hw).
  - by rewrite Hnet.
  - constructor; [by apply call_message_encodable|constructor].
  - constructor; [by apply call_message_is|constructor].
  - done.
  - done.
  - unfold msg. by rewrite Hnet, call_stream.
  - exists es', (ServiceMain.set_net s' p), cn'. split; [done|]. split; [|split; [done|]].
    + eapply run_threads; [|exact Hrun']. constructor; [done|]. eapply Forall_impl; [exact Hes'|].
      intros e [He|He]; destruct e as [[]| | | | | | | |]; try done. by destruct He as [_ ->].
    + rewrite Hw. f_equal. unfold responses_wire. cbn [map concat]. rewrite app_nil_r.
      change (request_id request) with rid. f_equal.
      eapply (worker_answers_call _ _ _ (wire_handler service)); [|by apply service_answers|done|done].
      change (RpcServer.handlers_ (RpcTcp.rpc (ServiceMain.net p))) with (RpcServer.handlers_ (ServiceMain.rpc p)). rewrite Hh. by vm_compute.
Qed.

(** The reply a client of the gateway reads. *)
Definition right_reply (city : bytes) (request : JsonRpcRequest) (reply : bytes) : Prop :=
  if bool_decide (city = []) then
    reply = serializeError (req_id request) ErrorCode.kInvalidParams (str "RPC call failed: city must be non-empty") None
  else
    exists o p result json item item_text p',
      JsonParserImpl.parse reply = Ret (o, p) /\ JsonParserImpl.has_error p = false /\
      member (str "id") o = Some (req_id request) /\ member (str "result") o = Some result /\
      member (str "structuredContent") result = Some json /\ weather_json (weather_of city) json /\
      member (str "content") result = Some (JArray [item]) /\ member (str "text") item = Some (JString item_text) /\
      JsonParserImpl.parse item_text = Ret (json, p') /\ JsonParserImpl.has_error p' = false.

(** A request for the weather of a city. *)
Record weather_request (city : bytes) (request : JsonRpcRequest) : Prop := mkWeatherRequest {
  wr_method : rpc_method request = str "tools/call";
  wr_object : isObject (params request) = true;
  wr_name : member (str "name") (params request) = Some (JString (str "weather.get_current"));
  wr_arguments : member (str "arguments") (params request) = Some (city_argument city);
  wr_id : json_ok (req_id request) = true;
}.

Lemma request_converted city request :
  ascii city -> weather_request city request ->
  McpServer.jsonToProtobuf (McpServer.call_arguments (params request)) (t_request_descriptor weather_tool) = of_value (request_body city).
Proof.
  intros Hc [_ _ _ Ha _]. unfold McpServer.call_arguments. rewrite Ha.
  assert (hasMember (str "arguments") (params request) = true) as -> by (by eapply hasMember_member).
  change (true && isObject (default JNull (Some (city_argument city)))) with true. cbn iota.
  change (default JNull (Some (city_argument city))) with (city_argument city).
  unfold McpServer.jsonToProtobuf. cbn [t_request_descriptor weather_tool].
  destruct (pb_from_json _ _ _ _ Hpb city Hc) as (m & -> & Hs).
  unfold request_body. by rewrite Hs.
Qed.

(** What [call] returns of the service's answers. *)
Lemma delivered_answer city :
  isFrameEncodable (status_metadata (service_answer city)) (res_body (service_answer city)) = true ->
  delivered_result (service_answer city) =
  if bool_decide (city = []) then of_status (mkStatus kInvalidArgument (str "city must be non-empty"))
  else of_value (mkResponse Ok (status_metadata (service_answer city)) (encode_response (weather_of city))).
Proof.
  intros Henc. unfold delivered_result, delivered_status, response_payload. rewrite Henc. cbn [negb fst snd].
  unfold service_answer. case_bool_decide; by vm_compute.
Qed.

Lemma gateway_relays (s : McpServer.Impl client_backend) city request c1 e1 :
  McpServer.session_state s = McpServer.kInitialized ->
  findTool (McpServer.registry s) (str "weather.get_current") = Some weather_tool ->
  ascii city -> weather_request city request ->
  isFrameEncodable (status_metadata (service_answer city)) (res_body (service_answer city)) = true ->
  exchange strerror gai_strerror (b_client (McpServer.rpc_client s)) (str "weather") (str "GetCurrent") (request_body city)
    default_options (b_envs (McpServer.rpc_client s) (b_calls (McpServer.rpc_client s))) c1 e1 (service_answer city) ->
  exists reply b', McpServer.dispatch (H1 := backend) request s = Ret (reply, McpServer.set_client b' s) /\
    right_reply city request reply /\ is_reply (req_id request) reply.
Proof.
  intros Hst Htool Hc Hreq Henc Hex. pose proof (request_converted city request Hc Hreq) as Hconv.
  pose proof Hreq as [Hm Ho Hn _ Hid].
  assert (Hwf : StdMap.map_wf (res_metadata (service_answer city))) by (unfold service_answer; by case_bool_decide).
  destruct (exchange_delivers _ _ _ (str "weather") (str "GetCurrent") _ default_options _ _ _ _
    ltac:(done) ltac:(done) ltac:(done) Hwf Hex) as (c' & e' & Hcall & _). rewrite delivered_answer in Hcall by done.
  set (b' := mkBackend c' (b_envs (McpServer.rpc_client s)) (S (b_calls (McpServer.rpc_client s)))).
  assert (Hback : forall r, RpcClient.call strerror gai_strerror (b_client (McpServer.rpc_client s)) (str "weather") (str "GetCurrent")
      (request_body city) default_options (b_envs (McpServer.rpc_client s) (b_calls (McpServer.rpc_client s))) = Ret (r, c', e') ->
      @backend_call _ backend (McpServer.rpc_client s) (t_service_name weather_tool) (t_method_name weather_tool) (request_body city) = Ret (r, b')).
  { intros r E. cbn [backend_call client_RpcBackend t_service_name t_method_name weather_tool]. unfold client_call. by rewrite E. }
  apply Hback in Hcall. unfold right_reply. case_bool_decide as Hne.
  - eexists _, b'. split; [|split; [reflexivity|by apply is_reply_error]].
    refine (tools_call_rpc_fails (H1 := backend) request s weather_tool (request_body city) _ b' Hst Hm _ _ Hconv Hcall eq_refl).
    + by eapply hasMember_member.
    + by rewrite Hn.
  - destruct (pb_to_json _ _ _ _ Hpb city Hc Hne) as (m & text & r & Hp & Ht & Hr & Hok & Hj).
    destruct (tool_reply_parses (req_id request) (params r) Hid Hok) as (o & p & result & item & text' & p' & H1 & H2 & H3 & H4 & H5 & H6 & H7 & H8 & H9).
    eexists _, b'. split; [|split; [|apply is_reply_result]].
    + refine (tools_call_reply (H1 := backend) request s (str "weather.get_current") weather_tool (request_body city) b' _ (params r)
        Hst Hm Ho Hn Htool Hconv Hcall _ _).
      * cbn [res_metadata]. rewrite status_metadata_code. unfold service_answer. by rewrite bool_decide_false by done.
      * cbn [res_body t_response_descriptor weather_tool]. eapply protobufToJson_parsed; [exact Hp|exact Ht|exact Hr|apply (wj_object _ _ Hj)].
    + exists o, p, result, (params r), item, text', p'.
      exact (conj H1 (conj H2 (conj H3 (conj H4 (conj H5 (conj Hj (conj H6 (conj H7 (conj H8 H9))))))))).
Qed.

End tool_call.

(** * Properties *)

(** C1: a tool call from the gateway's standard input to the weather service
    and back, under Protobuf's formats.  The gateway reads a line that asks for
    the weather of a city; its call's octets arrive, in any pieces, on an idle
    connection of a waiting service process, whose threads then write exactly
    one response frame to the socket; when these octets reach the gateway's
    client, the gateway prints one line: for the empty city the error of the
    service, with the code for invalid parameters, otherwise a result whose
    structured content is the JSON of the reading the service has for the
    city. *)
Theorem weather_tool_call `{!Messages} encode_request parse_request encode_response serialize_response
    strerror gai_strerror es p conn cn chunks now
    (s : McpServer.Impl client_backend) fuel stops line input city request c1 e1 :
  let service := WeatherService.service parse_request serialize_response in
  let client := McpServer.rpc_client s in
  let rid := RpcClient.next_request_id_ c1 in
  let body := encode_request (WeatherService.mkRequest city) in
  let answer := service_answer (encode_response := encode_response) city in
  let frame := encodeFrame rid kRequest
    (RpcClient.request_metadata (str "weather") (str "GetCurrent") default_options e1) body in
  protobuf encode_request parse_request encode_response serialize_response -> ascii city ->
  (* the gateway *)
  McpServer.stopped s = false -> head stops <> Some true -> McpServer.session_state s = McpServer.kInitialized ->
  findTool (McpServer.registry s) (str "weather.get_current") = Some weather_tool ->
  no_lf line -> parseRequest line = Ret (inl request) -> weather_request city request ->
  (* the service *)
  Forall process_event_ok es -> ServiceMain.run service ServiceMain.init es = Some p ->
  ServiceMain.pc p = ServiceMain.AtWait -> fresh (ServiceMain.net p) conn cn (lenZ frame) ->
  0 <= now -> now < deadline_unix_ms default_options e1 < 2 ^ 64 ->
  isFrameEncodable (status_metadata answer) (res_body answer) = true ->
  (* the network *)
  Forall chunk_ok chunks -> concat chunks = frame ->
  exchange strerror gai_strerror (b_client client) (str "weather") (str "GetCurrent") body
    default_options (b_envs client (b_calls client)) c1 e1 answer ->
  (exists es' p' cn', Forall (serving now ServiceMain.invoke conn) es' /\
     ServiceMain.run service p
       (map ServiceMain.Thread (RpcTcp.Readable conn chunks (TcpConnection.ReadFails TcpConnection.EAGAIN) :: es')) = Some p' /\
     RpcTcp.conns (ServiceMain.net p') !! conn = Some cn' /\
     TcpConnection.wire cn' = TcpConnection.wire cn ++ makeResponseFrame rid answer) /\
  (exists reply client',
     McpServer.run_loop (H1 := client_RpcBackend strerror gai_strerror) (S fuel) stops (line ++ x0a :: input) s =
       McpServer.run_loop (H1 := client_RpcBackend strerror gai_strerror) fuel (tail stops) input
         (McpServer.print_out reply (McpServer.set_client client' s)) /\
     no_lf reply /\ right_reply city request reply).
Proof.
  intros service client rid body answer frame Hpb Hcity Hstop Hstops Hsess Htool Hlf Hparse Hreq Hes Hrun Hpc Hfresh
    Hnow Hdl Henc Hch Hnet Hex. split.
  - exact (service_serves Hpb es p conn cn chunks city now c1 e1 Hes Hrun Hpc Hfresh Hcity Hnow Hdl
      (ex_encodable _ _ _ _ _ _ _ _ _ _ _ Hex) (ex_id _ _ _ _ _ _ _ _ _ _ _ Hex) Hch Hnet).
  - destruct (gateway_relays Hpb strerror gai_strerror s city request c1 e1 Hsess Htool Hcity Hreq Henc Hex)
      as (reply & client' & Hd & Hright & Hreply).
    exists reply, client'. destruct (is_reply_line _ _ Hreply) as [Hno Hne]. split; [|split; [exact Hno|exact Hright]].
    rewrite run_loop_line by done. destruct line as [|b line]; [discriminate Hparse|]. rewrite Hparse. cbn [mbind outcome_bind].
    rewrite Hd. cbn [mbind outcome_bind]. by destruct reply.
Qed.

(** C17: the gateway's [main].  With the descriptors of weather.proto it
    registers exactly the one tool of that file, with its schema, and answers
    the lines of its input in order until the input ends, then exits with
    success; when the descriptor of the service is missing it says so, reads
    nothing and exits with failure. *)
Theorem gateway_main_serves_tool `{!Messages} strerror gai_strerror FindServiceByName fuel hi lo envs P stops lines :
  let main := McpGateway.main strerror gai_strerror FindServiceByName WeatherProto.methods (S fuel) hi lo envs stops
    (unlines lines) in
  live (H1 := client_RpcBackend strerror gai_strerror) P -> P (mkBackend (McpGateway.client hi lo) envs 0) ->
  Forall no_lf lines ->
  (FindServiceByName (str "Weather") = Some WeatherProto.Weather ->
   exists n replies s, main = Ret (McpGateway.mkExit McpGateway.EXIT_SUCCESS (unlines (reply_lines replies)) (McpServer.cerr s) (Some s)) /\
     reads_until_stop stops lines n /\ Forall2 (answers answered) (take n lines) replies /\
     McpServer.registry s = weather_registry) /\
  (FindServiceByName (str "Weather") = None ->
   main = Ret (McpGateway.mkExit McpGateway.EXIT_FAILURE [] (str "Failed to load Weather service descriptor" ++ [x0a]) None)).
Proof.
  intros main Hlive HP Hls. unfold main, McpGateway.main. split; intros ->; [|done].
  rewrite gateway_registers. cbn [mbind outcome_bind]. change (ok Ok) with true. cbn [negb].
  set (s0 := McpServer.construct _ _ _ _).
  destruct (run_answers (H1 := client_RpcBackend strerror gai_strerror)
    (fun s => P (McpServer.rpc_client s) /\ McpServer.registry s = weather_registry) (fun _ => True) answered) with (stops := stops) (lines := lines) (s := s0)
    as (n & replies & s' & Hr & Hn & [_ Hreg] & _ & Hans & Hco & _); try done.
  - intros request s HPs _. destruct HPs as [HPs Hreg].
    destruct (dispatch_replies P request s Hlive HPs) as (text & s' & Hd & HP' & Hsame & Hans & _).
    exists text, s'. split; [done|]. split; [split; [done|]|split; [done|split; [done|]]].
    + destruct Hsame as [-> _]. done.
    + unfold answered in Hans. destruct (McpServer.is_method _ _); [subst; by intros ?%elem_of_nil|]. by apply is_reply_line in Hans as [? _].
  - eapply Forall_impl; [exact Hls|]. by intros l Hl.
  - rewrite Hr. cbn [mbind outcome_bind]. exists n, replies, s'. by rewrite Hco.
Qed.

(** * Witnesses *)

(** A format in which a message is its JSON. *)
Definition integral_readings : list Z := [20; 22; 55; 60; 68; 78].

Definition example_number (d : JsonNumber.double) : JsonValue :=
  match list_find (fun n => WeatherService.tenths (10 * n) = d) integral_readings with
  | Some (_, n) => JInteger n
  | None => JDouble d
  end.

Definition response_json (r : WeatherService.GetCurrentResponse) : JsonValue :=
  JObject [(str "city", JString (WeatherService.city r));
           (str "temperatureCelsius", example_number (WeatherService.temperature_celsius r));
           (str "humidityPercent", example_number (WeatherService.humidity_percent r));
           (str "condition", JString (WeatherService.condition r))].

Definition parse_json (text : bytes) : option JsonValue :=
  match JsonParserImpl.parse text with
  | Ret (v, p) => if JsonParserImpl.has_error p then None else Some v
  | _ => None
  end.

Lemma parse_json_serialize v : json_ok v = true -> parse_json (serialize v) = Some v.
Proof. intros Hv. unfold parse_json. destruct (parse_serialized v Hv) as (p & -> & ->). done. Qed.

#[local] Instance json_messages : Messages := {|
  Message := JsonValue;
  JsonStringToMessage _ text := match parse_json text with Some v => inl v | None => inr (str "not JSON") end;
  SerializeToString v := Some (serialize v);
  ParseFromString _ octets := parse_json octets;
  MessageToJsonString v := inl (serialize v);
|}.

Definition encode_request (r : WeatherService.GetCurrentRequest) : bytes :=
  serialize (city_argument (WeatherService.request_city r)).
Definition parse_request (octets : bytes) : option WeatherService.GetCurrentRequest :=
  match parse_json octets with
  | Some v => match member (str "city") v with Some (JString city) => Some (WeatherService.mkRequest city) | _ => None end
  | None => None
  end.
Definition encode_response (r : WeatherService.GetCurrentResponse) : bytes := serialize (response_json r).

Lemma response_json_ok city :
  json_ok (response_json (weather_of city)) = true /\ weather_json (weather_of city) (response_json (weather_of city)).
Proof.
  unfold weather_of. cbn [find_reading database]. repeat case_bool_decide;
    (split; [by vm_compute|]; constructor; try done; eexists; (split; [vm_compute; reflexivity|]);
     first [by left|right; by eexists; split; vm_compute]).
Qed.

Lemma json_protobuf : protobuf encode_request parse_request encode_response (fun r => Some (encode_response r)).
Proof.
  constructor; cbn [JsonStringToMessage SerializeToString ParseFromString MessageToJsonString json_messages].
  - intros city _. exists (city_argument city). by rewrite parse_json_serialize.
  - intros city _. unfold parse_request, encode_request. by rewrite parse_json_serialize.
  - done.
  - intros city _ _. destruct (response_json_ok city) as [Hok Hj]. unfold encode_response.
    eexists _, _, _. split; [by apply parse_json_serialize|]. split; [done|].
    split; [apply parse_wrapped; [done|exact Hok]|]. by split.
Qed.

Definition london : bytes := str "London".

Definition london_request : JsonRpcRequest :=
  mkRpcRequest (str "tools/call") (JInteger 7)
    (JObject [(str "name", JString (str "weather.get_current")); (str "arguments", city_argument london)]).
Definition london_line : bytes := serialize (request_object london_request).

Definition london_answer : RpcResponse := service_answer (encode_response := encode_response) london.

(** The client's system calls: it connects, sends everything at once, and gets
    the header and the rest in two pieces. *)
Definition london_env (ss : list RpcClient.send_result) (ps : list (Z * (Z -> RpcClient.poll_result))) : RpcClient.env :=
  RpcClient.mkEnv 0 1000000000000 (RpcClient.GaiAddresses [RpcClient.mkAttempt 3 (Some RpcClient.EINPROGRESS) (Some 0)])
    ss [RpcClient.RecvOctets (response_header_bytes 41 london_answer); RpcClient.RecvOctets (response_payload_bytes london_answer)]
    ps [] [] [].

Definition london_frame : bytes :=
  encodeFrame 41 kRequest (RpcClient.request_metadata (str "weather") (str "GetCurrent") default_options (london_env [] []))
    (encode_request (WeatherService.mkRequest london)).

Definition london_start : RpcClient.env := london_env [RpcClient.SendCount (lenZ london_frame)] [writable_poll].
Definition london_connected : RpcClient.env := london_env [RpcClient.SendCount (lenZ london_frame)] [].

Definition london_gateway : McpServer.Impl client_backend :=
  McpServer.set_state McpServer.kInitialized
    (McpServer.construct (mkBackend (McpGateway.client 0 41) (fun _ => london_start) 0) weather_registry
       (str "NexusRPC Weather Gateway") (str "0.1.0")).

Lemma london_exchange :
  exchange no_text no_text (McpGateway.client 0 41) (str "weather") (str "GetCurrent")
    (encode_request (WeatherService.mkRequest london)) default_options london_start
    (RpcClient.set_fd 3 (McpGateway.client 0 41)) london_connected london_answer.
Proof.
  constructor; [reflexivity|vm_compute; reflexivity|split; vm_compute; congruence|].
  exists [RpcClient.SendCount (lenZ london_frame)], [RpcClient.RecvOctets (response_header_bytes 41 london_answer)],
    [RpcClient.RecvOctets (response_payload_bytes london_answer)], [], [], [], [], [], [].
  split; [|split; [|split; [|done]]].
  - constructor; [split; vm_compute; congruence|]. vm_compute. constructor.
  - apply recv_whole. vm_compute. congruence.
  - apply recv_whole. vm_compute. congruence.
Qed.

(** The service with one connection open. *)
Definition weather_service : ServiceMain.Service :=
  WeatherService.service parse_request (fun r => Some (encode_response r)).
Definition weather_events : list ServiceMain.event :=
  [ServiceMain.Main Ok; ServiceMain.Main Ok;
   ServiceMain.Thread (RpcTcp.Connect 5 7 TcpConnectionFacts.example_buffer open_kernel None)].
Definition weather_process : ServiceMain.Process :=
  default ServiceMain.init (ServiceMain.run weather_service ServiceMain.init weather_events).
Definition weather_conn : TcpConnection.t :=
  default (TcpConnection.construct 0 TcpConnectionFacts.example_buffer 0 open_kernel None)
    (RpcTcp.conns (ServiceMain.net weather_process) !! 5%nat).

Lemma some_default {A} (d : A) o : bool_decide (is_Some o) = true -> o = Some (default d o).
Proof. by destruct o. Qed.

Lemma weather_events_ok : Forall process_event_ok weather_events.
Proof. by repeat constructor; try exact example_buffer_wf. Qed.

Lemma weather_run : ServiceMain.run weather_service ServiceMain.init weather_events = Some weather_process.
Proof. apply some_default. vm_compute. reflexivity. Qed.

Lemma weather_fresh : fresh (ServiceMain.net weather_process) 5 weather_conn (lenZ london_frame).
Proof.
  assert (Hc : RpcTcp.conns (ServiceMain.net weather_process) !! 5%nat = Some weather_conn)
    by (apply some_default; vm_compute; reflexivity).
  destruct (well_inv _ _ (run_well weather_service ltac:(done) ltac:(done) _ _ _ weather_events_ok (init_well _) weather_run)) as [acts Hi].
  pose proof (ok_wf _ _ (ti_conns _ _ Hi _ _ Hc)) as Hwf.
  constructor; [exact Hc| |vm_compute; reflexivity| | |vm_compute; reflexivity..].
  - constructor; [vm_compute; reflexivity|vm_compute; reflexivity|exact Hwf|].
    intros i. exists (proj1_sig room). split; [reflexivity|exact (proj2_sig room)].
  - split; [exact example_buffer_wf|]. split; [vm_compute; reflexivity|vm_compute; congruence].
  - exists 0%nat, (RpcServer.mkState FrameParser.init 0). split_and!; vm_compute; reflexivity.
Qed.

Lemma weather_tool_call_witness :
  let chunks := [take 30 london_frame; drop 30 london_frame] in
  (exists es' p' cn', Forall (serving 17 ServiceMain.invoke 5) es' /\
     ServiceMain.run weather_service weather_process
       (map ServiceMain.Thread (RpcTcp.Readable 5 chunks (TcpConnection.ReadFails TcpConnection.EAGAIN) :: es')) = Some p' /\
     RpcTcp.conns (ServiceMain.net p') !! 5%nat = Some cn' /\
     TcpConnection.wire cn' = TcpConnection.wire weather_conn ++ makeResponseFrame 41 london_answer) /\
  (exists reply client',
     McpServer.run_loop (H1 := client_RpcBackend no_text no_text) 1 [] (london_line ++ [x0a]) london_gateway =
       McpServer.run_loop (H1 := client_RpcBackend no_text no_text) 0 [] []
         (McpServer.print_out reply (McpServer.set_client client' london_gateway)) /\
     no_lf reply /\ right_reply london london_request reply).
Proof.
  apply (weather_tool_call encode_request parse_request encode_response (fun r => Some (encode_response r))
    no_text no_text weather_events weather_process 5 weather_conn [take 30 london_frame; drop 30 london_frame] 17
    london_gateway 0 [] london_line [] london london_request
    (RpcClient.set_fd 3 (McpGateway.client 0 41)) london_connected).
  - exact json_protobuf.
  - apply (bool_decide_unpack _); vm_compute; reflexivity.
  - reflexivity.
  - discriminate.
  - reflexivity.
  - vm_compute; reflexivity.
  - apply serialize_no_lf.
  - vm_compute; reflexivity.
  - constructor; vm_compute; reflexivity.
  - exact weather_events_ok.
  - exact weather_run.
  - vm_compute; reflexivity.
  - exact weather_fresh.
  - lia.
  - split; vm_compute; reflexivity.
  - vm_compute; reflexivity.
  - repeat constructor; vm_compute; congruence.
  - vm_compute; reflexivity.
  - exact london_exchange.
Defined.

(** Nobody listens: the gateway's name does not resolve. *)
Definition is_refused (b : client_backend) : Prop :=
  b_client b = McpGateway.client 0 7 /\ forall i, b_envs b i = down_env.

Lemma refused_live : live (H1 := client_RpcBackend no_text no_text) is_refused.
Proof.
  intros [c envs n] service method body [Hc He]. cbn in Hc, He. subst c.
  cbn [backend_call client_RpcBackend]. unfold client_call. cbn [b_client b_envs b_calls].
  rewrite He. unfold RpcClient.call.
  destruct (_ || _); [by eexists _, _|]. change (RpcClient.deadline default_options <=? 0) with false. cbn iota.
  unfold RpcClient.ensureConnected. change (0 <=? RpcClient.fd_ (McpGateway.client 0 7)) with false. cbn iota.
  rewrite (bool_decide_false (RpcClient.host (McpGateway.client 0 7) = [])) by done. by eexists _, _.
Qed.

Lemma gateway_main_serves_tool_witness :
  exists n replies s,
    McpGateway.main no_text no_text WeatherProto.FindServiceByName WeatherProto.methods 1 0 7 (fun _ => down_env) []
      (unlines gateway_lines) =
      Ret (McpGateway.mkExit McpGateway.EXIT_SUCCESS (unlines (reply_lines replies)) (McpServer.cerr s) (Some s)) /\
    reads_until_stop [] gateway_lines n /\ Forall2 (answers answered) (take n gateway_lines) replies /\
    McpServer.registry s = weather_registry.
Proof.
  refine (proj1 (gateway_main_serves_tool no_text no_text WeatherProto.FindServiceByName 0 0 7 (fun _ => down_env)
    is_refused [] gateway_lines _ _ _) _).
  - exact refused_live.
  - by split.
  - exact gateway_lines_no_lf.
  - vm_compute; reflexivity.
Defined.
